(* ===== verification/_CoqProject ===== *)
-Q . S2P
Prelude.v
GoBase.v
Encoding.v
Job.v
NetAddr.v
Redis.v
Queue.v
QueueInv.v
Ratelimit.v
Db.v
Partitions.v
Storage.v
Tenants.v
Schedules.v
Stats.v
World.v
Webhook.v
Telemetry.v
Worker.v
Scheduler.v
Api.v
Admin.v
Server.v
Cli.v
Process.v
WorkerLife.v
Election.v
Main.v
CliMain.v
Loadtest.v
Testutil.v
Migrations.v
StorageFacts.v
SchedulerFacts.v
CliFacts.v
RetentionFacts.v
Lifecycle.v
Claims.v
Heartbeat.v
TelemetryFacts.v
ClaimLimit.v
Integrity.v
MigrationFacts.v
Scenario.v
CronFacts.v
ScheduleFacts.v
WorkerFacts.v
WorkerDrain.v
ApiFacts.v
Demo.v
ServerFacts.v
Dashboard.v
DashboardFacts.v
EndToEnd.v
Recovery.v
Completion.v
Programs.v
QueuePrograms.v
Samples.v
Runs.v
Lives.v
Crashes.v
Screens.v
