(* ===== verification/Prelude.v ===== *)
(** * Sluice: a verification library for a durable job scheduler

    Sluice (src/) takes jobs over HTTP, keeps them in Postgres, queues them in Redis and
    has workers deliver them as webhooks. Three kinds of process share the stores: the
    API server (internal/api), the scheduler (internal/scheduler), of which the one that
    holds an etcd lease (internal/leader) runs its loops, and the workers
    (internal/worker). internal/job has the domain types, internal/queue the Redis
    queues, internal/storage the SQL, internal/ratelimit the token bucket;
    cmd/sluice starts a process and cmd/sluice-cli is the operators' tool;
    internal/telemetry and internal/metrics carry traces and counters; migrations/ makes
    the tables; scripts/ and internal/testutil load and test an installation; web/ is a
    dashboard in the browser, a client of the API. Postgres is the source of truth: Redis may lose anything, any call may fail before or after it
    took effect, and two schedulers may lead at once.

    ** How the model is built

    Values. Integers are [Z] at Go's and Postgres' widths, with the wrap-around or the
    overflow error written out ([GoBase]); instants are nanoseconds, cut to microseconds
    where Postgres stores them; a uuid is a number with its text a parameter. Tables are
    [gmap]s of rows, Redis is a [gmap] of lists, strings and hashes with expiry.

    Calls. One SQL statement or transaction is a [stmt], a function from tables to new
    tables and a result; [exec] runs it under a [fault]: none, request lost, or reply
    lost after it took effect. Row orders that SQL leaves open are chosen by a [plan], any
    permutation. A Lua script is a [script] over the keyspace.

    Programs. A handler, a scheduler pass or a worker's turn is a [prog] over the shared
    [world] ([World]). It reads one [turn] of an oracle per remote call: what other
    processes did just before, the fault, both clocks, fresh identifiers, random bytes.
    A theorem about every oracle is a theorem about every interleaving and failure.

    Code not under src/ is a parameter, as a type class: [UuidText] (google/uuid),
    [InputLib] (encoding/json, net/url), [PgText] (jsonb and text input), [CronLib]
    (robfig/cron), [HttpLib] (net/http), [LuaNum] with [LuaAccuracy] (binary64 and its
    printing in Redis' Lua), [SessionZone] (midnight in the session's time zone), [Bodies]
    and [Chi] (request decoding and routing), [TlsFiles], [TraceContext] with its laws (W3C
    traceparents), [PgxPool] and [RedisURL] (connection strings), [DemoJson] (the demo's
    payloads). [Samples], [Runs] and [Lives] instantiate all but the last three;
    they, [Crashes] and [Screens] apply theorems to concrete data.

    Goroutines that share contexts and channels are a transition system of their own: each
    is a program counter in one state and an action is one move of one of them
    ([WorkerLife], [Loadtest]). What only happens at certain times is a relation between
    durations and events ([Heartbeat]).

    ** Files

    Foundations. [Prelude]: results, faults, tactics, hints, lemmas on lists and maps.
    [GoBase]: Go integers, durations, uuids. [Encoding]: SHA-256, HMAC, base64, hex.
    [Redis]: the commands. [Db]: tables, statements, faults.

    Components. [Job] (job.go, template.go), [NetAddr] (isPublicAddr), [Queue]
    (queue.go), [Ratelimit] (ratelimit.go), [Storage] (storage.go on jobs, retention.go,
    force-fail), [Partitions] (partitions of job_runs), [Tenants], [Schedules], [Stats]
    (the rest of storage.go), [Webhook] (webhook.go), [Worker] (worker.go, Queue.Pop),
    [Scheduler] (scheduler.go), [Api] (handler.go, schedule_handler.go, tenant_cache.go),
    [Admin] (admin_handler.go, stats_handler.go), [Server] (server.go, middleware.go,
    ws_handler.go), [Cli] and [CliMain] (cmd/sluice-cli), [Process] (the configuration of
    cmd/sluice, TLS settings of leader.go, Scheduler.Run and its loops, the goroutines of Worker.Run),
    [Telemetry] (telemetry.go, tenant.go, metrics.go, the correlation, CORS and metrics
    middleware), [WorkerLife] (New, Run, loop, Reload, Shutdown of worker.go), [Election]
    (Campaign, resign and the calls of Scheduler.Run), [Main] (main and its three roles),
    [Migrations] (migrations/*.sql, and the columns each statement of the program names),
    [Testutil], [Loadtest] and [Demo] (internal/testutil, scripts/), [Dashboard]
    (web/lib/auth.tsx, api.ts and ws.ts, the history of web/app/page.tsx, the retries
    page): a tab of the browser with its storage and its session, whose calls go to
    [serve] of [Server], and the live connection as a transition system over the events
    of the browser. Definitions keep the names of the source.

    Theorems.
    - [Lifecycle], [Claims], [Integrity]: the storage calls as one transition system in
      which any client makes any call under any fault. Every reachable state refines the
      documented job lifecycle; a claim that lost its job can change nothing any more; at
      most one claim owns a job; a job is executed at most max_retries + 1 times per
      submission or replay; runs, dead letters and idempotency keys are consistent.
    - [Programs]: every call of the API server, the leader's loops, the workers and the
      command line tool is a step of that system, so those theorems hold of the processes.
      [QueuePrograms] does the same for their calls on Redis and the queue invariant.
    - [ClaimLimit]: the statements of TryClaimLimited interleaved; the concurrency cap
      holds and the transaction is atomic.
    - [QueueInv], and the end of [Queue]: the queue as a transition system; a marker
      implies an entry, an enqueue leaves the job queued, pops lose nothing and follow
      priority, dead workers' entries come back.
    - [StorageFacts], [SchedulerFacts], [RetentionFacts], [CronFacts]: what single calls
      and whole passes do, with termination; one job per cron occurrence; what retention
      keeps.
    - [WorkerFacts], [WorkerDrain], [EndToEnd]: an outcome is recorded once; a worker
      empties its lanes; a submitted job is executed.
    - [Recovery], [Completion]: the leader's loops and a worker together. From any
      well-formed store, whatever crashes left in Redis and whoever held the claims, one
      tick of each recovery loop, in any order, and the turns of one worker execute every
      job that was due, overdue or held by a lapsed claim ([placed] and [good] say what
      well formed means; both are kept). Rounds of this kind, far enough apart for the
      longest backoff, bring every such job to a terminal state in as many rounds as it
      has attempts left.
    - [ApiFacts], [ServerFacts]: idempotent submission, cache staleness, complete
      mediation, tenant isolation, administration of tenants.
    - [DashboardFacts]: the live page has one connection or one timer and leaves none
      behind; the attempts shown are those used; what blocked storage and an outage of
      Postgres do to a session; the window of the chart.
    - [CliFacts], [CliMain]: the usage text lists the commands there are; drain is exact
      and the reconciler rebuilds what it removed.
    - [Ratelimit], [Job], [NetAddr], [Webhook], [Tenants]: the rate bound, backoff and
      validation, the address policy, signatures, key rotation.
    - [WorkerLife], [Heartbeat]: a worker drains and shuts down in bounded time without
      interrupting a job early; its heartbeats keep its claim from the reaper, and when
      they do not.
    - [TelemetryFacts]: one trace from submission to every attempt, what a handler finds
      in its context, labels that fit their metrics, what the counters count.
    - [Election], [Main]: sessions are given back; how a process starts and ends.
    - [MigrationFacts]: rows and statements fit the catalogue; a fresh installation accepts
      no key; keys survive the upgrade; a rollback goes through, and what it does to keys.
    - [ScheduleFacts]: schedules without occurrences, edits that meet the scheduler.
    - [Loadtest], [Testutil], [Demo]: what the verdict of a load test means, percentiles,
      the clean-up of a test tenant, the jobs of the demo.
    - [Scenario], [Samples], [Runs], [Lives], [Crashes], [Screens]: concrete tables, runs,
      lives, wreckage and browser sessions.

    ** Bounds

    Loops the source bounds by a constant recurse on it: 20 batches of a release, eleven
    turns of the reconciler (each full page adds 500 of 5000), nine retries of a recorded
    outcome ([retry_attempts_enough]: their waits exceed the ten seconds of the context).
    The loops over batches of dead letters and of pruned rows take fuel and report running
    out; [promoteDeadJobs_drains] gives an amount that suffices, and the retention theorem
    holds for any. A worker's loop takes the number of its turns, a leader's loop of its
    ticks, a websocket of its seconds; the shuffle needs as many rounds as there are
    tenants. Polling a test condition takes as many rounds as fit its timeout
    ([Eventually_ends]), and so does the load test's wait for the rest
    ([wait_all_ends]). The demo's loop runs over a list of the cases its select takes. The waits of Pop are bounded by an argument and [PopWaiting] says when it ran
    out; theorems on a quiet stretch never wait.

    ** Not modelled

    The etcd client (its answers to a campaign are an argument), connection pools beyond
    their size and TLS handshakes, the HTTP transport, redirects and timeouts of a request
    under way (a request has an outcome), the websocket protocol, the exporting of metrics
    and traces, the sinks of logs, the texts printed by the command line tool. Signals are
    the actions that end a context. SQL isolation inside one statement is the snapshot
    the statement sees, with rows locked by others given by the turn; [ClaimLimit] and
    two theorems of [StorageFacts] treat the interleavings that matter inside
    transactions. The catalogue of [Migrations] has columns without their types: widths
    and text are checked where the storage functions write. Of the demo and of
    the command line tool, the parsing of flags is an input, and so are the random waits
    of the demo. Of the dashboard, markup and styling, the cache of TanStack Query, the
    proxy of its server, and the pages of runs and of dead letters, which list what the API
    returns, are not part of the development; nor are the shell scripts and the Helm
    chart. What is left of the Go sources is imports, struct declarations without logic
    and one-line wrappers of library calls. *)

From stdpp Require Export base tactics numbers list gmap strings sorting.
From Stdlib Require Export ZArith Lia Ascii.

(** ** Results of fallible operations

    Go functions that return [(T, error)] return a [result]: [Ok] is a nil
    error, [Err] carries which error it was. *)
Inductive result (E A : Type) : Type :=
| Ok (a : A)
| Err (e : E).
Arguments Ok {E A} a.
Arguments Err {E A} e.

Definition result_bind {E A B} (c : result E A) (k : A → result E B) : result E B :=
  match c with Ok a => k a | Err e => Err e end.

(** The fault a remote call to Postgres or Redis can meet: none; the request
    never took effect; or it took effect but the caller saw an error (the
    connection broke, or the context ended, before the reply arrived). *)
Inductive fault := NoFault | LostRequest | LostReply.

#[export] Instance fault_eq_dec : EqDecision fault.
Proof. solve_decision. Defined.

Declare Scope sluice_scope.
Delimit Scope sluice_scope with sluice.
Notation "'let?' x := c 'in' k" := (result_bind c (λ x, k))
  (at level 10, x pattern, c at level 100, k at level 200,
   format "'[v' 'let?'  x  :=  c  'in' '/' k ']'") : sluice_scope.

Create HintDb sluice.

(** ** Tactics *)

(** Case on every integer comparison the code makes and reflect it. *)
Ltac zcases :=
  repeat match goal with
  | |- context [Z.ltb ?a ?b] => destruct (Z.ltb_spec a b)
  | |- context [Z.leb ?a ?b] => destruct (Z.leb_spec a b)
  | |- context [Z.eqb ?a ?b] => destruct (Z.eqb_spec a b)
  | H : context [Z.ltb ?a ?b] |- _ => destruct (Z.ltb_spec a b)
  | H : context [Z.leb ?a ?b] |- _ => destruct (Z.leb_spec a b)
  | H : context [Z.eqb ?a ?b] |- _ => destruct (Z.eqb_spec a b)
  end.

(** Turn boolean conjunctions and comparisons in the context into
    propositions. *)
Ltac bool_to_prop :=
  repeat match goal with
  | H : (_ && _)%bool = true |- _ => apply andb_true_iff in H; destruct H
  | H : (_ || _)%bool = false |- _ => apply orb_false_iff in H; destruct H
  | H : negb _ = true |- _ => apply negb_true_iff in H
  | H : negb _ = false |- _ => apply negb_false_iff in H
  | H : (_ <? _)%Z = true |- _ => apply Z.ltb_lt in H
  | H : (_ <? _)%Z = false |- _ => apply Z.ltb_ge in H
  | H : (_ <=? _)%Z = true |- _ => apply Z.leb_le in H
  | H : (_ <=? _)%Z = false |- _ => apply Z.leb_gt in H
  | H : (_ =? _)%Z = true |- _ => apply Z.eqb_eq in H
  | H : (_ =? _)%Z = false |- _ => apply Z.eqb_neq in H
  | H : bool_decide _ = true |- _ => apply bool_decide_eq_true_1 in H
  | H : bool_decide _ = false |- _ => apply bool_decide_eq_false_1 in H
  end.

(** ** Lists *)

Lemma elem_of_take_in {A} n (l : list A) x : x ∈ take n l → x ∈ l.
Proof. intros Hx. rewrite <- (take_drop n l). apply elem_of_app. by left. Qed.

Lemma elem_of_drop_in {A} n (l : list A) x : x ∈ drop n l → x ∈ l.
Proof. intros Hx. rewrite <- (take_drop n l). apply elem_of_app. by right. Qed.

Lemma NoDup_fmap_filter {A B} (g : A → B) (P : A → Prop) `{!∀ x, Decision (P x)} l :
  NoDup (g <$> l) → NoDup (g <$> filter P l).
Proof.
  induction l as [|x l IH]; [done|]. rewrite fmap_cons, NoDup_cons. intros [Hx Hl].
  rewrite filter_cons. destruct (decide (P x)); [|by apply IH]. rewrite fmap_cons, NoDup_cons.
  split; [|by apply IH]. intros (y&Hy&Hin)%list_elem_of_fmap. apply Hx.
  apply list_elem_of_fmap. exists y. split; [done|]. by apply list_elem_of_filter in Hin as [_ ?].
Qed.

(** A list sorted by a strict order is determined by its elements. *)
Lemma strict_sorted_perm {A} (R : A → A → Prop) (l1 l2 : list A) :
  (∀ x, ¬ R x x) → (∀ x y z, R x y → R y z → R x z) →
  StronglySorted R l1 → StronglySorted R l2 → l1 ≡ₚ l2 → l1 = l2.
Proof.
  intros Hirr Htr Hs1. revert l2. induction Hs1 as [|x l1 Hs1 IH Hx]; intros l2 Hs2 Hp.
  - by apply Permutation_nil_l.
  - destruct Hs2 as [|y l2 Hs2 Hy]; [by symmetry in Hp; apply Permutation_nil_l in Hp|].
    rewrite Forall_forall in Hx, Hy.
    assert (x ∈ y :: l2) as [->|Hin]%elem_of_cons by (rewrite <- Hp; by left).
    { f_equal. apply IH; [done|]. by eapply Permutation_cons_inv. }
    assert (y ∈ x :: l1) as [->|Hyx]%elem_of_cons by (rewrite Hp; by left).
    + by destruct (Hirr x); apply Hy.
    + destruct (Hirr x). eapply Htr; [by apply Hx|by apply Hy].
Qed.
