(* ===== verification/GoBase.v ===== *)
(** * The parts of Go and of Postgres' scalar types the code computes with

    Machine integers with their wrap-around, [time.Duration] and instants,
    [float64] multiplication (with Rocq's own specification of binary64, so
    that rounding is computed and not idealised), [rand.Intn], UUIDs and
    their text form. *)

From S2P Require Import Prelude.
From Stdlib Require Import SpecFloat.

Local Open Scope Z_scope.

(** ** Machine integers *)

(** Go's [int] and [int64] on 64-bit targets: two's complement wrap-around. *)
Definition int64 (z : Z) : Z := (z + 2 ^ 63) mod 2 ^ 64 - 2 ^ 63.

Definition in_int64 (z : Z) : Prop := - 2 ^ 63 <= z < 2 ^ 63.

(** Postgres' [int4]: arithmetic and casts outside the range raise
    "integer out of range" and abort the statement. *)
Definition pg_int4 (z : Z) : option Z :=
  if (- 2 ^ 31 <=? z) && (z <? 2 ^ 31) then Some z else None.

Lemma int64_id z : in_int64 z → int64 z = z.
Proof.
  unfold in_int64, int64. intros. rewrite Z.mod_small; lia.
Qed.

Lemma int64_range z : in_int64 (int64 z).
Proof.
  unfold in_int64, int64.
  pose proof (Z.mod_pos_bound (z + 2 ^ 63) (2 ^ 64) ltac:(lia)). lia.
Qed.

Lemma pg_int4_Some z : - 2 ^ 31 <= z < 2 ^ 31 → pg_int4 z = Some z.
Proof. unfold pg_int4. intros. zcases; simpl; lia || done. Qed.

Lemma pg_int4_inv z a : pg_int4 z = Some a → a = z ∧ - 2 ^ 31 <= z < 2 ^ 31.
Proof. unfold pg_int4. destruct (_ && _) eqn:Hb; [|done]. intros [= <-]. bool_to_prop. done. Qed.

#[export] Hint Resolve int64_range : sluice.

(** ** Durations and instants

    A [time.Duration] is an [int64] count of nanoseconds. An instant
    ([time.Time]) is the nanoseconds since the Unix epoch; Go's [Time] covers
    about 292 billion years, so its range is not modelled. *)
Definition Millisecond : Z := 1000000.
Definition Second : Z := 1000000000.
Definition Minute : Z := 60 * Second.
Definition Hour : Z := 60 * Minute.

(** [time.Duration(n) * time.Second]. *)
Definition seconds (n : Z) : Z := int64 (n * Second).

(** A [time.Time] sent to a [timestamptz] column: Postgres keeps
    microseconds. *)
Definition pg_ts (t : Z) : Z := t / 1000 * 1000.

Lemma pg_ts_le t : pg_ts t <= t.
Proof. unfold pg_ts. pose proof (Z.mul_div_le t 1000 ltac:(lia)). lia. Qed.

Lemma pg_ts_mono t u : t <= u → pg_ts t <= pg_ts u.
Proof. unfold pg_ts. intros. apply Z.mul_le_mono_nonneg_r, Z.div_le_mono; lia. Qed.

Lemma seconds_id n : 0 <= n <= 9223372036 → seconds n = n * Second.
Proof. intros. apply int64_id. unfold in_int64, Second. lia. Qed.

(** ** float64 *)

(** [float64(z)] for an [int] [z], and [int(f)], which truncates towards
    zero. (For an infinity or a NaN the conversion is implementation-defined
    in Go; it is 0 here and no caller reaches it.) *)
Definition float64_of_int (z : Z) : spec_float := binary_normalize 53 1024 z 0 false.

Definition int_of_float64 (f : spec_float) : Z :=
  match f with
  | S754_finite s m e =>
      let a := if 0 <=? e then Z.pos m * 2 ^ e else Z.pos m / 2 ^ (- e) in
      if s then - a else a
  | _ => 0
  end.

(** The binary64 value of the literal [0.2]: 7205759403792794 * 2^-55. *)
Definition float64_0_2 : spec_float := S754_finite false 7205759403792794 (-55).

Definition float64_mul : spec_float → spec_float → spec_float := SFmul 53 1024.

(** ** Random numbers

    [rand.Intn(n)] returns a value in [[0, n)] and panics when [n <= 0]. The
    generator is an argument [rnd] of the code that draws; what it relies on is
    [Intn_ok]. *)
Definition Intn_ok (rnd : Z → Z) : Prop := ∀ n, 0 < n → 0 <= rnd n < n.

(** ** UUIDs

    A [uuid.UUID] is 16 bytes, read here as a big-endian number; Postgres
    orders UUIDs the same way. The text form comes from github.com/google/uuid,
    a dependency: its two functions are parameters with their documented
    behaviour. *)
Abbreviation uuid := N (only parsing).

Definition uuid_Nil : uuid := 0%N.

Definition uuid_valid (u : uuid) : Prop := (u < 2 ^ 128)%N.

(** ** Strings *)

(** [strings.TrimPrefix]. *)
Definition TrimPrefix (p s : string) : string :=
  if String.prefix p s
  then String.substring (String.length p) (String.length s - String.length p) s
  else s.

Lemma substring_all s : String.substring 0 (String.length s) s = s.
Proof. induction s as [|c s IH]; cbn; [done|]. by rewrite IH. Qed.

Lemma prefix_app p s : String.prefix p (p +:+ s) = true.
Proof.
  induction p as [|c p IH]; [by destruct s|].
  change (String c p +:+ s) with (String c (p +:+ s)). cbn. by destruct (ascii_dec c c).
Qed.

Lemma TrimPrefix_app p s : TrimPrefix p (p +:+ s) = s.
Proof.
  unfold TrimPrefix. rewrite prefix_app.
  assert (String.length (p +:+ s) - String.length p = String.length s)%nat as ->.
  { induction p as [|c p IH]; [apply Nat.sub_0_r|].
    change (String c p +:+ s) with (String c (p +:+ s)). cbn. done. }
  induction p as [|c p IH]; [apply substring_all|].
  change (String c p +:+ s) with (String c (p +:+ s)). cbn. done.
Qed.

(** Whether character [c] occurs in a string. *)
Fixpoint has_char (c : Ascii.ascii) (s : string) : bool :=
  match s with
  | EmptyString => false
  | String d s' => Ascii.eqb c d || has_char c s'
  end.

Class UuidText := {
  uuid_String : uuid → string;
  uuid_Parse : string → option uuid;
  uuid_Parse_String u : uuid_valid u → uuid_Parse (uuid_String u) = Some u;
  uuid_String_no_colon u : has_char ":"%char (uuid_String u) = false;
}.

Section uuid_text.
Context `{!UuidText}.

Lemma uuid_String_inj u v :
  uuid_valid u → uuid_valid v → uuid_String u = uuid_String v → u = v.
Proof.
  intros Hu Hv Heq. apply (f_equal uuid_Parse) in Heq.
  rewrite !uuid_Parse_String in Heq by done. by injection Heq.
Qed.
End uuid_text.

(** ** A concrete text form

    Lower-case hexadecimal with hyphens after digits 8, 12, 16 and 20, and a
    parser that skips hyphens. It shows that the laws of [UuidText] can hold and
    is what closed examples compute with. *)
Module HexUuid.

Definition hex_digit (n : N) : Ascii.ascii :=
  Ascii.ascii_of_N (if (n <? 10)%N then 48 + n else 87 + n)%N.

Definition hex_value (c : Ascii.ascii) : option N :=
  let n := Ascii.N_of_ascii c in
  if ((48 <=? n) && (n <=? 57))%N then Some (n - 48)%N
  else if ((97 <=? n) && (n <=? 102))%N then Some (n - 87)%N
  else None.

(** The low [k] hexadecimal digits of [u], most significant first, followed by
    [acc]. *)
Fixpoint digits (k : nat) (u : N) (acc : string) : string :=
  match k with
  | O => acc
  | S k' =>
      let acc' := String (hex_digit (u mod 16)) acc in
      digits k' (u / 16)
        (if bool_decide (k ∈ [9; 13; 17; 21])%nat then String "-"%char acc' else acc')
  end.

Definition to_string (u : N) : string := digits 32 u EmptyString.

Fixpoint value (acc : N) (s : string) : option N :=
  match s with
  | EmptyString => Some acc
  | String c s' =>
      if Ascii.eqb c "-"%char then value acc s'
      else match hex_value c with
           | Some d => value (16 * acc + d)%N s'
           | None => None
           end
  end.

Definition of_string (s : string) : option N := value 0 s.

Lemma below_16 (P : N → Prop) `{!∀ n, Decision (P n)} :
  forallb (λ n, bool_decide (P n)) (N.of_nat <$> seq 0 16) = true → ∀ n, (n < 16)%N → P n.
Proof.
  intros HP n Hn. rewrite forallb_forall in HP.
  eapply bool_decide_eq_true_1, HP, list_elem_of_In, list_elem_of_fmap.
  exists (N.to_nat n). split; [lia|]. apply elem_of_seq. lia.
Qed.

Lemma hex_value_digit n : (n < 16)%N → hex_value (hex_digit n) = Some n.
Proof. apply (below_16 (λ i, hex_value (hex_digit i) = Some i)). reflexivity. Qed.

Lemma hex_digit_plain n :
  (n < 16)%N → Ascii.eqb (hex_digit n) "-" = false ∧ Ascii.eqb ":" (hex_digit n) = false.
Proof.
  apply (below_16 (λ i, Ascii.eqb (hex_digit i) "-" = false ∧ Ascii.eqb ":" (hex_digit i) = false)).
  reflexivity.
Qed.

Lemma value_digits k : ∀ u acc a,
  value a (digits k u acc) = value (a * 16 ^ N.of_nat k + u mod 16 ^ N.of_nat k)%N acc.
Proof.
  induction k as [|k IH]; intros u acc a; cbn [digits].
  - simpl. f_equal. rewrite N.mod_1_r. lia.
  - rewrite IH. clear IH.
    assert (16 ^ N.of_nat (S k) = 16 * 16 ^ N.of_nat k)%N as ->
      by (rewrite Nat2N.inj_succ, N.pow_succ_r'; lia).
    pose proof (N.mod_upper_bound u 16 ltac:(lia)) as Hm.
    assert (∀ b, value b (String (hex_digit (u mod 16)) acc) = value (16 * b + u mod 16)%N acc) as Hd.
    { intros b. cbn [value]. by rewrite (proj1 (hex_digit_plain _ Hm)), hex_value_digit. }
    assert ((16 * (a * 16 ^ N.of_nat k + (u / 16) mod 16 ^ N.of_nat k) + u mod 16)%N
            = (a * (16 * 16 ^ N.of_nat k) + u mod (16 * 16 ^ N.of_nat k))%N) as <-.
    { rewrite N.Div0.mod_mul_r. lia. }
    case_bool_decide; [cbn [value]|]; apply Hd.
Qed.

Lemma digits_no_colon k : ∀ u acc,
  has_char ":" acc = false → has_char ":" (digits k u acc) = false.
Proof.
  induction k as [|k IH]; intros u acc Hacc; cbn [digits]; [done|].
  apply IH. pose proof (hex_digit_plain (u mod 16) ltac:(apply N.mod_upper_bound; lia)) as [_ Hc].
  case_bool_decide; cbn [has_char]; rewrite Hc; done.
Qed.

#[export] Program Instance hex_uuid_text : UuidText := {|
  uuid_String := to_string;
  uuid_Parse := of_string;
|}.
Next Obligation.
  intros u Hu. unfold of_string, to_string. rewrite value_digits. cbn [value].
  rewrite N.mod_small; [f_equal; lia|]. exact Hu.
Qed.
Next Obligation.
  intros u. unfold to_string. generalize 32%nat as k. intros k.
  apply digits_no_colon. reflexivity.
Qed.

Example to_string_ex :
  to_string 1 = "00000000-0000-0000-0000-000000000001"%string.
Proof. vm_compute. reflexivity. Qed.
End HexUuid.
