(* ===== verification/Encoding.v ===== *)
(** * Digests and encodings

    The parts of Go's [crypto/sha256], [crypto/hmac], [encoding/hex] and
    [encoding/base64] the program uses: SHA-256 on bytes, HMAC, lower-case hex, and
    base64 with and without padding. Bytes are integers in [0, 255] and words
    integers in [0, 2^32) with their wrap-around written out. *)

From S2P Require Import Prelude GoBase.

Open Scope Z_scope.

Abbreviation bytes := (list Z).

Definition byte_ok (b : Z) : Prop := 0 <= b < 256.

Definition char_byte (c : ascii) : Z := Z.of_N (N_of_ascii c).
Definition byte_char (b : Z) : ascii := ascii_of_N (Z.to_N b).

Definition bytes_of_string (s : string) : bytes := char_byte <$> String.list_ascii_of_string s.

(** ** SHA-256 *)
Definition word (z : Z) : Z := z mod 2 ^ 32.
Definition rotr (n x : Z) : Z := Z.lor (Z.shiftr x n) (word (Z.shiftl x (32 - n))).
Definition add32 (a b : Z) : Z := word (a + b).

Definition big_sigma0 (x : Z) : Z := Z.lxor (Z.lxor (rotr 2 x) (rotr 13 x)) (rotr 22 x).
Definition big_sigma1 (x : Z) : Z := Z.lxor (Z.lxor (rotr 6 x) (rotr 11 x)) (rotr 25 x).
Definition small_sigma0 (x : Z) : Z := Z.lxor (Z.lxor (rotr 7 x) (rotr 18 x)) (Z.shiftr x 3).
Definition small_sigma1 (x : Z) : Z := Z.lxor (Z.lxor (rotr 17 x) (rotr 19 x)) (Z.shiftr x 10).
Definition choose (x y z : Z) : Z := Z.lxor (Z.land x y) (Z.land (Z.lxor x (2 ^ 32 - 1)) z).
Definition majority (x y z : Z) : Z := Z.lxor (Z.lxor (Z.land x y) (Z.land x z)) (Z.land y z).

(** The round constants: the first 32 bits of the fractional parts of the cube
    roots of the first 64 primes. *)
Definition is_prime (n : nat) : bool :=
  (2 <=? n)%nat && forallb (λ d, negb (n mod d =? 0)%nat) (seq 2 (n - 2)).

Definition primes (bound : nat) : list Z := Z.of_nat <$> filter (λ n, is_prime n = true) (seq 0 bound).

(** The integer part of the cube root of [n], bit by bit from bit [k - 1]. *)
Fixpoint cube_root (k : nat) (r n : Z) : Z :=
  match k with
  | O => r
  | S k' => let r' := r + 2 ^ Z.of_nat k' in cube_root k' (if r' ^ 3 <=? n then r' else r) n
  end.

Definition sha_K : list Z :=
  Eval vm_compute in (λ p, cube_root 36 0 (p * 2 ^ 96) mod 2 ^ 32) <$> primes 312.

Record sha_state := mkSha { sA : Z; sB : Z; sC : Z; sD : Z; sE : Z; sF : Z; sG : Z; sH : Z }.

(** The initial state, from the square roots of the first eight primes. *)
Definition sha_init : sha_state :=
  Eval vm_compute in
    match (λ p, Z.sqrt (p * 2 ^ 64) mod 2 ^ 32) <$> primes 20 with
    | [a; b; c; d; e; f; g; h] => mkSha a b c d e f g h
    | _ => mkSha 0 0 0 0 0 0 0 0
    end.

(** Big-endian words and bytes. *)
Fixpoint be_words (b : bytes) : list Z :=
  match b with
  | b0 :: b1 :: b2 :: b3 :: rest => b0 * 2 ^ 24 + b1 * 2 ^ 16 + b2 * 2 ^ 8 + b3 :: be_words rest
  | _ => []
  end.

Definition be_bytes (n : nat) (z : Z) : bytes := (λ i, (z / 256 ^ (Z.of_nat (n - 1 - i))) mod 256) <$> seq 0 n.

(** The padding: 0x80, zeros, and the length in bits as 64 bits. *)
Definition sha_pad (msg : bytes) : bytes :=
  let n := Z.of_nat (length msg) in
  msg ++ [0x80] ++ replicate (Z.to_nat ((55 - n) mod 64)) 0 ++ be_bytes 8 (8 * n).

(** The message schedule, newest word first. *)
Fixpoint sha_extend (n : nat) (w : list Z) : list Z :=
  match n with
  | O => w
  | S n' =>
      let at_ i := nth i w 0 in
      sha_extend n' (word (small_sigma1 (at_ 1%nat) + at_ 6%nat + small_sigma0 (at_ 14%nat) + at_ 15%nat) :: w)
  end.

Definition sha_round (s : sha_state) (kw : Z * Z) : sha_state :=
  let t1 := word (sH s + big_sigma1 (sE s) + choose (sE s) (sF s) (sG s) + fst kw + snd kw) in
  let t2 := word (big_sigma0 (sA s) + majority (sA s) (sB s) (sC s)) in
  mkSha (add32 t1 t2) (sA s) (sB s) (sC s) (add32 (sD s) t1) (sE s) (sF s) (sG s).

Definition sha_block (s : sha_state) (block : bytes) : sha_state :=
  let w := reverse (sha_extend 48 (reverse (be_words block))) in
  let r := foldl sha_round s (zip sha_K w) in
  mkSha (add32 (sA s) (sA r)) (add32 (sB s) (sB r)) (add32 (sC s) (sC r)) (add32 (sD s) (sD r))
    (add32 (sE s) (sE r)) (add32 (sF s) (sF r)) (add32 (sG s) (sG r)) (add32 (sH s) (sH r)).

Fixpoint sha_blocks (n : nat) (s : sha_state) (msg : bytes) : sha_state :=
  match n with
  | O => s
  | S n' => sha_blocks n' (sha_block s (take 64 msg)) (drop 64 msg)
  end.

Definition sha256 (msg : bytes) : bytes :=
  let padded := sha_pad msg in
  let s := sha_blocks (length padded / 64)%nat sha_init padded in
  [sA s; sB s; sC s; sD s; sE s; sF s; sG s; sH s] ≫= be_bytes 4.

(** HMAC-SHA-256. *)
Definition hmac_sha256 (key msg : bytes) : bytes :=
  let k := if (64 <? Z.of_nat (length key)) then sha256 key else key in
  let k64 := k ++ replicate (64 - length k)%nat 0 in
  sha256 ((Z.lxor 0x5c <$> k64) ++ sha256 ((Z.lxor 0x36 <$> k64) ++ msg)).

(** ** Hex *)
Definition hex_digit (d : Z) : ascii := byte_char (if d <? 10 then 48 + d else 87 + d).

Definition hex_encode (b : bytes) : string :=
  String.string_of_list_ascii (b ≫= λ x, [hex_digit (x / 16); hex_digit (x mod 16)]).

(** ** Base64 *)

(** The two alphabets: [StdEncoding] and [URLEncoding] differ in 62 and 63. *)
Definition b64_char (url : bool) (v : Z) : ascii :=
  byte_char (if v <? 26 then 65 + v
             else if v <? 52 then 71 + v
             else if v <? 62 then v - 4
             else if v =? 62 then (if url then 45 else 43)
             else (if url then 95 else 47)).

Definition b64_value (c : ascii) : option Z :=
  let x := char_byte c in
  if (65 <=? x) && (x <=? 90) then Some (x - 65)
  else if (97 <=? x) && (x <=? 122) then Some (x - 71)
  else if (48 <=? x) && (x <=? 57) then Some (x + 4)
  else if x =? 43 then Some 62
  else if x =? 47 then Some 63
  else None.

Definition pad_char : ascii := "="%char.

Fixpoint b64_encode_chars (url pad : bool) (b : bytes) : list ascii :=
  match b with
  | [] => []
  | [x] =>
      b64_char url (x / 4) :: b64_char url ((x mod 4) * 16) :: if pad then [pad_char; pad_char] else []
  | [x; y] =>
      b64_char url (x / 4) :: b64_char url ((x mod 4) * 16 + y / 16) :: b64_char url ((y mod 16) * 4)
        :: if pad then [pad_char] else []
  | x :: y :: z :: rest =>
      b64_char url (x / 4) :: b64_char url ((x mod 4) * 16 + y / 16) :: b64_char url ((y mod 16) * 4 + z / 64)
        :: b64_char url (z mod 64) :: b64_encode_chars url pad rest
  end.

(** [base64.StdEncoding.EncodeToString] and [base64.RawURLEncoding.EncodeToString]. *)
Definition base64_std (b : bytes) : string := String.string_of_list_ascii (b64_encode_chars false true b).
Definition base64_raw_url (b : bytes) : string := String.string_of_list_ascii (b64_encode_chars true false b).

(** [base64.StdEncoding.DecodeString]: line breaks are skipped, the last group may be
    padded, anything else is an error. *)
Definition b64_group (c0 c1 c2 c3 : ascii) : option bytes :=
  v0 ← b64_value c0; v1 ← b64_value c1; v2 ← b64_value c2; v3 ← b64_value c3;
  Some [v0 * 4 + v1 / 16; (v1 mod 16) * 16 + v2 / 4; (v2 mod 4) * 64 + v3].

Definition b64_last (c0 c1 c2 c3 : ascii) : option bytes :=
  if bool_decide (c3 = pad_char) then
    if bool_decide (c2 = pad_char) then
      v0 ← b64_value c0; v1 ← b64_value c1; Some [v0 * 4 + v1 / 16]
    else
      v0 ← b64_value c0; v1 ← b64_value c1; v2 ← b64_value c2;
      Some [v0 * 4 + v1 / 16; (v1 mod 16) * 16 + v2 / 4]
  else b64_group c0 c1 c2 c3.

Fixpoint b64_decode_chars (l : list ascii) : option bytes :=
  match l with
  | [] => Some []
  | [c0; c1; c2; c3] => b64_last c0 c1 c2 c3
  | c0 :: c1 :: c2 :: c3 :: rest =>
      group ← b64_group c0 c1 c2 c3;
      tail ← b64_decode_chars rest;
      Some (group ++ tail)
  | _ => None
  end.

Definition is_newline (c : ascii) : bool := bool_decide (c = "010"%char) || bool_decide (c = "013"%char).

Definition base64_decode (s : string) : option bytes :=
  b64_decode_chars (filter (λ c, is_newline c = false) (String.list_ascii_of_string s)).

(** *** Decoding an encoding *)

Definition all_values : list Z := seqZ 0 64.

(** The alphabet, checked value by value. *)
Lemma b64_alphabet : Forall (λ v, b64_value (b64_char false v) = Some v
  ∧ is_newline (b64_char false v) = false ∧ b64_char false v ≠ pad_char) all_values.
Proof. apply (bool_decide_unpack _). vm_compute. exact I. Qed.

Lemma b64_char_ok v : 0 <= v < 64 →
  b64_value (b64_char false v) = Some v ∧ is_newline (b64_char false v) = false ∧ b64_char false v ≠ pad_char.
Proof. intros Hv. pose proof b64_alphabet as Ha. rewrite Forall_forall in Ha. apply Ha, elem_of_seqZ. lia. Qed.

Lemma b64_group_encoded x y z :
  byte_ok x → byte_ok y → byte_ok z →
  b64_group (b64_char false (x / 4)) (b64_char false ((x mod 4) * 16 + y / 16))
    (b64_char false ((y mod 16) * 4 + z / 64)) (b64_char false (z mod 64)) = Some [x; y; z].
Proof.
  unfold byte_ok. intros Hx Hy Hz. unfold b64_group.
  rewrite !(λ v Hv, proj1 (b64_char_ok v Hv)) by (Z.to_euclidean_division_equations; lia). cbn.
  repeat f_equal; Z.to_euclidean_division_equations; lia.
Qed.

(** Induction three bytes at a time. *)
Lemma bytes_ind3 (P : bytes → Prop) :
  P [] → (∀ x, P [x]) → (∀ x y, P [x; y]) → (∀ x y z rest, P rest → P (x :: y :: z :: rest)) → ∀ b, P b.
Proof.
  intros H0 H1 H2 H3. assert (∀ n b, (length b <= n)%nat → P b) as Hn.
  { induction n as [|n IH]; intros [|x [|y [|z rest]]] Hlen; auto; cbn in Hlen; try lia. apply H3, IH. lia. }
  intros b. by apply (Hn (length b)).
Qed.

Lemma b64_last_no_pad c0 c1 c2 c3 : c3 ≠ pad_char → b64_last c0 c1 c2 c3 = b64_group c0 c1 c2 c3.
Proof. intros Hc. unfold b64_last. by rewrite bool_decide_false. Qed.

(** A full group in front, whatever follows. *)
Lemma b64_decode_group c0 c1 c2 c3 g rest b :
  c3 ≠ pad_char → b64_group c0 c1 c2 c3 = Some g → b64_decode_chars rest = Some b →
  b64_decode_chars (c0 :: c1 :: c2 :: c3 :: rest) = Some (g ++ b).
Proof.
  intros Hc Hg Hr. destruct rest as [|c4 rest].
  - cbn in Hr. injection Hr as <-. cbn. rewrite b64_last_no_pad by done. by rewrite app_nil_r.
  - transitivity (group ← b64_group c0 c1 c2 c3; tail ← b64_decode_chars (c4 :: rest); Some (group ++ tail)); [done|].
    by rewrite Hg, Hr.
Qed.

Lemma b64_chars_round_trip b : Forall byte_ok b → b64_decode_chars (b64_encode_chars false true b) = Some b.
Proof.
  induction b as [|x|x y|x y z rest IH] using bytes_ind3; intros Hb; [done|..].
  - apply Forall_cons in Hb as [Hx _]. unfold byte_ok in Hx. cbn [b64_encode_chars b64_decode_chars].
    unfold b64_last. rewrite !bool_decide_true by done.
    rewrite !(λ v Hv, proj1 (b64_char_ok v Hv)) by (Z.to_euclidean_division_equations; lia). cbn.
    repeat f_equal; Z.to_euclidean_division_equations; lia.
  - apply Forall_cons in Hb as [Hx [Hy _]%Forall_cons]. unfold byte_ok in Hx, Hy. cbn [b64_encode_chars b64_decode_chars].
    unfold b64_last. rewrite bool_decide_true by done.
    rewrite bool_decide_false by (apply b64_char_ok; Z.to_euclidean_division_equations; lia).
    rewrite !(λ v Hv, proj1 (b64_char_ok v Hv)) by (Z.to_euclidean_division_equations; lia). cbn.
    repeat f_equal; Z.to_euclidean_division_equations; lia.
  - apply Forall_cons in Hb as [Hx [Hy [Hz Hr]%Forall_cons]%Forall_cons]. cbn [b64_encode_chars].
    apply (b64_decode_group _ _ _ _ [x; y; z]); [|by apply b64_group_encoded|by apply IH].
    apply b64_char_ok. unfold byte_ok in Hz. Z.to_euclidean_division_equations; lia.
Qed.

Lemma b64_chars_no_newline b :
  Forall byte_ok b → Forall (λ c, is_newline c = false) (b64_encode_chars false true b).
Proof.
  assert (∀ v, 0 <= v < 64 → is_newline (b64_char false v) = false) as Hc by (intros; by apply b64_char_ok).
  induction b as [|x|x y|x y z rest IH] using bytes_ind3; intros Hb; [constructor|..].
  - apply Forall_cons in Hb as [Hx _]. unfold byte_ok in Hx.
    repeat constructor; try done; apply Hc; Z.to_euclidean_division_equations; lia.
  - apply Forall_cons in Hb as [Hx [Hy _]%Forall_cons]. unfold byte_ok in Hx, Hy.
    repeat constructor; try done; apply Hc; Z.to_euclidean_division_equations; lia.
  - apply Forall_cons in Hb as [Hx [Hy [Hz Hr]%Forall_cons]%Forall_cons]. unfold byte_ok in Hx, Hy, Hz.
    cbn [b64_encode_chars]. repeat (constructor; [apply Hc; Z.to_euclidean_division_equations; lia|]). by apply IH.
Qed.

Lemma filter_all {A} (P : A → Prop) `{!∀ x, Decision (P x)} l : Forall P l → filter P l = l.
Proof. induction 1 as [|x l Hx _ IH]; [done|]. rewrite filter_cons, decide_True by done. by f_equal. Qed.

Lemma base64_round_trip b : Forall byte_ok b → base64_decode (base64_std b) = Some b.
Proof.
  intros Hb. unfold base64_decode, base64_std. rewrite String.list_ascii_of_string_of_list_ascii.
  rewrite filter_all by (by apply b64_chars_no_newline). by apply b64_chars_round_trip.
Qed.
