(* ===== verification/Job.v ===== *)
(** * Package job: the domain types, retry policy and submission templates

    internal/job/job.go and internal/job/template.go: the job record and its
    states, [ShouldRetry], [NextRetryAt], webhook timeouts, and [Template.Build]
    with its validation. Every submission path (the API and the cron expander)
    builds its jobs here, so the bounds proved of [Build] are what the storage
    invariant starts from. *)

From S2P Require Import Prelude GoBase.
Local Open Scope Z_scope.
Local Open Scope sluice_scope.

(** ** States (job.go, [State]) *)
Inductive State :=
| StatePending | StateScheduled | StateClaimed | StateRunning
| StateSucceeded | StateFailed | StateDead | StateCancelled.

#[export] Instance State_eq_dec : EqDecision State.
Proof. solve_decision. Defined.

Definition all_states : list State :=
  [StatePending; StateScheduled; StateClaimed; StateRunning;
   StateSucceeded; StateFailed; StateDead; StateCancelled].

(** The string constant behind each state; the [job_state] enum of the
    database has the same labels. *)
Definition State_string (s : State) : string :=
  match s with
  | StatePending => "pending"
  | StateScheduled => "scheduled"
  | StateClaimed => "claimed"
  | StateRunning => "running"
  | StateSucceeded => "succeeded"
  | StateFailed => "failed"
  | StateDead => "dead"
  | StateCancelled => "cancelled"
  end.

(** [State.Valid]: whether a string a client sent is one of the constants. *)
Definition State_Valid (s : string) : bool :=
  existsb (λ st, String.eqb s (State_string st)) all_states.

Definition PriorityHigh : Z := 1.
Definition PriorityNormal : Z := 5.
Definition PriorityLow : Z := 10.

(** ** Jobs (job.go, [Job])

    Pointer fields are [option]s; [Payload] holds the raw bytes. *)
Record Job := mkJob {
  ID : uuid;
  TenantID : uuid;
  Type_ : string;
  Payload : string;
  Priority : Z;
  State_ : State;
  RunAt : Z;
  ClaimedAt : option Z;
  ClaimedBy : option string;
  ClaimToken : option uuid;
  Deadline : option Z;
  Attempt : Z;
  MaxRetries : Z;
  BackoffSeconds : Z;
  IdempotencyKey : option string;
  LastError : option string;
  CreatedAt : Z;
  CompletedAt : option Z;
  TraceParent : option string;
}.

#[export] Instance Job_eq_dec : EqDecision Job.
Proof. solve_decision. Defined.

(** [Job.IsTerminal]. *)
Definition IsTerminal (j : Job) : bool :=
  bool_decide (State_ j = StateSucceeded) || bool_decide (State_ j = StateDead)
  || bool_decide (State_ j = StateCancelled).

(** [Job.ShouldRetry]. *)
Definition ShouldRetry (j : Job) : bool := Attempt j <? MaxRetries j.

(** ** Retry backoff (job.go, [NextRetryAt]) *)

(** The doubling loop: [for i := 0; i < attempt && delay < 3600; i++]. *)
Fixpoint backoff_loop (attempt : nat) (delay : Z) : Z :=
  match attempt with
  | O => delay
  | S n => if delay <? 3600 then backoff_loop n (int64 (delay * 2)) else delay
  end.

(** [int(float64(delay) * 0.2)]. *)
Definition backoff_jitter (delay : Z) : Z :=
  int_of_float64 (float64_mul (float64_of_int delay) float64_0_2).

Definition backoff_base (attempt backoffSeconds : Z) : Z :=
  let delay := backoff_loop (Z.to_nat attempt) backoffSeconds in
  if 3600 <? delay then 3600 else delay.

Definition NextRetryAt (rnd : Z → Z) (attempt backoffSeconds now : Z) : Z :=
  let delay := backoff_base attempt backoffSeconds in
  let jitter := backoff_jitter delay in
  let delay := if 0 <? jitter then int64 (delay + (rnd (int64 (2 * jitter + 1)) - jitter)) else delay in
  now + seconds delay.

(** ** Webhook payloads (job.go, [WebhookPayload]) *)
Record WebhookPayload := mkWebhookPayload {
  URL : string;
  Method : string;
  Headers : list (string * string);
  Body : string;
  TimeoutSeconds : Z;
}.

Definition DefaultWebhookTimeout : Z := 25 * Second.
Definition MaxWebhookTimeout : Z := 900 * Second.

(** [WebhookPayload.Timeout]. *)
Definition Timeout (p : WebhookPayload) : Z :=
  if TimeoutSeconds p =? 0 then DefaultWebhookTimeout else seconds (TimeoutSeconds p).

(** ** Templates (template.go) *)
Definition DefaultMaxRetries : Z := 3.
Definition DefaultBackoffSeconds : Z := 30.
Definition MaxMaxRetries : Z := 100.
Definition MaxBackoffSeconds : Z := 86400.

Record Template := mkTemplate {
  tmpl_Type : string;
  tmpl_Payload : string;
  tmpl_Priority : option Z;
  tmpl_MaxRetries : option Z;
  tmpl_BackoffSeconds : option Z;
}.

(** The errors of [validate], one constructor per message. *)
Inductive validation_error :=
| ErrPriority | ErrMaxRetries | ErrBackoff
| ErrTypeRequired | ErrUnsupportedType (t : string)
| ErrPayloadRequired | ErrPayloadJSON | ErrURL | ErrTimeout | ErrMethod (m : string).

#[export] Instance validation_error_eq_dec : EqDecision validation_error.
Proof. solve_decision. Defined.

(** [encoding/json] decoding and [net/url] parsing of client input. Nothing is
    assumed of them: a decoder returns a value or fails, and [url.Parse] returns
    the scheme and host or fails. *)
Class InputLib := {
  json_WebhookPayload : string → option WebhookPayload;
  json_Template : string → option Template;
  url_Parse : string → option (string * string);
}.

Section template.
Context `{!InputLib}.

Definition method_supported (m : string) : bool :=
  existsb (String.eqb m) [""; "GET"; "POST"; "PUT"; "PATCH"; "DELETE"]%string.

(** [u.Scheme] is http or https and [u.Host] is not empty. *)
Definition url_absolute (raw : string) : bool :=
  match url_Parse raw with
  | None => false
  | Some (scheme, host) =>
      (String.eqb scheme "http" || String.eqb scheme "https") && negb (String.eqb host "")
  end.

Definition timeout_rejected (p : WebhookPayload) : bool :=
  (TimeoutSeconds p <? 0) || (MaxWebhookTimeout <? seconds (TimeoutSeconds p)).

Definition validateWebhookPayload (raw : string) : result validation_error unit :=
  if String.eqb raw "" then Err ErrPayloadRequired
  else match json_WebhookPayload raw with
       | None => Err ErrPayloadJSON
       | Some p =>
           if negb (url_absolute (URL p)) then Err ErrURL
           else if timeout_rejected p then Err ErrTimeout
           else if negb (method_supported (Method p)) then Err (ErrMethod (Method p))
           else Ok tt
       end.

(** [Job.validate]. *)
Definition validate (j : Job) : result validation_error unit :=
  if (Priority j <? PriorityHigh) || (PriorityLow <? Priority j) then Err ErrPriority
  else if (MaxRetries j <? 0) || (MaxMaxRetries <? MaxRetries j) then Err ErrMaxRetries
  else if (BackoffSeconds j <? 1) || (MaxBackoffSeconds <? BackoffSeconds j) then Err ErrBackoff
  else if String.eqb (Type_ j) "" then Err ErrTypeRequired
  else if String.eqb (Type_ j) "webhook" then validateWebhookPayload (Payload j)
  else Err (ErrUnsupportedType (Type_ j)).

(** The job [Build] validates: the template's fields with defaults for those
    it leaves out. [id] is what [uuid.New()] returns. *)
Definition template_job (t : Template) (id tenantID : uuid) (now : Z) : Job := {|
  ID := id;
  TenantID := tenantID;
  Type_ := tmpl_Type t;
  Payload := tmpl_Payload t;
  Priority := default PriorityNormal (tmpl_Priority t);
  State_ := StatePending;
  RunAt := now;
  ClaimedAt := None;
  ClaimedBy := None;
  ClaimToken := None;
  Deadline := None;
  Attempt := 0;
  MaxRetries := default DefaultMaxRetries (tmpl_MaxRetries t);
  BackoffSeconds := default DefaultBackoffSeconds (tmpl_BackoffSeconds t);
  IdempotencyKey := None;
  LastError := None;
  CreatedAt := now;
  CompletedAt := None;
  TraceParent := None;
|}.

(** [Template.Build]. *)
Definition Build (t : Template) (id tenantID : uuid) (now : Z) : result validation_error Job :=
  let j := template_job t id tenantID now in
  let? _ := validate j in
  Ok j.
End template.

(** ** The retry policy *)

(** The jitter, computed in binary64, is the delay's fifth rounded down, for
    every delay the cap lets through. *)
Lemma backoff_jitter_fifth d : 1 <= d <= 3600 → backoff_jitter d = d / 5.
Proof.
  intros Hd.
  assert (forallb (λ d, backoff_jitter d =? d / 5) (seqZ 1 3600) = true) as H
    by (vm_compute; reflexivity).
  rewrite forallb_forall in H. apply Z.eqb_eq, H, list_elem_of_In, elem_of_seqZ. lia.
Qed.

Lemma backoff_loop_min n : ∀ d,
  1 <= d → Z.min 3600 (backoff_loop n d) = Z.min 3600 (d * 2 ^ Z.of_nat n).
Proof.
  induction n as [|n IH]; intros d Hd; cbn [backoff_loop].
  - by rewrite Z.mul_1_r.
  - rewrite Nat2Z.inj_succ, Z.pow_succ_r by lia.
    destruct (Z.ltb_spec d 3600).
    + rewrite int64_id by (unfold in_int64; lia).
      rewrite IH by lia. f_equal. lia.
    + assert (0 < 2 ^ Z.of_nat n) by (apply Z.pow_pos_nonneg; lia). nia.
Qed.

(** The capped exponential backoff. For any attempt count and any backoff of
    at least one second, the delay before jitter is [backoff * 2^attempt], capped
    at one hour: the early exit of the doubling loop changes nothing and no
    doubling overflows. *)
Theorem backoff_base_exponential attempt b :
  0 <= attempt → 1 <= b → backoff_base attempt b = Z.min 3600 (b * 2 ^ attempt).
Proof.
  intros Ha Hb. pose proof (backoff_loop_min (Z.to_nat attempt) b Hb) as H.
  rewrite Z2Nat.id in H by done. rewrite <- H. unfold backoff_base. zcases; lia.
Qed.

Lemma backoff_base_exponential_witness : backoff_base 4 30 = 480.
Proof. rewrite (backoff_base_exponential 4 30); [reflexivity|lia|lia]. Defined.

Lemma backoff_base_range attempt b : 0 <= attempt → 1 <= b → 1 <= backoff_base attempt b <= 3600.
Proof.
  intros Ha Hb. pose proof (backoff_loop_min (Z.to_nat attempt) b Hb) as H.
  assert (0 < 2 ^ Z.of_nat (Z.to_nat attempt)) by (apply Z.pow_pos_nonneg; lia).
  unfold backoff_base. zcases; nia.
Qed.

(** The delay drawn: within a fifth of the base, at least a second, at most 72 minutes. *)
Lemma NextRetryAt_delay rnd attempt b now :
  Intn_ok rnd → 0 <= attempt → 1 <= b →
  let base := backoff_base attempt b in
  ∃ d, NextRetryAt rnd attempt b now = now + d * Second
    ∧ base - base / 5 <= d <= base + base / 5 ∧ 1 <= d <= 4320.
Proof.
  intros Hr Ha Hb base. pose proof (backoff_base_range attempt b Ha Hb) as Hbase. fold base in Hbase.
  unfold NextRetryAt. fold base. rewrite backoff_jitter_fifth by done.
  assert (0 <= base / 5 <= 720 ∧ base / 5 < base) as [Hj Hj'].
  { split; [|apply Z.div_lt; lia]. split; [apply Z.div_pos; lia|].
    apply Z.div_le_upper_bound; lia. }
  destruct (Z.ltb_spec 0 (base / 5)).
  - rewrite (int64_id (2 * (base / 5) + 1)) by (unfold in_int64; lia).
    pose proof (Hr (2 * (base / 5) + 1) ltac:(lia)) as Hd.
    set (d := rnd (2 * (base / 5) + 1)) in *.
    rewrite int64_id by (unfold in_int64; lia).
    rewrite seconds_id by lia. eexists. split; [reflexivity|]. lia.
  - rewrite seconds_id by lia. eexists. split; [reflexivity|]. lia.
Qed.

(** C38: The retry time stays within twenty percent of the backoff. Whatever the
    random source returns, [NextRetryAt] lies between [now] plus the capped delay
    minus its fifth and [now] plus the delay plus its fifth, and so is always in
    the future and at most 72 minutes away. *)
Theorem NextRetryAt_bounds rnd attempt b now :
  Intn_ok rnd → 0 <= attempt → 1 <= b →
  let base := backoff_base attempt b in
  now + (base - base / 5) * Second <= NextRetryAt rnd attempt b now <= now + (base + base / 5) * Second
  ∧ now < NextRetryAt rnd attempt b now <= now + 4320 * Second.
Proof.
  intros Hr Ha Hb base. destruct (NextRetryAt_delay rnd attempt b now Hr Ha Hb) as (d&->&Hd&Hd'). fold base in Hd.
  unfold Second. lia.
Qed.

Lemma NextRetryAt_bounds_witness :
  NextRetryAt (λ n, n - 1) 2 30 0 <= 144 * Second.
Proof.
  destruct (NextRetryAt_bounds (λ n, n - 1) 2 30 0) as [[_ H] _].
  - intros n Hn. lia.
  - lia.
  - lia.
  - exact H.
Defined.

(** ** Validation *)

(** What [Build] guarantees of the jobs it returns. *)
Record valid_new_job (t : Template) (id tenantID : uuid) (now : Z) (j : Job) : Prop := {
  new_job_is : j = template_job t id tenantID now;
  new_job_priority : PriorityHigh <= Priority j <= PriorityLow;
  new_job_retries : 0 <= MaxRetries j <= MaxMaxRetries;
  new_job_backoff : 1 <= BackoffSeconds j <= MaxBackoffSeconds;
  new_job_type : Type_ j = "webhook"%string;
}.

Section validation.
Context `{!InputLib}.

Lemma validateWebhookPayload_Ok raw :
  validateWebhookPayload raw = Ok tt ↔
  ∃ p, raw ≠ ""%string ∧ json_WebhookPayload raw = Some p ∧ url_absolute (URL p) = true
       ∧ timeout_rejected p = false ∧ method_supported (Method p) = true.
Proof.
  unfold validateWebhookPayload.
  destruct (String.eqb_spec raw ""); [split; [done|by intros (?&?&_)]|].
  destruct (json_WebhookPayload raw) as [p|]; [|split; [done|by intros (?&?&?&_)]].
  destruct (url_absolute (URL p)) eqn:Hu, (timeout_rejected p) eqn:Ht,
    (method_supported (Method p)) eqn:Hm; cbn [negb]; split; try discriminate;
    try (intros (q&_&[= <-]&?&?&?); congruence).
  intros _. by exists p.
Qed.

Lemma validate_Ok j :
  validate j = Ok tt ↔
  PriorityHigh <= Priority j <= PriorityLow ∧ 0 <= MaxRetries j <= MaxMaxRetries
  ∧ 1 <= BackoffSeconds j <= MaxBackoffSeconds ∧ Type_ j = "webhook"%string
  ∧ validateWebhookPayload (Payload j) = Ok tt.
Proof.
  unfold validate, PriorityHigh, PriorityLow, MaxMaxRetries, MaxBackoffSeconds.
  destruct (String.eqb_spec (Type_ j) "") as [He|He];
    destruct (String.eqb_spec (Type_ j) "webhook") as [Hw|Hw];
    zcases; simpl; split; intros Hv;
    repeat match goal with H : _ ∧ _ |- _ => destruct H end;
    try discriminate; try lia; try congruence; repeat split; try lia; done.
Qed.

(** [Template.Build] accepts exactly the valid templates. It returns a job
    if and only if priority, retries and backoff (after defaults) are in range,
    the type is [webhook] and the payload passes its own checks; the job is then
    the template with the defaults filled in, pending, due now, with no attempt
    made and no claim. *)
Theorem Build_correct t id tenantID now j :
  Build t id tenantID now = Ok j ↔
  valid_new_job t id tenantID now j ∧ validateWebhookPayload (tmpl_Payload t) = Ok tt.
Proof.
  unfold Build. set (j0 := template_job t id tenantID now).
  pose proof (validate_Ok j0) as Hv. split.
  - destruct (validate j0) as [[]|e]; cbn [result_bind]; [|discriminate].
    intros [= <-]. destruct (proj1 Hv eq_refl) as (?&?&?&?&?). by split; [constructor|].
  - intros [[-> ?? ? ?] Hp]. fold j0. fold j0 in new_job_priority0, new_job_retries0, new_job_backoff0, new_job_type0.
    by rewrite (proj2 Hv) by (repeat split; (lia || done)).
Qed.
End validation.

(** ** Webhook timeouts *)

Section timeouts.
Context `{!InputLib}.

(** An accepted payload never runs longer than fifteen minutes. When
    validation accepts a payload, the timeout a worker later computes from it is
    at most [MaxWebhookTimeout], even when the multiplication by a second
    wrapped around. *)
Theorem accepted_timeout_bounded raw p :
  validateWebhookPayload raw = Ok tt → json_WebhookPayload raw = Some p →
  Timeout p <= MaxWebhookTimeout.
Proof.
  rewrite validateWebhookPayload_Ok. intros (q&_&Hq&_&Ht&_) Hp.
  rewrite Hq in Hp. injection Hp as ->.
  unfold timeout_rejected, Timeout, DefaultWebhookTimeout, MaxWebhookTimeout, Second in *.
  bool_to_prop. zcases; lia.
Qed.
End timeouts.

(** The timeout check is exact up to the int64 range. For a timeout of up to
    9223372036 seconds, the largest whose nanoseconds fit an int64, validation
    accepts it exactly when it is between 0 and 900 seconds, and the worker then
    waits that many seconds (25 when it is 0). *)
Theorem timeout_check_exact p :
  TimeoutSeconds p <= 9223372036 →
  (timeout_rejected p = false ↔ 0 <= TimeoutSeconds p <= 900)
  ∧ (0 <= TimeoutSeconds p <= 900 →
     Timeout p = (if TimeoutSeconds p =? 0 then 25 else TimeoutSeconds p) * Second).
Proof.
  intros Hle. unfold timeout_rejected, Timeout, MaxWebhookTimeout, DefaultWebhookTimeout.
  destruct (Z.ltb_spec (TimeoutSeconds p) 0) as [Hneg|Hneg].
  - split; [split; [done|lia]|lia].
  - rewrite seconds_id by lia. unfold Second. zcases; simpl; split; try split; try done; lia.
Qed.

(** Beyond that range the check wraps around. A payload asking for
    9223372037 seconds passes the "between 1 and 900" check, because its
    nanoseconds wrap to a negative duration, and the worker then gives the
    request a timeout that has already expired. *)
Theorem timeout_check_wraps p :
  TimeoutSeconds p = 9223372037 → timeout_rejected p = false ∧ Timeout p < 0.
Proof.
  intros Hp. unfold timeout_rejected, Timeout. rewrite Hp. vm_compute. done.
Qed.

Lemma timeout_check_wraps_witness :
  timeout_rejected (mkWebhookPayload "https://x" "" [] "" 9223372037) = false.
Proof. apply (timeout_check_wraps (mkWebhookPayload "https://x" "" [] "" 9223372037)). reflexivity. Defined.

(** ** A closed input library

    Accepts one payload and one template; closed examples use it. *)
Module SampleInput.
Definition payload : WebhookPayload := mkWebhookPayload "https://example.com/hook" "POST" [] "" 0.

#[export] Instance sample_input : InputLib := {|
  json_WebhookPayload s := if String.eqb s "{}" then Some payload else None;
  json_Template s :=
    if String.eqb s "tmpl" then Some (mkTemplate "webhook" "{}" None None None) else None;
  url_Parse s := if String.eqb s "https://example.com/hook" then Some ("https", "example.com") else None;
|}%string.

Definition template : Template := mkTemplate "webhook" "{}" (Some 1) None None.

Example build_sample :
  Build template 7%N 1%N 100 = Ok (template_job template 7%N 1%N 100).
Proof. vm_compute. reflexivity. Qed.

Example build_rejects :
  Build (mkTemplate "webhook" "{}" (Some 11) None None) 7%N 1%N 100 = Err ErrPriority.
Proof. reflexivity. Qed.

Lemma accepted_timeout_bounded_witness : Timeout payload <= MaxWebhookTimeout.
Proof. apply (accepted_timeout_bounded "{}"%string payload); reflexivity. Defined.
End SampleInput.
