(* ===== verification/NetAddr.v ===== *)
(** * Outbound address policy of the webhook client

    internal/worker/webhook.go: [blockedPrefixes], [isPublicAddr] and the dial
    control of [newWebhookClient]. The [net/netip] predicates they call are
    modelled bit by bit: an IPv4 address is its 32-bit number, an IPv6 address
    its 128-bit number and its zone. *)

From S2P Require Import Prelude GoBase.
Local Open Scope Z_scope.

(** ** net/netip *)

(** A valid [netip.Addr]. The zero [Addr] does not occur: [ParseAddrPort]
    returns an error instead. *)
Inductive Addr :=
| Addr4 (bits : Z)
| Addr6 (bits : Z) (zone : string).

#[export] Instance Addr_eq_dec : EqDecision Addr.
Proof. solve_decision. Defined.

Definition Addr_ok (a : Addr) : Prop :=
  match a with
  | Addr4 b => 0 <= b < 2 ^ 32
  | Addr6 b _ => 0 <= b < 2 ^ 128
  end.

Definition Addr_zone (a : Addr) : string :=
  match a with Addr4 _ => ""%string | Addr6 _ z => z end.

(** An IPv4-mapped IPv6 address, [::ffff:a.b.c.d]. *)
Definition Is4In6 (a : Addr) : bool :=
  match a with Addr4 _ => false | Addr6 b _ => Z.shiftr b 32 =? 65535 end.

(** [Unmap] drops the mapping prefix (and, with it, any zone). *)
Definition Unmap (a : Addr) : Addr :=
  match a with
  | Addr6 b _ => if Is4In6 a then Addr4 (Z.land b (Z.ones 32)) else a
  | _ => a
  end.

(** [ip.v4(i)], [ip.v6(i)] and [ip.v6u16(i)]: the [i]-th byte, or the [i]-th
    16-bit group, from the most significant end. *)
Definition v4 (b i : Z) : Z := Z.land (Z.shiftr b ((3 - i) * 8)) 255.
Definition v6 (b i : Z) : Z := Z.land (Z.shiftr b ((15 - i) * 8)) 255.
Definition v6u16 (b i : Z) : Z := Z.land (Z.shiftr b ((7 - i) * 16)) 65535.

Definition IsLoopback (a : Addr) : bool :=
  match a with Addr4 b => v4 b 0 =? 127 | Addr6 b _ => b =? 1 end.

Definition IsPrivate (a : Addr) : bool :=
  match a with
  | Addr4 b =>
      (v4 b 0 =? 10) || ((v4 b 0 =? 172) && (Z.land (v4 b 1) 240 =? 16))
      || ((v4 b 0 =? 192) && (v4 b 1 =? 168))
  | Addr6 b _ => Z.land (v6 b 0) 254 =? 252
  end.

Definition IsLinkLocalUnicast (a : Addr) : bool :=
  match a with
  | Addr4 b => (v4 b 0 =? 169) && (v4 b 1 =? 254)
  | Addr6 b _ => Z.land (v6u16 b 0) 65472 =? 65152
  end.

Definition IsLinkLocalMulticast (a : Addr) : bool :=
  match a with
  | Addr4 b => (v4 b 0 =? 224) && (v4 b 1 =? 0) && (v4 b 2 =? 0)
  | Addr6 b _ => Z.land (v6u16 b 0) 65295 =? 65282
  end.

Definition IsInterfaceLocalMulticast (a : Addr) : bool :=
  match a with
  | Addr4 _ => false
  | Addr6 b _ => Z.land (v6u16 b 0) 65295 =? 65281
  end.

Definition IsMulticast (a : Addr) : bool :=
  match a with
  | Addr4 b => Z.land (v4 b 0) 240 =? 224
  | Addr6 b _ => v6 b 0 =? 255
  end.

(** Equality with [0.0.0.0] or with [::], zone included. *)
Definition IsUnspecified (a : Addr) : bool :=
  bool_decide (a = Addr4 0) || bool_decide (a = Addr6 0 "").

(** A [netip.Prefix]: an unzoned address and a bit count. *)
Record Prefix := mkPrefix { prefix_ip : Addr; prefix_bits : Z }.

(** [Prefix.Contains]: false for an address with a zone and for an address of
    the other family; otherwise the leading bits are compared. *)
Definition Contains (p : Prefix) (a : Addr) : bool :=
  match prefix_ip p, a with
  | Addr4 q, Addr4 b => Z.shiftr (Z.lxor b q) (32 - prefix_bits p) =? 0
  | Addr6 q _, Addr6 b z =>
      bool_decide (z = ""%string) && (Z.shiftr (Z.lxor b q) (128 - prefix_bits p) =? 0)
  | _, _ => false
  end.

(** ** webhook.go *)

Definition ipv4 (a b c d : Z) : Z := ((a * 256 + b) * 256 + c) * 256 + d.

Definition blockedPrefixes : list Prefix := [
  mkPrefix (Addr4 (ipv4 0 0 0 0)) 8;
  mkPrefix (Addr4 (ipv4 100 64 0 0)) 10;
  mkPrefix (Addr4 (ipv4 192 0 0 0)) 24;
  mkPrefix (Addr4 (ipv4 198 18 0 0)) 15;
  mkPrefix (Addr4 (ipv4 240 0 0 0)) 4;
  mkPrefix (Addr6 (Z.shiftl 0x64ff9b 96) "") 96
].

Definition isPublicAddr (a : Addr) : bool :=
  let a := Unmap a in
  if IsLoopback a || IsPrivate a || IsLinkLocalUnicast a || IsLinkLocalMulticast a
     || IsInterfaceLocalMulticast a || IsMulticast a || IsUnspecified a
  then false
  else negb (existsb (λ p, Contains p a) blockedPrefixes).

(** The dialer's [Control] hook: [parsed] is the result of
    [netip.ParseAddrPort] on the address being dialled. *)
Inductive dial_error := DialUnparseable | DialNonPublic (a : Addr).

Definition dial_control (allowPrivate : bool) (parsed : option Addr) : result dial_error unit :=
  if allowPrivate then Ok tt
  else match parsed with
       | None => Err DialUnparseable
       | Some a => if isPublicAddr a then Ok tt else Err (DialNonPublic a)
       end.

(** ** Reference policy: the address ranges the client must not reach *)

Definition in_ranges (b : Z) (l : list (Z * Z)) : bool :=
  existsb (λ '(lo, hi), (lo <=? b) && (b <=? hi)) l.

Definition nonpublic4 : list (Z * Z) := [
  (ipv4 0 0 0 0, ipv4 0 255 255 255);
  (ipv4 10 0 0 0, ipv4 10 255 255 255);
  (ipv4 100 64 0 0, ipv4 100 127 255 255);
  (ipv4 127 0 0 0, ipv4 127 255 255 255);
  (ipv4 169 254 0 0, ipv4 169 254 255 255);
  (ipv4 172 16 0 0, ipv4 172 31 255 255);
  (ipv4 192 0 0 0, ipv4 192 0 0 255);
  (ipv4 192 168 0 0, ipv4 192 168 255 255);
  (ipv4 198 18 0 0, ipv4 198 19 255 255);
  (ipv4 224 0 0 0, ipv4 255 255 255 255)
].

(** [::], [::1], NAT64, unique-local, link-local, multicast. *)
Definition nonpublic6 : list (Z * Z) := [
  (0, 0);
  (1, 1);
  (0x64ff9b * 2 ^ 96, 0x64ff9b * 2 ^ 96 + (2 ^ 32 - 1));
  (0xfc * 2 ^ 120, 0xfe * 2 ^ 120 - 1);
  (0xfe80 * 2 ^ 112, 0xfec0 * 2 ^ 112 - 1);
  (0xff * 2 ^ 120, 2 ^ 128 - 1)
].

Definition mapped_base : Z := 65535 * 2 ^ 32.

Definition nonpublic (a : Addr) : bool :=
  match a with
  | Addr4 b => in_ranges b nonpublic4
  | Addr6 b _ =>
      if (mapped_base <=? b) && (b <? mapped_base + 2 ^ 32)
      then in_ranges (b - mapped_base) nonpublic4
      else in_ranges b nonpublic6
  end.

(** ** Bits as division *)

Lemma shiftr_div b k : 0 <= k → Z.shiftr b k = b / 2 ^ k.
Proof. apply Z.shiftr_div_pow2. Qed.

Lemma land_low b k : 0 <= k → Z.land b (2 ^ k - 1) = b mod 2 ^ k.
Proof. intros. rewrite <- Z.land_ones by done. f_equal. rewrite Z.ones_equiv. lia. Qed.

(** Comparing leading bits by exclusive or is comparing quotients. *)
Lemma prefix_eq b q k : 0 <= k → (Z.shiftr (Z.lxor b q) k =? 0) = (b / 2 ^ k =? q / 2 ^ k).
Proof.
  intros Hk. rewrite Z.shiftr_lxor, !shiftr_div by done.
  apply Bool.eq_iff_eq_true. rewrite !Z.eqb_eq. split.
  - intros. by apply Z.lxor_eq.
  - intros ->. apply Z.lxor_nilpotent.
Qed.

(** The masks of the IPv4 tests select leading bits of a byte. *)
Lemma byte_masks x : 0 <= x < 256 →
  Z.land x 240 = x / 16 * 16 ∧ Z.land x 254 = x / 2 * 2.
Proof.
  intros Hx.
  assert (forallb (λ x, (Z.land x 240 =? x / 16 * 16) && (Z.land x 254 =? x / 2 * 2)) (seqZ 0 256) = true)
    as H by (vm_compute; reflexivity).
  rewrite forallb_forall in H. specialize (H x). rewrite <- list_elem_of_In, elem_of_seqZ in H.
  specialize (H ltac:(lia)). by bool_to_prop.
Qed.

(** The masks of the IPv6 tests on the first 16-bit group. *)
Lemma group_high x m v : Z.land x m = v → Z.land (x / 256) (m / 256) = v / 256.
Proof.
  intros <-. change 256 with (2 ^ 8). rewrite <- !shiftr_div by lia. by rewrite Z.shiftr_land.
Qed.

Lemma group_multicast x v : 0 <= x < 65536 → Z.land x 65295 = 65280 + v → 0 <= v < 256 → x / 256 = 255.
Proof.
  intros Hx Hm%group_high Hv.
  replace ((65280 + v) / 256) with 255 in Hm by (apply (Z.div_unique_pos _ _ _ v); lia).
  change (65295 / 256) with (2 ^ 8 - 1) in Hm. rewrite land_low in Hm by lia.
  rewrite Z.mod_small in Hm; [done|].
  split; [apply Z.div_pos|apply Z.div_lt_upper_bound]; lia.
Qed.

Lemma group_link_local x : 0 <= x < 65536 → (Z.land x 65472 =? 65152) = (x / 64 =? 1018).
Proof.
  intros Hx. apply Bool.eq_iff_eq_true. rewrite !Z.eqb_eq. split.
  - intros Hm. apply (f_equal (λ y, Z.shiftr y 6)) in Hm.
    rewrite Z.shiftr_land, shiftr_div in Hm by lia.
    change (Z.shiftr 65472 6) with (2 ^ 10 - 1) in Hm. rewrite land_low in Hm by lia.
    rewrite Z.mod_small in Hm; [done|].
    split; [apply Z.div_pos|apply Z.div_lt_upper_bound]; lia.
  - intros Hq.
    assert (65152 <= x < 65216) as Hr by (pose proof (Z.div_mod x 64 ltac:(lia)); pose proof (Z.mod_pos_bound x 64); lia).
    assert (forallb (λ x, Z.land x 65472 =? 65152) (seqZ 65152 64) = true) as H by (vm_compute; reflexivity).
    rewrite forallb_forall in H. apply Z.eqb_eq, H, list_elem_of_In, elem_of_seqZ. lia.
Qed.

Lemma v4_div b i : 0 <= i <= 3 → v4 b i = b / 2 ^ ((3 - i) * 8) mod 256.
Proof. intros. unfold v4. change 255 with (2 ^ 8 - 1). rewrite land_low, shiftr_div by lia. done. Qed.

Lemma v6_first b : 0 <= b < 2 ^ 128 → v6 b 0 = b / 2 ^ 120.
Proof.
  intros. unfold v6. change 255 with (2 ^ 8 - 1). rewrite land_low, shiftr_div by lia.
  apply Z.mod_small. split; [apply Z.div_pos|apply Z.div_lt_upper_bound]; lia.
Qed.

Lemma v6u16_first b : 0 <= b < 2 ^ 128 → v6u16 b 0 = b / 2 ^ 112.
Proof.
  intros. unfold v6u16. change 65535 with (2 ^ 16 - 1). rewrite land_low, shiftr_div by lia.
  apply Z.mod_small. split; [apply Z.div_pos|apply Z.div_lt_upper_bound]; lia.
Qed.

(** A block of addresses with a common prefix is an interval. *)
Lemma block_interval b k p :
  0 <= k → (b / 2 ^ k =? p) = (p * 2 ^ k <=? b) && (b <=? p * 2 ^ k + (2 ^ k - 1)).
Proof.
  intros Hk. assert (0 < 2 ^ k) as Hp by (apply Z.pow_pos_nonneg; lia).
  pose proof (Z.div_mod b (2 ^ k) ltac:(lia)). pose proof (Z.mod_pos_bound b (2 ^ k) Hp).
  set (q := b / 2 ^ k) in *. set (r := b mod 2 ^ k) in *.
  destruct (Z.eqb_spec q p) as [->|Hne].
  - symmetry. apply andb_true_iff. rewrite !Z.leb_le. lia.
  - symmetry. apply andb_false_iff. rewrite !Z.leb_gt. nia.
Qed.

Lemma contains4 b q k :
  0 <= k <= 32 → Contains (mkPrefix (Addr4 q) k) (Addr4 b) = (b / 2 ^ (32 - k) =? q / 2 ^ (32 - k)).
Proof. intros. cbn. apply prefix_eq. lia. Qed.

Ltac euclid := Z.to_euclidean_division_equations; lia.

(** Split an equivalence between two disjunctions of interval tests. *)
Ltac interval_cases :=
  let H := fresh "H" in
  rewrite ?orb_true_r, ?orb_false_r, ?andb_true_r, ?andb_false_r;
  cbn [orb andb];
  rewrite ?orb_true_iff, ?andb_true_iff, ?Z.leb_le, ?Z.eqb_eq;
  split; intros H; repeat destruct H as [H|H]; try discriminate.

(** Evaluate the quotients and powers of literals in the goal. *)
Ltac compute_quotients :=
  repeat match goal with
  | |- context [Z.div ?x ?y] => let v := eval vm_compute in (Z.div x y) in change (Z.div x y) with v
  | |- context [Z.pow ?x ?y] => let v := eval vm_compute in (Z.pow x y) in change (Z.pow x y) with v
  end.

Section v4_tests.
Variable b : Z.
Hypothesis Hb : 0 <= b < 2 ^ 32.

Lemma v4_byte0 : v4 b 0 = b / 2 ^ 24.
Proof. rewrite v4_div by lia. cbn. euclid. Qed.

Lemma v4_two p : 0 <= p < 65536 →
  (v4 b 0 =? p / 256) && (v4 b 1 =? p mod 256) = (b / 2 ^ 16 =? p).
Proof.
  intros Hp. rewrite v4_byte0, v4_div by lia.
  apply Bool.eq_iff_eq_true. rewrite andb_true_iff, !Z.eqb_eq. cbn. euclid.
Qed.

Lemma v4_172 : (v4 b 0 =? 172) && (Z.land (v4 b 1) 240 =? 16) = (b / 2 ^ 20 =? 2753).
Proof.
  rewrite v4_byte0, v4_div by lia.
  rewrite (proj1 (byte_masks _ (Z.mod_pos_bound _ 256 ltac:(lia)))).
  apply Bool.eq_iff_eq_true. rewrite andb_true_iff, !Z.eqb_eq. cbn. euclid.
Qed.

Lemma v4_multicast : (Z.land (v4 b 0) 240 =? 224) = (b / 2 ^ 28 =? 14).
Proof.
  rewrite v4_byte0, (proj1 (byte_masks (b / 2 ^ 24) ltac:(euclid))).
  apply Bool.eq_iff_eq_true. rewrite !Z.eqb_eq. euclid.
Qed.

Lemma v4_link_multicast :
  (v4 b 0 =? 224) && (v4 b 1 =? 0) && (v4 b 2 =? 0) = true → (b / 2 ^ 28 =? 14) = true.
Proof. rewrite v4_byte0, !andb_true_iff, !Z.eqb_eq. euclid. Qed.
End v4_tests.

Lemma if_false_negb (c d : bool) : (if c then false else negb d) = negb (c || d).
Proof. by destruct c. Qed.

Lemma isPublicAddr_Addr4 b :
  0 <= b < 2 ^ 32 → isPublicAddr (Addr4 b) = negb (in_ranges b nonpublic4).
Proof.
  intros Hb. unfold isPublicAddr, IsLoopback, IsPrivate, IsLinkLocalUnicast,
    IsLinkLocalMulticast, IsInterfaceLocalMulticast, IsMulticast, IsUnspecified. cbn [Unmap].
  pose proof (v4_link_multicast b Hb) as Hlm.
  change ((v4 b 0 =? 192) && (v4 b 1 =? 168)) with ((v4 b 0 =? 49320 / 256) && (v4 b 1 =? 49320 mod 256)).
  change ((v4 b 0 =? 169) && (v4 b 1 =? 254)) with ((v4 b 0 =? 43518 / 256) && (v4 b 1 =? 43518 mod 256)).
  generalize dependent ((v4 b 0 =? 224) && (v4 b 1 =? 0) && (v4 b 2 =? 0)). intros lm Hlm.
  rewrite v4_172, !v4_two, v4_multicast, !v4_byte0 by lia.
  rewrite block_interval in Hlm by lia.
  rewrite (bool_decide_eq_false_2 (Addr4 b = Addr6 _ _)) by discriminate.
  replace (bool_decide (Addr4 b = Addr4 0)) with (b =? 0)
    by (case_bool_decide; [apply Z.eqb_eq|apply Z.eqb_neq]; congruence).
  rewrite if_false_negb. cbn [existsb blockedPrefixes]. rewrite !contains4 by lia.
  rewrite !block_interval by lia. cbn [Contains prefix_ip].
  unfold in_ranges, nonpublic4. cbn [existsb]. f_equal.
  compute_quotients. unfold ipv4. rewrite andb_true_iff, !Z.leb_le in Hlm.
  apply Bool.eq_iff_eq_true. interval_cases; try apply Hlm in H; lia.
Qed.

Lemma contains6 b q k :
  0 <= k <= 128 →
  Contains (mkPrefix (Addr6 q "") k) (Addr6 b "") = (b / 2 ^ (128 - k) =? q / 2 ^ (128 - k)).
Proof. intros. cbn. apply prefix_eq. lia. Qed.

Section v6_tests.
Variable b : Z.
Hypothesis Hb : 0 <= b < 2 ^ 128.

Lemma v6_unique_local : (Z.land (v6 b 0) 254 =? 252) = (b / 2 ^ 121 =? 126).
Proof.
  rewrite v6_first, (proj2 (byte_masks (b / 2 ^ 120) ltac:(euclid))) by done.
  apply Bool.eq_iff_eq_true. rewrite !Z.eqb_eq. euclid.
Qed.

Lemma v6_link_local : (Z.land (v6u16 b 0) 65472 =? 65152) = (b / 2 ^ 118 =? 1018).
Proof.
  rewrite v6u16_first, group_link_local by (done || euclid).
  apply Bool.eq_iff_eq_true. rewrite !Z.eqb_eq. euclid.
Qed.

Lemma v6_multicast v :
  0 <= v < 256 → (Z.land (v6u16 b 0) 65295 =? 65280 + v) = true → (b / 2 ^ 120 =? 255) = true.
Proof.
  rewrite v6u16_first, !Z.eqb_eq by done. intros Hv Hm%group_multicast; [euclid|euclid|done].
Qed.
End v6_tests.

Lemma Is4In6_interval b z :
  Is4In6 (Addr6 b z) = (mapped_base <=? b) && (b <? mapped_base + 2 ^ 32).
Proof.
  cbn [Is4In6]. rewrite shiftr_div, block_interval by lia. unfold mapped_base. lia.
Qed.

Lemma isPublicAddr_mapped b z :
  Is4In6 (Addr6 b z) = true → isPublicAddr (Addr6 b z) = isPublicAddr (Addr4 (b - mapped_base)).
Proof.
  intros Hm. unfold isPublicAddr at 1. cbn [Unmap]. rewrite Hm.
  rewrite Is4In6_interval in Hm. bool_to_prop.
  replace (Z.land b (Z.ones 32)) with (b - mapped_base); [done|].
  rewrite Z.land_ones by lia. unfold mapped_base in *. euclid.
Qed.

(** The predicates that ignore the zone, on an IPv6 address that is not an
    IPv4-mapped one. *)
Lemma isPublicAddr_Addr6 b z :
  0 <= b < 2 ^ 128 → Is4In6 (Addr6 b z) = false →
  isPublicAddr (Addr6 b z)
  = negb (in_ranges b [(1, 1); (0xfc * 2 ^ 120, 0xfe * 2 ^ 120 - 1);
                       (0xfe80 * 2 ^ 112, 0xfec0 * 2 ^ 112 - 1); (0xff * 2 ^ 120, 2 ^ 128 - 1)]
          || (bool_decide (z = ""%string)
              && in_ranges b [(0, 0); (0x64ff9b * 2 ^ 96, 0x64ff9b * 2 ^ 96 + (2 ^ 32 - 1))])).
Proof.
  intros Hb Hm. unfold isPublicAddr. cbn [Unmap]. rewrite Hm.
  unfold IsLoopback, IsPrivate, IsLinkLocalUnicast, IsLinkLocalMulticast,
    IsInterfaceLocalMulticast, IsMulticast, IsUnspecified.
  pose proof (v6_multicast b Hb 2 ltac:(lia)) as H2.
  pose proof (v6_multicast b Hb 1 ltac:(lia)) as H1.
  change (65280 + 2) with 65282 in H2. change (65280 + 1) with 65281 in H1.
  generalize dependent (Z.land (v6u16 b 0) 65295 =? 65282).
  generalize dependent (Z.land (v6u16 b 0) 65295 =? 65281). intros m1 H1 m2 H2.
  rewrite v6_unique_local, v6_link_local, v6_first by done.
  rewrite (bool_decide_eq_false_2 (Addr6 b z = Addr4 0)) by discriminate.
  replace (bool_decide (Addr6 b z = Addr6 0 "")) with ((b =? 0) && bool_decide (z = ""%string))
    by (destruct (Z.eqb_spec b 0), (bool_decide_reflect (z = ""%string)); symmetry; simpl;
        (apply bool_decide_eq_true || apply bool_decide_eq_false); congruence).
  rewrite if_false_negb. f_equal. cbn [existsb blockedPrefixes].
  change (Contains (mkPrefix (Addr6 (Z.shiftl 0x64ff9b 96) "") 96) (Addr6 b z)) with
    (bool_decide (z = ""%string) && (Z.shiftr (Z.lxor b (Z.shiftl 0x64ff9b 96)) (128 - 96) =? 0)).
  rewrite prefix_eq by lia. rewrite block_interval in H1, H2 by lia.
  rewrite !block_interval by lia.
  cbn [Contains prefix_ip]. unfold in_ranges. cbn [existsb].
  compute_quotients. rewrite andb_true_iff, !Z.leb_le in H1, H2.
  destruct (bool_decide (z = ""%string)); apply Bool.eq_iff_eq_true; interval_cases;
    try apply H1 in H; try apply H2 in H; lia.
Qed.

(** C35: The outbound address check is exact on addresses without a zone. The
    webhook client refuses such an address if and only if it lies in one of the
    listed IPv4 or IPv6 ranges (loopback, private, carrier-grade NAT, link-local
    and cloud metadata, benchmarking, multicast, reserved, NAT64, unspecified),
    an IPv4-mapped IPv6 address being judged as the IPv4 address it carries. *)
Theorem isPublicAddr_exact a :
  Addr_ok a → Addr_zone a = ""%string → isPublicAddr a = negb (nonpublic a).
Proof.
  intros Hok Hz. destruct a as [b|b z]; cbn in Hok, Hz; [by apply isPublicAddr_Addr4|].
  subst z. cbn [nonpublic]. rewrite <- (Is4In6_interval b "").
  destruct (Is4In6 (Addr6 b "")) eqn:Hm.
  - rewrite isPublicAddr_mapped by done. rewrite Is4In6_interval in Hm. bool_to_prop.
    apply isPublicAddr_Addr4. lia.
  - rewrite isPublicAddr_Addr6 by done. f_equal. unfold in_ranges. cbn [existsb nonpublic6].
    rewrite bool_decide_eq_true_2 by done. lia.
Qed.

Lemma isPublicAddr_exact_witness :
  isPublicAddr (Addr4 (ipv4 169 254 169 254)) = false
  ∧ isPublicAddr (Addr6 (mapped_base + ipv4 127 0 0 1) "") = false
  ∧ isPublicAddr (Addr4 (ipv4 93 184 216 34)) = true.
Proof.
  split; [|split].
  - rewrite (isPublicAddr_exact (Addr4 (ipv4 169 254 169 254))); [reflexivity|by vm_compute|reflexivity].
  - reflexivity.
  - reflexivity.
Defined.

(** A zone does not let a loopback, unique-local, link-local or multicast
    address, or an IPv4-mapped private one, through: those ranges are refused
    whatever the zone. *)
Theorem isPublicAddr_zone_refused b z :
  0 <= b < 2 ^ 128 →
  nonpublic (Addr6 b z) = true →
  b ≠ 0 → ¬ (0x64ff9b * 2 ^ 96 <= b <= 0x64ff9b * 2 ^ 96 + (2 ^ 32 - 1)) →
  isPublicAddr (Addr6 b z) = false.
Proof.
  intros Hb Hn H0 Hnat. cbn [nonpublic] in Hn. rewrite <- (Is4In6_interval b z) in Hn.
  destruct (Is4In6 (Addr6 b z)) eqn:Hm.
  - rewrite isPublicAddr_mapped, isPublicAddr_Addr4, Hn; try done.
    rewrite Is4In6_interval in Hm. bool_to_prop. lia.
  - rewrite isPublicAddr_Addr6 by done. apply negb_false_iff, orb_true_iff. left.
    unfold in_ranges in *. cbn [existsb nonpublic6] in *. lia.
Qed.

Lemma isPublicAddr_zone_refused_witness : isPublicAddr (Addr6 1 "eth0") = false.
Proof. apply (isPublicAddr_zone_refused 1 "eth0"); [lia|reflexivity|lia|lia]. Defined.

(** C39: A zone does let the unspecified address and the NAT64 range through.
    [IsUnspecified] compares the zone too and [Prefix.Contains] is false for any
    zoned address, so [::%lo] and [64:ff9b::a9fe:a9fe%eth0] count as public and the
    dial hook accepts them. *)
Theorem isPublicAddr_zone_bypass b z :
  z ≠ ""%string →
  b = 0 ∨ 0x64ff9b * 2 ^ 96 <= b <= 0x64ff9b * 2 ^ 96 + (2 ^ 32 - 1) →
  nonpublic (Addr6 b "") = true ∧ dial_control false (Some (Addr6 b z)) = Ok tt.
Proof.
  intros Hz Hb.
  assert (0 <= b < 2 ^ 128) as Hr by lia.
  assert ((mapped_base <=? b) && (b <? mapped_base + 2 ^ 32) = false) as Hm
    by (unfold mapped_base; lia).
  split.
  - cbn [nonpublic]. rewrite Hm. unfold in_ranges. cbn [existsb nonpublic6]. lia.
  - cbn [dial_control]. rewrite isPublicAddr_Addr6; [|done|by rewrite Is4In6_interval].
    rewrite bool_decide_eq_false_2 by done.
    replace (in_ranges b _) with false; [done|]. symmetry.
    unfold in_ranges. cbn [existsb]. lia.
Qed.

Lemma isPublicAddr_zone_bypass_witness : dial_control false (Some (Addr6 0 "lo")) = Ok tt.
Proof. apply (isPublicAddr_zone_bypass 0 "lo"); [discriminate|by left]. Defined.
