(* ===== verification/Redis.v ===== *)
(** * The Redis commands the code issues

    internal/queue and internal/ratelimit keep all their state in Redis, and
    their two Lua scripts are sequences of Redis commands. This file gives the
    commands their documented effect on a keyspace: lists whose head is the left
    end, strings, hashes, and an optional expiry per key. A command on a key of
    another type fails (WRONGTYPE) and leaves the keyspace as it was; a script
    stops at the first failing command and keeps the effects before it. *)

From S2P Require Import Prelude GoBase.
Local Open Scope Z_scope.

Inductive rval :=
| RStr (s : string)
| RList (l : list string)
| RHash (h : gmap string string).

#[export] Instance rval_eq_dec : EqDecision rval.
Proof. solve_decision. Defined.

Record rentry := REntry { r_val : rval; r_exp : option Z }.

#[export] Instance rentry_eq_dec : EqDecision rentry.
Proof. solve_decision. Defined.

Abbreviation redis := (gmap string rentry).

(** A key past its expiry is gone for every command. *)
Definition live (now : Z) (e : rentry) : bool :=
  match r_exp e with None => true | Some t => now <=? t end.

Definition rget (now : Z) (r : redis) (k : string) : option rentry :=
  match r !! k with
  | Some e => if live now e then Some e else None
  | None => None
  end.

(** EXISTS *)
Definition rexists (now : Z) (r : redis) (k : string) : bool := bool_decide (is_Some (rget now r k)).

(** The list at a key, empty when there is none: what LRANGE k 0 -1 returns. *)
Definition rlist (now : Z) (r : redis) (k : string) : list string :=
  match rget now r k with Some (REntry (RList l) _) => l | _ => [] end.

(** A key that list commands accept. *)
Definition list_typed (now : Z) (r : redis) (k : string) : Prop :=
  ∀ e, rget now r k = Some e → ∃ l, r_val e = RList l.

(** ** Scripts: keyspace to keyspace, with a result or a script error *)
Definition script (A : Type) : Type := redis → redis * option A.

Definition sret {A} (a : A) : script A := λ r, (r, Some a).

Definition sbind {A B} (c : script A) (k : A → script B) : script B := λ r,
  match c r with
  | (r', Some a) => k a r'
  | (r', None) => (r', None)
  end.

Notation "'let!' x := c 'in' k" := (sbind c (λ x, k))
  (at level 10, x pattern, c at level 100, k at level 200,
   format "'[v' 'let!'  x  :=  c  'in' '/' k ']'") : sluice_scope.

(** ** Commands *)
Section commands.
Variable now : Z.

(** SET k v NX EX ttl: false when the key exists. *)
Definition SETNX_EX (k v : string) (ttl : Z) : script bool := λ r,
  if rexists now r k then (r, Some false)
  else (<[k := REntry (RStr v) (Some (now + ttl))]> r, Some true).

(** SET k v EX ttl. *)
Definition SET_EX (k v : string) (ttl : Z) : script unit := λ r,
  (<[k := REntry (RStr v) (Some (now + ttl))]> r, Some tt).

(** Store a list, keeping the key's expiry; an empty list is no key. *)
Definition put_list (k : string) (l : list string) (exp : option Z) (r : redis) : redis :=
  match l with [] => delete k r | _ => <[k := REntry (RList l) exp]> r end.

Definition LPUSH (k v : string) : script unit := λ r,
  match rget now r k with
  | None => (put_list k [v] None r, Some tt)
  | Some (REntry (RList l) exp) => (put_list k (v :: l) exp r, Some tt)
  | Some _ => (r, None)
  end.

(** LTRIM k 0 (n-1): keep the first [n] elements. *)
Definition LTRIM (k : string) (n : nat) : script unit := λ r,
  match rget now r k with
  | None => (r, Some tt)
  | Some (REntry (RList l) exp) => (put_list k (take n l) exp r, Some tt)
  | Some _ => (r, None)
  end.

(** RPOP: the last element, or nil. *)
Definition RPOP (k : string) : script (option string) := λ r,
  match rget now r k with
  | None => (r, Some None)
  | Some (REntry (RList l) exp) =>
      match last l with
      | None => (r, Some None)
      | Some v => (put_list k (take (pred (length l)) l) exp r, Some (Some v))
      end
  | Some _ => (r, None)
  end.

(** LREM k 0 v: remove every occurrence. *)
Definition LREM (k v : string) : script unit := λ r,
  match rget now r k with
  | None => (r, Some tt)
  | Some (REntry (RList l) exp) => (put_list k (filter (λ w, w ≠ v) l) exp r, Some tt)
  | Some _ => (r, None)
  end.

Definition DEL (k : string) : script unit := λ r, (delete k r, Some tt).

(** EXPIRE k ttl: sets the expiry of an existing key. *)
Definition EXPIRE (k : string) (ttl : Z) : script unit := λ r,
  match rget now r k with
  | None => (r, Some tt)
  | Some e => (<[k := REntry (r_val e) (Some (now + ttl))]> r, Some tt)
  end.

(** LRANGE k 0 -1 and LLEN. *)
Definition LRANGE (k : string) : script (list string) := λ r,
  match rget now r k with
  | None => (r, Some [])
  | Some (REntry (RList l) _) => (r, Some l)
  | Some _ => (r, None)
  end.
End commands.

(** ** Keys that always hold lists *)

(** A key that, when present, holds a list without expiry: the queue lists and
    the wake list. *)
Definition persistent_list (r : redis) (k : string) : Prop :=
  ∀ e, r !! k = Some e → ∃ l, e = REntry (RList l) None.

Definition qlist (r : redis) (k : string) : list string :=
  match r !! k with Some (REntry (RList l) _) => l | _ => [] end.

Section laws.
Context (now : Z) (r : redis) (k : string).

Lemma rget_insert_ne k' e : k ≠ k' → rget now (<[k := e]> r) k' = rget now r k'.
Proof. intros. unfold rget. by rewrite lookup_insert_ne. Qed.

Lemma rget_insert_eq e : rget now (<[k := e]> r) k = if live now e then Some e else None.
Proof. unfold rget. by rewrite lookup_insert_eq. Qed.

Lemma rget_delete_ne k' : k ≠ k' → rget now (delete k r) k' = rget now r k'.
Proof. intros. unfold rget. by rewrite lookup_delete_ne. Qed.

Lemma rget_delete_eq : rget now (delete k r) k = None.
Proof. unfold rget. by rewrite lookup_delete_eq. Qed.

Lemma rget_lookup e : rget now r k = Some e → r !! k = Some e.
Proof. unfold rget. destruct (r !! k); [case_match|]; congruence. Qed.

Lemma put_list_ne l exp k' : k ≠ k' → put_list k l exp r !! k' = r !! k'.
Proof. intros. unfold put_list. destruct l; [by rewrite lookup_delete_ne|by rewrite lookup_insert_ne]. Qed.

Lemma put_list_qlist l exp : qlist (put_list k l exp r) k = l.
Proof.
  unfold qlist, put_list. destruct l; [by rewrite lookup_delete_eq|by rewrite lookup_insert_eq].
Qed.

Lemma put_list_qlist_ne l exp k' : k ≠ k' → qlist (put_list k l exp r) k' = qlist r k'.
Proof. intros. unfold qlist. by rewrite put_list_ne. Qed.

Lemma put_list_rget_ne l exp k' : k ≠ k' → rget now (put_list k l exp r) k' = rget now r k'.
Proof. intros. unfold rget. by rewrite put_list_ne. Qed.

Lemma put_list_rlist l exp :
  (∀ t, exp = Some t → now <= t) → rlist now (put_list k l exp r) k = l.
Proof.
  intros Hexp. unfold rlist, put_list. destruct l as [|v l]; [by rewrite rget_delete_eq|].
  rewrite rget_insert_eq. unfold live. cbn. destruct exp as [t|]; [|done].
  destruct (Z.leb_spec now t); [done|]. specialize (Hexp t eq_refl). lia.
Qed.

Lemma put_list_persistent l k' :
  persistent_list r k' → persistent_list (put_list k l None r) k'.
Proof.
  intros Hp e. destruct (decide (k = k')) as [<-|].
  - unfold put_list. destruct l; [by rewrite lookup_delete_eq|].
    rewrite lookup_insert_eq. intros [= <-]. eauto.
  - rewrite put_list_ne by done. apply Hp.
Qed.

Section persistent.
Hypothesis Hk : persistent_list r k.

Lemma persistent_rget : rget now r k = r !! k.
Proof.
  unfold rget. destruct (r !! k) as [e|] eqn:He; [|done]. by destruct (Hk e He) as [l ->].
Qed.

Lemma LPUSH_persistent v : LPUSH now k v r = (put_list k (v :: qlist r k) None r, Some tt).
Proof.
  unfold LPUSH, qlist. rewrite persistent_rget.
  destruct (r !! k) as [e|] eqn:He; [|done]. by destruct (Hk e He) as [l ->].
Qed.

Lemma RPOP_persistent :
  RPOP now k r = match last (qlist r k) with
                 | None => (r, Some None)
                 | Some v => (put_list k (take (pred (length (qlist r k))) (qlist r k)) None r, Some (Some v))
                 end.
Proof.
  unfold RPOP, qlist. rewrite persistent_rget.
  destruct (r !! k) as [e|] eqn:He; [|done]. by destruct (Hk e He) as [l ->].
Qed.

Lemma LTRIM_persistent n :
  LTRIM now k n r = ((if decide (is_Some (r !! k)) then put_list k (take n (qlist r k)) None r else r), Some tt).
Proof.
  unfold LTRIM, qlist. rewrite persistent_rget.
  destruct (r !! k) as [e|] eqn:He.
  - rewrite decide_True by eauto. by destruct (Hk e He) as [l ->].
  - rewrite decide_False by (by intros [??]). done.
Qed.
End persistent.
End laws.
