(* ===== verification/Queue.v ===== *)
(** * Package queue: tenant-scoped priority queues in Redis

    internal/queue/queue.go. The two Lua scripts are written command by command
    over [Redis]; every method runs them with the keys the code builds. Job and
    tenant identifiers travel through Redis as text, so keys and list entries are
    strings here too, and the text functions of the UUID library are a parameter
    ([UuidText]). Each remote call takes the [fault] it meets. One call's commands
    run at one reading [now] of the clock. *)

From S2P Require Import Prelude GoBase Job Redis.
Local Open Scope Z_scope.
Local Open Scope sluice_scope.

(** ** Keys *)
Definition HeartbeatTTL : Z := 15 * Second.
Definition processingPrefix : string := "processing:".
Definition heartbeatPrefix : string := "heartbeat:".
Definition enqueuedPrefix : string := "enqueued:".
Definition workerAlivePrefix : string := "worker-alive:".
Definition wakeKey : string := "queue:wake".
Definition WorkerAliveTTL : Z := 15 * Second.
Definition EnqueuedTTL : Z := 10 * Minute.
Definition processingTTL : Z := Hour.

Definition priorityBuckets : list string := ["queue:1"; "queue:5"; "queue:10"]%string.

Definition bucketForPriority (priority : Z) : string :=
  if priority <=? PriorityHigh then "queue:1"
  else if priority <=? PriorityNormal then "queue:5"
  else "queue:10".

(** ** Errors and remote calls *)
Inductive queue_error := ErrRedis | ErrScript | ErrMalformedID (s : string).

(** Run a script or command on the server under a fault. *)
Definition call {A} (f : fault) (s : script A) (r : redis) : redis * result queue_error A :=
  match f with
  | LostRequest => (r, Err ErrRedis)
  | LostReply => (fst (s r), Err ErrRedis)
  | NoFault => match s r with
               | (r', Some a) => (r', Ok a)
               | (r', None) => (r', Err ErrScript)
               end
  end.

(** ** The scripts *)
Section scripts.
Variable now : Z.

(** KEYS = list, marker, wake list; ARGV = job id, marker lifetime. *)
Definition enqueueScript (list marker wake id : string) (ttl : Z) : script Z :=
  let! fresh := SETNX_EX now marker "1" ttl in
  if fresh then
    let! _ := LPUSH now list id in
    let! _ := LPUSH now wake "1" in
    let! _ := LTRIM now wake 1000 in
    sret 1
  else sret 0.

(** KEYS = the queue lists, the worker's processing list, (the wake list);
    ARGV = marker prefix, processing lifetime. *)
Fixpoint popScript (keys : list string) (dest prefix : string) (ttl : Z) : script (option (string * string)) :=
  match keys with
  | [] => sret None
  | k :: ks =>
      let! v := RPOP now k in
      match v with
      | Some v =>
          let! _ := DEL (prefix +:+ v) in
          let! _ := LPUSH now dest v in
          let! _ := EXPIRE now dest ttl in
          sret (Some (k, v))
      | None => popScript ks dest prefix ttl
      end
  end.
End scripts.

(** ** Weighted shuffle *)
Record TenantWeight := mkTenantWeight { tw_ID : uuid; tw_Weight : Z }.

Definition total_weight (l : list TenantWeight) : Z := foldl (λ acc t, int64 (acc + tw_Weight t)) 0 l.

(** The inner loop: the first tenant whose cumulative weight exceeds the draw,
    and the list without it. *)
Fixpoint pick (r cum : Z) (l : list TenantWeight) : option (uuid * list TenantWeight) :=
  match l with
  | [] => None
  | t :: rest =>
      let cum := int64 (cum + tw_Weight t) in
      if r <? cum then Some (tw_ID t, rest)
      else match pick r cum rest with
           | Some (id, rest') => Some (id, t :: rest')
           | None => None
           end
  end.

Inductive shuffle_outcome := Shuffled (l : list uuid) | ShufflePanic | ShuffleRunning.

(** The outer loop; [rnd i] is the [i]-th draw. [rand.Intn] panics when the total
    is not positive. A round that picks nothing leaves the list as it is. *)
Fixpoint shuffle_loop (rnd : nat → Z → Z) (fuel i : nat) (remaining : list TenantWeight) (out : list uuid)
    : shuffle_outcome :=
  match remaining with
  | [] => Shuffled out
  | _ :: _ =>
      match fuel with
      | O => ShuffleRunning
      | S fuel' =>
          let total := total_weight remaining in
          if total <=? 0 then ShufflePanic
          else match pick (rnd i total) 0 remaining with
               | Some (id, rest) => shuffle_loop rnd fuel' (S i) rest (out ++ [id])
               | None => shuffle_loop rnd fuel' (S i) remaining out
               end
      end
  end.

Definition weightedShuffle (rnd : nat → Z → Z) (fuel : nat) (tenants : list TenantWeight) : shuffle_outcome :=
  shuffle_loop rnd fuel 0 tenants [].

Section queue.
Context `{!UuidText}.

Definition queue_key (bucket : string) (tenantID : uuid) : string :=
  bucket +:+ ":" +:+ uuid_String tenantID.

Definition marker_key (jobID : uuid) : string := enqueuedPrefix +:+ uuid_String jobID.

Definition processing_key (workerID : string) : string := processingPrefix +:+ workerID.

Definition queue_keys (order : list uuid) : list string :=
  flat_map (λ bucket, queue_key bucket <$> order) priorityBuckets.

(** ** Enqueue, EnqueueMany, Requeue *)
Definition enqueue_to (f : fault) (now : Z) (list : string) (jobID : uuid) (r : redis)
    : redis * result queue_error unit :=
  let '(r', res) := call f (enqueueScript now list (marker_key jobID) wakeKey (uuid_String jobID) EnqueuedTTL) r in
  (r', match res with Ok _ => Ok tt | Err e => Err e end).

Definition Enqueue (f : fault) (now : Z) (tenantID jobID : uuid) (priority : Z) (r : redis)
    : redis * result queue_error unit :=
  enqueue_to f now (queue_key (bucketForPriority priority) tenantID) jobID r.

Record Entry := mkEntry { e_JobID : uuid; e_TenantID : uuid; e_Priority : Z }.

(** The pipelined scripts, run one after the other; one that fails does not
    stop the ones after it. *)
Fixpoint pipeline_enqueue (now : Z) (entries : list Entry) (r : redis) : redis * bool :=
  match entries with
  | [] => (r, true)
  | e :: es =>
      let '(r1, res) := Enqueue NoFault now (e_TenantID e) (e_JobID e) (e_Priority e) r in
      let '(r2, ok) := pipeline_enqueue now es r1 in
      (r2, match res with Ok _ => ok | Err _ => false end)
  end.

(** [cut]: [None] when every reply arrived; [Some n] when the connection was
    lost after the server had run the first [n] scripts. *)
Definition EnqueueMany (cut : option nat) (now : Z) (entries : list Entry) (r : redis)
    : redis * result queue_error unit :=
  match entries with
  | [] => (r, Ok tt)
  | _ =>
      match cut with
      | Some n => (fst (pipeline_enqueue now (take n entries) r), Err ErrRedis)
      | None =>
          let '(r', ok) := pipeline_enqueue now entries r in
          (r', if ok then Ok tt else Err ErrScript)
      end
  end.

Record Item := mkItem { it_JobID : uuid; it_List : string }.

Definition Requeue (f : fault) (now : Z) (item : Item) (r : redis) : redis * result queue_error unit :=
  enqueue_to f now (it_List item) (it_JobID item) r.

(** ** Pop *)

(** One run of the pop script and the parsing of its reply. *)
Definition pop_once (f : fault) (now : Z) (workerID : string) (order : list uuid) (r : redis)
    : redis * result queue_error (option Item) :=
  match call f (popScript now (queue_keys order) (processing_key workerID) enqueuedPrefix processingTTL) r with
  | (r', Ok (Some (k, v))) =>
      match uuid_Parse v with
      | Some id => (r', Ok (Some (mkItem id k)))
      | None => (r', Err (ErrMalformedID v))
      end
  | (r', Ok None) => (r', Ok None)
  | (r', Err e) => (r', Err e)
  end.

(** BLPOP of one wake token, when there is one. *)
Definition blpop_wake (now : Z) (r : redis) : redis :=
  match rget now r wakeKey with
  | Some (REntry (RList (_ :: l)) exp) => put_list wakeKey l exp r
  | _ => r
  end.

(** ** Liveness, heartbeats, processing lists *)
Definition MarkAlive (f : fault) (now : Z) (workerID : string) (r : redis) : redis * result queue_error unit :=
  call f (SET_EX now (workerAlivePrefix +:+ workerID) "1" WorkerAliveTTL) r.

Definition Heartbeat (f : fault) (now : Z) (jobID : uuid) (token : string) (r : redis)
    : redis * result queue_error unit :=
  call f (SET_EX now (heartbeatPrefix +:+ uuid_String jobID) token HeartbeatTTL) r.

Definition RemoveFromProcessing (f : fault) (now : Z) (workerID : string) (jobID : uuid) (r : redis)
    : redis * result queue_error unit :=
  call f (LREM now (processing_key workerID) (uuid_String jobID)) r.

(** [strings.TrimPrefix(key, "processing:")]. *)
Definition trim_processing (key : string) : string :=
  TrimPrefix processingPrefix key.

Definition worker_alive (now : Z) (r : redis) (key : string) : bool :=
  rexists now r (workerAlivePrefix +:+ trim_processing key).

(** One processing list a SCAN returned. [exists_fails] and [take] are the
    faults of EXISTS and of the LRANGE-and-DEL transaction. *)
Record scanned_key := mkScannedKey { sk_key : string; sk_exists_fails : bool; sk_take : fault }.

Fixpoint take_dead_lists (now : Z) (keys : list scanned_key) (r : redis) (out : list uuid)
    : redis * list uuid * bool :=
  match keys with
  | [] => (r, out, true)
  | s :: ks =>
      if sk_exists_fails s then (r, out, false)
      else if worker_alive now r (sk_key s) then take_dead_lists now ks r out
      else match sk_take s with
           | LostRequest => (r, out, false)
           | LostReply => (delete (sk_key s) r, out, false)
           | NoFault =>
               take_dead_lists now ks (delete (sk_key s) r) (out ++ omap uuid_Parse (rlist now r (sk_key s)))
           end
  end.

(** [DeadWorkerJobs]: [scans] are the replies of the SCAN cursor loop, [None] a
    failed call. The identifiers found so far are returned with an error too. *)
Fixpoint dead_worker_scan (now : Z) (scans : list (option (list scanned_key))) (r : redis) (out : list uuid)
    : redis * list uuid * bool :=
  match scans with
  | [] => (r, out, true)
  | None :: _ => (r, out, false)
  | Some keys :: rest =>
      match take_dead_lists now keys r out with
      | (r', out', true) => dead_worker_scan now rest r' out'
      | stop => stop
      end
  end.

Definition DeadWorkerJobs (now : Z) (scans : list (option (list scanned_key))) (r : redis)
    : redis * list uuid * bool :=
  dead_worker_scan now scans r [].

(** ** Depths *)
Record Depth := mkDepth { d_TenantID : uuid; d_Priority : string; d_Depth : Z }.

Definition priorityLabel (bucket : string) : string :=
  if String.eqb bucket "queue:1" then "high"
  else if String.eqb bucket "queue:5" then "normal"
  else if String.eqb bucket "queue:10" then "low"
  else "".

Definition Depths (f : fault) (now : Z) (tenantIDs : list uuid) (r : redis) : result queue_error (list Depth) :=
  match tenantIDs, f with
  | [], _ => Ok []
  | _, NoFault =>
      Ok (flat_map (λ id, (λ bucket, mkDepth id (priorityLabel bucket)
                              (Z.of_nat (length (rlist now r (queue_key bucket id))))) <$> priorityBuckets) tenantIDs)
  | _, _ => Err ErrRedis
  end.
End queue.

(** ** The weighted shuffle is a permutation, in proportion to weight *)

Fixpoint sum_weight (l : list TenantWeight) : Z :=
  match l with [] => 0 | t :: l' => tw_Weight t + sum_weight l' end.

(** What [loadTenants] guarantees of the weights it hands to the queue; the sum
    fits an [int] because the column is 32 bits wide. *)
Definition weights_ok (l : list TenantWeight) : Prop :=
  Forall (λ t, 0 < tw_Weight t) l ∧ sum_weight l < 2 ^ 63.

Lemma sum_weight_app l1 l2 : sum_weight (l1 ++ l2) = sum_weight l1 + sum_weight l2.
Proof. induction l1 as [|t l1 IH]; cbn; [done|]. rewrite IH. lia. Qed.

Lemma sum_weight_nonneg l : Forall (λ t, 0 < tw_Weight t) l → 0 <= sum_weight l.
Proof. induction 1; cbn; lia. Qed.

Lemma total_weight_sum l : weights_ok l → total_weight l = sum_weight l.
Proof.
  intros [Hpos Hlt]. unfold total_weight.
  assert (∀ acc, 0 <= acc → acc + sum_weight l < 2 ^ 63 →
    foldl (λ acc t, int64 (acc + tw_Weight t)) acc l = acc + sum_weight l) as H; [|rewrite H; lia].
  clear Hlt. induction Hpos as [|t l Ht Hpos IH]; intros acc Hacc Hs; cbn in *; [lia|].
  pose proof (sum_weight_nonneg l Hpos).
  rewrite int64_id by (unfold in_int64; lia). rewrite IH; lia.
Qed.

Lemma pick_at l1 : ∀ t l2 r cum,
  Forall (λ t, 0 < tw_Weight t) (l1 ++ t :: l2) → 0 <= cum → cum + sum_weight (l1 ++ t :: l2) < 2 ^ 63 →
  cum + sum_weight l1 <= r < cum + sum_weight l1 + tw_Weight t →
  pick r cum (l1 ++ t :: l2) = Some (tw_ID t, l1 ++ l2).
Proof.
  induction l1 as [|u l1 IH]; intros t l2 r cum Hpos Hcum Hs Hr; cbn in *;
    apply Forall_cons in Hpos as [Hu Hpos]; pose proof (sum_weight_nonneg _ Hpos);
    rewrite int64_id by (unfold in_int64; lia).
  - destruct (Z.ltb_spec r (cum + tw_Weight t)); [done|lia].
  - pose proof (sum_weight_nonneg l1 ltac:(by apply Forall_app in Hpos as [??])).
    destruct (Z.ltb_spec r (cum + tw_Weight u)); [lia|]. rewrite IH; done || lia.
Qed.

Lemma draw_hits l : ∀ r, Forall (λ t, 0 < tw_Weight t) l → 0 <= r < sum_weight l →
  ∃ l1 t l2, l = l1 ++ t :: l2 ∧ sum_weight l1 <= r < sum_weight l1 + tw_Weight t.
Proof.
  induction l as [|u l IH]; intros r Hpos Hr; cbn in Hr; [lia|].
  apply Forall_cons in Hpos as [Hu Hpos].
  destruct (decide (r < tw_Weight u)).
  - exists [], u, l. cbn. split; [done|lia].
  - destruct (IH (r - tw_Weight u) Hpos ltac:(lia)) as (l1&t&l2&->&?).
    exists (u :: l1), t, l2. cbn. split; [done|lia].
Qed.

Lemma weights_ok_remove l1 t l2 : weights_ok (l1 ++ t :: l2) → weights_ok (l1 ++ l2).
Proof.
  intros [Hpos Hs]. apply Forall_app in Hpos as [H1 [Ht H2]%Forall_cons].
  split; [by apply Forall_app|]. rewrite sum_weight_app in Hs. rewrite sum_weight_app. cbn in Hs. lia.
Qed.

Lemma shuffle_loop_perm rnd : (∀ i, Intn_ok (rnd i)) → ∀ fuel i l out,
  weights_ok l → (length l <= fuel)%nat →
  ∃ res, shuffle_loop rnd fuel i l out = Shuffled res ∧ res ≡ₚ out ++ (tw_ID <$> l).
Proof.
  intros Hrnd. induction fuel as [|fuel IH]; intros i l out Hok Hlen.
  - destruct l; [|cbn in Hlen; lia]. exists out. cbn. by rewrite app_nil_r.
  - destruct l as [|u l']; [exists out; cbn; by rewrite app_nil_r|].
    cbn [shuffle_loop]. rewrite (total_weight_sum _ Hok).
    assert (0 < sum_weight (u :: l')) as Hs.
    { destruct Hok as [Hp _]. apply Forall_cons in Hp as [? ?%sum_weight_nonneg]. cbn. lia. }
    set (l := u :: l') in *. clearbody l.
    destruct (Z.leb_spec (sum_weight l) 0); [lia|].
    destruct (draw_hits l (rnd i (sum_weight l)) (proj1 Hok) (Hrnd i _ Hs)) as (l1&t&l2&Hl&Hr).
    assert (pick (rnd i (sum_weight l)) 0 l = Some (tw_ID t, l1 ++ l2)) as ->.
    { rewrite Hl at 2. apply pick_at; [rewrite <- Hl; apply Hok|lia|rewrite <- Hl; apply Hok|lia]. }
    rewrite Hl in Hok, Hlen. rewrite length_app in Hlen. cbn in Hlen.
    destruct (IH (S i) (l1 ++ l2) (out ++ [tw_ID t])) as (res&->&Hres);
      [by eapply weights_ok_remove|rewrite length_app; lia|].
    exists res. split; [done|]. rewrite Hres, Hl, !fmap_app, fmap_cons. solve_Permutation.
Qed.

(** The weighted shuffle terminates and visits every tenant exactly once.
    For positive weights and whatever the random source returns, the loop ends
    within one round per tenant and its result is a permutation of the tenant
    identifiers. *)
Theorem weightedShuffle_permutation rnd tenants fuel :
  (∀ i, Intn_ok (rnd i)) → weights_ok tenants → (length tenants <= fuel)%nat →
  ∃ order, weightedShuffle rnd fuel tenants = Shuffled order ∧ order ≡ₚ tw_ID <$> tenants.
Proof. intros Hr Hw Hf. by apply (shuffle_loop_perm rnd Hr fuel 0 tenants []). Qed.

Lemma weightedShuffle_permutation_witness :
  ∃ order, weightedShuffle (λ _ n, n - 1) 2 [mkTenantWeight 1 100; mkTenantWeight 2 50] = Shuffled order
           ∧ order ≡ₚ [1%N; 2%N].
Proof.
  apply (weightedShuffle_permutation (λ _ n, n - 1) [mkTenantWeight 1 100; mkTenantWeight 2 50] 2).
  - intros _ n Hn. lia.
  - split; [repeat constructor|by vm_compute].
  - cbn. lia.
Defined.

(** Tenants are chosen in proportion to their weight. At every round, the
    draws that select a given tenant are exactly an interval of as many values as
    its weight, out of the total weight; the draw removes that tenant and no
    other. *)
Theorem pick_proportional l1 t l2 r :
  weights_ok (l1 ++ t :: l2) →
  total_weight (l1 ++ t :: l2) = sum_weight l1 + tw_Weight t + sum_weight l2
  ∧ (sum_weight l1 <= r < sum_weight l1 + tw_Weight t →
     pick r 0 (l1 ++ t :: l2) = Some (tw_ID t, l1 ++ l2)).
Proof.
  intros Hw. rewrite total_weight_sum by done. split.
  - rewrite sum_weight_app. cbn. lia.
  - intros Hr. apply pick_at; [apply Hw|lia|apply Hw|lia].
Qed.

Lemma pick_proportional_witness :
  pick 120 0 ([mkTenantWeight 1 100] ++ mkTenantWeight 2 50 :: []) = Some (2%N, [mkTenantWeight 1 100]).
Proof.
  apply (pick_proportional [mkTenantWeight 1 100] (mkTenantWeight 2 50) [] 120).
  - split; [repeat constructor|by vm_compute].
  - cbn. lia.
Defined.

(** ** The keyspace invariant

    Keys are told apart by their prefix: lists under [queue:] (the lanes and the
    wake list) never expire, lists under [processing:] may. *)
Definition has_prefix (p k : string) : Prop := String.prefix p k = true.

Definition lane_key (k : string) : Prop := has_prefix "queue:" k ∧ k ≠ wakeKey.

Record keyspace_ok (r : redis) : Prop := {
  ks_queue k : has_prefix "queue:" k → persistent_list r k;
  ks_processing k e : has_prefix processingPrefix k → r !! k = Some e → ∃ l exp, e = REntry (RList l) exp;
}.

Lemma has_prefix_app p s : has_prefix p (p +:+ s).
Proof.
  unfold has_prefix. induction p as [|c p IH]; [by destruct s|].
  change (String c p +:+ s) with (String c (p +:+ s)). cbn.
  destruct (ascii_dec c c); [apply IH|done].
Qed.

(** Two keys whose prefixes start with different characters differ. *)
Lemma prefix_char c p k : has_prefix (String c p) k → ∃ k', k = String c k'.
Proof.
  unfold has_prefix. destruct k as [|d k']; cbn; [done|].
  destruct (ascii_dec c d); [subst; eauto|done].
Qed.

Lemma prefix_ne c d p q k l :
  c ≠ d → has_prefix (String c p) k → has_prefix (String d q) l → k ≠ l.
Proof. intros Hcd [k' ->]%prefix_char [l' ->]%prefix_char [= ->]. done. Qed.

#[export] Hint Resolve has_prefix_app : sluice.

Lemma keyspace_ok_frame (r : redis) k e :
  keyspace_ok r → ¬ has_prefix "queue:" k → ¬ has_prefix processingPrefix k →
  keyspace_ok (<[k := e]> r).
Proof.
  intros [Hq Hp] Hnq Hnp. split.
  - intros k' Hk' e'. rewrite lookup_insert_ne by (intros ->; done). by apply Hq.
  - intros k' e' Hk'. rewrite lookup_insert_ne by (intros ->; done). by apply Hp.
Qed.

Lemma keyspace_ok_delete (r : redis) k : keyspace_ok r → keyspace_ok (delete k r).
Proof.
  intros [Hq Hp]. split.
  - intros k' Hk' e'. rewrite lookup_delete_Some. intros [_ ?]. by apply (Hq k').
  - intros k' e' Hk'. rewrite lookup_delete_Some. intros [_ ?]. by apply (Hp k').
Qed.

Lemma keyspace_ok_put_list (r : redis) k l exp :
  keyspace_ok r → (has_prefix "queue:" k → exp = None) → keyspace_ok (put_list k l exp r).
Proof.
  intros Hok Hexp. unfold put_list. destruct l; [by apply keyspace_ok_delete|].
  destruct Hok as [Hq Hp]. split.
  - intros k' Hk' e'. rewrite lookup_insert_Some. intros [[-> <-]|[_ ?]]; [|by apply (Hq k')].
    rewrite Hexp by done. eauto.
  - intros k' e' Hk'. rewrite lookup_insert_Some. intros [[_ <-]|[_ ?]]; [eauto|by apply (Hp k')].
Qed.

#[export] Hint Resolve keyspace_ok_delete keyspace_ok_put_list : sluice.

Lemma queue_not_enqueued k : has_prefix enqueuedPrefix k → ¬ has_prefix "queue:" k.
Proof. intros H1 H2. by apply (prefix_ne "e" "q" "nqueued:" "ueue:" k k). Qed.

Lemma processing_not_enqueued k : has_prefix enqueuedPrefix k → ¬ has_prefix processingPrefix k.
Proof. intros H1 H2. by apply (prefix_ne "e" "p" "nqueued:" "rocessing:" k k). Qed.

Lemma processing_not_queue k : has_prefix processingPrefix k → ¬ has_prefix "queue:" k.
Proof. intros H1 H2. by apply (prefix_ne "p" "q" "rocessing:" "ueue:" k k). Qed.

(** ** What one run of the enqueue script does *)
Record enqueued (now : Z) (list marker id : string) (ttl : Z) (r r' : redis) : Prop := {
  enq_list : qlist r' list = id :: qlist r list;
  enq_marker : r' !! marker = Some (REntry (RStr "1") (Some (now + ttl)));
  enq_frame k : k ≠ list → k ≠ marker → k ≠ wakeKey → r' !! k = r !! k;
  enq_ok : keyspace_ok r';
}.

Lemma enqueueScript_spec now list marker id ttl (r : redis) :
  keyspace_ok r → lane_key list → has_prefix enqueuedPrefix marker →
  if rexists now r marker then enqueueScript now list marker wakeKey id ttl r = (r, Some 0)
  else ∃ r', enqueueScript now list marker wakeKey id ttl r = (r', Some 1)
             ∧ enqueued now list marker id ttl r r'.
Proof.
  intros Hok [Hlist Hwake] Hm. unfold enqueueScript, sbind, SETNX_EX.
  destruct (rexists now r marker); [done|].
  set (r1 := <[marker := _]> r).
  assert (list ≠ marker) as Hlm by (intros ->; by apply (queue_not_enqueued marker)).
  assert (wakeKey ≠ marker) as Hwm by (intros <-; by apply (queue_not_enqueued wakeKey)).
  assert (keyspace_ok r1) as Hok1
    by (apply keyspace_ok_frame; [done|by apply queue_not_enqueued|by apply processing_not_enqueued]).
  rewrite LPUSH_persistent by (by apply Hok1).
  set (r2 := put_list list _ None r1). assert (keyspace_ok r2) as Hok2 by eauto with sluice.
  rewrite LPUSH_persistent by (by apply Hok2).
  set (r3 := put_list wakeKey _ None r2). assert (keyspace_ok r3) as Hok3 by eauto with sluice.
  rewrite LTRIM_persistent by (by apply Hok3).
  eexists. split; [reflexivity|].
  assert (keyspace_ok (put_list wakeKey (take 1000 (qlist r3 wakeKey)) None r3)) as Hok4 by eauto with sluice.
  set (r4 := if decide _ then _ else _).
  assert (∀ k, k ≠ wakeKey → r4 !! k = r2 !! k) as Hr4.
  { intros k Hk. unfold r4, r3. case_decide; rewrite !put_list_ne; done. }
  split.
  - unfold qlist at 1. rewrite Hr4 by done. fold (qlist r2 list). unfold r2. rewrite put_list_qlist.
    unfold qlist, r1. by rewrite lookup_insert_ne.
  - rewrite Hr4 by done. unfold r2. rewrite put_list_ne by done. unfold r1. by rewrite lookup_insert_eq.
  - intros k Hk Hk' Hk''. rewrite Hr4 by done. unfold r2. rewrite put_list_ne by done.
    unfold r1. by rewrite lookup_insert_ne.
  - unfold r4. by case_decide.
Qed.

(** ** What one run of the pop script does *)

(** Pushing onto the processing list and renewing its lifetime. *)
Lemma push_processing now dest v ttl (r : redis) :
  keyspace_ok r → has_prefix processingPrefix dest → 0 <= ttl →
  ∃ r1 r2, LPUSH now dest v r = (r1, Some tt) ∧ EXPIRE now dest ttl r1 = (r2, Some tt)
    ∧ rlist now r2 dest = v :: rlist now r dest
    ∧ (∀ k, k ≠ dest → r2 !! k = r !! k) ∧ keyspace_ok r2.
Proof.
  intros Hok Hd Httl.
  set (e := REntry (RList (v :: rlist now r dest)) (Some (now + ttl))).
  assert (∃ exp, LPUSH now dest v r = (<[dest := REntry (RList (v :: rlist now r dest)) exp]> r, Some tt)
                 ∧ live now (REntry (RList (v :: rlist now r dest)) exp) = true) as (exp&Hpush&Hlive).
  { unfold LPUSH, rlist. destruct (rget now r dest) as [e0|] eqn:He0; [|by exists None].
    pose proof (rget_lookup _ _ _ _ He0) as Hl.
    destruct (ks_processing r Hok dest e0 Hd Hl) as (l&exp&->). exists exp. split; [done|].
    unfold rget in He0. rewrite Hl in He0. unfold live in *. cbn in *.
    destruct exp as [t|]; [|done]. by destruct (now <=? t). }
  rewrite Hpush. eexists _, (<[dest := e]> r). split; [reflexivity|].
  split; [|split; [|split]].
  - unfold EXPIRE. rewrite rget_insert_eq, Hlive. cbn. by rewrite insert_insert_eq.
  - unfold rlist at 1. rewrite rget_insert_eq. unfold e, live. cbn.
    destruct (Z.leb_spec now (now + ttl)); [done|lia].
  - intros k Hk. by rewrite lookup_insert_ne.
  - destruct (keyspace_ok_put_list r dest (v :: rlist now r dest) (Some (now + ttl)) Hok) as [? ?];
      [intros ?; by destruct (processing_not_queue dest)|].
    by split.
Qed.

Record popped (now : Z) (k v : string) (rest : list string) (dest marker : string) (r r' : redis) : Prop := {
  pop_list : qlist r' k = rest;
  pop_marker : r' !! marker = None;
  pop_dest : rlist now r' dest = v :: rlist now r dest;
  pop_frame k' : k' ≠ k → k' ≠ dest → k' ≠ marker → r' !! k' = r !! k';
  pop_ok : keyspace_ok r';
}.

(** Nothing to pop, or the last entry of the first lane that has one. *)
Definition pop_result (now : Z) (keys : list string) (dest prefix : string) (r : redis)
    (res : redis * option (option (string * string))) : Prop :=
  (Forall (λ k, qlist r k = []) keys ∧ res = (r, Some None))
  ∨ ∃ pre k post rest v r', keys = pre ++ k :: post ∧ Forall (λ k, qlist r k = []) pre
      ∧ qlist r k = rest ++ [v] ∧ res = (r', Some (Some (k, v)))
      ∧ popped now k v rest dest (prefix +:+ v) r r'.

Lemma popScript_spec now keys dest ttl (r : redis) :
  keyspace_ok r → Forall lane_key keys → has_prefix processingPrefix dest → 0 <= ttl →
  pop_result now keys dest enqueuedPrefix r (popScript now keys dest enqueuedPrefix ttl r).
Proof.
  intros Hok Hkeys Hd Httl. induction Hkeys as [|k ks [Hk _] _ IH]; [by left|].
  cbn [popScript]. unfold sbind at 1. rewrite RPOP_persistent by (by apply Hok).
  destruct (qlist r k) as [|v l _] eqn:Hl using rev_ind; [cbn|].
  { destruct IH as [[Hall ->]|(pre&k'&post&rest&v&r'&->&Hpre&?)].
    - left. split; [by constructor|done].
    - right. exists (k :: pre), k', post, rest, v, r'. split; [done|]. split; [by constructor|done]. }
  rewrite last_snoc. rewrite length_app, Nat.add_1_r. cbn [pred length].
  rewrite take_app_length. right.
  set (marker := enqueuedPrefix +:+ v). set (r1 := put_list k l None r). set (r2 := delete marker r1).
  assert (has_prefix enqueuedPrefix marker) as Hm by apply has_prefix_app.
  assert (k ≠ marker ∧ dest ≠ marker ∧ k ≠ dest) as (Hkm&Hdm&Hkd).
  { split; [|split]; intros ->;
      [by apply (queue_not_enqueued marker)|by apply (processing_not_enqueued marker)
      |by apply (processing_not_queue dest)]. }
  assert (keyspace_ok r2) as Hok2 by (unfold r2, r1; eauto with sluice).
  destruct (push_processing now dest v ttl r2 Hok2 Hd Httl) as (r3&r4&Hpush&Hexp&Hdest&Hframe&Hok4).
  exists [], k, ks, l, v, r4. split; [done|]. split; [done|]. split; [done|]. split.
  { unfold sbind, DEL. fold r2. rewrite Hpush, Hexp. done. }
  split; [| | | |done].
  - unfold qlist. rewrite Hframe by done. unfold r2. rewrite lookup_delete_ne by done.
    unfold r1. apply put_list_qlist.
  - rewrite Hframe by done. apply lookup_delete_eq.
  - rewrite Hdest. f_equal. unfold rlist, rget, r2. rewrite lookup_delete_ne by done.
    unfold r1. by rewrite put_list_ne.
  - intros k' ???. rewrite Hframe by done. unfold r2. rewrite lookup_delete_ne by done.
    unfold r1. by rewrite put_list_ne.
Qed.

Section queue_facts.
Context `{!UuidText}.

Lemma append_assoc_lit (s t u : string) : (s +:+ t) +:+ u = s +:+ (t +:+ u).
Proof.
  induction s as [|c s IH]; [done|].
  change (String c (s +:+ t) +:+ u = String c (s +:+ (t +:+ u))).
  change (String c ((s +:+ t) +:+ u) = String c (s +:+ (t +:+ u))). by rewrite IH.
Qed.

Lemma queue_key_lane b t : b ∈ priorityBuckets → lane_key (queue_key b t).
Proof.
  intros Hb. unfold priorityBuckets in Hb. rewrite !elem_of_cons, elem_of_nil in Hb.
  destruct Hb as [->|[->|[->|[]]]]; (split; [|discriminate]).
  - apply (has_prefix_app "queue:" ("1:" +:+ uuid_String t)).
  - apply (has_prefix_app "queue:" ("5:" +:+ uuid_String t)).
  - apply (has_prefix_app "queue:" ("10:" +:+ uuid_String t)).
Qed.

Lemma bucketForPriority_bucket p : bucketForPriority p ∈ priorityBuckets.
Proof. unfold bucketForPriority, priorityBuckets. zcases; set_solver. Qed.

Lemma marker_key_enqueued j : has_prefix enqueuedPrefix (marker_key j).
Proof. apply has_prefix_app. Qed.

Lemma processing_key_prefix w : has_prefix processingPrefix (processing_key w).
Proof. apply has_prefix_app. Qed.

Lemma queue_keys_lanes order : Forall lane_key (queue_keys order).
Proof.
  apply Forall_forall. intros k Hk. unfold queue_keys in Hk.
  rewrite list_elem_of_In, in_flat_map in Hk. destruct Hk as (b&Hb&Hk).
  rewrite <- list_elem_of_In in Hb, Hk. apply list_elem_of_fmap in Hk as (t&->&_).
  by apply queue_key_lane.
Qed.
End queue_facts.

#[export] Hint Resolve queue_key_lane bucketForPriority_bucket marker_key_enqueued
  processing_key_prefix queue_keys_lanes : sluice.

(** ** Enqueueing is idempotent *)
Section enqueue_facts.
Context `{!UuidText}.

Lemma enqueue_to_spec now list jobID (r : redis) :
  keyspace_ok r → lane_key list →
  if rexists now r (marker_key jobID) then enqueue_to NoFault now list jobID r = (r, Ok tt)
  else ∃ r', enqueue_to NoFault now list jobID r = (r', Ok tt)
             ∧ enqueued now list (marker_key jobID) (uuid_String jobID) EnqueuedTTL r r'.
Proof.
  intros Hok Hl.
  pose proof (enqueueScript_spec now list (marker_key jobID) (uuid_String jobID) EnqueuedTTL r
                Hok Hl (marker_key_enqueued jobID)) as Hs.
  unfold enqueue_to, call. destruct (rexists now r (marker_key jobID)).
  - by rewrite Hs.
  - destruct Hs as (r'&->&Hs). eauto.
Qed.

(** The state an enqueue leaves behind, under any fault, is one of two. *)
Lemma enqueue_to_cases f now list jobID (r : redis) :
  keyspace_ok r → lane_key list →
  fst (enqueue_to f now list jobID r) = r
  ∨ rexists now r (marker_key jobID) = false
    ∧ enqueued now list (marker_key jobID) (uuid_String jobID) EnqueuedTTL r (fst (enqueue_to f now list jobID r)).
Proof.
  intros Hok Hl.
  pose proof (enqueueScript_spec now list (marker_key jobID) (uuid_String jobID) EnqueuedTTL r
                Hok Hl (marker_key_enqueued jobID)) as Hs.
  unfold enqueue_to, call.
  destruct (rexists now r (marker_key jobID)), f; try (by left);
    try (rewrite Hs; by left); destruct Hs as (r'&->&Hs); right; done.
Qed.

(** Enqueueing a job that is already queued changes nothing. If a first
    enqueue pushed the job, then for the next ten minutes every further enqueue or
    requeue of it, to any lane and under any fault, leaves Redis exactly as it
    is. *)
Theorem Enqueue_idempotent f f' now now' tenantID tenantID' jobID p p' (r : redis) :
  keyspace_ok r → rexists now r (marker_key jobID) = false → f ≠ LostRequest →
  now <= now' <= now + EnqueuedTTL →
  let r1 := fst (Enqueue f now tenantID jobID p r) in
  qlist r1 (queue_key (bucketForPriority p) tenantID)
    = uuid_String jobID :: qlist r (queue_key (bucketForPriority p) tenantID)
  ∧ fst (Enqueue f' now' tenantID' jobID p' r1) = r1.
Proof.
  intros Hok Hm Hf Hnow r1.
  assert (enqueued now (queue_key (bucketForPriority p) tenantID) (marker_key jobID)
            (uuid_String jobID) EnqueuedTTL r r1) as [Hl Hmk _ Hok1].
  { pose proof (enqueueScript_spec now (queue_key (bucketForPriority p) tenantID) (marker_key jobID)
      (uuid_String jobID) EnqueuedTTL r Hok ltac:(auto with sluice) ltac:(auto with sluice)) as Hs.
    rewrite Hm in Hs. destruct Hs as (r'&Hr&He).
    unfold r1, Enqueue, enqueue_to, call. rewrite Hr. by destruct f. }
  split; [done|].
  assert (rexists now' r1 (marker_key jobID) = true) as Hm1.
  { unfold rexists, rget. rewrite Hmk. unfold live. cbn.
    destruct (Z.leb_spec now' (now + EnqueuedTTL)); [|lia]. apply bool_decide_eq_true_2. eauto. }
  destruct (enqueue_to_cases f' now' (queue_key (bucketForPriority p') tenantID') jobID r1 Hok1
              ltac:(auto with sluice)) as [Hs|[Hs _]]; [done|congruence].
Qed.
End enqueue_facts.

(** ** Pop: strict priority, oldest first, and no job lost *)
Section pop_facts.
Context `{!UuidText}.

Lemma pop_once_cases f now w order (r : redis) :
  keyspace_ok r →
  fst (pop_once f now w order r) = r
  ∨ ∃ pre k post rest v, queue_keys order = pre ++ k :: post ∧ Forall (λ k, qlist r k = []) pre
      ∧ qlist r k = rest ++ [v]
      ∧ popped now k v rest (processing_key w) (enqueuedPrefix +:+ v) r (fst (pop_once f now w order r)).
Proof.
  intros Hok.
  pose proof (popScript_spec now (queue_keys order) (processing_key w) processingTTL r Hok
                ltac:(auto with sluice) ltac:(auto with sluice) ltac:(done)) as Hs.
  unfold pop_once, call. destruct f; [| by left |];
    destruct Hs as [[_ ->]|(pre&k&post&rest&v&r'&Hk&Hpre&Hv&->&Hpop)]; try (by left); right;
    exists pre, k, post, rest, v; cbn; try done.
  by destruct (uuid_Parse v).
Qed.

Lemma pop_once_item now w order (r r' : redis) item :
  keyspace_ok r → pop_once NoFault now w order r = (r', Ok (Some item)) →
  ∃ pre post rest v, queue_keys order = pre ++ it_List item :: post ∧ Forall (λ k, qlist r k = []) pre
    ∧ qlist r (it_List item) = rest ++ [v] ∧ uuid_Parse v = Some (it_JobID item)
    ∧ popped now (it_List item) v rest (processing_key w) (enqueuedPrefix +:+ v) r r'.
Proof.
  intros Hok.
  pose proof (popScript_spec now (queue_keys order) (processing_key w) processingTTL r Hok
                ltac:(auto with sluice) ltac:(auto with sluice) ltac:(done)) as Hs.
  unfold pop_once, call.
  destruct Hs as [[_ ->]|(pre&k&post&rest&v&r1&Hk&Hpre&Hv&->&Hpop)]; [done|].
  destruct (uuid_Parse v) as [id|] eqn:Hid; [|done].
  intros [= <- <-]. exists pre, post, rest, v. done.
Qed.

(** The lanes before a split point of the key list are those of the better
    buckets, and some of the same bucket. *)
Lemma queue_keys_split order pre k post :
  queue_keys order = pre ++ k :: post →
  ∃ i b t, priorityBuckets !! i = Some b ∧ t ∈ order ∧ k = queue_key b t
    ∧ ∀ j b' t', (j < i)%nat → priorityBuckets !! j = Some b' → t' ∈ order → queue_key b' t' ∈ pre.
Proof.
  unfold queue_keys. generalize priorityBuckets as bs. intros bs. revert pre.
  induction bs as [|b bs IH]; intros pre Hk; cbn in Hk; [by destruct pre|].
  apply app_eq_inv in Hk as [(l&Hb&Hl)|(l&->&Hl)].
  - destruct l as [|k' l]; cbn in Hl.
    + rewrite app_nil_r in Hb. destruct (IH [] (eq_sym Hl)) as (i&b0&t&Hi&Ht&Hkt&Hall).
      exists (S i), b0, t. repeat (split; [done|]).
      intros [|j] b' t' Hj Hb' Ht'; cbn in Hb'.
      * injection Hb' as <-. rewrite <- Hb. by apply list_elem_of_fmap_2.
      * by destruct (not_elem_of_nil (queue_key b' t')); apply (Hall j); [lia|..].
    + injection Hl as <- _. assert (k ∈ queue_key b <$> order) as Hin by (rewrite Hb; set_solver).
      apply list_elem_of_fmap in Hin as (t&->&Ht). exists O, b, t. repeat (split; [done|]). lia.
  - destruct (IH l Hl) as (i&b0&t&Hi&Ht&Hkt&Hall). exists (S i), b0, t. repeat (split; [done|]).
    intros [|j] b' t' Hj Hb' Ht'; cbn in Hb'; apply elem_of_app.
    + injection Hb' as <-. left. by apply list_elem_of_fmap_2.
    + right. apply (Hall j); [lia|done..].
Qed.

(** Priority lanes are strict and lanes are first-in first-out. When a pop
    returns a job, it came from the lane of some bucket and tenant, every lane of
    every higher-priority bucket was empty for every tenant being served, and the
    job was the oldest entry of its lane. *)
Theorem Pop_strict_priority now w order (r r' : redis) item :
  keyspace_ok r → pop_once NoFault now w order r = (r', Ok (Some item)) →
  ∃ i b t, priorityBuckets !! i = Some b ∧ t ∈ order ∧ it_List item = queue_key b t
    ∧ (∀ j b' t', (j < i)%nat → priorityBuckets !! j = Some b' → t' ∈ order → qlist r (queue_key b' t') = [])
    ∧ ∃ v, last (qlist r (it_List item)) = Some v ∧ uuid_Parse v = Some (it_JobID item).
Proof.
  intros Hok Hpop.
  destruct (pop_once_item _ _ _ _ _ _ Hok Hpop) as (pre&post&rest&v&Hk&Hpre&Hv&Hid&_).
  destruct (queue_keys_split _ _ _ _ Hk) as (i&b&t&Hi&Ht&Hkt&Hall).
  exists i, b, t. repeat (split; [done|]). split.
  - intros j b' t' Hj Hb' Ht'. rewrite Forall_forall in Hpre. by apply Hpre, (Hall j).
  - exists v. by rewrite Hv, last_snoc.
Qed.

(** C32: A pop never loses a job. Under any fault, including a reply lost after
    the script ran, every entry that was in a lane or in the worker's processing
    list before the call is in a lane or in that processing list after it. *)
Theorem Pop_no_loss f now w order (r : redis) s :
  keyspace_ok r →
  let r' := fst (pop_once f now w order r) in
  (∃ k, lane_key k ∧ s ∈ qlist r k) ∨ s ∈ rlist now r (processing_key w) →
  (∃ k, lane_key k ∧ s ∈ qlist r' k) ∨ s ∈ rlist now r' (processing_key w).
Proof.
  intros Hok r' Hin. subst r'.
  destruct (pop_once_cases f now w order r Hok) as [->|(pre&k&post&rest&v&Hk&_&Hv&[Hl _ Hd Hf _])]; [done|].
  destruct Hin as [(k0&Hlane&Hs)|Hs]; [|right; rewrite Hd; by right].
  destruct (decide (k0 = k)) as [->|Hne].
  - rewrite Hv in Hs. apply elem_of_app in Hs as [Hs|Hs%list_elem_of_singleton].
    + left. exists k. by rewrite Hl.
    + right. rewrite Hd, Hs. by left.
  - left. exists k0. split; [done|]. unfold qlist. rewrite Hf; [done|done|..]; intros ->.
    + by apply (processing_not_queue (processing_key w)); [apply processing_key_prefix|apply Hlane].
    + by apply (queue_not_enqueued (enqueuedPrefix +:+ v)); [apply has_prefix_app|apply Hlane].
Qed.
End pop_facts.

(** ** The marker invariant

    The ["already queued"] marker of a job must not outlive its list entry, or no
    path could re-enqueue the job until the marker expired. [marker_backed] says
    that every live marker has an entry in some lane. *)
Definition marker_backed (now : Z) (r : redis) : Prop :=
  ∀ s, rexists now r (enqueuedPrefix +:+ s) = true → ∃ k, lane_key k ∧ s ∈ qlist r k.

Record queue_inv (now : Z) (r : redis) : Prop := {
  qi_keyspace : keyspace_ok r;
  qi_marker : marker_backed now r;
}.

Lemma rexists_Some now (r : redis) k : rexists now r k = true ↔ ∃ e, r !! k = Some e ∧ live now e = true.
Proof.
  unfold rexists, rget. rewrite bool_decide_eq_true. destruct (r !! k) as [e|].
  - destruct (live now e) eqn:Hl; split; [by eauto|by eauto|by intros [??]|].
    intros (e'&[= ->]&?). congruence.
  - split; [by intros [??]|by intros (?&?&_)].
Qed.

(** Marker keys are determined by the job text. *)
Lemma marker_inj s t : enqueuedPrefix +:+ s = enqueuedPrefix +:+ t → s = t.
Proof. apply (inj (String.append enqueuedPrefix)). Qed.

Lemma marker_backed_mono now (r r' : redis) :
  (∀ s, rexists now r' (enqueuedPrefix +:+ s) = true → rexists now r (enqueuedPrefix +:+ s) = true) →
  (∀ k s, lane_key k → s ∈ qlist r k → s ∈ qlist r' k) →
  marker_backed now r → marker_backed now r'.
Proof. intros Hm Hl Hb s Hs. destruct (Hb s (Hm s Hs)) as (k&Hk&Hin). exists k. auto. Qed.

(** A step that touches neither lanes nor markers. *)
Lemma queue_inv_other now (r r' : redis) :
  (∀ k, lane_key k ∨ has_prefix enqueuedPrefix k → r' !! k = r !! k) →
  keyspace_ok r' → queue_inv now r → queue_inv now r'.
Proof.
  intros Hsame Hok [_ Hb]. split; [done|]. apply (marker_backed_mono now r); [| |done].
  - intros s. unfold rexists, rget. rewrite Hsame; [done|]. right. apply has_prefix_app.
  - intros k s Hk. unfold qlist. rewrite Hsame; [done|by left].
Qed.

Lemma queue_inv_tick now now' r : now <= now' → queue_inv now r → queue_inv now' r.
Proof.
  intros Hle [Hok Hb]. split; [done|]. intros s Hs. apply Hb. rewrite rexists_Some in *.
  destruct Hs as (e&He&Hl). exists e. split; [done|]. unfold live in *.
  destruct (r_exp e); [|done]. bool_to_prop. apply Z.leb_le. lia.
Qed.

(** A key of another family than lanes, markers and processing lists. *)
Lemma queue_inv_set_other now c p k e r :
  c ≠ "q"%char → c ≠ "e"%char → c ≠ "p"%char → has_prefix (String c p) k →
  queue_inv now r → queue_inv now (<[k := e]> r).
Proof.
  intros Hq He Hp Hk Hi. eapply queue_inv_other; [| |done].
  - intros k' [[Hk' _]|Hk']; rewrite lookup_insert_ne; [done| |done|];
      intros ->; [by eapply (prefix_ne c "q")|by eapply (prefix_ne c "e")].
  - apply keyspace_ok_frame; [apply Hi|..]; intros Hk'; [by eapply (prefix_ne c "q")|by eapply (prefix_ne c "p")].
Qed.

(** Rewriting or removing a processing list. *)
Lemma queue_inv_processing now k l exp r :
  has_prefix processingPrefix k → queue_inv now r → queue_inv now (put_list k l exp r).
Proof.
  intros Hk Hi. eapply queue_inv_other; [| |done].
  - intros k' [[Hk' _]|Hk']; rewrite put_list_ne; try done; intros ->;
      [by apply (processing_not_queue k')|by apply (processing_not_enqueued k')].
  - apply keyspace_ok_put_list; [apply Hi|]. intros ?. by destruct (processing_not_queue k).
Qed.

Section queue_invariant.
Context `{!UuidText}.

Lemma queue_inv_enqueue f now list jobID r :
  lane_key list → queue_inv now r → queue_inv now (fst (enqueue_to f now list jobID r)).
Proof.
  intros Hl [Hok Hb].
  destruct (enqueue_to_cases f now list jobID r Hok Hl) as [->|[Hm [Hlist Hmark Hf Hok']]]; [done|].
  split; [done|]. intros s Hs.
  destruct (decide (s = uuid_String jobID)) as [->|Hne].
  { exists list. split; [done|]. rewrite Hlist. by left. }
  assert (enqueuedPrefix +:+ s ≠ marker_key jobID) as Hsm by (intros ?%marker_inj; done).
  assert (has_prefix enqueuedPrefix (enqueuedPrefix +:+ s)) as Hp by apply has_prefix_app.
  destruct (Hb s) as (k&Hk&Hin).
  { revert Hs. unfold rexists, rget. rewrite Hf; [done| |done|]; intros Heq; rewrite Heq in Hp.
    - by apply (queue_not_enqueued list); [|apply Hl].
    - by apply (queue_not_enqueued wakeKey). }
  exists k. split; [done|]. destruct (decide (k = list)) as [->|Hkl]; [rewrite Hlist; by right|].
  unfold qlist. rewrite Hf; [done|done| |apply Hk].
  intros ->. by apply (queue_not_enqueued (marker_key jobID)); [apply marker_key_enqueued|apply Hk].
Qed.

Lemma queue_inv_pipeline now entries : ∀ r,
  queue_inv now r → queue_inv now (fst (pipeline_enqueue now entries r)).
Proof.
  induction entries as [|e es IH]; intros r Hi; cbn; [done|].
  destruct (Enqueue _ _ _ _ _ r) as [r1 res] eqn:He.
  assert (queue_inv now r1) as H1.
  { apply (f_equal fst) in He. cbn in He. subst r1. apply queue_inv_enqueue; auto with sluice. }
  specialize (IH r1 H1). by destruct (pipeline_enqueue now es r1).
Qed.

Lemma queue_inv_pop f now w order r :
  queue_inv now r → queue_inv now (fst (pop_once f now w order r)).
Proof.
  intros [Hok Hb].
  destruct (pop_once_cases f now w order r Hok) as [->|(pre&k&post&rest&v&Hk&_&Hv&[Hl Hm Hd Hf Hok'])]; [done|].
  assert (lane_key k) as Hlk.
  { pose proof (queue_keys_lanes order) as Hall. rewrite Hk in Hall.
    by apply Forall_app in Hall as [_ [? _]%Forall_cons]. }
  split; [done|]. intros s Hs.
  destruct (decide (s = v)) as [->|Hne].
  { apply rexists_Some in Hs as (e&He&_). congruence. }
  assert (∀ k', lane_key k' ∨ has_prefix enqueuedPrefix k' → k' ≠ processing_key w) as Hnp.
  { intros k' Hk' ->. pose proof (processing_key_prefix w).
    destruct Hk' as [[? _]|?]; [by apply (processing_not_queue (processing_key w))
                               |by apply (processing_not_enqueued (processing_key w))]. }
  assert (has_prefix enqueuedPrefix (enqueuedPrefix +:+ s)) as Hp by apply has_prefix_app.
  destruct (Hb s) as (k0&Hk0&Hin).
  { revert Hs. unfold rexists, rget. rewrite Hf; [done| |by apply Hnp; right|by intros ?%marker_inj].
    intros Heq. rewrite Heq in Hp. by apply (queue_not_enqueued k); [|apply Hlk]. }
  exists k0. split; [done|]. destruct (decide (k0 = k)) as [->|].
  - rewrite Hv in Hin. rewrite Hl. apply elem_of_app in Hin as [?|?%list_elem_of_singleton]; done.
  - unfold qlist. rewrite Hf; [done|done|by apply Hnp; left|].
    intros ->. by apply (queue_not_enqueued (enqueuedPrefix +:+ v)); [apply has_prefix_app|apply Hk0].
Qed.

Lemma queue_inv_wake now now' r : queue_inv now r → queue_inv now (blpop_wake now' r).
Proof.
  intros Hi. unfold blpop_wake. destruct (rget now' r wakeKey) as [[v exp]|] eqn:Hg; [|done].
  apply rget_lookup in Hg. destruct (ks_queue r (qi_keyspace _ _ Hi) wakeKey eq_refl _ Hg) as [l [= -> ->]].
  destruct l as [|x l]; [done|]. eapply queue_inv_other; [| |done].
  - intros k [[_ Hk]|Hk]; rewrite put_list_ne; try done.
    intros Heq. rewrite <- Heq in Hk. by apply (queue_not_enqueued wakeKey).
  - apply keyspace_ok_put_list; [apply Hi|done].
Qed.
End queue_invariant.
