(* ===== verification/QueueInv.v ===== *)
(** * What the Redis queue guarantees over any run

    [Queue] models each operation of [internal/queue/queue.go]; this file closes
    them into a step relation, proves the queue invariant of every reachable
    keyspace, and proves what the dead-worker scan recovers. It ends with the
    concrete keyspaces on which the queue theorems are exercised. *)

From S2P Require Import Prelude GoBase Redis Queue.

Open Scope Z_scope.

Section queue_steps.
Context `{!UuidText}.

(** ** The queue as a transition system

    One step is one call a scheduler, a worker or another client makes, under
    any fault, or time passing. [qs_foreign] is a write of another component of
    the program (the rate limiter), whose keys share no prefix with the queue's. *)
Inductive queue_step : Z * redis → Z * redis → Prop :=
| qs_tick now now' r :
    now <= now' → queue_step (now, r) (now', r)
| qs_enqueue now r f tenantID jobID priority :
    queue_step (now, r) (now, fst (Enqueue f now tenantID jobID priority r))
| qs_enqueue_many now r cut entries :
    queue_step (now, r) (now, fst (EnqueueMany cut now entries r))
| qs_requeue now r f item :
    lane_key (it_List item) → queue_step (now, r) (now, fst (Requeue f now item r))
| qs_pop now r f w order :
    queue_step (now, r) (now, fst (pop_once f now w order r))
| qs_wake now r :
    queue_step (now, r) (now, blpop_wake now r)
| qs_mark_alive now r f w :
    queue_step (now, r) (now, fst (MarkAlive f now w r))
| qs_heartbeat now r f jobID token :
    queue_step (now, r) (now, fst (Heartbeat f now jobID token r))
| qs_remove now r f w jobID :
    queue_step (now, r) (now, fst (RemoveFromProcessing f now w jobID r))
| qs_dead_workers now r scans :
    Forall (λ reply, ∀ ks, reply = Some ks → Forall (λ s, has_prefix processingPrefix (sk_key s)) ks) scans →
    queue_step (now, r) (now, fst (fst (DeadWorkerJobs now scans r)))
| qs_foreign now r c p k e :
    c ≠ "q"%char → c ≠ "e"%char → c ≠ "p"%char → has_prefix (String c p) k →
    queue_step (now, r) (now, <[k := e]> r).

(** ** Every reachable keyspace satisfies the queue invariant *)

Lemma queue_inv_call_set now f c p k v ttl r :
  c ≠ "q"%char → c ≠ "e"%char → c ≠ "p"%char → has_prefix (String c p) k →
  queue_inv now r → queue_inv now (fst (call f (SET_EX now k v ttl) r)).
Proof. intros. destruct f; cbn; try done; by eapply queue_inv_set_other. Qed.

Lemma queue_inv_remove now f w jobID r :
  queue_inv now r → queue_inv now (fst (RemoveFromProcessing f now w jobID r)).
Proof.
  intros Hi. pose proof (processing_key_prefix w) as Hp. unfold RemoveFromProcessing, call, LREM.
  destruct f; [|done|];
    (destruct (rget _ _ _) as [[[] ?]|] eqn:?; cbn; try done; by apply queue_inv_processing).
Qed.

Lemma queue_inv_delete_processing now k r :
  has_prefix processingPrefix k → queue_inv now r → queue_inv now (delete k r).
Proof. intros Hk Hi. by apply (queue_inv_processing now k [] None). Qed.

Lemma queue_inv_take_dead now keys : ∀ r out,
  Forall (λ s, has_prefix processingPrefix (sk_key s)) keys →
  queue_inv now r → queue_inv now (fst (fst (take_dead_lists now keys r out))).
Proof.
  induction keys as [|s ks IH]; intros r out Hp Hi; cbn; [done|].
  apply Forall_cons in Hp as [Hs Hks].
  destruct (sk_exists_fails s), (worker_alive now r (sk_key s)), (sk_take s); cbn;
    auto using queue_inv_delete_processing.
Qed.

Lemma queue_inv_dead_workers now scans : ∀ r out,
  Forall (λ reply, ∀ ks, reply = Some ks → Forall (λ s, has_prefix processingPrefix (sk_key s)) ks) scans →
  queue_inv now r → queue_inv now (fst (fst (dead_worker_scan now scans r out))).
Proof.
  induction scans as [|[ks|] scans IH]; intros r out Hp Hi; cbn; try done.
  apply Forall_cons in Hp as [Hs Hks].
  pose proof (queue_inv_take_dead now ks r out (Hs ks eq_refl) Hi) as H1.
  destruct (take_dead_lists now ks r out) as [[r1 out1] []]; cbn in *; auto.
Qed.

Lemma queue_inv_enqueue_many now cut entries r :
  queue_inv now r → queue_inv now (fst (EnqueueMany cut now entries r)).
Proof.
  intros Hi. destruct entries as [|e es]; [done|]. unfold EnqueueMany. destruct cut as [n|].
  - by apply queue_inv_pipeline.
  - pose proof (queue_inv_pipeline now (e :: es) r Hi) as Hp.
    by destruct (pipeline_enqueue now (e :: es) r).
Qed.

Lemma queue_inv_step s s' : queue_step s s' → queue_inv (fst s) (snd s) → queue_inv (fst s') (snd s').
Proof.
  destruct 1; cbn; intros Hi.
  - by eapply queue_inv_tick.
  - apply queue_inv_enqueue; auto with sluice.
  - by apply queue_inv_enqueue_many.
  - by apply queue_inv_enqueue.
  - by apply queue_inv_pop.
  - by apply queue_inv_wake.
  - by eapply queue_inv_call_set; [..|apply has_prefix_app|].
  - by eapply queue_inv_call_set; [..|apply has_prefix_app|].
  - by apply queue_inv_remove.
  - by apply queue_inv_dead_workers.
  - by eapply queue_inv_set_other.
Qed.

Lemma queue_inv_empty now : queue_inv now ∅.
Proof.
  split; [split|].
  - intros k _ e. by rewrite lookup_empty.
  - intros k e _. by rewrite lookup_empty.
  - intros s Hs. apply rexists_Some in Hs as (e&He&_). by rewrite lookup_empty in He.
Qed.

Lemma queue_inv_reachable s : rtc queue_step (0, ∅) s → queue_inv (fst s) (snd s).
Proof.
  intros Hr. assert (queue_inv (fst (0, ∅ : redis)) (snd (0, ∅ : redis))) as Hi by apply queue_inv_empty.
  revert Hi. induction Hr as [|x y z Hxy _ IH]; [done|]. intros Hi. by eapply IH, queue_inv_step.
Qed.
End queue_steps.

Section queue_guarantees.
Context `{!UuidText}.

(** The job has an entry in some lane. *)
Definition queued (r : redis) (jobID : uuid) : Prop := ∃ k, lane_key k ∧ uuid_String jobID ∈ qlist r k.

(** Under the invariant an enqueue without a fault succeeds and leaves the job
    queued. *)
Lemma enqueue_queued now r tenantID jobID p :
  queue_inv now r →
  snd (Enqueue NoFault now tenantID jobID p r) = Ok tt
  ∧ queued (fst (Enqueue NoFault now tenantID jobID p r)) jobID.
Proof.
  intros [Hok Hb]. set (lane := queue_key (bucketForPriority p) tenantID).
  assert (lane_key lane) as Hlane by (unfold lane; auto with sluice).
  pose proof (enqueueScript_spec now lane (marker_key jobID) (uuid_String jobID) EnqueuedTTL r
                Hok Hlane (marker_key_enqueued jobID)) as Hs.
  unfold Enqueue, enqueue_to, call. fold lane.
  destruct (rexists now r (marker_key jobID)) eqn:Hm.
  - rewrite Hs. cbn. split; [done|]. exact (Hb _ Hm).
  - destruct Hs as (r'&->&[Hl _ _ _]). cbn. split; [done|]. exists lane. split; [done|].
    rewrite Hl. by left.
Qed.

(** An enqueue takes no entry out of a lane. *)
Lemma enqueue_keeps f now r tenantID jobID p id :
  queue_inv now r → queued r id → queued (fst (Enqueue f now tenantID jobID p r)) id.
Proof.
  intros [Hok _] (k&Hk&Hin). unfold Enqueue. set (lane := queue_key (bucketForPriority p) tenantID).
  assert (lane_key lane) as Hlane by (unfold lane; auto with sluice).
  destruct (enqueue_to_cases f now lane jobID r Hok Hlane) as [->|[_ [Hl _ Hf _]]]; [by exists k|].
  exists k. split; [done|]. destruct (decide (k = lane)) as [->|]; [rewrite Hl; by right|].
  unfold qlist. rewrite Hf; [done|done| |apply Hk].
  intros ->. by apply (queue_not_enqueued (marker_key jobID)); [apply marker_key_enqueued|apply Hk].
Qed.

(** An enqueue that reports success leaves the job queued. In every keyspace
    the queue can reach, through any interleaving of calls and any lost requests or
    replies, a live ["already queued"] marker has its entry in a lane; so an enqueue
    without a fault returns no error, and afterwards the job is in a lane whether it
    was pushed or skipped as a duplicate. *)
Theorem Enqueue_reachable_queued now (r : redis) tenantID jobID p :
  rtc queue_step (0, ∅) (now, r) →
  marker_backed now r
  ∧ snd (Enqueue NoFault now tenantID jobID p r) = Ok tt
  ∧ queued (fst (Enqueue NoFault now tenantID jobID p r)) jobID.
Proof.
  intros Hr%queue_inv_reachable. split; [apply Hr|]. by apply enqueue_queued.
Qed.

(** ** The dead-worker scan *)

Definition no_faults (s : scanned_key) : Prop := sk_exists_fails s = false ∧ sk_take s = NoFault.

Lemma worker_alive_delete now (r : redis) k k' :
  has_prefix processingPrefix k → worker_alive now (delete k r) k' = worker_alive now r k'.
Proof.
  intros Hk. unfold worker_alive, rexists, rget. rewrite lookup_delete_ne; [done|].
  intros Heq. eapply (prefix_ne "p" "w"); [done|exact Hk|apply (has_prefix_app workerAlivePrefix)|exact Heq].
Qed.

(** The job identifiers in a processing list. *)
Definition list_ids (now : Z) (r : redis) (k : string) : list uuid := omap uuid_Parse (rlist now r k).

Lemma list_ids_delete_ne now (r : redis) k k' : k ≠ k' → list_ids now (delete k r) k' = list_ids now r k'.
Proof. intros Hne. unfold list_ids, rlist, rget. by rewrite lookup_delete_ne. Qed.

Lemma list_ids_delete_eq now (r : redis) k : list_ids now (delete k r) k = [].
Proof. unfold list_ids, rlist, rget. by rewrite lookup_delete_eq. Qed.

Lemma list_ids_forget now (r : redis) k ks :
  ks ≫= list_ids now (delete k r) = filter (λ k', k' ≠ k) ks ≫= list_ids now r.
Proof.
  induction ks as [|k' ks IH]; [done|]. rewrite bind_cons, filter_cons, IH.
  destruct (decide (k' ≠ k)) as [Hne|Heq].
  - rewrite bind_cons. by rewrite list_ids_delete_ne by done.
  - apply dec_stable in Heq as ->. by rewrite list_ids_delete_eq.
Qed.

(** What a run of the scan over [keys] leaves and returns: [ks] are the dead
    lists, each once. *)
Record recovered (now : Z) (keys : list string) (r r' : redis) (out : list uuid) (ks : list string) : Prop := {
  rec_nodup : NoDup ks;
  rec_dead k : k ∈ ks ↔ k ∈ keys ∧ worker_alive now r k = false;
  rec_out : out = ks ≫= list_ids now r;
  rec_redis k : r' !! k = if decide (k ∈ ks) then None else r !! k;
}.

Lemma recovered_skip now k keys r r' out ks :
  worker_alive now r k = true → recovered now keys r r' out ks → recovered now (k :: keys) r r' out ks.
Proof.
  intros Ha [? Hd ? ?]. split; [done| |done..]. intros k'. rewrite Hd, elem_of_cons.
  split; [intros [? ?]; auto|]. intros [[->|?] Hf]; [congruence|done].
Qed.

Lemma recovered_take now k keys r r' out ks :
  has_prefix processingPrefix k → worker_alive now r k = false →
  recovered now keys (delete k r) r' out ks →
  recovered now (k :: keys) r r' (list_ids now r k ++ out) (k :: filter (λ k', k' ≠ k) ks).
Proof.
  intros Hp Ha [Hnd Hd -> Hr]. split.
  - constructor; [|by apply NoDup_filter]. by intros [? _]%list_elem_of_filter.
  - intros k'. rewrite !elem_of_cons, list_elem_of_filter, Hd, worker_alive_delete by done.
    destruct (decide (k' = k)) as [->|]; intuition.
  - by rewrite bind_cons, list_ids_forget.
  - intros k'. rewrite Hr. destruct (decide (k' = k)) as [->|Hne].
    + rewrite lookup_delete_eq. rewrite (decide_True _ _ (P := k ∈ k :: _)) by (by left).
      by destruct (decide _).
    + rewrite lookup_delete_ne by done.
      destruct (decide (k' ∈ ks)), (decide (k' ∈ k :: _)) as [Hin|Hin]; try done; exfalso.
      * apply Hin. right. by apply list_elem_of_filter.
      * apply elem_of_cons in Hin as [?|[_ ?]%list_elem_of_filter]; done.
Qed.

Lemma take_dead_lists_spec now keys : ∀ r out,
  Forall no_faults keys → Forall (λ s, has_prefix processingPrefix (sk_key s)) keys →
  ∃ r' ids ks, take_dead_lists now keys r out = (r', out ++ ids, true)
    ∧ recovered now (sk_key <$> keys) r r' ids ks.
Proof.
  induction keys as [|s keys IH]; intros r out Hf Hp.
  { exists r, [], []. cbn. rewrite app_nil_r. split; [done|]. split; [constructor|by split; [intros ?%not_elem_of_nil|intros [?%not_elem_of_nil _]]|done|done]. }
  apply Forall_cons in Hf as [[Hf1 Hf2] Hf], Hp as [Hp1 Hp]. cbn [take_dead_lists]. rewrite Hf1, Hf2.
  destruct (worker_alive now r (sk_key s)) eqn:Ha.
  - destruct (IH r out Hf Hp) as (r'&ids&ks&->&Hrec). exists r', ids, ks. split; [done|].
    by apply recovered_skip.
  - destruct (IH (delete (sk_key s) r) (out ++ list_ids now r (sk_key s)) Hf Hp) as (r'&ids&ks&Ht&Hrec).
    eexists r', (list_ids now r (sk_key s) ++ ids), _. split; [|by apply recovered_take].
    change (omap uuid_Parse (rlist now r (sk_key s))) with (list_ids now r (sk_key s)).
    rewrite Ht. by rewrite app_assoc.
Qed.

(** The cursor loop visits the replies one after the other. *)
Lemma dead_worker_scan_concat now pages : ∀ r out,
  Forall no_faults (concat pages) →
  dead_worker_scan now (Some <$> pages) r out = take_dead_lists now (concat pages) r out.
Proof.
  assert (∀ keys r out rest, Forall no_faults keys →
    take_dead_lists now (keys ++ rest) r out
    = let '(r', out', _) := take_dead_lists now keys r out in take_dead_lists now rest r' out') as Happ.
  { induction keys as [|s keys IH]; intros r out rest Hf; [done|]. apply Forall_cons in Hf as [[H1 H2] Hf].
    cbn. rewrite H1, H2. destruct (worker_alive now r (sk_key s)); by rewrite IH. }
  assert (∀ keys r out, Forall no_faults keys → snd (take_dead_lists now keys r out) = true) as Htrue.
  { induction keys as [|s keys IH]; intros r out Hf; [done|]. apply Forall_cons in Hf as [[H1 H2] Hf].
    cbn. rewrite H1, H2. destruct (worker_alive now r (sk_key s)); by apply IH. }
  induction pages as [|p pages IH]; intros r out Hf; [done|]. cbn in Hf. apply Forall_app in Hf as [Hp Hps].
  cbn. rewrite Happ by done. specialize (Htrue p r out Hp).
  destruct (take_dead_lists now p r out) as [[r1 out1] ok]. cbn in Htrue. subst ok. by apply IH.
Qed.

(** The dead-worker scan recovers exactly the lists of dead workers, each
    once. When no call fails and SCAN reports every processing list, in any number
    of pages and possibly more than once, the identifiers returned are those of the
    processing lists whose worker has no live marker, list by list and each list
    one time; those lists are gone, every other key is untouched, and no processing
    list of a dead worker is left. *)
Theorem DeadWorkerJobs_exact now pages (r : redis) :
  Forall no_faults (concat pages) →
  Forall (λ s, has_prefix processingPrefix (sk_key s)) (concat pages) →
  (∀ k e, has_prefix processingPrefix k → r !! k = Some e → k ∈ sk_key <$> concat pages) →
  ∃ r' ids ks, DeadWorkerJobs now (Some <$> pages) r = (r', ids, true)
    ∧ recovered now (sk_key <$> concat pages) r r' ids ks
    ∧ ∀ k, has_prefix processingPrefix k → is_Some (r' !! k) → worker_alive now r' k = true.
Proof.
  intros Hf Hp Hscan. unfold DeadWorkerJobs. rewrite dead_worker_scan_concat by done.
  destruct (take_dead_lists_spec now (concat pages) r [] Hf Hp) as (r'&ids&ks&->&Hrec).
  exists r', ids, ks. split; [done|]. split; [done|]. destruct Hrec as [_ Hd _ Hr].
  intros k Hk [e He]. rewrite Hr in He. destruct (decide (k ∈ ks)) as [|Hn]; [done|].
  assert (worker_alive now r k = true) as Ha.
  { apply not_false_is_true. intros Hfalse. apply Hn, Hd. split; [by eapply Hscan|done]. }
  revert Ha. unfold worker_alive, rexists, rget. rewrite Hr, decide_False; [done|].
  intros [Hin _]%Hd. apply list_elem_of_fmap in Hin as (s&Hs&Hin).
  rewrite Forall_forall in Hp. specialize (Hp s Hin). rewrite <- Hs in Hp.
  eapply (prefix_ne "p" "w"); [done|exact Hp|apply (has_prefix_app workerAlivePrefix)|reflexivity].
Qed.
End queue_guarantees.

(** ** A concrete keyspace

    Tenants 7 and 8 with a normal and a high-priority job, a processing list of
    worker [w1], which is alive, and one of worker [w2], which is not. *)
Module SampleQueue.
#[local] Existing Instance HexUuid.hex_uuid_text.

Definition two_jobs : redis :=
  fst (Enqueue NoFault 0 8%N 2%N 1 (fst (Enqueue NoFault 0 7%N 1%N 5 ∅))).
Definition popped : redis := fst (pop_once NoFault 0 "w2" [7%N; 8%N] two_jobs).
Definition running : redis := fst (MarkAlive NoFault 0 "w1" (fst (pop_once NoFault 0 "w1" [7%N] popped))).
Definition pages : list (list scanned_key) :=
  [[mkScannedKey "processing:w1" false NoFault; mkScannedKey "processing:w2" false NoFault];
   [mkScannedKey "processing:w2" false NoFault]].

Lemma two_jobs_reachable : rtc queue_step (0, ∅) (0, two_jobs).
Proof. eapply rtc_l, rtc_once; apply qs_enqueue. Qed.

Lemma two_jobs_ok : keyspace_ok two_jobs.
Proof. apply (queue_inv_reachable _ two_jobs_reachable). Qed.

Lemma popped_item :
  pop_once NoFault 0 "w2" [7%N; 8%N] two_jobs = (popped, Ok (Some (mkItem 2%N (queue_key "queue:1" 8%N)))).
Proof.
  rewrite (surjective_pairing (pop_once _ _ _ _ _)). fold popped.
  replace (snd _) with (Ok (E := queue_error) (Some (mkItem 2%N (queue_key "queue:1" 8%N))));
    [done|vm_compute; reflexivity].
Qed.

Lemma Enqueue_idempotent_witness :
  let r1 := fst (Enqueue LostReply 0 7%N 3%N 5 two_jobs) in
  qlist r1 (queue_key (bucketForPriority 5) 7%N)
    = uuid_String 3%N :: qlist two_jobs (queue_key (bucketForPriority 5) 7%N)
  ∧ fst (Enqueue NoFault (9 * Minute) 8%N 3%N 1 r1) = r1.
Proof.
  apply (Enqueue_idempotent LostReply NoFault 0 (9 * Minute) 7%N 8%N 3%N 5 1 two_jobs).
  - exact two_jobs_ok.
  - vm_compute. reflexivity.
  - discriminate.
  - vm_compute. split; discriminate.
Defined.

Lemma Pop_strict_priority_witness :
  ∃ i b t, priorityBuckets !! i = Some b ∧ t ∈ [7%N; 8%N] ∧ queue_key "queue:1" 8%N = queue_key b t
    ∧ (∀ j b' t', (j < i)%nat → priorityBuckets !! j = Some b' → t' ∈ [7%N; 8%N] →
        qlist two_jobs (queue_key b' t') = [])
    ∧ ∃ v, last (qlist two_jobs (queue_key "queue:1" 8%N)) = Some v ∧ uuid_Parse v = Some 2%N.
Proof.
  apply (Pop_strict_priority 0 "w2" [7%N; 8%N] two_jobs popped (mkItem 2%N (queue_key "queue:1" 8%N))).
  - exact two_jobs_ok.
  - exact popped_item.
Defined.

Lemma Pop_no_loss_witness :
  (∃ k, lane_key k ∧ uuid_String 2%N ∈ qlist (fst (pop_once LostReply 0 "w2" [7%N; 8%N] two_jobs)) k)
  ∨ uuid_String 2%N ∈ rlist 0 (fst (pop_once LostReply 0 "w2" [7%N; 8%N] two_jobs)) (processing_key "w2").
Proof.
  apply (Pop_no_loss LostReply 0 "w2" [7%N; 8%N] two_jobs (uuid_String 2%N)); [exact two_jobs_ok|].
  left. exists (queue_key "queue:1" 8%N). split; [split; [reflexivity|discriminate]|].
  apply list_elem_of_In. vm_compute. left. reflexivity.
Defined.

Lemma Enqueue_reachable_queued_witness :
  marker_backed 0 two_jobs
  ∧ snd (Enqueue NoFault 0 8%N 1%N 10 two_jobs) = Ok tt
  ∧ queued (fst (Enqueue NoFault 0 8%N 1%N 10 two_jobs)) 1%N.
Proof. apply (Enqueue_reachable_queued 0 two_jobs 8%N 1%N 10). exact two_jobs_reachable. Defined.

Lemma running_processing k e :
  has_prefix processingPrefix k → running !! k = Some e → k ∈ sk_key <$> concat pages.
Proof.
  intros Hk He. apply elem_of_map_to_list in He.
  assert (Forall (λ ke, String.prefix processingPrefix (fst ke) = true → fst ke ∈ sk_key <$> concat pages)
            (map_to_list running)) as Hall
    by (apply (bool_decide_unpack _); vm_compute; exact I).
  rewrite Forall_forall in Hall. by apply (Hall (k, e) He).
Qed.

Lemma DeadWorkerJobs_exact_witness :
  ∃ r' ids ks, DeadWorkerJobs 0 (Some <$> pages) running = (r', ids, true)
    ∧ recovered 0 (sk_key <$> concat pages) running r' ids ks
    ∧ ∀ k, has_prefix processingPrefix k → is_Some (r' !! k) → worker_alive 0 r' k = true.
Proof.
  apply (DeadWorkerJobs_exact 0 pages running).
  - repeat constructor.
  - repeat constructor.
  - exact running_processing.
Defined.
End SampleQueue.
