(* ===== verification/Ratelimit.v ===== *)
(** * The rate limiter (internal/ratelimit/ratelimit.go)

    A token bucket per tenant in Redis, refilled and taken from by a Lua script. Lua
    numbers are binary64: every operation rounds, and the bucket is stored as text of
    fourteen digits. The numbers are rationals here, with the roundings explicit: they
    belong to the interpreter inside Redis, so they are parameters with the accuracy
    IEEE 754 and [%.14g] promise. Times are the server's, in milliseconds. *)

From S2P Require Import Prelude GoBase Job Queue.
From Stdlib Require Import QArith Qminmax Qabs Lqa.

Open Scope Z_scope.

(** [fl] rounds the result of an operation; [tostr] is what [tonumber] makes of what
    [tostring] wrote. *)
Class LuaNum := {
  fl : Q → Q;
  tostr : Q → Q;
}.

(** Rounding is monotone, exact on integers of 53 bits, and off by at most [2^-52]
    (relative, or absolute below one); text of fourteen digits by [10^-13]. The bound
    [2^1000] keeps clear of infinity. *)
Class LuaAccuracy `{!LuaNum} := {
  fl_mono x y : (x <= y)%Q → (fl x <= fl y)%Q;
  fl_int n : - 2 ^ 53 <= n <= 2 ^ 53 → (fl (inject_Z n) == inject_Z n)%Q;
  fl_error x b : (1 <= b)%Q → (Qabs x <= b)%Q → (b <= inject_Z (2 ^ 1000))%Q → (Qabs (fl x - x) <= b * (1 # 4503599627370496))%Q;
  tostr_mono x y : (x <= y)%Q → (tostr x <= tostr y)%Q;
  tostr_zero : (tostr 0 == 0)%Q;
  tostr_error x b : (1 <= b)%Q → (Qabs x <= b)%Q → (b <= inject_Z (2 ^ 1000))%Q → (Qabs (tostr x - x) <= b * (1 # 10000000000000))%Q;
}.

(** The hash at ratelimit:<tenant>, with its expiry. *)
Record bucket := mkBucket { bk_tokens : Q; bk_ts : Z; bk_expires : Z }.

Definition bucket_live (now : Z) (b : bucket) : bool := now <=? bk_expires b.

Section ratelimit.
Context `{!LuaNum}.

(** [takeScript]: the bucket afterwards, and whether a token was taken. *)
Definition takeScript (rate now : Z) (old : option bucket) : bucket * bool :=
  let old := match old with Some b => if bucket_live now b then Some b else None | None => None end in
  let tokens := match old with Some b => bk_tokens b | None => inject_Z rate end in
  let ts := match old with Some b => bk_ts b | None => now end in
  let refill := fl (fl (inject_Z (now - ts) * inject_Z rate) / inject_Z 1000) in
  let tokens := Qmin (inject_Z rate) (fl (tokens + refill)) in
  let allowed := Qle_bool 1 tokens in
  let tokens := if allowed then fl (tokens - 1) else tokens in
  (mkBucket (tostr tokens) now (now + 2000), allowed).

Abbreviation buckets := (gmap uuid bucket).

(** [Allow]; a limit of zero or less is no limit. *)
Definition Allow (f : fault) (now : Z) (tenantID : uuid) (limit : Z) (bs : buckets) : buckets * result queue_error bool :=
  if limit <=? 0 then (bs, Ok true)
  else let '(b, allowed) := takeScript limit now (bs !! tenantID) in
       match f with
       | LostRequest => (bs, Err ErrRedis)
       | NoFault => (<[tenantID := b]> bs, Ok allowed)
       | LostReply => (<[tenantID := b]> bs, Err ErrRedis)
       end.

(** ** The bound *)

(** Calls of one tenant at the given times: the bucket in the end, and how many were
    let through. *)
Fixpoint take_all (rate : Z) (times : list Z) (old : option bucket) : option bucket * Z :=
  match times with
  | [] => (old, 0)
  | t :: times' =>
      let '(b, allowed) := takeScript rate t old in
      let '(b', n) := take_all rate times' (Some b) in
      (b', (if allowed then 1 else 0) + n)
  end.

(** A bucket [takeScript] can have left: not negative, hardly above the rate. *)
Record bucket_ok (rate : Z) (b : bucket) : Prop := {
  bo_low : (0 <= bk_tokens b)%Q;
  bo_high : (bk_tokens b <= inject_Z (2 * rate))%Q;
  bo_expires : bk_expires b = bk_ts b + 2000;
}.

Context `{!LuaAccuracy}.

#[local] Instance fl_proper : Proper (Qeq ==> Qeq) fl.
Proof. intros x y He. apply Qle_antisym; apply fl_mono; rewrite He; apply Qle_refl. Qed.

(** The error of a rounding whose argument is known to lie in [0, b]. *)
Lemma fl_within x b : (0 <= x)%Q → (x <= b)%Q → (1 <= b)%Q → (b <= 100000000000)%Q →
  (0 <= fl x)%Q ∧ (x - b * (1 # 4503599627370496) <= fl x)%Q ∧ (fl x <= x + b * (1 # 4503599627370496))%Q.
Proof.
  intros Hx Hb Hone Hbig. split.
  - rewrite <- (fl_int 0) by lia. by apply fl_mono.
  - assert (Qabs (fl x - x) <= b * (1 # 4503599627370496))%Q as He.
    { apply fl_error; [done|by rewrite Qabs_pos|]. eapply Qle_trans; [exact Hbig|]. by vm_compute. }
    apply Qabs_Qle_condition in He as [? ?]. split; lra.
Qed.

Lemma tostr_within x b : (0 <= x)%Q → (x <= b)%Q → (1 <= b)%Q → (b <= 100000000000)%Q →
  (0 <= tostr x)%Q ∧ (tostr x <= x + b * (1 # 10000000000000))%Q.
Proof.
  intros Hx Hb Hone Hbig. split.
  - rewrite <- tostr_zero. by apply tostr_mono.
  - assert (Qabs (tostr x - x) <= b * (1 # 10000000000000))%Q as He.
    { apply tostr_error; [done|by rewrite Qabs_pos|]. eapply Qle_trans; [exact Hbig|]. by vm_compute. }
    apply Qabs_Qle_condition in He as [? ?]. lra.
Qed.

(** The refill of [d] milliseconds. *)
Lemma refill_within rate d :
  1 <= rate <= 2 ^ 31 → 0 <= d <= 2000 →
  let refill := fl (fl (inject_Z d * inject_Z rate) / inject_Z 1000) in
  (0 <= refill)%Q ∧ (refill <= inject_Z (d * rate) * (1 # 1000) + inject_Z rate * (3 # 4503599627370496))%Q
  ∧ (inject_Z (d * rate) * (1 # 1000) <= 2 * inject_Z rate)%Q.
Proof.
  intros Hr Hd. cbn zeta. rewrite <- inject_Z_mult, fl_int by nia.
  unfold Qdiv. change (/ inject_Z 1000)%Q with (1 # 1000)%Q.
  assert (0 <= inject_Z (d * rate))%Q by (change 0%Q with (inject_Z 0); rewrite <- Zle_Qle; nia).
  assert (inject_Z (d * rate) <= 2000 * inject_Z rate)%Q
    by (change 2000%Q with (inject_Z 2000); rewrite <- inject_Z_mult, <- Zle_Qle; nia).
  assert (1 <= inject_Z rate)%Q by (change 1%Q with (inject_Z 1); rewrite <- Zle_Qle; lia).
  assert (inject_Z rate <= 2147483648)%Q
    by (change 2147483648%Q with (inject_Z 2147483648); rewrite <- Zle_Qle; lia).
  destruct (fl_within (inject_Z (d * rate) * (1 # 1000)) (3 * inject_Z rate)) as (?&?&?); [lra..|].
  split; [done|]. split; lra.
Qed.

(** The arithmetic of one call on [tokens] after [d] milliseconds. *)
Lemma take_core rate tokens d :
  1 <= rate <= 2 ^ 31 → 0 <= d <= 2000 → (0 <= tokens)%Q → (tokens <= 2 * inject_Z rate)%Q →
  let refill := fl (fl (inject_Z d * inject_Z rate) / inject_Z 1000) in
  let m := Qmin (inject_Z rate) (fl (tokens + refill)) in
  let left_ := tostr (if Qle_bool 1 m then fl (m - 1) else m) in
  let taken := (if Qle_bool 1 m then 1 else 0)%Q in
  (0 <= left_)%Q ∧ (left_ + taken <= inject_Z rate * (1 + (1 # 1000000000000)))%Q
  ∧ (left_ + taken <= tokens + inject_Z (d * rate) * (1 # 1000) + inject_Z rate * (1 # 1000000000000))%Q.
Proof.
  intros Hr Hd Ht0 Ht2. destruct (refill_within rate d Hr Hd) as (Hf0&Hf1&Hf2). cbn zeta in *.
  set (refill := fl _) in *.
  assert (1 <= inject_Z rate)%Q by (change 1%Q with (inject_Z 1); rewrite <- Zle_Qle; lia).
  assert (inject_Z rate <= 2147483648)%Q
    by (change 2147483648%Q with (inject_Z 2147483648); rewrite <- Zle_Qle; lia).
  destruct (fl_within (tokens + refill) (5 * inject_Z rate)) as (Hs0&_&Hs1); [lra..|].
  set (m := Qmin _ _). pose proof (Q.le_min_l (inject_Z rate) (fl (tokens + refill))) as Hm1.
  pose proof (Q.le_min_r (inject_Z rate) (fl (tokens + refill))) as Hm2.
  assert (0 <= m)%Q as Hm0 by (apply Q.min_glb; [lra|done]). fold m in Hm1, Hm2.
  destruct (Qle_bool 1 m) eqn:Ha.
  - apply Qle_bool_iff in Ha. destruct (fl_within (m - 1) (inject_Z rate)) as (Hl0&_&Hl1); [lra..|].
    destruct (tostr_within (fl (m - 1)) (2 * inject_Z rate)) as (?&?); [lra..|]. repeat split; lra.
  - destruct (tostr_within m (2 * inject_Z rate)) as (?&?); [lra..|]. repeat split; lra.
Qed.

(** One call adds no more than the refill, takes what it says, and never fills the
    bucket above the rate. *)
Lemma take_step rate now old b allowed :
  1 <= rate <= 2 ^ 31 → (∀ b0, old = Some b0 → bucket_ok rate b0 ∧ bk_ts b0 <= now) →
  takeScript rate now old = (b, allowed) →
  let taken := (if allowed then 1 else 0)%Q in
  bucket_ok rate b ∧ bk_ts b = now
  ∧ (bk_tokens b + taken <= inject_Z rate * (1 + (1 # 1000000000000)))%Q
  ∧ ∀ b0, old = Some b0 →
      (bk_tokens b + taken <= bk_tokens b0 + inject_Z ((now - bk_ts b0) * rate) * (1 # 1000)
                              + inject_Z rate * (1 # 1000000000000))%Q.
Proof.
  intros Hr Hold Htake.
  assert (1 <= inject_Z rate)%Q as Hr1 by (change 1%Q with (inject_Z 1); rewrite <- Zle_Qle; lia).
  assert (∀ tokens d, 0 <= d <= 2000 → (0 <= tokens)%Q → (tokens <= 2 * inject_Z rate)%Q →
    let refill := fl (fl (inject_Z d * inject_Z rate) / inject_Z 1000) in
    let m := Qmin (inject_Z rate) (fl (tokens + refill)) in
    b = mkBucket (tostr (if Qle_bool 1 m then fl (m - 1) else m)) now (now + 2000) → allowed = Qle_bool 1 m →
    bucket_ok rate b ∧ bk_ts b = now
    ∧ (bk_tokens b + (if allowed then 1 else 0) <= inject_Z rate * (1 + (1 # 1000000000000)))%Q
    ∧ (bk_tokens b + (if allowed then 1 else 0) <= tokens + inject_Z (d * rate) * (1 # 1000)
                                                   + inject_Z rate * (1 # 1000000000000))%Q) as Hcore.
  { intros tokens d Hd Ht0 Ht2. cbn zeta. intros -> ->. destruct (take_core rate tokens d Hr Hd Ht0 Ht2) as (Hl&Hc1&Hc2).
    split; [|done]. split; cbn [bk_tokens bk_ts bk_expires]; [done| |done].
    rewrite inject_Z_mult. change (inject_Z 2) with 2%Q. cbn zeta in Hc1.
    destruct (Qle_bool 1 _); lra. }
  unfold takeScript in Htake. destruct old as [b0|].
  - destruct (Hold b0 eq_refl) as [[Hlow Hhigh Hexp] Hts]. unfold bucket_live in Htake. rewrite Hexp in Htake.
    rewrite inject_Z_mult in Hhigh. change (inject_Z 2) with 2%Q in Hhigh.
    destruct (Z.leb_spec now (bk_ts b0 + 2000)); injection Htake as <- <-.
    + destruct (Hcore (bk_tokens b0) (now - bk_ts b0)) as (?&?&?&?); [lia|done..|].
      split; [done|]. split; [done|]. split; [done|]. by intros b1 [= <-].
    + destruct (Hcore (inject_Z rate) (now - now)) as (?&?&?&?); [lia|lra|lra|done|done|].
      split; [done|]. split; [done|]. split; [done|]. intros b1 [= <-].
      assert (2000 * inject_Z rate <= inject_Z ((now - bk_ts b0) * rate))%Q
        by (change 2000%Q with (inject_Z 2000); rewrite <- inject_Z_mult, <- Zle_Qle; nia). lra.
  - injection Htake as <- <-. destruct (Hcore (inject_Z rate) (now - now)) as (?&?&?&?); [lia|lra|lra|done|done|].
    split; [done|]. split; [done|]. split; [done|]. by intros b1 [=].
Qed.

(** From a given bucket: the tokens in it, and the refill up to the last call. *)
Lemma take_all_bound rate times : ∀ b,
  1 <= rate <= 2 ^ 31 → bucket_ok rate b → StronglySorted Z.le (bk_ts b :: times) →
  (inject_Z (snd (take_all rate times (Some b)))
   <= bk_tokens b + inject_Z ((default (bk_ts b) (last times) - bk_ts b) * rate) * (1 # 1000)
      + inject_Z (Z.of_nat (length times) * rate) * (1 # 1000000000000))%Q.
Proof.
  induction times as [|t times IH]; intros b Hr Hb Hs.
  { destruct Hb as [Hl _ _]. cbn [take_all snd last default length]. change (Z.of_nat 0) with 0.
    rewrite Z.sub_diag, !Z.mul_0_l. change (inject_Z 0) with 0%Q. lra. }
  apply StronglySorted_inv in Hs as [Hs Hle]. apply Forall_cons in Hle as [Hle _].
  cbn [take_all]. destruct (takeScript rate t (Some b)) as [b1 allowed] eqn:Ht.
  destruct (take_step rate t (Some b) b1 allowed Hr) as (Hb1&Hts&_&Hone); [|done|].
  { by intros b0 [= <-]. }
  specialize (Hone b eq_refl). specialize (IH b1 Hr Hb1). rewrite Hts in IH. specialize (IH Hs).
  destruct (take_all rate times (Some b1)) as [b' n]. cbn [snd] in IH |- *.
  replace (default (bk_ts b) (last (t :: times))) with (default t (last times)) by (by rewrite last_cons; destruct (last times)).
  set (l := default t (last times)) in *.
  replace ((l - bk_ts b) * rate) with ((l - t) * rate + (t - bk_ts b) * rate) by lia.
  replace (Z.of_nat (length (t :: times)) * rate) with (Z.of_nat (length times) * rate + rate) by (cbn [length]; lia).
  rewrite !inject_Z_plus.
  assert (inject_Z (if allowed then 1 else 0) == (if allowed then 1 else 0))%Q as -> by (by destruct allowed).
  lra.
Qed.

(** C26: The rate limit holds. Whatever state the bucket was left in, of any calls made
    from one moment to another the limiter lets through at most one second's worth (the
    burst), plus the rate times the time passed, plus a rounding of less than one
    millionth of a millionth of the rate per call. *)
Theorem take_rate_bound rate old t times :
  1 <= rate <= 2 ^ 31 → (∀ b, old = Some b → bucket_ok rate b ∧ bk_ts b <= t) → StronglySorted Z.le (t :: times) →
  (inject_Z (snd (take_all rate (t :: times) old))
   <= inject_Z rate + inject_Z ((default t (last times) - t) * rate) * (1 # 1000)
      + inject_Z (Z.of_nat (length (t :: times)) * rate) * (1 # 1000000000000))%Q.
Proof.
  intros Hr Hold Hs. cbn [take_all]. destruct (takeScript rate t old) as [b allowed] eqn:Ht.
  destruct (take_step rate t old b allowed Hr Hold Ht) as (Hb&Hts&Hfull&_).
  pose proof (take_all_bound rate times b Hr Hb) as Hrest. rewrite Hts in Hrest. specialize (Hrest Hs).
  destruct (take_all rate times (Some b)) as [b' n]. cbn [snd] in Hrest |- *.
  replace (Z.of_nat (length (t :: times)) * rate) with (Z.of_nat (length times) * rate + rate) by (cbn [length]; lia).
  rewrite !inject_Z_plus.
  assert (inject_Z (if allowed then 1 else 0) == (if allowed then 1 else 0))%Q as -> by (by destruct allowed).
  lra.
Qed.

(** A tenant that paused for a second is let through. *)
Theorem take_after_second rate now old :
  1 <= rate <= 2 ^ 31 → (∀ b, old = Some b → bucket_ok rate b ∧ bk_ts b + 1000 <= now) →
  snd (takeScript rate now old) = true.
Proof.
  intros Hr Hold.
  assert (1 <= inject_Z rate)%Q as Hr1 by (change 1%Q with (inject_Z 1); rewrite <- Zle_Qle; lia).
  enough (∀ x, (inject_Z rate <= x)%Q → (1 <= Qmin (inject_Z rate) (fl x))%Q) as Hmin.
  { unfold takeScript. cbn [snd]. apply Qle_bool_iff, Hmin. destruct old as [b|].
    - destruct (Hold b eq_refl) as [[Hlow _ Hexp] Hts]. unfold bucket_live. rewrite Hexp.
      destruct (Z.leb_spec now (bk_ts b + 2000)).
      + rewrite <- inject_Z_mult, fl_int by nia.
        assert (inject_Z rate <= fl (inject_Z ((now - bk_ts b) * rate) / inject_Z 1000))%Q; [|lra].
        rewrite <- (fl_int rate) at 1 by lia. apply fl_mono. unfold Qdiv. change (/ inject_Z 1000)%Q with (1 # 1000)%Q.
        assert (1000 * inject_Z rate <= inject_Z ((now - bk_ts b) * rate))%Q; [|lra].
        change 1000%Q with (inject_Z 1000). rewrite <- inject_Z_mult, <- Zle_Qle. nia.
      + destruct (refill_within rate (now - now) Hr) as [? _]; [lia|]. cbn zeta in *. lra.
    - destruct (refill_within rate (now - now) Hr) as [? _]; [lia|]. cbn zeta in *. lra. }
  intros x Hx. apply Q.min_glb; [done|]. apply fl_mono in Hx. rewrite fl_int in Hx by lia. lra.
Qed.
End ratelimit.
