(* ===== verification/Db.v ===== *)
(** * The job tables and the SQL the program uses on them

    The rows of [jobs], [job_runs] and [dead_letter] as the migrations declare
    them, and the few forms of SQL statement [internal/storage] is written in:
    scans in an order the server chooses, ORDER BY, LIMIT, UPDATE and DELETE by
    identifier, the [duration_ms] expression, and a call that can lose its request
    or its reply. *)

From S2P Require Import Prelude GoBase Job.

Open Scope Z_scope.

(** ** What the server decides about a value

    [jsonb_in] is the JSONB input function: the stored form of a document, or a
    rejection. [text_ok] says whether a string can be stored in a TEXT column (valid
    UTF-8 without a NUL). *)
Class PgText := {
  jsonb_in : string → option string;
  text_ok : string → bool;
}.

Definition opt_text_ok `{!PgText} (s : option string) : bool :=
  match s with None => true | Some s => text_ok s end.

(** ** Rows *)

(** A row of [job_runs]. The table has no unique key since it was partitioned. *)
Record run_row := mkRun {
  rr_id : uuid;
  rr_job_id : uuid;
  rr_tenant_id : uuid;
  rr_attempt : Z;
  rr_started_at : Z;
  rr_finished_at : option Z;
  rr_state : State;
  rr_error : option string;
  rr_duration_ms : option Z;
}.

#[export] Instance run_row_eq_dec : EqDecision run_row.
Proof. solve_decision. Defined.

(** A row of [dead_letter]; [original_job] is [to_jsonb] of the jobs row. *)
Record dl_row := mkDl {
  dl_tenant_id : uuid;
  dl_moved_at : Z;
  dl_final_error : option string;
  dl_attempt_count : Z;
  dl_original_job : Job;
}.

#[export] Instance dl_row_eq_dec : EqDecision dl_row.
Proof. solve_decision. Defined.

(** [jobs] and [dead_letter] by primary key, [job_runs] as a bag of rows. *)
Record db := mkDb {
  jobs : gmap uuid Job;
  job_runs : list run_row;
  dead_letter : gmap uuid dl_row;
}.

Definition db_empty : db := mkDb ∅ [] ∅.

(** ** Column updates of a jobs row *)
Definition set_state (s : State) (j : Job) : Job :=
  mkJob (ID j) (TenantID j) (Type_ j) (Payload j) (Priority j) s (RunAt j) (ClaimedAt j) (ClaimedBy j)
    (ClaimToken j) (Deadline j) (Attempt j) (MaxRetries j) (BackoffSeconds j) (IdempotencyKey j)
    (LastError j) (CreatedAt j) (CompletedAt j) (TraceParent j).
Definition set_run_at (t : Z) (j : Job) : Job :=
  mkJob (ID j) (TenantID j) (Type_ j) (Payload j) (Priority j) (State_ j) t (ClaimedAt j) (ClaimedBy j)
    (ClaimToken j) (Deadline j) (Attempt j) (MaxRetries j) (BackoffSeconds j) (IdempotencyKey j)
    (LastError j) (CreatedAt j) (CompletedAt j) (TraceParent j).
Definition set_claimed (at_ : option Z) (by_ : option string) (j : Job) : Job :=
  mkJob (ID j) (TenantID j) (Type_ j) (Payload j) (Priority j) (State_ j) (RunAt j) at_ by_
    (ClaimToken j) (Deadline j) (Attempt j) (MaxRetries j) (BackoffSeconds j) (IdempotencyKey j)
    (LastError j) (CreatedAt j) (CompletedAt j) (TraceParent j).
Definition set_token (tok : option uuid) (dl : option Z) (j : Job) : Job :=
  mkJob (ID j) (TenantID j) (Type_ j) (Payload j) (Priority j) (State_ j) (RunAt j) (ClaimedAt j)
    (ClaimedBy j) tok dl (Attempt j) (MaxRetries j) (BackoffSeconds j) (IdempotencyKey j)
    (LastError j) (CreatedAt j) (CompletedAt j) (TraceParent j).
Definition set_attempt (a : Z) (j : Job) : Job :=
  mkJob (ID j) (TenantID j) (Type_ j) (Payload j) (Priority j) (State_ j) (RunAt j) (ClaimedAt j)
    (ClaimedBy j) (ClaimToken j) (Deadline j) a (MaxRetries j) (BackoffSeconds j) (IdempotencyKey j)
    (LastError j) (CreatedAt j) (CompletedAt j) (TraceParent j).
Definition set_last_error (e : option string) (j : Job) : Job :=
  mkJob (ID j) (TenantID j) (Type_ j) (Payload j) (Priority j) (State_ j) (RunAt j) (ClaimedAt j)
    (ClaimedBy j) (ClaimToken j) (Deadline j) (Attempt j) (MaxRetries j) (BackoffSeconds j)
    (IdempotencyKey j) e (CreatedAt j) (CompletedAt j) (TraceParent j).
Definition set_completed_at (t : option Z) (j : Job) : Job :=
  mkJob (ID j) (TenantID j) (Type_ j) (Payload j) (Priority j) (State_ j) (RunAt j) (ClaimedAt j)
    (ClaimedBy j) (ClaimToken j) (Deadline j) (Attempt j) (MaxRetries j) (BackoffSeconds j)
    (IdempotencyKey j) (LastError j) (CreatedAt j) t (TraceParent j).
Definition set_key (k : option string) (j : Job) : Job :=
  mkJob (ID j) (TenantID j) (Type_ j) (Payload j) (Priority j) (State_ j) (RunAt j) (ClaimedAt j)
    (ClaimedBy j) (ClaimToken j) (Deadline j) (Attempt j) (MaxRetries j) (BackoffSeconds j)
    k (LastError j) (CreatedAt j) (CompletedAt j) (TraceParent j).
Definition set_trace (t : option string) (j : Job) : Job :=
  mkJob (ID j) (TenantID j) (Type_ j) (Payload j) (Priority j) (State_ j) (RunAt j) (ClaimedAt j)
    (ClaimedBy j) (ClaimToken j) (Deadline j) (Attempt j) (MaxRetries j) (BackoffSeconds j)
    (IdempotencyKey j) (LastError j) (CreatedAt j) (CompletedAt j) t.

(** ** Scans

    The order in which the server visits rows, where no ORDER BY fixes it: any
    rearrangement. A [plan] is one choice, made for one statement. *)
Record plan (A : Type) := mkPlan {
  visit :> list A → list A;
  visit_perm : ∀ l, visit l ≡ₚ l;
}.
Arguments mkPlan {A} visit visit_perm.
Arguments visit {A} p l.
Arguments visit_perm {A} p l.

Definition plan_id {A} : plan A := mkPlan (λ l, l) (λ l, reflexivity l).

Lemma rev_perm {A} (l : list A) : reverse l ≡ₚ l.
Proof. apply reverse_Permutation. Qed.
Definition plan_rev {A} : plan A := mkPlan reverse rev_perm.

(** The rows of a table keyed by [uuid]. *)
Definition rows {A} (t : gmap uuid A) : list A := snd <$> map_to_list t.

(** LIMIT n; a negative limit is an error of the server. *)
Definition LIMIT {A} (n : Z) (l : list A) : option (list A) :=
  if n <? 0 then None else Some (take (Z.to_nat n) l).

(** UPDATE ... WHERE id = ANY(ids), and DELETE. *)
Definition update_ids {A} (ids : list uuid) (f : A → A) (t : gmap uuid A) : gmap uuid A :=
  map_imap (λ id a, Some (if bool_decide (id ∈ ids) then f a else a)) t.

Definition delete_ids {A} (ids : list uuid) (t : gmap uuid A) : gmap uuid A :=
  filter (λ ia, fst ia ∉ ids) t.

(** [(EXTRACT(EPOCH FROM (b - a)) * 1000)::INT]: whole milliseconds, rounded half
    away from zero, as a 32-bit integer or an error. *)
Definition round_div (a b : Z) : Z :=
  if 0 <=? a then (2 * a + b) / (2 * b) else - ((2 * - a + b) / (2 * b)).

Definition duration_ms (finished started : Z) : option Z :=
  pg_int4 (round_div (finished - started) Millisecond).

(** UPDATE of the runs that satisfy [p]; a row whose new value cannot be computed
    fails the statement. *)
Definition update_runs (p : run_row → bool) (f : run_row → option run_row) (l : list run_row)
    : option (list run_row) :=
  mapM (λ r, if p r then f r else Some r) l.

Definition finish_run (s : State) (at_ : Z) (err : option string) (r : run_row) : option run_row :=
  (λ ms, mkRun (rr_id r) (rr_job_id r) (rr_tenant_id r) (rr_attempt r) (rr_started_at r)
           (Some at_) s err (Some ms)) <$> duration_ms at_ (rr_started_at r).

(** ** Errors and calls *)
Inductive storage_error :=
| ErrNotFound | ErrClaimConflict | ErrDuplicate | ErrConcurrencyLimit
| ErrPostgres.

#[export] Instance storage_error_eq_dec : EqDecision storage_error.
Proof. solve_decision. Defined.

(** A statement (or a transaction) on tables [D]: the new tables and a value, or an
    error that leaves the tables alone. *)
Definition stmt (D A : Type) : Type := D → result storage_error (D * A).

(** Sending it, under a fault. *)
Definition exec {D A} (f : fault) (s : stmt D A) (d : D) : D * result storage_error A :=
  match f, s d with
  | LostRequest, _ => (d, Err ErrPostgres)
  | NoFault, Ok (d', a) => (d', Ok a)
  | NoFault, Err e => (d, Err e)
  | LostReply, Ok (d', _) => (d', Err ErrPostgres)
  | LostReply, Err _ => (d, Err ErrPostgres)
  end.

Definition query {D A} (f : fault) (s : D → result storage_error A) (d : D) : result storage_error A :=
  match f with NoFault => s d | _ => Err ErrPostgres end.

Definition of_option {A} (o : option A) : result storage_error A :=
  match o with Some a => Ok a | None => Err ErrPostgres end.

(** ** Laws *)

Lemma lookup_update_ids {A} ids (f : A → A) (t : gmap uuid A) id :
  update_ids ids f t !! id = (λ a, if bool_decide (id ∈ ids) then f a else a) <$> t !! id.
Proof. unfold update_ids. rewrite map_lookup_imap. by destruct (t !! id). Qed.

Lemma lookup_delete_ids {A} ids (t : gmap uuid A) id :
  delete_ids ids t !! id = if bool_decide (id ∈ ids) then None else t !! id.
Proof.
  unfold delete_ids. rewrite map_lookup_filter. destruct (t !! id) as [a|]; cbn; [|by case_bool_decide].
  case_bool_decide as Hin; [by rewrite option_guard_False by auto|by rewrite option_guard_True].
Qed.

Lemma elem_of_rows {A} (t : gmap uuid A) a : a ∈ rows t ↔ ∃ id, t !! id = Some a.
Proof.
  unfold rows. rewrite list_elem_of_fmap. split.
  - intros ([id a']&->&Hin%elem_of_map_to_list). eauto.
  - intros [id Hid]. exists (id, a). split; [done|]. by apply elem_of_map_to_list.
Qed.

Lemma elem_of_visit {A} (p : plan A) l a : a ∈ p l ↔ a ∈ l.
Proof. by rewrite (visit_perm p l). Qed.

Lemma LIMIT_Some {A} n (l l' : list A) : LIMIT n l = Some l' → 0 <= n ∧ l' = take (Z.to_nat n) l.
Proof. unfold LIMIT. destruct (n <? 0) eqn:Hn; [done|]. intros [= <-]. bool_to_prop. auto. Qed.

(** A call either leaves the tables as they were or applies its statement. *)
Lemma exec_cases {D A} f (s : stmt D A) d :
  fst (exec f s d) = d ∨ ∃ a, s d = Ok (fst (exec f s d), a).
Proof. unfold exec. destruct f, (s d) as [[d' a]|e]; cbn; eauto. Qed.

(** A statement that applies takes effect, whatever happens to the reply. *)
Lemma exec_applied {D A} f (s : stmt D A) d d' a :
  s d = Ok (d', a) → f ≠ LostRequest → fst (exec f s d) = d'.
Proof. unfold exec. intros ->. by destruct f. Qed.

(** A call that reports success has applied its statement. *)
Lemma exec_Ok {D A} f (s : stmt D A) d d' a : exec f s d = (d', Ok a) → s d = Ok (d', a).
Proof. unfold exec. destruct f, (s d) as [[? ?]|?]; by intros [= -> ->]. Qed.

(** Updates of runs, row by row. *)
Lemma update_runs_Forall2 p f l l' :
  update_runs p f l = Some l' ↔ Forall2 (λ r r', (if p r then f r else Some r) = Some r') l l'.
Proof. unfold update_runs. by rewrite mapM_Some. Qed.

Lemma update_runs_elem p f l l' r' :
  update_runs p f l = Some l' → r' ∈ l' →
  ∃ r, r ∈ l ∧ ((p r = true ∧ f r = Some r') ∨ (p r = false ∧ r' = r)).
Proof.
  intros Hu%update_runs_Forall2 Hin. apply list_elem_of_lookup in Hin as [i Hi].
  destruct (Forall2_lookup_r _ _ _ _ _ Hu Hi) as (r&Hr&Hp).
  exists r. split; [by eapply list_elem_of_lookup_2|]. destruct (p r); [by left|right; by simplify_eq].
Qed.

Lemma update_runs_total p f l :
  (∀ r, r ∈ l → p r = true → is_Some (f r)) → is_Some (update_runs p f l).
Proof.
  unfold update_runs. induction l as [|r l IH]; intros Hall; [by eexists|]. cbn.
  assert (is_Some (if p r then f r else Some r)) as [r' ->].
  { destruct (p r) eqn:Hp; [apply Hall; [by left|done]|by eexists]. }
  destruct IH as [l' ->]; [|by eexists]. intros r0 Hr0. apply Hall. by right.
Qed.

Lemma update_runs_fails p f l r :
  r ∈ l → p r = true → f r = None → update_runs p f l = None.
Proof.
  intros Hin Hp Hf. destruct (update_runs p f l) as [l'|] eqn:Hu; [|done].
  apply update_runs_Forall2 in Hu. apply list_elem_of_lookup in Hin as [i Hi].
  destruct (Forall2_lookup_l _ _ _ _ _ Hu Hi) as (r'&_&Hr). rewrite Hp in Hr. congruence.
Qed.

(** ** Rows sit at their identifier *)
Definition keyed (t : gmap uuid Job) : Prop := ∀ id j, t !! id = Some j → ID j = id.

Lemma elem_of_ids t (l : list Job) id :
  keyed t → (∀ j, j ∈ l → j ∈ rows t) → id ∈ (ID <$> l) → ∃ j, j ∈ l ∧ t !! id = Some j.
Proof.
  intros Hk Hl Hin. apply list_elem_of_fmap in Hin as (j&->&Hj). exists j. split; [done|].
  destruct (proj1 (elem_of_rows t j) (Hl j Hj)) as [id Hid]. by rewrite (Hk id j Hid).
Qed.

(** ** Rows are distinct *)
Lemma rows_NoDup_ids t : keyed t → NoDup (ID <$> rows t).
Proof.
  intros Hk. unfold rows. rewrite <- list_fmap_compose.
  assert (∀ l : list (uuid * Job), (∀ p, p ∈ l → t !! fst p = Some (snd p)) →
    (ID ∘ snd) <$> l = fst <$> l) as He.
  { induction l as [|[i j] l IH]; intros Hl; [done|]. cbn. f_equal; [|apply IH; intros p Hp; apply Hl; by right].
    apply Hk. apply (Hl (i, j)). by left. }
  rewrite He; [apply NoDup_fst_map_to_list|]. intros [i j] Hp. by apply elem_of_map_to_list.
Qed.

Lemma rows_eq t j k : keyed t → j ∈ rows t → k ∈ rows t → ID j = ID k → j = k.
Proof.
  intros Hk [i Hi]%elem_of_rows [i' Hi']%elem_of_rows He. pose proof (Hk i j Hi). pose proof (Hk i' k Hi').
  assert (i = i') as -> by congruence. congruence.
Qed.

#[export] Hint Rewrite @lookup_update_ids @lookup_delete_ids : sluice.
