(* ===== verification/Partitions.v ===== *)
(** * Partitions of job_runs (internal/storage: EnsureJobRunsPartition,
    DropJobRunsPartitionsBefore)

    [job_runs] is partitioned by month of [started_at]. A month is counted from the
    year 0: month [m] of year [y] is [12 * y + (m - 1)], which is how [time.Date]
    normalizes a month out of range. The catalogue holds the monthly partitions by name
    with their bounds; what falls in none of them is in the default partition. *)

From S2P Require Import Prelude GoBase Job Db.

Open Scope Z_scope.
Local Open Scope sluice_scope.

(** ** The calendar of Go's [time] package *)
Definition month_of (year month : Z) : Z := 12 * year + (month - 1).

Definition is_leap (y : Z) : bool :=
  (y mod 4 =? 0) && (negb (y mod 100 =? 0) || (y mod 400 =? 0)).

(** Months from 0, in a leap year or a common one: their length and the days before. *)
Definition month_length (leap : bool) (m : Z) : Z :=
  if m =? 1 then (if leap then 29 else 28)
  else if (m =? 3) || (m =? 5) || (m =? 8) || (m =? 10) then 30 else 31.

Definition days_before_month (leap : bool) (m : Z) : Z :=
  nth (Z.to_nat m) [0; 31; 59; 90; 120; 151; 181; 212; 243; 273; 304; 334] 0
  + (if (2 <=? m) && leap then 1 else 0).

Definition days_in_month (k : Z) : Z := month_length (is_leap (k / 12)) (k mod 12).

(** Days before year [y]. *)
Definition days_before_year (y : Z) : Z := 365 * y + (y + 3) / 4 - (y + 99) / 100 + (y + 399) / 400.

(** The day number, from 1970-01-01, of the first of month [k]. *)
Definition month_day (k : Z) : Z :=
  days_before_year (k / 12) + days_before_month (is_leap (k / 12)) (k mod 12) - days_before_year 1970.

Definition Day : Z := 24 * Hour.

(** [time.Date(year, month, 1, 0, 0, 0, 0, time.UTC)]. *)
Definition month_start (k : Z) : Z := month_day k * Day.

(** The month that holds day number [day]: near [day * 4800 / 146097], since 400 years
    are 4800 months and 146097 days. *)
Definition month_at (day : Z) : Z :=
  let e := 12 * 1970 + day * 4800 / 146097 in
  if day <? month_day e then e - 1 else if day <? month_day (e + 1) then e else e + 1.

Record date := mkDate { d_month : Z; d_day : Z }.

Definition date_ok (d : date) : Prop := 1 <= d_day d <= days_in_month (d_month d).

(** The UTC date of an instant. *)
Definition date_of (t : Z) : date :=
  let day := t / Day in mkDate (month_at day) (day - month_day (month_at day) + 1).

(** Year and month of [t.AddDate(0, i, 0)]: a day the month does not have runs over
    into the next one. *)
Definition add_months (d : date) (i : Z) : Z :=
  let k := d_month d + i in
  if days_in_month k <? d_day d then k + 1 else k.

(** ** Names *)
Definition digit (n : Z) : ascii := ascii_of_N (Z.to_N (48 + n mod 10)).
Definition digit_value (c : ascii) : option Z :=
  let n := Z.of_N (N_of_ascii c) in
  if (48 <=? n) && (n <=? 57) then Some (n - 48) else None.

(** [fmt.Sprintf("job_runs_%04d_%02d", year, month)], for years of at most four digits. *)
Definition partition_name (k : Z) : string :=
  let y := k / 12 in
  let m := k mod 12 + 1 in
  "job_runs_" +:+ String (digit (y / 1000)) (String (digit (y / 100)) (String (digit (y / 10)) (String (digit y)
    (String "_" (String (digit (m / 10)) (String (digit m) EmptyString)))))).

(** The regular expression [^job_runs_(\d{4})_(\d{2})$], with the month it names. *)
Definition monthlyPartition (name : string) : option Z :=
  match TrimPrefix "job_runs_" name with
  | String a (String b (String c (String d (String u (String e (String f EmptyString)))))) =>
      if String.prefix "job_runs_" name && Ascii.eqb u "_" then
        a ← digit_value a; b ← digit_value b; c ← digit_value c; d ← digit_value d;
        e ← digit_value e; f ← digit_value f;
        Some (month_of (1000 * a + 100 * b + 10 * c + d) (10 * e + f))
      else None
  | _ => None
  end.

(** ** Calls *)
Abbreviation partitions := (gmap string (Z * Z)).

Definition within (b : Z * Z) (r : run_row) : bool := (fst b <=? rr_started_at r) && (rr_started_at r <? snd b).
Definition overlaps (b c : Z * Z) : bool := (fst b <? snd c) && (fst c <? snd b).

(** A row of no monthly partition. *)
Definition in_default (ps : partitions) (r : run_row) : bool :=
  forallb (λ nb, negb (within (snd nb) r)) (map_to_list ps).

(** The instant the server reads for the first day of a month: the bounds are written
    as dates, which it takes in the session's time zone. *)
Class SessionZone := { midnight : Z → Z }.

Section partitions.
Context `{!SessionZone}.

(** CREATE TABLE IF NOT EXISTS name PARTITION OF job_runs FOR VALUES FROM ... TO ...:
    refused when another partition overlaps, or when the default partition already
    holds a row of the range. *)
Definition create_stmt (k : Z) : stmt (partitions * list run_row) unit := λ '(ps, runs),
  let b := (midnight k, midnight (k + 1)) in
  if bool_decide (is_Some (ps !! partition_name k)) then Ok ((ps, runs), tt)
  else if existsb (λ nb, overlaps b (snd nb)) (map_to_list ps) then Err ErrPostgres
  else if existsb (λ r, within b r && in_default ps r) runs then Err ErrPostgres
  else Ok ((<[partition_name k := b]> ps, runs), tt).

Definition EnsureJobRunsPartition (f : fault) (year month : Z) (s : partitions * list run_row)
    : (partitions * list run_row) * result storage_error unit :=
  exec f (create_stmt (month_of year month)) s.

(** DROP TABLE IF EXISTS name, with the rows the partition holds. *)
Definition drop_stmt (name : string) : stmt (partitions * list run_row) unit := λ '(ps, runs),
  match ps !! name with
  | Some b => Ok ((delete name ps, filter (λ r, within b r = false) runs), tt)
  | None => Ok ((ps, runs), tt)
  end.

(** The partitions whose range ends at or before the cutoff, by their name. *)
Definition expired (cutoff : Z) (name : string) : bool :=
  match monthlyPartition name with
  | Some k => negb (cutoff <? month_start (k + 1))
  | None => false
  end.

(** The children of [job_runs] in the catalogue, the default partition among them. *)
Definition job_runs_default : string := "job_runs_default".

Definition list_partitions (f : fault) (p : plan string) (ps : partitions) : result storage_error (list string) :=
  query f (λ ps, Ok (p (job_runs_default :: (fst <$> map_to_list ps)))) ps.
End partitions.

(** ** Months follow one another *)
Lemma month_cases k : ∃ y m, k = 12 * y + m ∧ 0 <= m < 12 ∧ k / 12 = y ∧ k mod 12 = m.
Proof. exists (k / 12), (k mod 12). pose proof (Z.div_mod k 12). pose proof (Z.mod_pos_bound k 12). lia. Qed.

Lemma days_before_year_succ y : days_before_year (y + 1) = days_before_year y + (if is_leap y then 366 else 365).
Proof.
  unfold days_before_year, is_leap.
  destruct (Z.eqb_spec (y mod 4) 0), (Z.eqb_spec (y mod 100) 0), (Z.eqb_spec (y mod 400) 0); cbn [andb orb negb];
    Z.div_mod_to_equations; lia.
Qed.

(** A check over a range of months and both kinds of year. *)
Lemma check_months (f : bool → Z → bool) n leap m :
  forallb (λ m, f true m && f false m) (seqZ 0 n) = true → 0 <= m < n → f leap m = true.
Proof.
  intros Hall Hm. rewrite forallb_forall in Hall. specialize (Hall m). rewrite <- list_elem_of_In, elem_of_seqZ in Hall.
  specialize (Hall ltac:(lia)). apply andb_true_iff in Hall as [??]. by destruct leap.
Qed.

Lemma days_before_month_succ leap m :
  0 <= m < 11 → days_before_month leap (m + 1) = days_before_month leap m + month_length leap m.
Proof.
  intros Hm. apply Z.eqb_eq.
  by apply (check_months (λ l m, days_before_month l (m + 1) =? days_before_month l m + month_length l m) 11).
Qed.

Lemma year_length leap : days_before_month leap 11 + month_length leap 11 = if leap then 366 else 365.
Proof. by destruct leap. Qed.

Lemma month_day_succ k : month_day (k + 1) = month_day k + days_in_month k.
Proof.
  destruct (month_cases k) as (y&m&->&Hm&Hy&Hmm). unfold month_day, days_in_month. rewrite Hy, Hmm.
  assert (m = 11 ∨ 0 <= m < 11) as [->|Hm'] by lia.
  - replace (12 * y + 11 + 1) with ((y + 1) * 12) by lia. rewrite Z.div_mul, Z.mod_mul by lia.
    rewrite days_before_year_succ, <- year_length.
    replace (days_before_month (is_leap (y + 1)) 0) with 0 by (by destruct (is_leap (y + 1))). lia.
  - replace ((12 * y + m + 1) / 12) with y by (Z.div_mod_to_equations; lia).
    replace ((12 * y + m + 1) mod 12) with (m + 1) by (Z.div_mod_to_equations; lia).
    rewrite days_before_month_succ by done. lia.
Qed.

Lemma days_in_month_bounds k : 28 <= days_in_month k <= 31.
Proof. unfold days_in_month, month_length. repeat case_match; lia. Qed.

Lemma month_day_mono j k : j < k → month_day j + 28 <= month_day k.
Proof.
  intros Hjk. replace k with (j + 1 + Z.of_nat (Z.to_nat (k - j - 1))) by lia. induction (Z.to_nat (k - j - 1)) as [|n IH].
  - rewrite Z.add_0_r, month_day_succ. pose proof (days_in_month_bounds j). lia.
  - replace (j + 1 + Z.of_nat (S n)) with (j + 1 + Z.of_nat n + 1) by lia. rewrite month_day_succ.
    pose proof (days_in_month_bounds (j + 1 + Z.of_nat n)). lia.
Qed.

Lemma month_start_mono j k : j <= k → month_start j <= month_start k.
Proof.
  intros Hjk. unfold month_start, Day, Hour, Minute, Second. destruct (decide (j = k)) as [->|]; [lia|].
  pose proof (month_day_mono j k ltac:(lia)). lia.
Qed.

(** [month_at] finds the month of a day. *)
Lemma month_day_near k : - 5 * 4800 <= 4800 * month_day k - 146097 * (k - 12 * 1970) <= 5 * 4800.
Proof.
  destruct (month_cases k) as (y&m&->&Hm&Hy&Hmm). unfold month_day. rewrite Hy, Hmm.
  pose proof (check_months (λ l m, (- 22 <=? 12 * days_before_month l m - 365 * m)
    && (12 * days_before_month l m - 365 * m <=? 10)) 12 (is_leap y) m eq_refl Hm) as Hb.
  apply andb_true_iff in Hb as [?%Z.leb_le ?%Z.leb_le].
  change (days_before_year 1970) with 719528.
  unfold days_before_year. Z.div_mod_to_equations. lia.
Qed.

Lemma month_at_bounds day : month_day (month_at day) <= day < month_day (month_at day + 1).
Proof.
  unfold month_at. set (e := 12 * 1970 + day * 4800 / 146097).
  assert (- 5 * 4800 <= 4800 * month_day (e + 2) - 146097 * (e + 2 - 12 * 1970)) as Hup by apply month_day_near.
  assert (4800 * month_day (e - 1) - 146097 * (e - 1 - 12 * 1970) <= 5 * 4800) as Hlo by apply month_day_near.
  assert (month_day (e - 1) <= day < month_day (e + 2)) as [? ?].
  { subst e. Z.div_mod_to_equations. lia. }
  destruct (Z.ltb_spec day (month_day e)).
  - replace (e - 1 + 1) with e by lia. lia.
  - destruct (Z.ltb_spec day (month_day (e + 1))); [lia|]. replace (e + 1 + 1) with (e + 2) by lia. lia.
Qed.

(** The date of an instant is a day of its month, and the instant is inside the month. *)
Lemma date_of_ok t : date_ok (date_of t).
Proof.
  unfold date_ok, date_of. cbn. pose proof (month_at_bounds (t / Day)) as Hb. rewrite month_day_succ in Hb. lia.
Qed.

Lemma date_of_month t : month_start (d_month (date_of t)) <= t < month_start (d_month (date_of t) + 1).
Proof.
  unfold date_of, month_start. cbn [d_month]. pose proof (month_at_bounds (t / Day)).
  assert (0 < Day) by (vm_compute; reflexivity). pose proof (Z.div_mod t Day). pose proof (Z.mod_pos_bound t Day). nia.
Qed.

(** ** The name of a month is the month it stands for *)
Lemma digit_digit n : digit_value (digit n) = Some (n mod 10).
Proof.
  unfold digit, digit_value. pose proof (Z.mod_pos_bound n 10).
  rewrite N_ascii_embedding by lia. rewrite Z2N.id by lia.
  rewrite (proj2 (Z.leb_le 48 _)), (proj2 (Z.leb_le _ 57)) by lia. cbn. f_equal. lia.
Qed.

Lemma monthlyPartition_name k : 0 <= k < 120000 → monthlyPartition (partition_name k) = Some k.
Proof.
  intros Hk. unfold partition_name, monthlyPartition.
  rewrite TrimPrefix_app, prefix_app. cbv beta iota. change (Ascii.eqb "_" "_") with true. cbn [andb].
  rewrite !digit_digit. cbn -[month_of]. f_equal. unfold month_of. Z.div_mod_to_equations. lia.
Qed.
