(* ===== verification/Storage.v ===== *)
(** * The job store (internal/storage/storage.go, retention.go)

    One definition per storage function, on the tables of [Db]. A function that
    runs one statement, or one transaction, is atomic: it applies entirely or not at
    all, and [exec] says which when its request or reply is lost. What Go or
    Postgres chooses (the clock, fresh identifiers, the order rows are visited in,
    which rows another transaction has locked) is an argument. The theorems that
    hold of one call are at the end; [Lifecycle] has those that hold of every run. *)

From S2P Require Import Prelude GoBase Job Db.

Open Scope Z_scope.
Local Open Scope sluice_scope.

(** A row [state IN ('claimed', 'running')]. *)
Definition in_flight (j : Job) : bool :=
  bool_decide (State_ j = StateClaimed) || bool_decide (State_ j = StateRunning).

(** [id = $1 AND claim_token = $2 AND state IN ('claimed', 'running')]: the caller
    still owns the job. *)
Definition owns (token : uuid) (j : Job) : bool :=
  bool_decide (ClaimToken j = Some token) && in_flight j.

(** ** [scanJob]

    Every query but the claim leaves [trace_context] out of the row. *)
Definition scanJob (j : Job) : Job := set_trace None j.

Section storage.
Context `{!PgText}.

(** ** [InsertJob] *)

(** The row an INSERT of [j] writes, when every value fits its column. *)
Definition new_row (j : Job) : option Job :=
  if text_ok (Type_ j) && opt_text_ok (IdempotencyKey j) && opt_text_ok (TraceParent j) then
    payload ← jsonb_in (Payload j);
    attempt ← pg_int4 (Attempt j);
    max_retries ← pg_int4 (MaxRetries j);
    backoff ← pg_int4 (BackoffSeconds j);
    Some (mkJob (ID j) (TenantID j) (Type_ j) payload (Priority j) (State_ j) (pg_ts (RunAt j))
            None None None None attempt max_retries backoff (IdempotencyKey j) None
            (pg_ts (CreatedAt j)) None (TraceParent j))
  else None.

(** The unique constraints: the primary key and [(tenant_id, idempotency_key)],
    where NULL keys never conflict. *)
Definition same_key (a b : Job) : bool :=
  bool_decide (TenantID a = TenantID b)
  && match IdempotencyKey a with
     | None => false
     | Some k => bool_decide (IdempotencyKey b = Some k)
     end.

Definition conflicts (t : gmap uuid Job) (j : Job) : bool :=
  bool_decide (is_Some (t !! ID j)) || existsb (same_key j) (rows t).

Definition insert_stmt (j : Job) : stmt db unit := λ d,
  match new_row j with
  | None => Err ErrPostgres
  | Some row =>
      if conflicts (jobs d) row then Err ErrDuplicate
      else Ok (mkDb (<[ID row := row]> (jobs d)) (job_runs d) (dead_letter d), tt)
  end.

Definition InsertJob (f : fault) (j : Job) (d : db) : db * result storage_error unit :=
  exec f (insert_stmt j) d.

(** ** Reads of one job *)
Definition find_row (p : Job → bool) (d : db) : result storage_error Job :=
  match filter (λ j, p j = true) (rows (jobs d)) with
  | j :: _ => Ok (scanJob j)
  | [] => Err ErrNotFound
  end.

Definition GetJobByIdempotencyKey (f : fault) (tenantID : uuid) (key : string) (d : db)
    : result storage_error Job :=
  query f (find_row (λ j, bool_decide (TenantID j = tenantID)
                          && bool_decide (IdempotencyKey j = Some key))) d.

Definition GetJob (f : fault) (id : uuid) (d : db) : result storage_error Job :=
  query f (λ d, match jobs d !! id with Some j => Ok (scanJob j) | None => Err ErrNotFound end) d.

Definition GetJobForTenant (f : fault) (id tenantID : uuid) (d : db) : result storage_error Job :=
  query f (λ d, match jobs d !! id with
                | Some j => if bool_decide (TenantID j = tenantID) then Ok (scanJob j) else Err ErrNotFound
                | None => Err ErrNotFound
                end) d.

(** ** Claiming *)

(** The claimed row: [claimed_at], [claimed_by], [claim_token], [deadline]. *)
Definition claimed_row (now : Z) (workerID : string) (token : uuid) (deadline : Z) (j : Job) : Job :=
  set_token (Some token) (Some (pg_ts deadline))
    (set_claimed (Some (pg_ts now)) (Some workerID) (set_state StateRunning j)).

Definition opened_run (runID : uuid) (now : Z) (j : Job) : run_row :=
  mkRun runID (ID j) (TenantID j) (Attempt j) (pg_ts now) None StateRunning None None.

(** [claimSQL]: [locked] are the rows FOR UPDATE SKIP LOCKED passes over. *)
Definition claim_stmt (locked : gset uuid) (now : Z) (jobID : uuid) (workerID : string)
    (token : uuid) (deadline : Z) (runID : uuid) : stmt db (option (Job * uuid)) := λ d,
  if negb (text_ok workerID) then Err ErrPostgres
  else match jobs d !! jobID with
       | Some j =>
           if bool_decide (State_ j = StatePending) && bool_decide (jobID ∉ locked) then
             let j' := claimed_row now workerID token deadline j in
             Ok (mkDb (<[jobID := j']> (jobs d)) (job_runs d ++ [opened_run runID now j']) (dead_letter d),
                 Some (j', runID))
           else Ok (d, None)
       | None => Ok (d, None)
       end.

(** [TryClaim]; [None] is the (nil, uuid.Nil, nil) of a job that is not pending. *)
Definition TryClaim (f : fault) (locked : gset uuid) (now : Z) (jobID : uuid) (workerID : string)
    (token : uuid) (deadline : Z) (runID : uuid) (d : db) : db * result storage_error (option (Job * uuid)) :=
  exec f (claim_stmt locked now jobID workerID token deadline runID) d.

(** [SELECT count( * ) ... state IN ('claimed', 'running')]. *)
Definition count_in_flight (tenantID : uuid) (d : db) : Z :=
  Z.of_nat (length (filter (λ j, bool_decide (TenantID j = tenantID) && in_flight j = true) (rows (jobs d)))).

(** The transaction of [TryClaimLimited], once it holds the tenant's row: an error
    or a nil job rolls back, which leaves the tables as they were. *)
Definition claim_limited_tx (locked : gset uuid) (now : Z) (jobID tenantID : uuid) (limit : Z)
    (workerID : string) (token : uuid) (deadline : Z) (runID : uuid) : stmt db (option (Job * uuid)) := λ d,
  if limit <=? count_in_flight tenantID d then Err ErrConcurrencyLimit
  else claim_stmt locked now jobID workerID token deadline runID d.

Definition TryClaimLimited (f : fault) (locked : gset uuid) (now : Z) (jobID tenantID : uuid) (limit : Z)
    (workerID : string) (token : uuid) (deadline : Z) (runID : uuid) (d : db)
    : db * result storage_error (option (Job * uuid)) :=
  exec f (claim_limited_tx locked now jobID tenantID limit workerID token deadline runID) d.

(** ** Owner updates: heartbeat, success, failure *)
Definition extend_stmt (jobID token : uuid) (deadline : Z) : stmt db unit := λ d,
  match jobs d !! jobID with
  | Some j =>
      if owns token j then
        Ok (mkDb (<[jobID := set_token (ClaimToken j) (Some (pg_ts deadline)) j]> (jobs d))
              (job_runs d) (dead_letter d), tt)
      else Ok (d, tt)
  | None => Ok (d, tt)
  end.

Definition ExtendDeadline (f : fault) (jobID token : uuid) (deadline : Z) (d : db)
    : db * result storage_error unit :=
  exec f (extend_stmt jobID token deadline) d.

Definition is_run (jobID runID : uuid) (r : run_row) : bool :=
  bool_decide (rr_job_id r = jobID) && bool_decide (rr_id r = runID).

Definition complete_stmt (now : Z) (jobID runID token : uuid) : stmt db unit := λ d,
  match jobs d !! jobID with
  | Some j =>
      if owns token j then
        let? runs := of_option (update_runs (is_run jobID runID)
                       (λ r, finish_run StateSucceeded (pg_ts now) (rr_error r) r) (job_runs d)) in
        Ok (mkDb (<[jobID := set_token None None
                               (set_completed_at (Some (pg_ts now)) (set_state StateSucceeded j))]> (jobs d))
              runs (dead_letter d), tt)
      else Ok (d, tt)
  | None => Ok (d, tt)
  end.

Definition CompleteJob (f : fault) (now : Z) (jobID runID token : uuid) (d : db)
    : db * result storage_error unit :=
  exec f (complete_stmt now jobID runID token) d.

(** [CASE WHEN attempt + 1 > max_retries THEN 'dead' ELSE s END]; the addition is
    a 32-bit one. *)
Definition attempt_state (s : State) (j : Job) : option (Z * State) :=
  a ← pg_int4 (Attempt j + 1);
  Some (a, if MaxRetries j <? a then StateDead else s).

Definition failed_row (a : Z) (s : State) (errMsg : string) (nextRunAt : option Z) (j : Job) : Job :=
  set_token None None
    (set_last_error (Some errMsg)
      (set_attempt a
        (set_run_at (if MaxRetries j <? a then RunAt j else default (RunAt j) (pg_ts <$> nextRunAt))
          (set_state s j)))).

Definition fail_stmt (now : Z) (jobID runID token : uuid) (errMsg : string) (nextRunAt : option Z)
    : stmt db unit := λ d,
  if negb (text_ok errMsg) then Err ErrPostgres
  else match jobs d !! jobID with
       | Some j =>
           if owns token j then
             let? as_ := of_option (attempt_state StateFailed j) in
             let? runs := of_option (update_runs (is_run jobID runID)
                            (finish_run (snd as_) (pg_ts now) (Some errMsg)) (job_runs d)) in
             Ok (mkDb (<[jobID := failed_row (fst as_) (snd as_) errMsg nextRunAt j]> (jobs d))
                   runs (dead_letter d), tt)
           else Ok (d, tt)
       | None => Ok (d, tt)
       end.

Definition FailJob (f : fault) (now : Z) (jobID runID token : uuid) (errMsg : string) (nextRunAt : option Z)
    (d : db) : db * result storage_error unit :=
  exec f (fail_stmt now jobID runID token errMsg nextRunAt) d.
End storage.

(** ** Promotion to pending *)
Record Released := mkReleased { rel_ID : uuid; rel_TenantID : uuid; rel_Priority : Z }.

Definition released (j : Job) : Released := mkReleased (ID j) (TenantID j) (Priority j).

(** ORDER BY priority, run_at. *)
Definition due_before (a b : Job) : Prop :=
  Priority a < Priority b ∨ (Priority a = Priority b ∧ RunAt a <= RunAt b).

#[export] Instance due_before_dec : RelDecision due_before.
Proof. intros a b. unfold due_before. apply _. Defined.

(** The rows a promotion selects: in state [s], due, not locked by another
    scheduler, best first, at most [limit] of them. [p] orders ties. *)
Definition due_rows (s : State) (now limit : Z) (locked : gset uuid) (p : plan Job) (d : db)
    : option (list Job) :=
  LIMIT limit
    (merge_sort due_before
      (p (filter (λ j, State_ j = s ∧ RunAt j <= now ∧ ID j ∉ locked) (rows (jobs d))))).

(** The statement: move the due rows with [upd], return them in order; [p'] orders
    ties in the reply. *)
Definition promote (s : State) (upd : Job → Job) (now limit : Z) (locked : gset uuid) (p p' : plan Job)
    : stmt db (list Released) := λ d,
  let? due := of_option (due_rows s now limit locked p d) in
  Ok (mkDb (update_ids (ID <$> due) upd (jobs d)) (job_runs d) (dead_letter d),
      released <$> merge_sort due_before (p' due)).

Definition PromoteDueScheduled (f : fault) (now limit : Z) (locked : gset uuid) (p p' : plan Job) (d : db)
    : db * result storage_error (list Released) :=
  exec f (promote StateScheduled (set_state StatePending) now limit locked p p') d.

Definition PromoteReadyFailed (f : fault) (now limit : Z) (locked : gset uuid) (p p' : plan Job) (d : db)
    : db * result storage_error (list Released) :=
  exec f (promote StateFailed (λ j, set_run_at now (set_state StatePending j)) now limit locked p p') d.

Definition promote_one_stmt (now : Z) (jobID : uuid) : stmt db unit := λ d,
  match jobs d !! jobID with
  | Some j =>
      if bool_decide (State_ j = StateFailed) then
        Ok (mkDb (<[jobID := set_run_at now (set_state StatePending j)]> (jobs d))
              (job_runs d) (dead_letter d), tt)
      else Ok (d, tt)
  | None => Ok (d, tt)
  end.

Definition PromoteFailedToPending (f : fault) (now : Z) (jobID : uuid) (d : db)
    : db * result storage_error unit :=
  exec f (promote_one_stmt now jobID) d.

(** ** Stale claims *)

(** [deadline < NOW()]; a NULL deadline compares as unknown. *)
Definition past_deadline (now : Z) (j : Job) : bool :=
  match Deadline j with Some t => t <? now | None => false end.

Definition stale (now : Z) (j : Job) : bool := in_flight j && past_deadline now j.

Definition GetStaleClaims (f : fault) (now : Z) (p : plan Job) (d : db) : result storage_error (list Job) :=
  query f (λ d, Ok (scanJob <$> p (filter (λ j, stale now j = true) (rows (jobs d))))) d.

Definition heartbeat_expired : string := "worker heartbeat expired".

(** First statement of [RequeueStaleJob]: close every open run of the job. [now] is
    the client's clock. *)
Definition close_open_runs (s : State) (at_ : Z) (err : string) (jobID : uuid) (d : db)
    : option (list run_row) :=
  update_runs (λ r, bool_decide (rr_job_id r = jobID) && bool_decide (rr_finished_at r = None))
    (finish_run s at_ (Some err)) (job_runs d).

(** Second statement: the row goes back to pending, or dies. *)
Definition requeued_row (a : Z) (s : State) (j : Job) : Job :=
  set_last_error (Some heartbeat_expired)
    (set_token None None (set_claimed None None (set_attempt a (set_state s j)))).

Definition requeue_tx (now server_now : Z) (jobID : uuid) : stmt db bool := λ d,
  let? runs := of_option (close_open_runs StateFailed (pg_ts now) heartbeat_expired jobID d) in
  match jobs d !! jobID with
  | Some j =>
      if stale server_now j then
        let? as_ := of_option (attempt_state StatePending j) in
        Ok (mkDb (<[jobID := requeued_row (fst as_) (snd as_) j]> (jobs d)) runs (dead_letter d),
            bool_decide (snd as_ = StateDead))
      else Ok (mkDb (jobs d) runs (dead_letter d), false)
  | None => Ok (mkDb (jobs d) runs (dead_letter d), false)
  end.

Definition RequeueStaleJob (f : fault) (now server_now : Z) (jobID : uuid) (d : db)
    : db * result storage_error bool :=
  exec f (requeue_tx now server_now jobID) d.

(** ** Dead letter *)
Definition dead_letter_row (now : Z) (j : Job) : dl_row :=
  mkDl (TenantID j) now (LastError j) (Attempt j) j.

(** The dead jobs not yet in [dead_letter], at most [limit]. *)
Definition unmoved_dead (limit : Z) (p : plan Job) (d : db) : option (list Job) :=
  LIMIT limit (p (filter (λ j, State_ j = StateDead ∧ dead_letter d !! ID j = None) (rows (jobs d)))).

(** INSERT ... ON CONFLICT (job_id) DO NOTHING, row by row, with the number of rows
    inserted. *)
Fixpoint insert_dead_letters (now : Z) (moved : list Job) (dl : gmap uuid dl_row) : gmap uuid dl_row * Z :=
  match moved with
  | [] => (dl, 0)
  | j :: rest =>
      match dl !! ID j with
      | Some _ => insert_dead_letters now rest dl
      | None =>
          let '(dl', n) := insert_dead_letters now rest (<[ID j := dead_letter_row now j]> dl) in
          (dl', n + 1)
      end
  end.

Definition move_stmt (now limit : Z) (p : plan Job) : stmt db Z := λ d,
  let? moved := of_option (unmoved_dead limit p d) in
  let '(dl, n) := insert_dead_letters now moved (dead_letter d) in
  Ok (mkDb (jobs d) (job_runs d) dl, n).

Definition MoveToDeadLetter (f : fault) (now limit : Z) (p : plan Job) (d : db) : db * result storage_error Z :=
  exec f (move_stmt now limit p) d.

(** ** Listing *)
Record ListFilter := mkListFilter {
  lf_TenantID : option uuid;
  lf_State : option State;
  lf_Retried : bool;
  lf_Limit : Z;
  lf_Offset : Z;
}.

Definition newest_first (a b : Job) : Prop := CreatedAt b <= CreatedAt a.

#[export] Instance newest_first_dec : RelDecision newest_first.
Proof. intros a b. unfold newest_first. apply _. Defined.

Definition list_matches (lf : ListFilter) (j : Job) : bool :=
  match lf_TenantID lf with None => true | Some t => bool_decide (TenantID j = t) end
  && match lf_State lf with None => true | Some s => bool_decide (State_ j = s) end
  && (negb (lf_Retried lf) || (0 <? Attempt j)).

Definition ListJobs (f : fault) (lf : ListFilter) (p : plan Job) (d : db) : result storage_error (list Job) :=
  let limit := if lf_Limit lf =? 0 then 50 else lf_Limit lf in
  query f (λ d,
    if lf_Offset lf <? 0 then Err ErrPostgres
    else of_option ((λ page : list Job, scanJob <$> page) <$>
           LIMIT limit (drop (Z.to_nat (lf_Offset lf))
             (merge_sort newest_first (p (filter (λ j, list_matches lf j = true) (rows (jobs d)))))))) d.

(** ** Cancel and replay *)
Definition cancellable (j : Job) : bool :=
  bool_decide (State_ j = StatePending) || bool_decide (State_ j = StateScheduled)
  || bool_decide (State_ j = StateFailed).

Definition cancel_stmt (now : Z) (jobID tenantID : uuid) : stmt db unit := λ d,
  match jobs d !! jobID with
  | Some j =>
      if bool_decide (TenantID j = tenantID) && cancellable j then
        Ok (mkDb (<[jobID := set_completed_at (Some now) (set_state StateCancelled j)]> (jobs d))
              (job_runs d) (dead_letter d), tt)
      else Err ErrNotFound
  | None => Err ErrNotFound
  end.

Definition CancelJob (f : fault) (now : Z) (jobID tenantID : uuid) (d : db) : db * result storage_error unit :=
  exec f (cancel_stmt now jobID tenantID) d.

Definition replayed_row (now : Z) (j : Job) : Job :=
  set_completed_at None
    (set_token None None
      (set_claimed None None
        (set_last_error None (set_run_at now (set_attempt 0 (set_state StatePending j)))))).

Definition replay_tx (now : Z) (jobID tenantID : uuid) : stmt db unit := λ d,
  match jobs d !! jobID with
  | Some j =>
      if bool_decide (TenantID j = tenantID) && bool_decide (State_ j = StateDead) then
        Ok (mkDb (<[jobID := replayed_row now j]> (jobs d)) (job_runs d) (delete jobID (dead_letter d)), tt)
      else Err ErrNotFound
  | None => Err ErrNotFound
  end.

(** [ReplayJob]: the transaction, then the job as it is now. [env] is what other
    clients commit between the two. *)
Definition ReplayJob (f f' : fault) (now : Z) (jobID tenantID : uuid) (env : db → db) (d : db)
    : db * result storage_error Job :=
  match exec f (replay_tx now jobID tenantID) d with
  | (d', Ok _) => (env d', GetJob f' jobID (env d'))
  | (d', Err e) => (d', Err e)
  end.

(** ** Paging through pending jobs *)
Record PendingCursor := mkCursor { pc_Priority : Z; pc_CreatedAt : Z; pc_ID : uuid }.

Definition cursor_of (j : Job) : PendingCursor := mkCursor (Priority j) (CreatedAt j) (ID j).

(** Row comparison [(priority, created_at, id) < (...)]. *)
Definition cursor_lt (a b : PendingCursor) : Prop :=
  pc_Priority a < pc_Priority b
  ∨ (pc_Priority a = pc_Priority b
     ∧ (pc_CreatedAt a < pc_CreatedAt b ∨ (pc_CreatedAt a = pc_CreatedAt b ∧ (pc_ID a < pc_ID b)%N))).

#[export] Instance cursor_lt_dec : RelDecision cursor_lt.
Proof. intros a b. unfold cursor_lt. apply _. Defined.

Definition pending_before (a b : Job) : Prop := ¬ cursor_lt (cursor_of b) (cursor_of a).

#[export] Instance pending_before_dec : RelDecision pending_before.
Proof. intros a b. unfold pending_before. apply _. Defined.

Definition pending_after (now olderThan : Z) (after : PendingCursor) (j : Job) : Prop :=
  State_ j = StatePending ∧ RunAt j <= pg_ts (now - olderThan)
  ∧ cursor_lt (mkCursor (pc_Priority after) (pg_ts (pc_CreatedAt after)) (pc_ID after)) (cursor_of j).

#[export] Instance pending_after_dec now olderThan after : ∀ j, Decision (pending_after now olderThan after j).
Proof. intros j. unfold pending_after. apply _. Defined.

Definition GetPendingJobs (f : fault) (now olderThan : Z) (after : PendingCursor) (limit : Z) (p : plan Job) (d : db)
    : PendingCursor * result storage_error (list Job) :=
  match query f (λ d, of_option (LIMIT limit (merge_sort pending_before
                 (p (filter (pending_after now olderThan after) (rows (jobs d))))))) d with
  | Err e => (after, Err e)
  | Ok page =>
      (match last page with Some j => cursor_of j | None => after end, Ok (scanJob <$> page))
  end.

(** ** Retention (retention.go) *)
Definition finished_before (cutoff : Z) (j : Job) : Prop :=
  (State_ j = StateSucceeded ∨ State_ j = StateCancelled)
  ∧ match CompletedAt j with Some t => t < pg_ts cutoff | None => False end.

#[export] Instance finished_before_dec cutoff j : Decision (finished_before cutoff j).
Proof. unfold finished_before. destruct (CompletedAt j); apply _. Defined.

Definition prune_finished_stmt (cutoff limit : Z) (p : plan Job) : stmt db Z := λ d,
  let? doomed := of_option (LIMIT limit (p (filter (finished_before cutoff) (rows (jobs d))))) in
  let ids := ID <$> doomed in
  Ok (mkDb (delete_ids ids (jobs d)) (filter (λ r, rr_job_id r ∉ ids) (job_runs d)) (dead_letter d),
      Z.of_nat (length doomed)).

Definition PruneFinishedJobs (f : fault) (cutoff limit : Z) (p : plan Job) (d : db)
    : db * result storage_error Z :=
  exec f (prune_finished_stmt cutoff limit p) d.

(** The entries moved before the cutoff, in the order the server visits them. *)
Definition old_entries (cutoff : Z) (d : db) : list uuid :=
  fst <$> filter (λ e : uuid * dl_row, dl_moved_at (snd e) < pg_ts cutoff) (map_to_list (dead_letter d)).

Definition prune_dead_stmt (cutoff limit : Z) (p : plan uuid) : stmt db Z := λ d,
  let? doomed := of_option (LIMIT limit (p (old_entries cutoff d))) in
  let dead_jobs := filter (λ id, State_ <$> jobs d !! id = Some StateDead) doomed in
  Ok (mkDb (delete_ids dead_jobs (jobs d)) (filter (λ r, rr_job_id r ∉ doomed) (job_runs d))
        (delete_ids doomed (dead_letter d)),
      Z.of_nat (length doomed)).

Definition PruneDeadLetter (f : fault) (cutoff limit : Z) (p : plan uuid) (d : db) : db * result storage_error Z :=
  exec f (prune_dead_stmt cutoff limit p) d.

(** ** [sluice-cli force-fail] (cmd/sluice-cli/main.go) *)
Definition force_failed : string := "force-failed by operator".

Definition force_failable (j : Job) : bool := in_flight j || cancellable j.

Definition force_fail_tx (now : Z) (jobID : uuid) : stmt db unit := λ d,
  match jobs d !! jobID with
  | Some j =>
      if force_failable j then
        let? runs := of_option (close_open_runs StateDead now force_failed jobID d) in
        Ok (mkDb (<[jobID := set_token None None
                               (set_last_error (Some force_failed) (set_state StateDead j))]> (jobs d))
              runs (dead_letter d), tt)
      else Err ErrNotFound
  | None => Err ErrNotFound
  end.

Definition cmdForceFail (f : fault) (now : Z) (jobID : uuid) (d : db) : db * result storage_error unit :=
  exec f (force_fail_tx now jobID) d.
