(* ===== verification/Tenants.v ===== *)
(** * Tenants (internal/storage/storage.go, tenant functions; migrations 2 to 12)

    The [tenants] table and the functions that read and change it. Random bytes and
    fresh identifiers are arguments. *)

From S2P Require Import Prelude GoBase Encoding Job Db.

Open Scope Z_scope.
Local Open Scope sluice_scope.

Definition HashAPIKey (key : string) : string := hex_encode (sha256 (bytes_of_string key)).

Record Tenant := mkTenant {
  tn_ID : uuid;
  tn_Name : string;
  tn_RateLimit : Z;
  tn_Weight : Z;
  tn_Status : string;
  tn_WebhookSecret : string;
  tn_MaxConcurrency : Z;
}.

(** A row: the tenant and its [api_key_hash]. *)
Record tenant_row := mkTenantRow { tr_tenant : Tenant; tr_api_key_hash : string }.

Abbreviation tenants := (gmap uuid tenant_row).

Section tenants.
Context `{!PgText}.

(** [NewAPIKey] and [NewWebhookSecret]; [None] is a failed read of randomness. *)
Definition NewAPIKey (random : option (list Z)) : result storage_error string :=
  match random with Some b => Ok ("sk_" +:+ base64_raw_url b) | None => Err ErrPostgres end.

Definition NewWebhookSecret (random : option (list Z)) : result storage_error string :=
  match random with Some b => Ok ("whsec_" +:+ base64_std b) | None => Err ErrPostgres end.

(** ** Reads *)
Definition active (r : tenant_row) : bool := String.eqb (tn_Status (tr_tenant r)) "active".

Definition GetTenant (f : fault) (id : uuid) (t : tenants) : result storage_error Tenant :=
  query f (λ t, match t !! id with
                | Some r => if active r then Ok (tr_tenant r) else Err ErrNotFound
                | None => Err ErrNotFound
                end) t.

Definition GetTenantAnyStatus (f : fault) (id : uuid) (t : tenants) : result storage_error Tenant :=
  query f (λ t, match t !! id with Some r => Ok (tr_tenant r) | None => Err ErrNotFound end) t.

Definition GetTenantByAPIKey (f : fault) (apiKey : string) (t : tenants) : result storage_error Tenant :=
  query f (λ t, match filter (λ r, String.eqb (tr_api_key_hash r) (HashAPIKey apiKey) && active r = true) (rows t) with
                | r :: _ => Ok (tr_tenant r)
                | [] => Err ErrNotFound
                end) t.

(** [GetTenants]: the active ones, in the order the server visits them. *)
Definition GetTenants (f : fault) (p : plan tenant_row) (t : tenants) : result storage_error (list Tenant) :=
  query f (λ t, Ok (tr_tenant <$> p (filter (λ r, active r = true) (rows t)))) t.

(** [ListAllTenants]: every tenant, in the order of name and identifier, which is the
    server's to decide since it depends on its collation. *)
Definition ListAllTenants (f : fault) (p : plan tenant_row) (t : tenants) : result storage_error (list Tenant) :=
  query f (λ t, Ok (tr_tenant <$> p (rows t))) t.

(** ** Changes *)

(** The columns of a tenants row: 32-bit limits, a non-negative cap, a unique key
    digest. *)
Definition limits_ok (t : Tenant) : bool :=
  bool_decide (is_Some (pg_int4 (tn_RateLimit t))) && bool_decide (is_Some (pg_int4 (tn_Weight t)))
  && bool_decide (is_Some (pg_int4 (tn_MaxConcurrency t))) && (0 <=? tn_MaxConcurrency t).

Definition hash_taken (h : string) (id : uuid) (t : tenants) : bool :=
  existsb (λ r, String.eqb (tr_api_key_hash r) h && negb (bool_decide (tn_ID (tr_tenant r) = id))) (rows t).

Definition insert_tenant_stmt (row : tenant_row) : stmt tenants unit := λ t,
  if text_ok (tn_Name (tr_tenant row)) && limits_ok (tr_tenant row)
     && negb (bool_decide (is_Some (t !! tn_ID (tr_tenant row))))
     && negb (hash_taken (tr_api_key_hash row) (tn_ID (tr_tenant row)) t)
  then Ok (<[tn_ID (tr_tenant row) := row]> t, tt)
  else Err ErrPostgres.

Definition InsertTenant (f : fault) (r1 r2 : option (list Z)) (id : uuid) (name : string)
    (rateLimit weight maxConcurrency : Z) (t : tenants) : tenants * result storage_error (Tenant * string) :=
  match NewAPIKey r1, NewWebhookSecret r2 with
  | Ok key, Ok secret =>
      let tn := mkTenant id name rateLimit weight "active" secret maxConcurrency in
      match exec f (insert_tenant_stmt (mkTenantRow tn (HashAPIKey key))) t with
      | (t', Ok _) => (t', Ok (tn, key))
      | (t', Err e) => (t', Err e)
      end
  | Err e, _ => (t, Err e)
  | _, Err e => (t, Err e)
  end.

(** UPDATE tenants ... WHERE id = $1, and ErrNotFound when no row matched. *)
Definition update_tenant_stmt {A} (id : uuid) (upd : tenant_row → option (tenant_row * A)) : stmt tenants A := λ t,
  match t !! id with
  | Some r => let? ra := of_option (upd r) in Ok (<[id := fst ra]> t, snd ra)
  | None => Err ErrNotFound
  end.

Definition set_status (s : string) (r : tenant_row) : tenant_row :=
  let t := tr_tenant r in
  mkTenantRow (mkTenant (tn_ID t) (tn_Name t) (tn_RateLimit t) (tn_Weight t) s (tn_WebhookSecret t)
                 (tn_MaxConcurrency t)) (tr_api_key_hash r).

Definition SetTenantStatus (f : fault) (id : uuid) (status : string) (t : tenants)
    : tenants * result storage_error unit :=
  if String.eqb status "active" || String.eqb status "disabled"
  then exec f (update_tenant_stmt id (λ r, Some (set_status status r, tt))) t
  else (t, Err ErrPostgres).

Record TenantLimits := mkTenantLimits {
  tl_RateLimit : option Z;
  tl_Weight : option Z;
  tl_MaxConcurrency : option Z;
}.

Definition set_limits (l : TenantLimits) (t : Tenant) : Tenant :=
  mkTenant (tn_ID t) (tn_Name t) (default (tn_RateLimit t) (tl_RateLimit l)) (default (tn_Weight t) (tl_Weight l))
    (tn_Status t) (tn_WebhookSecret t) (default (tn_MaxConcurrency t) (tl_MaxConcurrency l)).

Definition UpdateTenantLimits (f : fault) (tenantID : uuid) (l : TenantLimits) (t : tenants)
    : tenants * result storage_error Tenant :=
  exec f (update_tenant_stmt tenantID (λ r,
    let tn := set_limits l (tr_tenant r) in
    if limits_ok tn then Some (mkTenantRow tn (tr_api_key_hash r), tn) else None)) t.

Definition RotateAPIKey (f : fault) (random : option (list Z)) (tenantID : uuid) (t : tenants)
    : tenants * result storage_error string :=
  match NewAPIKey random with
  | Err e => (t, Err e)
  | Ok key =>
      exec f (update_tenant_stmt tenantID (λ r,
        if hash_taken (HashAPIKey key) tenantID t then None
        else Some (mkTenantRow (tr_tenant r) (HashAPIKey key), key))) t
  end.

Definition RotateWebhookSecret (f : fault) (random : option (list Z)) (tenantID : uuid) (t : tenants)
    : tenants * result storage_error string :=
  match NewWebhookSecret random with
  | Err e => (t, Err e)
  | Ok secret =>
      exec f (update_tenant_stmt tenantID (λ r,
        let tn := tr_tenant r in
        Some (mkTenantRow (mkTenant (tn_ID tn) (tn_Name tn) (tn_RateLimit tn) (tn_Weight tn) (tn_Status tn)
                             secret (tn_MaxConcurrency tn)) (tr_api_key_hash r), secret))) t
  end.
End tenants.

(** ** API keys *)
Section api_keys.
Context `{!PgText}.

(** The table's constraints: rows at their identifier, digests unique. *)
Record tenants_ok (t : tenants) : Prop := {
  tok_keyed id r : t !! id = Some r → tn_ID (tr_tenant r) = id;
  tok_unique id1 id2 r1 r2 : t !! id1 = Some r1 → t !! id2 = Some r2 →
    tr_api_key_hash r1 = tr_api_key_hash r2 → id1 = id2;
}.

(** A key finds the active tenant that has its digest, and only that one. *)
Lemma GetTenantByAPIKey_Ok key t tn :
  tenants_ok t →
  GetTenantByAPIKey NoFault key t = Ok tn ↔
  ∃ r, t !! tn_ID tn = Some r ∧ tr_tenant r = tn ∧ active r = true ∧ tr_api_key_hash r = HashAPIKey key.
Proof.
  intros [Hk Hu]. unfold GetTenantByAPIKey, query. set (P := λ r, String.eqb (tr_api_key_hash r) (HashAPIKey key) && active r = true).
  assert (∀ r, r ∈ filter P (rows t) ↔
    ∃ id, t !! id = Some r ∧ active r = true ∧ tr_api_key_hash r = HashAPIKey key) as Hin.
  { intros r. rewrite list_elem_of_filter, elem_of_rows. unfold P. rewrite andb_true_iff, String.eqb_eq. naive_solver. }
  split.
  - destruct (filter P (rows t)) as [|r l] eqn:Hf; [done|]. intros [= <-].
    destruct (proj1 (Hin r)) as (id&Hid&Ha&Hh); [left|]. exists r. by rewrite (Hk id r Hid).
  - intros (r&Hr&<-&Ha&Hh). destruct (filter P (rows t)) as [|r' l] eqn:Hf.
    + exfalso. apply (not_elem_of_nil r), Hin. eauto.
    + destruct (proj1 (Hin r')) as (id&Hid&_&Hh'); [left|].
      assert (id = tn_ID (tr_tenant r)) as -> by (eapply Hu; [done..|congruence]). congruence.
Qed.

Lemma hash_taken_false h id t :
  tenants_ok t → hash_taken h id t = false → ∀ id' r, t !! id' = Some r → id' ≠ id → tr_api_key_hash r ≠ h.
Proof.
  intros [Hk _] Hh id' r Hr Hne Heq. apply not_true_iff_false in Hh. apply Hh. apply existsb_exists.
  exists r. split; [apply list_elem_of_In, elem_of_rows; eauto|]. rewrite (Hk id' r Hr).
  rewrite bool_decide_false by done. by rewrite (proj2 (String.eqb_eq _ _)).
Qed.

Lemma tenants_ok_insert t id r :
  tenants_ok t → tn_ID (tr_tenant r) = id →
  (∀ id' r', t !! id' = Some r' → id' ≠ id → tr_api_key_hash r' ≠ tr_api_key_hash r) →
  tenants_ok (<[id := r]> t).
Proof.
  intros [Hk Hu] Hid Hfree. split.
  - intros i q Hq. destruct (decide (i = id)) as [->|]; [rewrite lookup_insert_eq in Hq; by injection Hq as <-|].
    rewrite lookup_insert_ne in Hq by done. eauto.
  - intros i1 i2 q1 q2 H1 H2 He. destruct (decide (i1 = id)) as [->|], (decide (i2 = id)) as [->|]; [done|..].
    + rewrite lookup_insert_eq in H1. rewrite lookup_insert_ne in H2 by done. injection H1 as <-.
      by destruct (Hfree i2 q2 H2).
    + rewrite lookup_insert_eq in H2. rewrite lookup_insert_ne in H1 by done. injection H2 as <-.
      by destruct (Hfree i1 q1 H1).
    + rewrite lookup_insert_ne in H1 by done. rewrite lookup_insert_ne in H2 by done. eauto.
Qed.

(** Rotating an API key takes effect at once. When the call returns the new
    key, that key authenticates as the tenant (if the tenant is active), a key with any
    other digest no longer does, including the one it replaced, and every other
    tenant's key works as before. *)
Theorem RotateAPIKey_effect random id t t' key r :
  tenants_ok t → t !! id = Some r → RotateAPIKey NoFault random id t = (t', Ok key) →
  tenants_ok t'
  ∧ (active r = true → GetTenantByAPIKey NoFault key t' = Ok (tr_tenant r))
  ∧ (∀ k tn, HashAPIKey k ≠ HashAPIKey key → GetTenantByAPIKey NoFault k t' = Ok tn → tn_ID tn ≠ id)
  ∧ (∀ k tn, tn_ID tn ≠ id → GetTenantByAPIKey NoFault k t = Ok tn → GetTenantByAPIKey NoFault k t' = Ok tn).
Proof.
  intros Hok Hr Hrot. unfold RotateAPIKey in Hrot. destruct (NewAPIKey random) as [key'|]; [|done].
  unfold exec, update_tenant_stmt in Hrot. rewrite Hr in Hrot.
  destruct (hash_taken (HashAPIKey key') id t) eqn:Hh; cbn in Hrot; [done|]. injection Hrot as <- ->.
  pose proof (hash_taken_false _ _ _ Hok Hh) as Hfree.
  set (r' := mkTenantRow (tr_tenant r) (HashAPIKey key)).
  assert (tenants_ok (<[id := r']> t)) as Hok'
    by (apply tenants_ok_insert; [done|by apply (tok_keyed t Hok id r)|done]).
  split; [done|]. split; [|split].
  - intros Ha. apply GetTenantByAPIKey_Ok; [done|]. exists r'. rewrite (tok_keyed t Hok id r Hr).
    by rewrite lookup_insert_eq.
  - intros k tn Hne (q&Hq&_&_&Hhash)%GetTenantByAPIKey_Ok He; [|done].
    rewrite He, lookup_insert_eq in Hq. injection Hq as <-. by apply Hne.
  - intros k tn Hne (q&Hq&Ht&Ha&Hhash)%GetTenantByAPIKey_Ok; [|done]. apply GetTenantByAPIKey_Ok; [done|].
    exists q. by rewrite lookup_insert_ne.
Qed.
End api_keys.
