(* ===== verification/Schedules.v ===== *)
(** * Cron schedules (internal/storage/storage.go, schedule functions)

    The [schedules] table and the functions that read and change it. *)

From S2P Require Import Prelude GoBase Job Db.

Open Scope Z_scope.
Local Open Scope sluice_scope.

Record Schedule := mkSchedule {
  sc_ID : uuid;
  sc_TenantID : uuid;
  sc_Name : string;
  sc_Cron : string;
  sc_Timezone : string;
  sc_JobTemplate : string;
  sc_Enabled : bool;
  sc_LastRunAt : option Z;
  sc_NextRunAt : Z;
}.

Abbreviation schedules := (gmap uuid Schedule).

Section schedules.
Context `{!PgText}.

(** The row an INSERT or UPDATE writes, when the values fit their columns. *)
Definition schedule_row (s : Schedule) : option Schedule :=
  if text_ok (sc_Name s) && text_ok (sc_Cron s) && text_ok (sc_Timezone s) then
    tmpl ← jsonb_in (sc_JobTemplate s);
    Some (mkSchedule (sc_ID s) (sc_TenantID s) (sc_Name s) (sc_Cron s) (sc_Timezone s) tmpl (sc_Enabled s)
            (sc_LastRunAt s) (pg_ts (sc_NextRunAt s)))
  else None.

(** UNIQUE (tenant_id, name). *)
Definition name_taken (s : Schedule) (t : schedules) : bool :=
  existsb (λ s', bool_decide (sc_TenantID s' = sc_TenantID s) && String.eqb (sc_Name s') (sc_Name s)) (rows t).

Definition insert_schedule_stmt (s : Schedule) : stmt schedules unit := λ t,
  match schedule_row s with
  | None => Err ErrPostgres
  | Some row =>
      if bool_decide (is_Some (t !! sc_ID s)) || name_taken s t then Err ErrDuplicate
      else Ok (<[sc_ID s := mkSchedule (sc_ID row) (sc_TenantID row) (sc_Name row) (sc_Cron row) (sc_Timezone row)
                               (sc_JobTemplate row) (sc_Enabled row) None (sc_NextRunAt row)]> t, tt)
  end.

Definition InsertSchedule (f : fault) (s : Schedule) (t : schedules) : schedules * result storage_error unit :=
  exec f (insert_schedule_stmt s) t.

Definition GetSchedule (f : fault) (id tenantID : uuid) (t : schedules) : result storage_error Schedule :=
  query f (λ t, match t !! id with
                | Some s => if bool_decide (sc_TenantID s = tenantID) then Ok s else Err ErrNotFound
                | None => Err ErrNotFound
                end) t.

(** [ListSchedules]: those of a tenant by name; the order depends on the server's
    collation. *)
Definition ListSchedules (f : fault) (tenantID : uuid) (p : plan Schedule) (t : schedules)
    : result storage_error (list Schedule) :=
  query f (λ t, Ok (p (filter (λ s, sc_TenantID s = tenantID) (rows t)))) t.

(** [UpdateSchedule]: cron, timezone, template, enabled and next_run_at. *)
Definition update_schedule_stmt (s : Schedule) : stmt schedules unit := λ t,
  match schedule_row s with
  | None => Err ErrPostgres
  | Some row =>
      match t !! sc_ID s with
      | Some old =>
          if bool_decide (sc_TenantID old = sc_TenantID s) then
            Ok (<[sc_ID s := mkSchedule (sc_ID old) (sc_TenantID old) (sc_Name old) (sc_Cron row) (sc_Timezone row)
                               (sc_JobTemplate row) (sc_Enabled row) (sc_LastRunAt old) (sc_NextRunAt row)]> t, tt)
          else Err ErrNotFound
      | None => Err ErrNotFound
      end
  end.

Definition UpdateSchedule (f : fault) (s : Schedule) (t : schedules) : schedules * result storage_error unit :=
  exec f (update_schedule_stmt s) t.

Definition delete_schedule_stmt (id tenantID : uuid) : stmt schedules unit := λ t,
  match t !! id with
  | Some s => if bool_decide (sc_TenantID s = tenantID) then Ok (delete id t, tt) else Err ErrNotFound
  | None => Err ErrNotFound
  end.

Definition DeleteSchedule (f : fault) (id tenantID : uuid) (t : schedules) : schedules * result storage_error unit :=
  exec f (delete_schedule_stmt id tenantID) t.

(** ORDER BY next_run_at. *)
Definition next_run_before (a b : Schedule) : Prop := sc_NextRunAt a <= sc_NextRunAt b.

#[export] Instance next_run_before_dec : RelDecision next_run_before.
Proof. intros a b. unfold next_run_before. apply _. Defined.

Definition GetDueSchedules (f : fault) (now limit : Z) (p : plan Schedule) (t : schedules)
    : result storage_error (list Schedule) :=
  query f (λ t, of_option (LIMIT limit (merge_sort next_run_before
                 (p (filter (λ s, sc_Enabled s = true ∧ sc_NextRunAt s <= now) (rows t)))))) t.

Definition after_run_stmt (id : uuid) (lastRunAt nextRunAt : Z) : stmt schedules unit := λ t,
  match t !! id with
  | Some s =>
      Ok (<[id := mkSchedule (sc_ID s) (sc_TenantID s) (sc_Name s) (sc_Cron s) (sc_Timezone s) (sc_JobTemplate s)
                    (sc_Enabled s) (Some (pg_ts lastRunAt)) (pg_ts nextRunAt)]> t, tt)
  | None => Ok (t, tt)
  end.

Definition UpdateScheduleAfterRun (f : fault) (id : uuid) (lastRunAt nextRunAt : Z) (t : schedules)
    : schedules * result storage_error unit :=
  exec f (after_run_stmt id lastRunAt nextRunAt) t.
End schedules.
