(* ===== verification/Stats.v ===== *)
(** * Dashboard queries (internal/storage/storage.go, statistics functions)

    Counts of a tenant's jobs by state, run histories joined with their jobs, and the
    dead-letter list. *)

From S2P Require Import Prelude GoBase Job Db.

Open Scope Z_scope.

(** ** Counts *)

Definition count_state (tenantID : uuid) (st : State) (d : db) : Z :=
  Z.of_nat (length (filter (λ j, TenantID j = tenantID ∧ State_ j = st) (rows (jobs d)))).

(** GROUP BY state: a state without jobs has no group. *)
Definition CountJobsByState (f : fault) (tenantID : uuid) (d : db) : result storage_error (gmap string Z) :=
  query f (λ d, Ok (list_to_map (omap (λ st, let n := count_state tenantID st d in
                                            if n =? 0 then None else Some (State_string st, n)) all_states))) d.

(** ** Runs *)
Record JobRun := mkJobRun {
  jr_RunID : uuid;
  jr_JobID : uuid;
  jr_TenantID : uuid;
  jr_JobType : string;
  jr_Attempt : Z;
  jr_State : State;
  jr_DurationMs : option Z;
  jr_StartedAt : Z;
  jr_FinishedAt : option Z;
  jr_Error : option string;
}.

(** The JOIN with jobs: a run whose job is gone has no row. *)
Definition join_run (d : db) (r : run_row) : option JobRun :=
  (λ j, mkJobRun (rr_id r) (rr_job_id r) (rr_tenant_id r) (Type_ j) (rr_attempt r) (rr_state r) (rr_duration_ms r)
          (rr_started_at r) (rr_finished_at r) (rr_error r)) <$> jobs d !! rr_job_id r.

Definition started_before (a b : JobRun) : Prop := jr_StartedAt a <= jr_StartedAt b.
Definition started_after (a b : JobRun) : Prop := jr_StartedAt b <= jr_StartedAt a.

#[export] Instance started_before_dec : RelDecision started_before.
Proof. intros a b. unfold started_before. apply _. Defined.
#[export] Instance started_after_dec : RelDecision started_after.
Proof. intros a b. unfold started_after. apply _. Defined.

Definition ListRecentRuns (f : fault) (tenantID : uuid) (limit : Z) (p : plan run_row) (d : db)
    : result storage_error (list JobRun) :=
  query f (λ d, of_option (LIMIT limit (merge_sort started_after
    (omap (join_run d) (p (filter (λ r, rr_tenant_id r = tenantID) (job_runs d))))))) d.

Definition ListJobRuns (f : fault) (jobID tenantID : uuid) (p : plan run_row) (d : db)
    : result storage_error (list JobRun) :=
  query f (λ d, Ok (merge_sort started_before
    (omap (join_run d) (p (filter (λ r, rr_job_id r = jobID ∧ rr_tenant_id r = tenantID) (job_runs d)))))) d.

(** ** Dead letters *)
Record DeadLetterEntry := mkDeadLetterEntry {
  de_JobID : uuid;
  de_TenantID : uuid;
  de_AttemptCount : Z;
  de_FinalError : option string;
  de_MovedAt : Z;
}.

Definition dead_entry (d : db) (id : uuid) : option DeadLetterEntry :=
  (λ e, mkDeadLetterEntry id (dl_tenant_id e) (dl_attempt_count e) (dl_final_error e) (dl_moved_at e))
    <$> dead_letter d !! id.

Definition moved_after (a b : DeadLetterEntry) : Prop := de_MovedAt b <= de_MovedAt a.

#[export] Instance moved_after_dec : RelDecision moved_after.
Proof. intros a b. unfold moved_after. apply _. Defined.

(** The entries that satisfy [keep], latest first; [p] is the order the server visits
    them in. *)
Definition dead_entries (keep : DeadLetterEntry → Prop) `{!∀ e, Decision (keep e)} (limit : Z) (p : plan uuid)
    (d : db) : option (list DeadLetterEntry) :=
  LIMIT limit (merge_sort moved_after
    (filter keep (omap (dead_entry d) (p (fst <$> map_to_list (dead_letter d)))))).

Definition ListDeadLetter (f : fault) (tenantID : uuid) (limit : Z) (p : plan uuid) (d : db)
    : result storage_error (list DeadLetterEntry) :=
  query f (λ d, of_option (dead_entries (λ e, de_TenantID e = tenantID) limit p d)) d.
