(* ===== verification/World.v ===== *)
(** * Programs over Postgres and Redis

    The schedulers, workers and API handlers are programs that make one remote
    call after another, while other processes act on the same Postgres and Redis. The
    [world] is what they share. A [turn] is what the environment decides for one
    call: what other processes did just before it, which fault it meets, the clocks,
    and the choices left to the servers. A program reads its turns from an oracle, so
    a theorem about every oracle covers every interleaving and every failure. *)

From S2P Require Import Prelude GoBase Job Redis Queue Ratelimit Db Partitions Storage Tenants Schedules.

Open Scope Z_scope.

Record world := mkWorld {
  w_db : db;
  w_tenants : tenants;
  w_schedules : schedules;
  w_redis : redis;
  w_buckets : gmap uuid bucket;        (* the rate limiter's keys in Redis *)
  w_parts : partitions;                (* the monthly partitions of job_runs *)
}.

Definition set_db (w : world) (d : db) : world :=
  mkWorld d (w_tenants w) (w_schedules w) (w_redis w) (w_buckets w) (w_parts w).
Definition set_tenants (w : world) (ts : tenants) : world :=
  mkWorld (w_db w) ts (w_schedules w) (w_redis w) (w_buckets w) (w_parts w).
Definition set_schedules (w : world) (ss : schedules) : world :=
  mkWorld (w_db w) (w_tenants w) ss (w_redis w) (w_buckets w) (w_parts w).
Definition set_redis (w : world) (r : redis) : world :=
  mkWorld (w_db w) (w_tenants w) (w_schedules w) r (w_buckets w) (w_parts w).
Definition set_buckets (w : world) (bs : gmap uuid bucket) : world :=
  mkWorld (w_db w) (w_tenants w) (w_schedules w) (w_redis w) bs (w_parts w).
Definition set_parts (w : world) (ps : partitions) : world :=
  mkWorld (w_db w) (w_tenants w) (w_schedules w) (w_redis w) (w_buckets w) ps.

(** The rows of [job_runs] with the partitions they are in. *)
Definition w_runs (w : world) : partitions * list run_row := (w_parts w, job_runs (w_db w)).
Definition set_runs (w : world) (s : partitions * list run_row) : world :=
  set_parts (set_db w (mkDb (jobs (w_db w)) (snd s) (dead_letter (w_db w)))) (fst s).

Record turn := mkTurn {
  t_env : world → world;               (* other processes, before the call *)
  t_fault : fault;                     (* what happens to the call *)
  t_cut : option nat;                  (* where a pipelined call breaks off *)
  t_now : Z;                           (* the caller's clock *)
  t_server : Z;                        (* the server's clock *)
  t_done : bool;                       (* the caller's context has ended *)
  t_locked : gset uuid;                (* rows other transactions hold *)
  t_plan : plan Job;                   (* row orders the server chooses *)
  t_plan' : plan Job;
  t_plan_ids : plan uuid;
  t_plan_tenants : plan tenant_row;
  t_plan_schedules : plan Schedule;
  t_plan_names : plan string;
  t_plan_runs : plan run_row;
  t_scans : list (option (list scanned_key));   (* replies of a SCAN loop *)
  t_uuid : uuid;                       (* fresh identifiers *)
  t_uuid' : uuid;
  t_random : option (list Z);          (* what crypto/rand returns *)
  t_random' : option (list Z);
}.

Definition oracle := nat → turn.

(** ** The program monad: oracle, position in it, world *)
Definition prog (A : Type) : Type := oracle → nat * world → (nat * world) * A.

Definition pret {A} (a : A) : prog A := λ _ s, (s, a).
Definition pbind {A B} (c : prog A) (k : A → prog B) : prog B := λ o s,
  let '(s', a) := c o s in k a o s'.

Declare Scope prog_scope.
Delimit Scope prog_scope with prog.
Notation "'do' x ← c ; k" := (pbind c (λ x, k))
  (at level 100, x pattern, c at level 100, k at level 200, right associativity) : prog_scope.
Notation "c ;; k" := (pbind c (λ _, k)) (at level 100, k at level 200, right associativity) : prog_scope.

(** One remote call: the environment moves, then the call happens. *)
Definition remote {A} (f : turn → world → world * A) : prog A := λ o '(n, w),
  let t := o n in
  let '(w', a) := f t (t_env t w) in
  ((S n, w'), a).

Definition on {S A} (get : world → S) (set : world → S → world) (f : turn → S → S * A) : prog A :=
  remote (λ t w, let '(s, a) := f t (get w) in (set w s, a)).

Definition on_db {A} (f : turn → db → db * A) : prog A := on w_db set_db f.
Definition on_redis {A} (f : turn → redis → redis * A) : prog A := on w_redis set_redis f.
Definition on_schedules {A} (f : turn → schedules → schedules * A) : prog A := on w_schedules set_schedules f.
Definition on_tenants {A} (f : turn → tenants → tenants * A) : prog A := on w_tenants set_tenants f.
Definition on_buckets {A} (f : turn → gmap uuid bucket → gmap uuid bucket * A) : prog A := on w_buckets set_buckets f.
Definition on_runs {A} (f : turn → partitions * list run_row → (partitions * list run_row) * A) : prog A :=
  on w_runs set_runs f.

(** A read of the shared state. *)
Definition ask {A} (f : turn → world → A) : prog A := remote (λ t w, (w, f t w)).

(** The caller's clock or context, read without a call. *)
Definition local {A} (f : turn → A) : prog A := λ o '(n, w), ((n, w), f (o n)).

(** ** Laws *)
Lemma pbind_ret {A B} (a : A) (k : A → prog B) : pbind (pret a) k = k a.
Proof. done. Qed.

Lemma pbind_run {A B} (c : prog A) (k : A → prog B) o s s' a :
  c o s = (s', a) → pbind c k o s = k a o s'.
Proof. unfold pbind. by intros ->. Qed.

Lemma pbind_local {A B} (f : turn → A) (k : A → prog B) o n w :
  pbind (local f) k o (n, w) = k (f (o n)) o (n, w).
Proof. done. Qed.

(** A call, with the move of the environment before it. *)
Lemma on_run {S A} get set (f : turn → S → S * A) o n w :
  let w1 := t_env (o n) w in
  on get set f o (n, w) = ((Datatypes.S n, set w1 (fst (f (o n) (get w1)))), snd (f (o n) (get w1))).
Proof. unfold on, remote. cbn zeta. by destruct (f (o n) (get (t_env (o n) w))). Qed.

(** ** A quiet stretch: nothing else moves, nothing fails, the clocks agree *)
Record quiet (o : oracle) (now : Z) : Prop := {
  q_env n w : t_env (o n) w = w;
  q_fault n : t_fault (o n) = NoFault;
  q_cut n : t_cut (o n) = None;
  q_now n : t_now (o n) = now;
  q_server n : t_server (o n) = now;
  q_done n : t_done (o n) = false;
  q_locked n : t_locked (o n) = ∅;
}.

Lemma on_quiet o now {S A} get set (f : turn → S → S * A) n w :
  quiet o now → on get set f o (n, w) = ((Datatypes.S n, set w (fst (f (o n) (get w)))), snd (f (o n) (get w))).
Proof. intros Hq. rewrite on_run. cbn zeta. by rewrite (q_env o now Hq). Qed.

Lemma on_db_quiet o now {A} (f : turn → db → db * A) n w :
  quiet o now → on_db f o (n, w) = ((S n, set_db w (fst (f (o n) (w_db w)))), snd (f (o n) (w_db w))).
Proof. apply on_quiet. Qed.

Lemma ask_quiet {A} o now (f : turn → world → A) n w :
  quiet o now → ask f o (n, w) = ((S n, w), f (o n) w).
Proof. intros Hq. unfold ask, remote. by rewrite (q_env o now Hq). Qed.

Lemma set_db_same w : set_db w (w_db w) = w.
Proof. by destruct w. Qed.

Lemma set_runs_same w : set_runs w (w_runs w) = w.
Proof. by destruct w as [[]]. Qed.
Lemma set_runs_twice w s s' : set_runs (set_runs w s) s' = set_runs w s'.
Proof. done. Qed.
Lemma w_runs_set w s : w_runs (set_runs w s) = s.
Proof. by destruct s. Qed.

(** ** Invariants of programs *)
Definition preserves {A} (I : world → Prop) (o : oracle) (c : prog A) : Prop :=
  ∀ s, I (snd s) → I (snd (fst (c o s))).

Section preserves.
Variables (I : world → Prop) (o : oracle).

Lemma preserves_pret {A} (a : A) : preserves I o (pret a).
Proof. by intros [n w]. Qed.

Lemma preserves_local {A} (f : turn → A) : preserves I o (local f).
Proof. by intros [n w]. Qed.

Lemma preserves_pbind {A B} (c : prog A) (k : A → prog B) :
  preserves I o c → (∀ a, preserves I o (k a)) → preserves I o (pbind c k).
Proof. intros Hc Hk s Hs. unfold pbind. specialize (Hc s Hs). destruct (c o s) as [s' a]. by apply Hk. Qed.

Hypothesis Henv : ∀ n w, I w → I (t_env (o n) w).

Lemma preserves_ask {A} (f : turn → world → A) : preserves I o (ask f).
Proof. intros [n w] Hw. by apply Henv. Qed.

Lemma preserves_on {S A} get set (f : turn → S → S * A) :
  (∀ t w, I w → I (set w (fst (f t (get w))))) → preserves I o (on get set f).
Proof.
  intros Hf [n w] Hw. unfold on, remote. specialize (Hf (o n) _ (Henv n w Hw)).
  by destruct (f (o n) (get (t_env (o n) w))).
Qed.
End preserves.

(** The same with a promise about the result. *)
Definition ensures {A} (I : world → Prop) (o : oracle) (c : prog A) (Q : A → Prop) : Prop :=
  ∀ s, I (snd s) → I (snd (fst (c o s))) ∧ Q (snd (c o s)).

Section ensures.
Variables (I : world → Prop) (o : oracle).

Lemma ensures_pret {A} (a : A) (Q : A → Prop) : Q a → ensures I o (pret a) Q.
Proof. intros HQ [n w] Hw. by split. Qed.

Lemma ensures_local {A} (f : turn → A) (Q : A → Prop) : (∀ t, Q (f t)) → ensures I o (local f) Q.
Proof. intros HQ [n w] Hw. split; [done|apply HQ]. Qed.

Lemma ensures_pbind {A B} (c : prog A) (k : A → prog B) (R : A → Prop) (Q : B → Prop) :
  ensures I o c R → (∀ a, R a → ensures I o (k a) Q) → ensures I o (pbind c k) Q.
Proof.
  intros Hc Hk s Hs. unfold pbind. destruct (Hc s Hs) as [Hi Hr]. destruct (c o s) as [s' a]. by apply Hk.
Qed.

Lemma ensures_preserves {A} (c : prog A) : ensures I o c (λ _, True) ↔ preserves I o c.
Proof. split; intros Hc s Hs; [apply (Hc s Hs)|split; [by apply Hc|done]]. Qed.

Lemma ensures_weaken {A} (c : prog A) (R Q : A → Prop) : ensures I o c R → (∀ a, R a → Q a) → ensures I o c Q.
Proof. intros Hc HQ s Hs. destruct (Hc s Hs). auto. Qed.

Hypothesis Henv : ∀ n w, I w → I (t_env (o n) w).

Lemma ensures_ask {A} (f : turn → world → A) (Q : A → Prop) : (∀ t w, I w → Q (f t w)) → ensures I o (ask f) Q.
Proof. intros Hf [n w] Hw. split; [by apply Henv|by apply Hf, Henv]. Qed.

Lemma ensures_on {S A} get set (f : turn → S → S * A) (Q : A → Prop) :
  (∀ t w, I w → I (set w (fst (f t (get w)))) ∧ Q (snd (f t (get w)))) → ensures I o (on get set f) Q.
Proof. intros Hf [n w] Hw. rewrite on_run. cbn. by apply Hf, Henv. Qed.
End ensures.
