(* ===== verification/Webhook.v ===== *)
(** * Webhook execution (internal/worker/webhook.go, [executeWebhook], [signRequest])

    The HTTP request a webhook job becomes: method, headers in the job's order
    (Go iterates its map in any order), the content type, and the Standard Webhooks
    signature over the job identifier, the time and the body. What [net/http] does
    with the request is a parameter: whether it accepts a method and URL, and the
    status a request gets. *)

From stdpp Require Import pretty.
From S2P Require Import Prelude GoBase Encoding Job Db Tenants.

Open Scope Z_scope.
Local Open Scope sluice_scope.

(** ** HTTP headers

    [http.Header.Set] stores under the canonical form of the key. *)
Definition is_token_byte (c : ascii) : bool :=
  let x := char_byte c in
  ((48 <=? x) && (x <=? 57)) || ((65 <=? x) && (x <=? 90)) || ((97 <=? x) && (x <=? 122))
  || existsb (Ascii.eqb c) (String.list_ascii_of_string "!#$%&'*+-.^_`|~").

Definition to_upper (c : ascii) : ascii :=
  let x := char_byte c in if (97 <=? x) && (x <=? 122) then byte_char (x - 32) else c.
Definition to_lower (c : ascii) : ascii :=
  let x := char_byte c in if (65 <=? x) && (x <=? 90) then byte_char (x + 32) else c.

Fixpoint canonical_chars (upper : bool) (l : list ascii) : list ascii :=
  match l with
  | [] => []
  | c :: l' => (if upper then to_upper c else to_lower c) :: canonical_chars (Ascii.eqb c "-"%char) l'
  end.

Definition CanonicalHeaderKey (k : string) : string :=
  let l := String.list_ascii_of_string k in
  if forallb is_token_byte l then String.string_of_list_ascii (canonical_chars true l) else k.

Abbreviation header := (gmap string string).

Definition header_set (k v : string) (h : header) : header := <[CanonicalHeaderKey k := v]> h.
Definition header_get (k : string) (h : header) : string := default "" (h !! CanonicalHeaderKey k).

Record request := mkRequest {
  rq_Method : string;
  rq_URL : string;
  rq_Header : header;
  rq_Body : string;
}.

Inductive exec_error :=
| ErrUnknownType | ErrInvalidPayload | ErrWebhookSecret | ErrBuildRequest | ErrDecodeSecret
| ErrWebhookRequest | ErrWebhookStatus (code : Z).

(** What the signature covers: [msgID + "." + ts + "."] and the body. *)
Definition signed_content (msgID ts body : string) : bytes :=
  bytes_of_string (msgID +:+ "." +:+ ts +:+ ".") ++ bytes_of_string body.

(** [strconv.FormatInt(at.Unix(), 10)]. *)
Definition unix_text (at_ : Z) : string := pretty (at_ / Second).

Definition signRequest (h : header) (secret msgID : string) (at_ : Z) (body : string)
    : result exec_error header :=
  match base64_decode (TrimPrefix "whsec_" secret) with
  | None => Err ErrDecodeSecret
  | Some key =>
      let ts := unix_text at_ in
      let mac := hmac_sha256 key (signed_content msgID ts body) in
      Ok (header_set "webhook-signature" ("v1," +:+ base64_std mac)
           (header_set "webhook-timestamp" ts (header_set "webhook-id" msgID h)))
  end.

(** [net/http]: which methods and URLs [NewRequest] accepts, and what [Client.Do]
    gives back for a request (a status, or an error). *)
Class HttpLib := {
  new_request_ok : string → string → bool;
  http_do : request → option Z;
}.

Section webhook.
Context `{!UuidText} `{!InputLib} `{!HttpLib}.

(** The headers of the job, then the default content type. *)
Definition job_headers (order : plan (string * string)) (p : WebhookPayload) : header :=
  let h := foldl (λ h kv, header_set (fst kv) (snd kv) h) ∅ (order (Headers p)) in
  if String.eqb (header_get "Content-Type" h) "" && negb (String.eqb (Body p) "")
  then header_set "Content-Type" "application/json" h
  else h.

(** The request [executeWebhook] sends; [secret] is what [webhookSecret] returned. *)
Definition webhook_request (order : plan (string * string)) (now : Z) (secret : result storage_error string)
    (j : Job) : result exec_error request :=
  match json_WebhookPayload (Payload j) with
  | None => Err ErrInvalidPayload
  | Some p =>
      let method := if String.eqb (Method p) "" then "POST" else Method p in
      match secret with
      | Err _ => Err ErrWebhookSecret
      | Ok secret =>
          if new_request_ok method (URL p) then
            let? h := signRequest (job_headers order p) secret (uuid_String (ID j)) now (Body p) in
            Ok (mkRequest method (URL p) h (Body p))
          else Err ErrBuildRequest
      end
  end.

Definition executeWebhook (order : plan (string * string)) (now : Z) (secret : result storage_error string)
    (j : Job) : result exec_error unit :=
  let? req := webhook_request order now secret j in
  match http_do req with
  | None => Err ErrWebhookRequest
  | Some code => if 400 <=? code then Err (ErrWebhookStatus code) else Ok tt
  end.

(** [Worker.execute]. *)
Definition execute (order : plan (string * string)) (now : Z) (secret : result storage_error string) (j : Job)
    : result exec_error unit :=
  if String.eqb (Type_ j) "webhook" then executeWebhook order now secret j else Err ErrUnknownType.

(** C33: Every webhook request is signed, and a job cannot replace the signature.
    With a secret [NewWebhookSecret] made from any random bytes, building the request
    never fails for want of a usable secret; and whatever headers the job asks for, in
    whatever spelling and order, the request carries the job's identifier, the time,
    and the HMAC of identifier, time and body under exactly those random bytes. *)
Theorem webhook_signed order now key secret j p :
  Forall byte_ok key → NewWebhookSecret (Some key) = Ok secret →
  json_WebhookPayload (Payload j) = Some p →
  new_request_ok (if String.eqb (Method p) "" then "POST" else Method p) (URL p) = true →
  ∃ req, webhook_request order now (Ok secret) j = Ok req
    ∧ rq_URL req = URL p ∧ rq_Body req = Body p
    ∧ rq_Header req !! "Webhook-Id" = Some (uuid_String (ID j))
    ∧ rq_Header req !! "Webhook-Timestamp" = Some (unix_text now)
    ∧ rq_Header req !! "Webhook-Signature"
      = Some ("v1," +:+ base64_std
                (hmac_sha256 key (signed_content (uuid_String (ID j)) (unix_text now) (Body p)))).
Proof.
  intros Hkey [= <-] Hp Hok. unfold webhook_request. rewrite Hp, Hok. unfold signRequest.
  rewrite TrimPrefix_app, base64_round_trip by done. cbn [result_bind].
  eexists. split; [reflexivity|]. cbn [rq_URL rq_Body rq_Header]. split; [done|]. split; [done|].
  unfold header_set.
  change (CanonicalHeaderKey "webhook-id") with "Webhook-Id".
  change (CanonicalHeaderKey "webhook-timestamp") with "Webhook-Timestamp".
  change (CanonicalHeaderKey "webhook-signature") with "Webhook-Signature".
  split; [|split].
  - by rewrite !lookup_insert_ne, lookup_insert_eq by done.
  - by rewrite lookup_insert_ne, lookup_insert_eq by done.
  - by rewrite lookup_insert_eq.
Qed.
End webhook.
