(* ===== verification/Telemetry.v ===== *)
(** * Contexts, tracing and metrics (internal/telemetry, internal/tenant, internal/metrics, middleware.go)

    The values a request context carries (correlation identifier, tenant, span), the
    global state of OpenTelemetry that [Init] sets, the traceparent a job carries from
    the request that submitted it to its executions, the metrics with their labels, the
    updates the program makes to them, and the middleware around every request. The W3C
    text of a span context is a parameter. *)

From stdpp Require Import pretty.
From S2P Require Import Prelude GoBase Encoding Job Queue Db Storage Tenants Webhook.

Open Scope Z_scope.

(** ** Contexts

    A context is the chain of [context.WithValue] calls that made it, the last one
    first; keys of different packages are different. *)
Record SpanContext := mkSpan { sc_TraceID : bytes; sc_SpanID : bytes; sc_Remote : bool }.

Inductive ctx_key := CorrelationKey | TenantKey | SpanKey.

#[export] Instance ctx_key_eq_dec : EqDecision ctx_key.
Proof. solve_decision. Defined.

Inductive ctx_val := CtxString (s : string) | CtxTenant (t : option Tenant) | CtxSpan (sc : SpanContext).

Abbreviation context := (list (ctx_key * ctx_val)).

Definition WithValue (ctx : context) (k : ctx_key) (v : ctx_val) : context := (k, v) :: ctx.

Fixpoint Value (ctx : context) (k : ctx_key) : option ctx_val :=
  match ctx with
  | [] => None
  | (k', v) :: ctx' => if decide (k' = k) then Some v else Value ctx' k
  end.

(** The tenant of a request (tenant.go); a nil pointer is not one. *)
Definition WithTenant (ctx : context) (t : option Tenant) : context := WithValue ctx TenantKey (CtxTenant t).

Definition FromContext (ctx : context) : option Tenant :=
  match Value ctx TenantKey with Some (CtxTenant t) => t | _ => None end.

(** The correlation identifier (telemetry.go), empty if there is none. *)
Definition WithCorrelationID (ctx : context) (id : string) : context := WithValue ctx CorrelationKey (CtxString id).

Definition CorrelationID (ctx : context) : string :=
  match Value ctx CorrelationKey with Some (CtxString id) => id | _ => EmptyString end.

(** ** Spans *)
Definition nonzero (b : bytes) : bool := existsb (λ x, negb (x =? 0)) b.

Definition IsValid (sc : SpanContext) : bool := nonzero (sc_TraceID sc) && nonzero (sc_SpanID sc).

Definition no_span : SpanContext := mkSpan [] [] false.

Definition SpanFromContext (ctx : context) : SpanContext :=
  match Value ctx SpanKey with Some (CtxSpan sc) => sc | _ => no_span end.

(** The attributes of a log line of [L]. *)
Definition L (ctx : context) : list (string * string) :=
  let id := CorrelationID ctx in
  let sc := SpanFromContext ctx in
  (if String.eqb id "" then [] else [("correlation_id", id)])
  ++ (if IsValid sc then [("trace_id", hex_encode (sc_TraceID sc)); ("span_id", hex_encode (sc_SpanID sc))] else []).

(** ** The global tracer (telemetry.go, [Init])

    The tracer provider, by the name and endpoint of its service, and whether the W3C
    propagators are installed; a process starts with neither. *)
Record otel := mkOtel { ot_provider : option (string * string); ot_propagators : bool }.

Definition otel_default : otel := mkOtel None false.

Inductive init_error := ErrExporter | ErrResource.

(** [exporter] and [resource] say whether the library could make them; the value
    returned is the provider the shutdown function belongs to. *)
Definition Init (exporter resource : bool) (serviceName endpoint : string) (g : otel)
    : otel * result init_error (string * string) :=
  if negb exporter then (g, Err ErrExporter)
  else if negb resource then (g, Err ErrResource)
  else (mkOtel (Some (serviceName, endpoint)) true, Ok (serviceName, endpoint)).

(** W3C trace context (go.opentelemetry.io/otel/propagation): the header of a span
    context, and the remote span context a header describes. *)
Class TraceContext := {
  traceparent_text : SpanContext → string;
  traceparent_parse : string → option SpanContext;
}.

(** Identifiers are arrays of sixteen and of eight bytes. *)
Definition span_typed (sc : SpanContext) : Prop :=
  length (sc_TraceID sc) = 16%nat ∧ length (sc_SpanID sc) = 8%nat
  ∧ Forall (λ b, 0 <= b < 256) (sc_TraceID sc ++ sc_SpanID sc).

Class TraceContextLaws `{!TraceContext} := {
  traceparent_round_trip sc : span_typed sc → IsValid sc = true →
    traceparent_parse (traceparent_text sc) = Some (mkSpan (sc_TraceID sc) (sc_SpanID sc) true);
  traceparent_nonempty sc : span_typed sc → IsValid sc = true → traceparent_text sc ≠ EmptyString;
}.

Section tracing.
Context `{!TraceContext}.

(** [TraceParent]: what the installed propagator injects under [traceparent]. *)
Definition TraceParent_of (g : otel) (ctx : context) : string :=
  if ot_propagators g && IsValid (SpanFromContext ctx) then traceparent_text (SpanFromContext ctx) else EmptyString.

Definition WithTraceParent (g : otel) (ctx : context) (traceparent : string) : context :=
  if String.eqb traceparent "" then ctx
  else if ot_propagators g then
    match traceparent_parse traceparent with
    | Some sc => if IsValid sc then WithValue ctx SpanKey (CtxSpan sc) else ctx
    | None => ctx
    end
  else ctx.

(** [Tracer(name).Start]: a span of the trace of its parent, or of a new one; without a
    provider the parent's own span context is carried on. *)
Definition Start (g : otel) (newTrace newSpan : bytes) (ctx : context) : context :=
  let parent := SpanFromContext ctx in
  match ot_provider g with
  | None => WithValue ctx SpanKey (CtxSpan parent)
  | Some _ =>
      WithValue ctx SpanKey
        (CtxSpan (mkSpan (if IsValid parent then sc_TraceID parent else newTrace) newSpan false))
  end.

(** What the submit handler puts in the job. *)
Definition submit_trace (g : otel) (ctx : context) : option string :=
  let tp := TraceParent_of g ctx in if String.eqb tp "" then None else Some tp.

(** The context [process] executes a claimed job in. *)
Definition execution_context (g : otel) (newTrace newSpan : bytes) (ctx : context) (j : Job) : context :=
  let ctx := match TraceParent j with Some tp => WithTraceParent g ctx tp | None => ctx end in
  Start g newTrace newSpan ctx.
End tracing.

(** ** Metrics (metrics.go) *)
Inductive metric :=
| QueueDepth | JobsTotal | JobRetriesTotal | JobDurationSeconds
| TenantThrottledTotal | WorkerInFlight | SchedulerIsLeader | HTTPRequestDuration.

#[export] Instance metric_eq_dec : EqDecision metric.
Proof. solve_decision. Defined.

Definition all_metrics : list metric :=
  [QueueDepth; JobsTotal; JobRetriesTotal; JobDurationSeconds;
   TenantThrottledTotal; WorkerInFlight; SchedulerIsLeader; HTTPRequestDuration].

Definition metric_name (m : metric) : string :=
  match m with
  | QueueDepth => "sluice_queue_depth"
  | JobsTotal => "sluice_jobs_total"
  | JobRetriesTotal => "sluice_job_retries_total"
  | JobDurationSeconds => "sluice_job_duration_seconds"
  | TenantThrottledTotal => "sluice_tenant_throttled_total"
  | WorkerInFlight => "sluice_worker_jobs_in_flight"
  | SchedulerIsLeader => "sluice_scheduler_is_leader"
  | HTTPRequestDuration => "sluice_http_request_duration_seconds"
  end.

Definition metric_labels (m : metric) : list string :=
  match m with
  | QueueDepth => ["priority"; "tenant_id"]
  | JobsTotal | JobDurationSeconds => ["type"; "state"; "tenant_id"]
  | JobRetriesTotal => ["type"; "tenant_id"]
  | TenantThrottledTotal => ["tenant_id"]
  | WorkerInFlight | SchedulerIsLeader => []
  | HTTPRequestDuration => ["method"; "path"; "status"]
  end.

(** The series of a process: a number for a counter or a gauge, the observations of a
    histogram, the last one first. *)
Abbreviation series := (string * list string)%type.

Record registry := mkRegistry { reg_value : gmap series Z; reg_observed : gmap series (list Z) }.

Definition registry_empty : registry := mkRegistry ∅ ∅.

(** [WithLabelValues]: [None] is the panic of a wrong number of values. *)
Definition WithLabelValues (m : metric) (vals : list string) : option series :=
  if decide (length vals = length (metric_labels m)) then Some (metric_name m, vals) else None.

Inductive metric_op := Add (n : Z) | SetTo (n : Z) | Observe (n : Z).

Definition value_of (r : registry) (s : series) : Z := default 0 (reg_value r !! s).
Definition observed (r : registry) (s : series) : list Z := default [] (reg_observed r !! s).

Definition apply_op (op : metric_op) (s : series) (r : registry) : registry :=
  match op with
  | Add n => mkRegistry (<[s := value_of r s + n]> (reg_value r)) (reg_observed r)
  | SetTo n => mkRegistry (<[s := n]> (reg_value r)) (reg_observed r)
  | Observe n => mkRegistry (reg_value r) (<[s := n :: observed r s]> (reg_observed r))
  end.

(** One update, and several; [None] is a panic. *)
Definition update (u : metric * list string * metric_op) (r : registry) : option registry :=
  (λ s, apply_op (snd u) s r) <$> WithLabelValues (fst (fst u)) (snd (fst u)).

Fixpoint updates (us : list (metric * list string * metric_op)) (r : registry) : option registry :=
  match us with
  | [] => Some r
  | u :: us' => r' ← update u r; updates us' r'
  end.

(** [QueueDepth.Reset()]. *)
Definition Reset (m : metric) (r : registry) : registry :=
  mkRegistry (filter (λ sv, fst (fst sv) ≠ metric_name m) (reg_value r))
    (filter (λ sv, fst (fst sv) ≠ metric_name m) (reg_observed r)).

Section metrics.
Context `{!UuidText}.

(** The updates of [process]: a tenant at its limit, a job taken up, and a job done,
    which took [dur]. *)
Definition throttled_updates (tenantID : string) : list (metric * list string * metric_op) :=
  [(TenantThrottledTotal, [tenantID], Add 1)].

Definition started_updates : list (metric * list string * metric_op) := [(WorkerInFlight, [], Add 1)].

Definition final_state (j : Job) : string := if ShouldRetry j then "failed" else "dead".

Definition finished_updates (j : Job) (failed : bool) (dur : Z) : list (metric * list string * metric_op) :=
  let tenantID := uuid_String (TenantID j) in
  (WorkerInFlight, [], Add (-1)) ::
  (if failed then
     (if ShouldRetry j then [(JobRetriesTotal, [Type_ j; tenantID], Add 1)] else [])
     ++ [(JobsTotal, [Type_ j; final_state j; tenantID], Add 1);
         (JobDurationSeconds, [Type_ j; final_state j; tenantID], Observe dur)]
   else [(JobsTotal, [Type_ j; "succeeded"; tenantID], Add 1);
         (JobDurationSeconds, [Type_ j; "succeeded"; tenantID], Observe dur)]).

(** The updates of [exportQueueDepths], and of a term of office of [Scheduler.Run]. *)
Definition depth_updates (depths : list Depth) : list (metric * list string * metric_op) :=
  (λ d, (QueueDepth, [d_Priority d; uuid_String (d_TenantID d)], SetTo (d_Depth d))) <$> depths.

Definition export_depths (depths : list Depth) (r : registry) : option registry :=
  updates (depth_updates depths) (Reset QueueDepth r).

Definition elected_updates : list (metric * list string * metric_op) := [(SchedulerIsLeader, [], SetTo 1)].
Definition deposed_updates : list (metric * list string * metric_op) := [(SchedulerIsLeader, [], SetTo 0)].
End metrics.

(** ** Middleware (middleware.go)

    A handler gets a context and the response headers set so far, and returns the
    status and the headers. *)
Record reply := mkReply { rp_status : Z; rp_header : header }.

Definition handler := context → header → reply.

(** [fresh] is what [uuid.NewString] returns. *)
Definition correlationMiddleware (requestID fresh : string) (next : handler) : handler := λ ctx h,
  let id := if String.eqb requestID "" then fresh else requestID in
  next (WithCorrelationID ctx id) (header_set "X-Request-ID" id h).

Definition cors_headers (h : header) : header :=
  header_set "Access-Control-Allow-Methods" "GET, POST, PATCH, DELETE, OPTIONS"
    (header_set "Access-Control-Allow-Headers" "Authorization, Content-Type, X-Request-ID"
      (header_set "Access-Control-Allow-Origin" "*" h)).

Definition corsMiddleware (method : string) (next : handler) : handler := λ ctx h,
  if String.eqb method "OPTIONS" then mkReply 204 (cors_headers h) else next ctx (cors_headers h).

(** [metricsMiddleware]: the reply of [next], and one observation labelled with the
    method, the pattern chi matched and the status; it took [dur]. *)
Definition metric_pattern (pattern : string) : string := if String.eqb pattern "" then "unmatched" else pattern.

Definition request_update (method pattern : string) (status dur : Z) : metric * list string * metric_op :=
  (HTTPRequestDuration, [method; metric_pattern pattern; pretty status], Observe dur).

Definition metricsMiddleware (method pattern : string) (dur : Z) (next : handler) (ctx : context) (h : header)
    (r : registry) : reply * option registry :=
  let rp := next ctx h in (rp, update (request_update method pattern (rp_status rp) dur) r).

(** The three of them in the order of [New]. *)
Definition middleware_stack (method pattern requestID fresh : string) (dur : Z) (next : handler) (ctx : context)
    (r : registry) : reply * option registry :=
  metricsMiddleware method pattern dur
    (corsMiddleware method (correlationMiddleware requestID fresh next)) ctx ∅ r.
