(* ===== verification/Worker.v ===== *)
(** * The worker (internal/worker/worker.go)

    The worker's caches ([loadTenants], [dequeueTenants], [throttle]), the claim of
    a popped job, its execution, and the recording of the outcome with retries, as
    programs of [World]. Heartbeats run beside [process]: they are among the moves of
    the environment between its calls. Spans, metrics and logs are left out. *)

From S2P Require Import Prelude GoBase Job Redis Queue Db Storage Tenants Schedules World Webhook.

Open Scope Z_scope.
Local Open Scope prog_scope.

Definition recordTimeout : Z := 10 * Second.
Definition throttleFor : Z := 250 * Millisecond.

(** The worker's shared fields; [concurrency], the HTTP client and the channels are
    not state the jobs see. *)
Record worker := mkWorker {
  wk_id : string;
  wk_tenants : list TenantWeight;
  wk_secrets : gmap uuid string;
  wk_limits : gmap uuid Z;
  wk_throttled : gmap uuid Z;
}.

(** ** Tenant caches *)
Definition weight_of (t : Tenant) : TenantWeight :=
  mkTenantWeight (tn_ID t) (if tn_Weight t <=? 0 then 100 else tn_Weight t).

Definition loadTenants (wk : worker) : prog worker :=
  do tenants ← ask (λ t w, GetTenants (t_fault t) (t_plan_tenants t) (w_tenants w));
  match tenants with
  | Err _ => pret wk
  | Ok l =>
      pret (mkWorker (wk_id wk) (weight_of <$> l)
              (foldl (λ m t, <[tn_ID t := tn_WebhookSecret t]> m) ∅ l)
              (foldl (λ m t, if 0 <? tn_MaxConcurrency t then <[tn_ID t := tn_MaxConcurrency t]> m else m) ∅ l)
              (wk_throttled wk))
  end.

Definition is_throttled (now : Z) (wk : worker) (t : TenantWeight) : bool :=
  match wk_throttled wk !! tw_ID t with Some until => now <? until | None => false end.

Definition dequeueTenants (now : Z) (wk : worker) : list TenantWeight :=
  filter (λ t, is_throttled now wk t = false) (wk_tenants wk).

Definition throttle (now : Z) (tenantID : uuid) (wk : worker) : worker :=
  mkWorker (wk_id wk) (wk_tenants wk) (wk_secrets wk) (wk_limits wk)
    (<[tenantID := now + throttleFor]> (wk_throttled wk)).

(** [list[strings.LastIndex(list, ":")+1:]]: the tenant at the end of a lane's key. *)
Fixpoint after_last_colon (acc s : string) : string :=
  match s with
  | EmptyString => acc
  | String c s' => if Ascii.eqb c ":"%char then after_last_colon s' s' else after_last_colon acc s'
  end.

Definition lane_tenant (list : string) : string := after_last_colon list list.

(** The wait after a failed write: 50 ms, doubled while it is below two seconds. *)
Definition next_delay (delay : Z) : Z := if delay <? 2 * Second then 2 * delay else delay.

Fixpoint waited (n : nat) (delay : Z) : Z :=
  match n with
  | O => 0
  | S n' => delay + waited n' (next_delay delay)
  end.

Definition retry_attempts : nat := 9.

Lemma retry_attempts_enough : recordTimeout < waited retry_attempts (50 * Millisecond).
Proof. done. Qed.

Section worker.
Context `{!UuidText} `{!PgText} `{!InputLib} `{!HttpLib}.

(** [execErr.Error()], and the jitter of a retry. *)
Variable error_text : exec_error → string.
Variable rnd : Z → Z.

Definition claim (wk : worker) (item : Item) (token : uuid) (deadline : Z)
    : prog (result storage_error (option (Job * uuid))) :=
  let unlimited := on_db (λ t, TryClaim (t_fault t) (t_locked t) (t_now t) (it_JobID item) (wk_id wk) token
                                 deadline (t_uuid' t)) in
  match uuid_Parse (lane_tenant (it_List item)) with
  | Some tenantID =>
      let limit := default 0 (wk_limits wk !! tenantID) in
      if 0 <? limit
      then on_db (λ t, TryClaimLimited (t_fault t) (t_locked t) (t_now t) (it_JobID item) tenantID limit (wk_id wk)
                         token deadline (t_uuid' t))
      else unlimited
  | None => unlimited
  end.

(** [webhookSecret]: the cache, or Postgres for a tenant it does not know. *)
Definition webhookSecret (wk : worker) (tenantID : uuid) : prog (result storage_error string) :=
  match wk_secrets wk !! tenantID with
  | Some secret => pret (Ok secret)
  | None =>
      do t ← ask (λ t w, GetTenant (t_fault t) tenantID (w_tenants w));
      pret (match t with Ok t => Ok (tn_WebhookSecret t) | Err e => Err e end)
  end.

(** [retryRecord]: a failed write is followed by a wait of [delay], unless the
    context ends first. [attempts] bounds the retries; [retry_attempts_enough] shows
    that the context of [process] ends before they are used up. *)
Fixpoint retryRecord (write : prog (result storage_error unit)) (attempts : nat) : prog (result storage_error unit) :=
  do r ← write;
  match r, attempts with
  | Ok _, _ => pret r
  | Err _, O => pret r
  | Err _, S attempts' =>
      do ended ← local t_done;
      if ended then pret r else retryRecord write attempts'
  end.

(** [Worker.execute]: the secret is loaded once the payload of a webhook is decoded. *)
Definition execute_job (wk : worker) (order : plan (string * string)) (j : Job) : prog (result exec_error unit) :=
  let needs_secret := String.eqb (Type_ j) "webhook" && bool_decide (is_Some (json_WebhookPayload (Payload j))) in
  do secret ← (if needs_secret then webhookSecret wk (TenantID j) else pret (Ok EmptyString));
  do now ← local t_now;
  pret (execute order now secret j).

(** How an execution ended: in success, or in an error with the time of the retry. *)
Inductive outcome := Succeeded | Failed (errMsg : string) (nextRunAt : option Z).

Definition outcome_of (j : Job) (now : Z) (r : result exec_error unit) : outcome :=
  match r with
  | Ok _ => Succeeded
  | Err e => Failed (error_text e) (if ShouldRetry j then Some (NextRetryAt rnd (Attempt j) (BackoffSeconds j) now) else None)
  end.

(** The write [process] hands to [retryRecord]. *)
Definition record (out : outcome) (f : fault) (now : Z) (jobID runID token : uuid) : db → db * result storage_error unit :=
  match out with
  | Succeeded => CompleteJob f now jobID runID token
  | Failed errMsg nextRunAt => FailJob f now jobID runID token errMsg nextRunAt
  end.

(** The work of a claimed job: execute, then record. *)
Definition run_claimed (wk : worker) (order : plan (string * string)) (jobID : uuid) (j : Job) (runID token : uuid)
    : prog unit :=
  do r ← execute_job wk order j;
  do now ← local t_now;
  do _ ← retryRecord (on_db (λ t, record (outcome_of j now r) (t_fault t) (t_now t) jobID runID token)) retry_attempts;
  pret tt.

(** [process] without its deferred call; [false] is a claim that met a database
    error. *)
Definition process_item (wk : worker) (order : plan (string * string)) (item : Item) : prog (worker * bool) :=
  do token ← local t_uuid;
  do now ← local t_now;
  do c ← claim wk item token (now + HeartbeatTTL);
  match c with
  | Err ErrConcurrencyLimit =>
      do now ← local t_now;
      let wk' := match uuid_Parse (lane_tenant (it_List item)) with
                 | Some tid => throttle now tid wk
                 | None => wk
                 end in
      do _ ← on_redis (λ t, Requeue (t_fault t) (t_server t) item);
      pret (wk', true)
  | Err _ =>
      do _ ← on_redis (λ t, Requeue (t_fault t) (t_server t) item);
      pret (wk, false)
  | Ok None => pret (wk, true)
  | Ok (Some (j, runID)) =>
      do _ ← run_claimed wk order (it_JobID item) j runID token;
      pret (wk, true)
  end.

Definition process (wk : worker) (order : plan (string * string)) (item : Item) : prog (worker * bool) :=
  do r ← process_item wk order item;
  do _ ← on_redis (λ t, RemoveFromProcessing (t_fault t) (t_server t) (wk_id wk) (it_JobID item));
  pret r.

(** ** The pull loop *)

(** [Pop]: the script, and while there is nothing, a wait for a wake token, until the
    deadline. [waits] bounds the waits; [PopWaiting] is a pop still under way then. *)
Inductive pop_outcome := PopItem (i : Item) | PopNothing | PopError (e : queue_error) | PopWaiting.

(** BLPOP of the wake list: the reply, if any, is dropped. *)
Definition wait_wake (f : fault) (now : Z) (r : redis) : redis * result queue_error unit :=
  match f with
  | NoFault => (blpop_wake now r, Ok tt)
  | LostRequest => (r, Err ErrRedis)
  | LostReply => (blpop_wake now r, Err ErrRedis)
  end.

Fixpoint pop_loop (deadline : Z) (workerID : string) (order : list uuid) (waits : nat) : prog pop_outcome :=
  do r ← on_redis (λ t, pop_once (t_fault t) (t_server t) workerID order);
  match r with
  | Ok (Some i) => pret (PopItem i)
  | Err e => pret (PopError e)
  | Ok None =>
      do now ← local t_now;
      if deadline - now <=? 0 then pret PopNothing
      else match waits with
           | O => pret PopWaiting
           | S waits' =>
               do w ← on_redis (λ t, wait_wake (t_fault t) (t_server t));
               match w with
               | Err e => pret (PopError e)
               | Ok _ => pop_loop deadline workerID order waits'
               end
           end
  end.

Definition dequeueTimeout : Z := Second.

(** [Pop] with the order the shuffle returned. *)
Definition Pop (workerID : string) (order : list uuid) (waits : nat) : prog pop_outcome :=
  do now ← local t_now;
  pop_loop (now + dequeueTimeout) workerID order waits.

(** One turn of [loop]: [None] is a panic of the shuffle, which ends the process.
    [draws] are the shuffle's random numbers; as many rounds as there are tenants are
    enough. The waits after an error do nothing. *)
Definition pull (draws : nat → Z → Z) (wk : worker) (order : plan (string * string)) (waits : nat) : prog (option worker) :=
  do now ← local t_now;
  match dequeueTenants now wk with
  | [] => pret (Some wk)
  | tenants =>
      match weightedShuffle draws (length tenants) tenants with
      | Shuffled ids =>
          do r ← Pop (wk_id wk) ids waits;
          match r with
          | PopItem item =>
              if (it_JobID item =? 0)%N then pret (Some wk)
              else do r ← process wk order item; pret (Some (fst r))
          | _ => pret (Some wk)
          end
      | _ => pret None
      end
  end.

(** [loop], for a number of turns. [refresh] is what the process's other goroutines do
    to the shared fields before each turn: reload the tenants, throttle one. *)
Fixpoint loop (draws : nat → Z → Z) (refresh : nat → worker → worker) (order : plan (string * string)) (waits turns : nat)
    (wk : worker) : prog (option worker) :=
  match turns with
  | O => pret (Some wk)
  | S turns' =>
      do ended ← local t_done;
      if ended then pret (Some wk)
      else do r ← pull draws (refresh turns wk) order waits;
           match r with
           | Some wk' => loop draws refresh order waits turns' wk'
           | None => pret None
           end
  end.

(** One beat of [heartbeat]: the Redis key, then the deadline in Postgres. *)
Definition heartbeat_tick (jobID token : uuid) : prog unit :=
  do _ ← on_redis (λ t, Heartbeat (t_fault t) (t_server t) jobID (uuid_String token));
  do _ ← on_db (λ t, ExtendDeadline (t_fault t) jobID token (t_now t + HeartbeatTTL));
  pret tt.
End worker.
