(* ===== verification/Scheduler.v ===== *)
(** * The scheduler's passes (internal/scheduler/scheduler.go)

    Each loop of the leader wakes on a ticker and makes one pass: [release] (due and
    retrying jobs), [reapStaleClaims], [promoteDeadJobs], [reconcilePending],
    [recoverDeadWorkerJobs], [enforceRetention], [ensurePartitions], [exportQueueDepths]
    and [expandCron] with [fireSchedule]. A pass is a program of [World]; logging is
    left out. Loops the source bounds by a constant recurse on it; the others take
    a bound on their iterations and say when it ran out. *)

From stdpp Require Import pretty.
From S2P Require Import Prelude GoBase Job Redis Queue QueueInv Db Partitions Storage Tenants Schedules World.

Open Scope Z_scope.
Local Open Scope prog_scope.

(** ** Constants *)
Definition pendingReconcileAge : Z := 30 * Second.
Definition pendingReconcileMaxPerPass : Z := 5000.
Definition releaseBatchSize : Z := 1000.
Definition releaseMaxBatches : nat := 20.
Definition cronBatchSize : Z := 200.
Definition pendingReconcileBatchSize : Z := 500.
Definition deadLetterBatchSize : Z := 500.
Definition retentionBatchSize : Z := 1000.

(** How a pass ends: by itself, or at the bound of the model. *)
Inductive pass := PassDone | PassOutOfFuel.

(** robfig/cron and the time zone database: which expressions and zones are
    accepted, what is said of an expression that is not, and the first occurrence after
    an instant. *)
Class CronLib := {
  cron_ok : string → bool;
  cron_error : string → string;
  location_ok : string → bool;
  cron_Next : string → string → Z → Z;
}.

Section scheduler.
Context `{!UuidText} `{!PgText} `{!InputLib} `{!CronLib} `{!SessionZone}.

(** ** Releasing due jobs *)
Definition entry_of (r : Released) : Entry := mkEntry (rel_ID r) (rel_TenantID r) (rel_Priority r).

Definition promote_call : Type :=
  fault → Z → Z → gset uuid → plan Job → plan Job → db → db * result storage_error (list Released).

Fixpoint release (promote : promote_call) (batches : nat) : prog unit :=
  match batches with
  | O => pret tt
  | S batches' =>
      do jobs ← on_db (λ t, promote (t_fault t) (t_server t) releaseBatchSize (t_locked t) (t_plan t) (t_plan' t));
      match jobs with
      | Err _ => pret tt
      | Ok jobs =>
          do r ← on_redis (λ t, EnqueueMany (t_cut t) (t_server t) (entry_of <$> jobs));
          match r with
          | Err _ => pret tt
          | Ok _ =>
              if Z.of_nat (length jobs) <? releaseBatchSize then pret tt
              else release promote batches'
          end
      end
  end.

Definition pollScheduledJobs : prog unit := release PromoteDueScheduled releaseMaxBatches.
Definition pollFailedJobs : prog unit := release PromoteReadyFailed releaseMaxBatches.

(** ** Reaping stale claims *)
Fixpoint reap (stale : list Job) : prog unit :=
  match stale with
  | [] => pret tt
  | j :: rest =>
      do dead ← on_db (λ t, RequeueStaleJob (t_fault t) (t_now t) (t_server t) (ID j));
      match dead with
      | Ok false =>
          do _ ← on_redis (λ t, Enqueue (t_fault t) (t_server t) (TenantID j) (ID j) (Priority j));
          reap rest
      | _ => reap rest
      end
  end.

Definition reapStaleClaims : prog unit :=
  do jobs ← ask (λ t w, GetStaleClaims (t_fault t) (t_server t) (t_plan t) (w_db w));
  match jobs with Err _ => pret tt | Ok jobs => reap jobs end.

(** ** Dead letters *)
Fixpoint promoteDeadJobs (fuel : nat) : prog pass :=
  match fuel with
  | O => pret PassOutOfFuel
  | S fuel' =>
      do ended ← local t_done;
      if ended then pret PassDone
      else do n ← on_db (λ t, MoveToDeadLetter (t_fault t) (t_server t) deadLetterBatchSize (t_plan t));
           match n with
           | Err _ => pret PassDone
           | Ok n => if n <? deadLetterBatchSize then pret PassDone else promoteDeadJobs fuel'
           end
  end.

(** ** Retention *)
Fixpoint prune_loop (prune : turn → db → db * result storage_error Z) (fuel : nat) : prog pass :=
  match fuel with
  | O => pret PassOutOfFuel
  | S fuel' =>
      do ended ← local t_done;
      if ended then pret PassDone
      else do n ← on_db prune;
           match n with
           | Err _ => pret PassDone
           | Ok n => if n <? retentionBatchSize then pret PassDone else prune_loop prune fuel'
           end
  end.

(** [DropJobRunsPartitionsBefore] (retention.go): the names of the expired partitions,
    then one DROP per name, up to the first that fails. *)
Fixpoint drop_each (expired dropped : list string) : prog (list string * result storage_error unit) :=
  match expired with
  | [] => pret (dropped, Ok tt)
  | name :: rest =>
      do r ← on_runs (λ t, exec (t_fault t) (drop_stmt name));
      match r with
      | Err e => pret (dropped, Err e)
      | Ok _ => drop_each rest (dropped ++ [name])
      end
  end.

Definition DropJobRunsPartitionsBefore (cutoff : Z) : prog (list string * result storage_error unit) :=
  do names ← ask (λ t w, list_partitions (t_fault t) (t_plan_names t) (w_parts w));
  match names with
  | Err e => pret ([], Err e)
  | Ok names => drop_each (filter (λ name, expired cutoff name = true) names) []
  end.

Definition enforceRetention (retention : Z) (fuel : nat) : prog (list string) :=
  do now ← local t_now;
  let cutoff := now - retention in
  do _ ← prune_loop (λ t, PruneFinishedJobs (t_fault t) cutoff retentionBatchSize (t_plan t)) fuel;
  do _ ← prune_loop (λ t, PruneDeadLetter (t_fault t) cutoff retentionBatchSize (t_plan_ids t)) fuel;
  do dropped ← DropJobRunsPartitionsBefore cutoff;
  pret (fst dropped).

(** ** Partition maintenance *)
Definition partitionLookaheadMonths : nat := 3.

(** [target.Year(), target.Month()] of the month [k]. *)
Definition Year (k : Z) : Z := k / 12.
Definition Month (k : Z) : Z := k mod 12 + 1.

Fixpoint ensure_each (now : date) (ahead : list Z) : prog unit :=
  match ahead with
  | [] => pret tt
  | i :: rest =>
      let target := add_months now i in
      do _ ← on_runs (λ t, EnsureJobRunsPartition (t_fault t) (Year target) (Month target));
      ensure_each now rest
  end.

Definition ensurePartitions : prog unit :=
  do now ← local t_now;
  ensure_each (date_of now) (seqZ 1 (Z.of_nat partitionLookaheadMonths)).

(** ** Queue depths: what the gauge is set to, when it is *)
Definition exportQueueDepths : prog (option (list Depth)) :=
  do tenants ← ask (λ t w, GetTenants (t_fault t) (t_plan_tenants t) (w_tenants w));
  match tenants with
  | Err _ => pret None
  | Ok tenants =>
      do depths ← ask (λ t w, Depths (t_fault t) (t_server t) (tn_ID <$> tenants) (w_redis w));
      match depths with Err _ => pret None | Ok depths => pret (Some depths) end
  end.

(** ** Reconciling pending jobs *)
Fixpoint enqueue_each (jobs : list Job) : prog unit :=
  match jobs with
  | [] => pret tt
  | j :: rest =>
      do _ ← on_redis (λ t, Enqueue (t_fault t) (t_server t) (TenantID j) (ID j) (Priority j));
      enqueue_each rest
  end.

(** The zero [PendingCursor]; the zero [time.Time] is the first of January of year 1. *)
Definition zero_time : Z := -62135596800 * Second.
Definition zero_cursor : PendingCursor := mkCursor 0 zero_time 0%N.

(** A full page adds 500 to [checked], so eleven turns of the loop are never
    exceeded. *)
Fixpoint reconcile_loop (fuel : nat) (cursor : PendingCursor) (checked : Z) : prog pass :=
  match fuel with
  | O => pret PassOutOfFuel
  | S fuel' =>
      do ended ← local t_done;
      if (checked <? pendingReconcileMaxPerPass) && negb ended then
        do page ← ask (λ t w, GetPendingJobs (t_fault t) (t_now t) pendingReconcileAge cursor
                                pendingReconcileBatchSize (t_plan t) (w_db w));
        match page with
        | (_, Err _) => pret PassDone
        | (next, Ok jobs) =>
            do _ ← enqueue_each jobs;
            if Z.of_nat (length jobs) <? pendingReconcileBatchSize then pret PassDone
            else reconcile_loop fuel' next (checked + Z.of_nat (length jobs))
        end
      else pret PassDone
  end.

Definition reconcilePending : prog pass := reconcile_loop 11 zero_cursor 0.

(** ** Dead workers' jobs *)
Fixpoint recover_each (ids : list uuid) : prog unit :=
  match ids with
  | [] => pret tt
  | id :: rest =>
      do j ← ask (λ t w, GetJob (t_fault t) id (w_db w));
      match j with
      | Ok j =>
          if bool_decide (State_ j = StatePending) then
            do _ ← on_redis (λ t, Enqueue (t_fault t) (t_server t) (TenantID j) (ID j) (Priority j));
            recover_each rest
          else recover_each rest
      | Err _ => recover_each rest
      end
  end.

(** The identifiers found before an error are recovered all the same. *)
Definition recoverDeadWorkerJobs : prog unit :=
  do ids ← on_redis (λ t r, let '(r', ids, _) := DeadWorkerJobs (t_server t) (t_scans t) r in (r', ids));
  recover_each ids.

(** ** Cron *)
Inductive fire_result := Fired | AlreadyFired | FireError.

(** The idempotency key of one occurrence: ["schedule:<id>:<unix seconds>"]. *)
Definition occurrence_key (s : Schedule) : string :=
  "schedule:" +:+ uuid_String (sc_ID s) +:+ ":" +:+ pretty (sc_NextRunAt s / Second).

(** The update of [next_run_at] that ends [fireSchedule]. *)
Definition fire_update (s : Schedule) (now next : Z) (r : fire_result) : prog fire_result :=
  do u ← on_schedules (λ t, UpdateScheduleAfterRun (t_fault t) (sc_ID s) now next);
  match u with Err _ => pret FireError | Ok _ => pret r end.

Definition fireSchedule (s : Schedule) : prog fire_result :=
  if cron_ok (sc_Cron s) && location_ok (sc_Timezone s) then
    do now ← local t_now;
    do id ← local t_uuid;
    let next := cron_Next (sc_Cron s) (sc_Timezone s) now in
    match json_Template (sc_JobTemplate s) with
    | None => pret FireError
    | Some tmpl =>
        match Build tmpl id (sc_TenantID s) now with
        | Err _ => pret FireError
        | Ok j0 =>
            let j := set_key (Some (occurrence_key s)) j0 in
            do ins ← on_db (λ t, InsertJob (t_fault t) j);
            match ins with
            | Err ErrDuplicate => fire_update s now next AlreadyFired
            | Err _ => pret FireError
            | Ok _ =>
                do _ ← on_redis (λ t, Enqueue (t_fault t) (t_server t) (TenantID j) (ID j) (Priority j));
                fire_update s now next Fired
            end
        end
    end
  else pret FireError.

Fixpoint fire_each (l : list Schedule) : prog unit :=
  match l with [] => pret tt | s :: rest => do _ ← fireSchedule s; fire_each rest end.

Definition expandCron : prog unit :=
  do due ← ask (λ t w, GetDueSchedules (t_fault t) (t_server t) cronBatchSize (t_plan_schedules t) (w_schedules w));
  match due with Err _ => pret tt | Ok l => fire_each l end.
End scheduler.
