(* ===== verification/Api.v ===== *)
(** * The HTTP API (internal/api: middleware.go, tenant_cache.go, handler.go,
    schedule_handler.go)

    Authentication with its tenant cache, and the handlers of jobs and schedules as
    programs of [World] from a decoded request to a status and a reply. Decoding a
    JSON body, which fails on one over the size limit, is a parameter. *)

From S2P Require Import Prelude GoBase Job Redis Queue Ratelimit Db Storage Tenants Schedules Stats World Scheduler.

Open Scope Z_scope.
Local Open Scope prog_scope.
Local Open Scope sluice_scope.

Definition maxIdempotencyKeyLen : nat := 255.
Definition tenantCacheTTL : Z := 10 * Second.

(** ** [extractBearerToken] *)

(** [strings.SplitN(s, " ", 2)], when there is a space. *)
Fixpoint cut_space (s : string) : option (string * string) :=
  match s with
  | EmptyString => None
  | String c s' =>
      if Ascii.eqb c " "%char then Some (EmptyString, s')
      else '(a, b) ← cut_space s'; Some (String c a, b)
  end.

Definition lower_byte (c : ascii) : ascii :=
  let n := N_of_ascii c in
  if ((65 <=? n) && (n <=? 90))%N then ascii_of_N (n + 32) else c.

Fixpoint lower (s : string) : string :=
  match s with EmptyString => EmptyString | String c s' => String (lower_byte c) (lower s') end.

(** [unicode.IsSpace], as the bytes of its UTF-8 encoding. *)
Definition space_runes : list (list N) :=
  ([[9]; [10]; [11]; [12]; [13]; [32]; [194; 133]; [194; 160]; [225; 154; 128]]
   ++ ((λ k, [226; 128; k]) <$> [128; 129; 130; 131; 132; 133; 134; 135; 136; 137; 138; 168; 169; 175])
   ++ [[226; 129; 159]; [227; 128; 128]])%N.

Fixpoint strip_prefix (p l : list N) : option (list N) :=
  match p, l with
  | [], _ => Some l
  | x :: p', y :: l' => if (x =? y)%N then strip_prefix p' l' else None
  | _ :: _, [] => None
  end.

(** Removes leading runes of [set]; the fuel is the length of the text. *)
Fixpoint trim_runes (set : list (list N)) (fuel : nat) (l : list N) : list N :=
  match fuel with
  | O => l
  | S fuel' => match head (omap (λ p, strip_prefix p l) set) with
               | Some l' => trim_runes set fuel' l'
               | None => l
               end
  end.

Fixpoint text_bytes (s : string) : list N :=
  match s with EmptyString => [] | String c s' => N_of_ascii c :: text_bytes s' end.
Definition text_of_bytes (l : list N) : string := foldr (λ n s, String (ascii_of_N n) s) EmptyString l.

Definition TrimSpace (s : string) : string :=
  let n := String.length s in
  let left := trim_runes space_runes n (text_bytes s) in
  text_of_bytes (reverse (trim_runes (reverse <$> space_runes) n (reverse left))).

Definition extractBearerToken (hdr : string) : string :=
  if String.eqb hdr "" then "" else
  match cut_space hdr with
  | Some (scheme, rest) => if String.eqb (lower scheme) "bearer" then TrimSpace rest else ""
  | None => ""
  end.

(** ** The tenant cache *)
Record tenantCacheEntry := mkCacheEntry { ce_tenant : Tenant; ce_expires : Z }.

Abbreviation cache := (gmap string tenantCacheEntry).

(** [lookup] in its critical sections: what the cache answers; and what is stored
    after Postgres answered. *)
Definition cache_hit (now : Z) (hash : string) (c : cache) : option Tenant :=
  e ← c !! hash; if now <? ce_expires e then Some (ce_tenant e) else None.

Definition cache_store (now : Z) (hash : string) (r : result storage_error Tenant) (c : cache) : cache :=
  match r with
  | Ok t => <[hash := mkCacheEntry t (now + tenantCacheTTL)]> c
  | Err _ => delete hash c
  end.

(** ** Responses *)

(** Dashboard figures, and a tenant as administrators see it. *)
Record queueDepth := mkQueueDepth { qd_TenantID : uuid; qd_Tenant : string; qd_Priority : string; qd_Depth : Z }.

Record statsSnapshot := mkSnapshot {
  ss_Queues : list queueDepth;
  ss_JobsByState : gmap string Z;
  ss_Timestamp : Z;
}.

Record adminTenant := mkAdminTenant {
  at_ID : uuid;
  at_Name : string;
  at_Status : string;
  at_RateLimit : Z;
  at_Weight : Z;
  at_MaxConcurrency : Z;
}.

(** Bodies. Where Go builds a message from a value, the body holds the value. *)
Inductive reply :=
| NoBody
| ErrorReply (msg : string)
| UnknownStateReply (v : string)               (* "unknown state " and [v], quoted *)
| InvalidReply (e : validation_error)          (* the message of [e] *)
| InvalidTemplateReply (e : validation_error)  (* "invalid job_template: " and the message of [e] *)
| JobReply (j : Job)
| JobsReply (l : list Job)
| RunsReply (l : list JobRun)
| SecretReply (secret : string)
| ScheduleReply (s : Schedule)
| SchedulesReply (l : list Schedule)
| StatsReply (s : statsSnapshot)
| EntriesReply (l : list DeadLetterEntry)
| ChecksReply (postgres redis : bool)
| TenantReply (t : adminTenant)
| TenantsReply (l : list adminTenant)
| NewTenantReply (t : adminTenant) (key secret : string)
| KeyReply (key : string)
| NewSecretReply (secret : string).

Record response := mkResponse { status : Z; body : reply }.

Definition writeError (code : Z) (msg : string) : response := mkResponse code (ErrorReply msg).

Record submitJobRequest := mkSubmit {
  sub_Template : Template;
  sub_RunAt : option Z;
  sub_IdempotencyKey : option string;
}.

Record createScheduleRequest := mkCreateSchedule {
  cs_Name : string;
  cs_Cron : string;
  cs_Timezone : string;
  cs_JobTemplate : string;
}.

Record updateScheduleRequest := mkUpdateSchedule {
  us_Enabled : option bool;
  us_Cron : option string;
  us_Timezone : option string;
  us_JobTemplate : string;
}.

(** ** Query parameters *)
Definition ParseBool (s : string) : option bool :=
  if existsb (String.eqb s) ["1"; "t"; "T"; "TRUE"; "true"; "True"]%string then Some true
  else if existsb (String.eqb s) ["0"; "f"; "F"; "FALSE"; "false"; "False"]%string then Some false
  else None.

Fixpoint digits (acc : Z) (s : string) : option Z :=
  match s with
  | EmptyString => Some acc
  | String c s' =>
      let n := Z.of_N (N_of_ascii c) in
      if (48 <=? n) && (n <=? 57) then digits (10 * acc + (n - 48)) s' else None
  end.

(** [strconv.Atoi]: an optional sign, at least one digit, and a result that fits. *)
Definition Atoi (s : string) : option Z :=
  let unsigned s := match s with EmptyString => None | _ => digits 0 s end in
  n ← match s with
      | String "+" s' => unsigned s'
      | String "-" s' => Z.opp <$> unsigned s'
      | _ => unsigned s
      end;
  if (- 2 ^ 63 <=? n) && (n <? 2 ^ 63) then Some n else None.

Definition state_of_string (s : string) : option State :=
  find (λ st, String.eqb s (State_string st)) all_states.

(** The filter [handleListJobs] makes of the query; an absent parameter is empty. *)
Definition list_query (tenantID : uuid) (state retried limit offset : string) : result response ListFilter :=
  let? st := (if String.eqb state "" then Ok None
              else match state_of_string state with
                   | Some st => Ok (Some st)
                   | None => Err (mkResponse 400 (UnknownStateReply state))
                   end) in
  let? re := (if String.eqb retried "" then Ok false
              else match ParseBool retried with
                   | Some b => Ok b
                   | None => Err (writeError 400 "retried must be true or false")
                   end) in
  let lim := match Atoi limit with Some n => if (0 <? n) && (n <=? 500) then n else 50 | None => 50 end in
  let off := match Atoi offset with Some n => if 0 <=? n then n else 0 | None => 0 end in
  Ok (mkListFilter (Some tenantID) st re lim off).

Section handlers.
Context `{!UuidText} `{!PgText} `{!InputLib} `{!CronLib} `{!LuaNum}.

(** [s.limiter != nil]. *)
Variable limiter : bool.

(** ** Jobs *)

(** The job [handleSubmitJob] makes of a request. *)
Definition submitted_job (req : submitJobRequest) (id tenantID : uuid) (trace : string) (now : Z)
    : result validation_error Job :=
  let? j := Build (sub_Template req) id tenantID now in
  let j := set_trace (if String.eqb trace "" then None else Some trace) (set_key (sub_IdempotencyKey req) j) in
  Ok (match sub_RunAt req with
      | Some at_ => if now <? at_ then set_state StateScheduled (set_run_at at_ j) else j
      | None => j
      end).

Definition key_ok (key : option string) : bool :=
  match key with
  | None => true
  | Some k => negb (String.eqb k "") && (String.length k <=? maxIdempotencyKeyLen)%nat
  end.

(** The part of [handleSubmitJob] after the rate limiter let the request through. *)
Definition store_job (tenantID : uuid) (key : option string) (j : Job) : prog response :=
  do r ← on_db (λ t, InsertJob (t_fault t) j);
  match r with
  | Err ErrDuplicate =>
      let conflict := writeError 409 "duplicate idempotency key" in
      match key with
      | None => pret conflict
      | Some k =>
          do existing ← ask (λ t w, GetJobByIdempotencyKey (t_fault t) tenantID k (w_db w));
          pret (match existing with Ok e => mkResponse 200 (JobReply e) | Err _ => conflict end)
      end
  | Err _ => pret (writeError 500 "failed to create job")
  | Ok _ =>
      do _ ← (if bool_decide (State_ j = StatePending)
              then on_redis (λ t, Enqueue (t_fault t) (t_server t) (TenantID j) (ID j) (Priority j))
              else pret (Ok tt));
      pret (mkResponse 201 (JobReply j))
  end.

(** [req] is [None] for a body that does not decode. *)
Definition handleSubmitJob (tn : Tenant) (trace : string) (req : option submitJobRequest) : prog response :=
  match req with
  | None => pret (writeError 400 "invalid request body")
  | Some req =>
      if negb (key_ok (sub_IdempotencyKey req)) then pret (writeError 400 "idempotency_key must be 1-255 characters")
      else
        do id ← local t_uuid;
        do now ← local t_now;
        match submitted_job req id (tn_ID tn) trace now with
        | Err e => pret (mkResponse 400 (InvalidReply e))
        | Ok j =>
            do allowed ← (if limiter
                          then on_buckets (λ t, Allow (t_fault t) (t_server t / Millisecond) (tn_ID tn) (tn_RateLimit tn))
                          else pret (Ok true));
            match allowed with
            | Ok false => pret (writeError 429 "rate limit exceeded")
            | _ => store_job (tn_ID tn) (sub_IdempotencyKey req) j
            end
        end
  end.

Definition handleGetJob (tn : Tenant) (param : string) : prog response :=
  match uuid_Parse param with
  | None => pret (writeError 400 "invalid job id")
  | Some id =>
      do r ← ask (λ t w, GetJobForTenant (t_fault t) id (tn_ID tn) (w_db w));
      pret (match r with
            | Ok j => mkResponse 200 (JobReply j)
            | Err ErrNotFound => writeError 404 "job not found"
            | Err _ => writeError 500 "failed to get job"
            end)
  end.

Definition handleWebhookSecret (tn : Tenant) : prog response :=
  pret (mkResponse 200 (SecretReply (tn_WebhookSecret tn))).

Definition handleListJobRuns (tn : Tenant) (param : string) : prog response :=
  match uuid_Parse param with
  | None => pret (writeError 400 "invalid job id")
  | Some id =>
      do j ← ask (λ t w, GetJobForTenant (t_fault t) id (tn_ID tn) (w_db w));
      match j with
      | Err ErrNotFound => pret (writeError 404 "job not found")
      | Err _ => pret (writeError 500 "failed to get job")
      | Ok _ =>
          do r ← ask (λ t w, ListJobRuns (t_fault t) id (tn_ID tn) (t_plan_runs t) (w_db w));
          pret (match r with
                | Ok l => mkResponse 200 (RunsReply l)
                | Err _ => writeError 500 "failed to list runs"
                end)
      end
  end.

Definition handleListJobs (tn : Tenant) (state retried limit offset : string) : prog response :=
  match list_query (tn_ID tn) state retried limit offset with
  | Err r => pret r
  | Ok lf =>
      do r ← ask (λ t w, ListJobs (t_fault t) lf (t_plan t) (w_db w));
      pret (match r with
            | Ok l => mkResponse 200 (JobsReply l)
            | Err _ => writeError 500 "failed to list jobs"
            end)
  end.

Definition handleCancelJob (tn : Tenant) (param : string) : prog response :=
  match uuid_Parse param with
  | None => pret (writeError 400 "invalid job id")
  | Some id =>
      do r ← on_db (λ t, CancelJob (t_fault t) (t_server t) id (tn_ID tn));
      pret (match r with
            | Ok _ => mkResponse 204 NoBody
            | Err ErrNotFound => writeError 404 "job not found or not cancellable"
            | Err _ => writeError 500 "failed to cancel job"
            end)
  end.

(** [ReplayJob] is a transaction and then a read, with other calls between them. *)
Definition replay_job (id tenantID : uuid) : prog (result storage_error Job) :=
  do r ← on_db (λ t, exec (t_fault t) (replay_tx (t_server t) id tenantID));
  match r with
  | Err e => pret (Err e)
  | Ok _ => ask (λ t w, GetJob (t_fault t) id (w_db w))
  end.

Definition handleReplayJob (tn : Tenant) (param : string) : prog response :=
  match uuid_Parse param with
  | None => pret (writeError 400 "invalid job id")
  | Some id =>
      do r ← replay_job id (tn_ID tn);
      match r with
      | Err ErrNotFound => pret (writeError 404 "job not found or not in dead state")
      | Err _ => pret (writeError 500 "failed to replay job")
      | Ok j =>
          do _ ← on_redis (λ t, Enqueue (t_fault t) (t_server t) (tn_ID tn) id (Priority j));
          pret (mkResponse 200 (JobReply j))
      end
  end.

(** ** Schedules *)
Inductive template_error := BadTemplate | InvalidTemplate (e : validation_error).

(** [validateTemplate]; the job it builds is dropped. *)
Definition validateTemplate (id tenantID : uuid) (now : Z) (raw : string) : result template_error unit :=
  match json_Template raw with
  | None => Err BadTemplate
  | Some tmpl => match Build tmpl id tenantID now with
                 | Err e => Err (InvalidTemplate e)
                 | Ok _ => Ok tt
                 end
  end.

Definition template_reply (e : template_error) : response :=
  match e with
  | BadTemplate => writeError 400 "invalid job_template"
  | InvalidTemplate e => mkResponse 400 (InvalidTemplateReply e)
  end.

Definition nextRun (cronExpr tz : string) (now : Z) : result string Z :=
  if negb (location_ok tz) then Err "invalid timezone"
  else if negb (cron_ok cronExpr) then Err ("invalid cron expression: " +:+ cron_error cronExpr)
  else Ok (cron_Next cronExpr tz now).

Definition handleCreateSchedule (tn : Tenant) (req : option createScheduleRequest) : prog response :=
  match req with
  | None => pret (writeError 400 "invalid request body")
  | Some req =>
      if String.eqb (cs_Name req) "" then pret (writeError 400 "name is required")
      else if String.eqb (cs_Cron req) "" then pret (writeError 400 "cron is required")
      else if String.eqb (cs_JobTemplate req) "" then pret (writeError 400 "job_template is required")
      else
        do now ← local t_now;
        do id ← local t_uuid;
        match validateTemplate id (tn_ID tn) now (cs_JobTemplate req) with
        | Err e => pret (template_reply e)
        | Ok _ =>
            let tz := if String.eqb (cs_Timezone req) "" then "UTC"%string else cs_Timezone req in
            match nextRun (cs_Cron req) tz now with
            | Err msg => pret (writeError 400 msg)
            | Ok next =>
                let sched := mkSchedule id (tn_ID tn) (cs_Name req) (cs_Cron req) tz (cs_JobTemplate req) true None next in
                do r ← on_schedules (λ t, InsertSchedule (t_fault t) sched);
                pret (match r with
                      | Ok _ => mkResponse 201 (ScheduleReply sched)
                      | Err ErrDuplicate => writeError 409 "schedule name already exists"
                      | Err _ => writeError 500 "failed to create schedule"
                      end)
            end
        end
  end.

Definition handleListSchedules (tn : Tenant) : prog response :=
  do r ← ask (λ t w, ListSchedules (t_fault t) (tn_ID tn) (t_plan_schedules t) (w_schedules w));
  pret (match r with
        | Ok l => mkResponse 200 (SchedulesReply l)
        | Err _ => writeError 500 "failed to list schedules"
        end).

Definition handleGetSchedule (tn : Tenant) (param : string) : prog response :=
  match uuid_Parse param with
  | None => pret (writeError 400 "invalid schedule id")
  | Some id =>
      do r ← ask (λ t w, GetSchedule (t_fault t) id (tn_ID tn) (w_schedules w));
      pret (match r with
            | Ok s => mkResponse 200 (ScheduleReply s)
            | Err ErrNotFound => writeError 404 "schedule not found"
            | Err _ => writeError 500 "failed to get schedule"
            end)
  end.

Definition handleDeleteSchedule (tn : Tenant) (param : string) : prog response :=
  match uuid_Parse param with
  | None => pret (writeError 400 "invalid schedule id")
  | Some id =>
      do r ← on_schedules (λ t, DeleteSchedule (t_fault t) id (tn_ID tn));
      pret (match r with
            | Ok _ => mkResponse 204 NoBody
            | Err ErrNotFound => writeError 404 "schedule not found"
            | Err _ => writeError 500 "failed to delete schedule"
            end)
  end.

(** Whether the edit changes when the schedule fires next. *)
Definition needs_recompute (req : updateScheduleRequest) (s : Schedule) : bool :=
  match us_Cron req with Some c => negb (String.eqb c (sc_Cron s)) | None => false end
  || match us_Timezone req with Some z => negb (String.eqb z (sc_Timezone s)) | None => false end
  || match us_Enabled req with Some b => b && negb (sc_Enabled s) | None => false end.

(** The edited schedule, or the response that refuses the edit. *)
Definition edited (req : updateScheduleRequest) (id : uuid) (now : Z) (tenantID : uuid) (s : Schedule)
    : result response Schedule :=
  let cron := default (sc_Cron s) (us_Cron req) in
  let tz := default (sc_Timezone s) (us_Timezone req) in
  let? tmpl := (if String.eqb (us_JobTemplate req) "" then Ok (sc_JobTemplate s)
                else match validateTemplate id tenantID now (us_JobTemplate req) with
                     | Err e => Err (template_reply e)
                     | Ok _ => Ok (us_JobTemplate req)
                     end) in
  let? next := (if needs_recompute req s
                then match nextRun cron tz now with Err msg => Err (writeError 400 msg) | Ok next => Ok next end
                else Ok (sc_NextRunAt s)) in
  Ok (mkSchedule (sc_ID s) (sc_TenantID s) (sc_Name s) cron tz tmpl (default (sc_Enabled s) (us_Enabled req))
        (sc_LastRunAt s) next).

Definition handleUpdateSchedule (tn : Tenant) (param : string) (req : option updateScheduleRequest) : prog response :=
  match uuid_Parse param, req with
  | None, _ => pret (writeError 400 "invalid schedule id")
  | Some _, None => pret (writeError 400 "invalid request body")
  | Some id, Some req =>
      do r ← ask (λ t w, GetSchedule (t_fault t) id (tn_ID tn) (w_schedules w));
      match r with
      | Err ErrNotFound => pret (writeError 404 "schedule not found")
      | Err _ => pret (writeError 500 "failed to update schedule")
      | Ok s =>
          do now ← local t_now;
          do fresh ← local t_uuid;
          match edited req fresh now (tn_ID tn) s with
          | Err resp => pret resp
          | Ok s' =>
              do r ← on_schedules (λ t, UpdateSchedule (t_fault t) s');
              pret (match r with
                    | Ok _ => mkResponse 200 (ScheduleReply s')
                    | Err _ => writeError 500 "failed to update schedule"
                    end)
          end
      end
  end.
End handlers.
