(* ===== verification/Admin.v ===== *)
(** * Administration and dashboard (internal/api: admin_handler.go, stats_handler.go)

    The tenant-management handlers behind the admin token, and the read-only figures of
    the dashboard, as programs of [World]. *)

From S2P Require Import Prelude GoBase Encoding Job Redis Queue Ratelimit Db Storage Tenants Schedules Stats World Scheduler Api.

Open Scope Z_scope.
Local Open Scope prog_scope.
Local Open Scope sluice_scope.

(** ** The admin token *)
Definition MinAdminTokenLen : nat := 32.

(** [EnableAdmin]: the digest the server keeps. *)
Definition EnableAdmin (token : string) : result string bytes :=
  if (String.length token <? MinAdminTokenLen)%nat then Err "admin token must be at least 32 characters"
  else Ok (sha256 (bytes_of_string token)).

(** [subtle.ConstantTimeCompare(x, y) == 1]. *)
Definition ConstantTimeCompare (x y : bytes) : bool := bool_decide (x = y).

(** [adminAuth]: the refusal, if the request is refused. *)
Definition adminAuth (adminTokenHash : option bytes) (hdr : string) : option response :=
  match adminTokenHash with
  | None => Some (writeError 404 "admin API is not enabled")
  | Some h =>
      if ConstantTimeCompare (sha256 (bytes_of_string (extractBearerToken hdr))) h then None
      else Some (writeError 401 "invalid admin token")
  end.

(** ** Requests *)
Definition toAdminTenant (t : Tenant) : adminTenant :=
  mkAdminTenant (tn_ID t) (tn_Name t) (tn_Status t) (tn_RateLimit t) (tn_Weight t) (tn_MaxConcurrency t).

(** [tenantLimitsRequest] has the fields of [TenantLimits]. *)
Definition limits_validate (l : TenantLimits) : result string unit :=
  if match tl_RateLimit l with Some n => n <? 0 | None => false end
  then Err "rate_limit must be 0 (unlimited) or positive"
  else if match tl_Weight l with Some n => n <=? 0 | None => false end then Err "weight must be positive"
  else if match tl_MaxConcurrency l with Some n => n <? 0 | None => false end
  then Err "max_concurrency must be 0 (unlimited) or positive"
  else Ok tt.

Record createTenantRequest := mkCreateTenant { ct_Name : string; ct_Limits : TenantLimits }.
Record updateTenantRequest := mkUpdateTenant { ut_Limits : TenantLimits; ut_Status : option string }.

Definition quoted (s : string) : string :=
  let quote := String (ascii_of_nat 34) EmptyString in quote +:+ s +:+ quote.

Section admin.
Context `{!UuidText} `{!PgText}.

Definition handleAdminCreateTenant (req : option createTenantRequest) : prog response :=
  match req with
  | None => pret (writeError 400 "invalid request body")
  | Some req =>
      if String.eqb (ct_Name req) "" then pret (writeError 400 "name is required")
      else match limits_validate (ct_Limits req) with
           | Err msg => pret (writeError 400 msg)
           | Ok _ =>
               let l := ct_Limits req in
               do r ← on_tenants (λ t, InsertTenant (t_fault t) (t_random t) (t_random' t) (t_uuid t) (ct_Name req)
                                         (default 100 (tl_RateLimit l)) (default 100 (tl_Weight l))
                                         (default 0 (tl_MaxConcurrency l)));
               pret (match r with
                     | Ok (t, key) => mkResponse 201 (NewTenantReply (toAdminTenant t) key (tn_WebhookSecret t))
                     | Err _ => writeError 500 "failed to create tenant"
                     end)
           end
  end.

Definition handleAdminListTenants : prog response :=
  do r ← ask (λ t w, ListAllTenants (t_fault t) (t_plan_tenants t) (w_tenants w));
  pret (match r with
        | Ok l => mkResponse 200 (TenantsReply (toAdminTenant <$> l))
        | Err _ => writeError 500 "failed to list tenants"
        end).

Definition writeAdminTenant (id : uuid) : prog response :=
  do r ← ask (λ t w, GetTenantAnyStatus (t_fault t) id (w_tenants w));
  pret (match r with
        | Ok t => mkResponse 200 (TenantReply (toAdminTenant t))
        | Err ErrNotFound => writeError 404 "tenant not found"
        | Err _ => writeError 500 "failed to get tenant"
        end).

(** [adminTenantID]: the identifier in the path, or the refusal. *)
Definition with_tenant_id (param : string) (k : uuid → prog response) : prog response :=
  match uuid_Parse param with
  | None => pret (writeError 400 "invalid tenant id")
  | Some id => k id
  end.

Definition handleAdminGetTenant (param : string) : prog response := with_tenant_id param writeAdminTenant.

Definition has_limits (l : TenantLimits) : bool :=
  bool_decide (is_Some (tl_RateLimit l)) || bool_decide (is_Some (tl_Weight l))
  || bool_decide (is_Some (tl_MaxConcurrency l)).

(** The reply to a failed update, if it failed. *)
Definition update_failure {A} (r : result storage_error A) : option response :=
  match r with
  | Ok _ => None
  | Err ErrNotFound => Some (writeError 404 "tenant not found")
  | Err _ => Some (writeError 500 "failed to update tenant")
  end.

Definition apply_limits (id : uuid) (l : TenantLimits) : prog (option response) :=
  if has_limits l
  then do r ← on_tenants (λ t, UpdateTenantLimits (t_fault t) id l); pret (update_failure r)
  else pret None.

Definition apply_status (id : uuid) (status : option string) : prog (option response) :=
  match status with
  | Some s => do r ← on_tenants (λ t, SetTenantStatus (t_fault t) id s); pret (update_failure r)
  | None => pret None
  end.

Definition handleAdminUpdateTenant (param : string) (req : option updateTenantRequest) : prog response :=
  with_tenant_id param (λ id,
    match req with
    | None => pret (writeError 400 "invalid request body")
    | Some req =>
        match limits_validate (ut_Limits req) with
        | Err msg => pret (writeError 400 msg)
        | Ok _ =>
            if match ut_Status req with
               | Some s => negb (String.eqb s "active") && negb (String.eqb s "disabled")
               | None => false
               end
            then pret (writeError 400 ("status must be " +:+ quoted "active" +:+ " or " +:+ quoted "disabled"))
            else
              do failed ← apply_limits id (ut_Limits req);
              match failed with
              | Some resp => pret resp
              | None =>
                  do failed ← apply_status id (ut_Status req);
                  match failed with
                  | Some resp => pret resp
                  | None => writeAdminTenant id
                  end
              end
        end
    end).

Definition handleAdminRotateKey (param : string) : prog response :=
  with_tenant_id param (λ id,
    do r ← on_tenants (λ t, RotateAPIKey (t_fault t) (t_random t) id);
    pret (match r with
          | Ok key => mkResponse 200 (KeyReply key)
          | Err ErrNotFound => writeError 404 "tenant not found"
          | Err _ => writeError 500 "failed to rotate key"
          end)).

Definition handleAdminRotateWebhookSecret (param : string) : prog response :=
  with_tenant_id param (λ id,
    do r ← on_tenants (λ t, RotateWebhookSecret (t_fault t) (t_random t) id);
    pret (match r with
          | Ok secret => mkResponse 200 (NewSecretReply secret)
          | Err ErrNotFound => writeError 404 "tenant not found"
          | Err _ => writeError 500 "failed to rotate webhook secret"
          end)).

(** ** Dashboard *)
Definition limitParam (v : string) : Z :=
  match Atoi v with Some n => if (0 <? n) && (n <=? 500) then n else 50 | None => 50 end.

(** [snapshot]; the clock is read once both figures are in. *)
Definition snapshot (tn : Tenant) : prog (option statsSnapshot) :=
  do depths ← ask (λ t w, Depths (t_fault t) (t_server t) [tn_ID tn] (w_redis w));
  match depths with
  | Err _ => pret None
  | Ok depths =>
      do counts ← ask (λ t w, CountJobsByState (t_fault t) (tn_ID tn) (w_db w));
      match counts with
      | Err _ => pret None
      | Ok counts =>
          do now ← local t_now;
          pret (Some (mkSnapshot ((λ d, mkQueueDepth (d_TenantID d) (tn_Name tn) (d_Priority d) (d_Depth d)) <$> depths)
                        counts now))
      end
  end.

Definition handleStats (tn : Tenant) : prog response :=
  do s ← snapshot tn;
  pret (match s with
        | Some s => mkResponse 200 (StatsReply s)
        | None => writeError 500 "failed to read stats"
        end).

Definition handleRecentRuns (tn : Tenant) (limit : string) : prog response :=
  do r ← ask (λ t w, ListRecentRuns (t_fault t) (tn_ID tn) (limitParam limit) (t_plan_runs t) (w_db w));
  pret (match r with
        | Ok l => mkResponse 200 (RunsReply l)
        | Err _ => writeError 500 "failed to list runs"
        end).

Definition handleDeadLetter (tn : Tenant) (limit : string) : prog response :=
  do r ← ask (λ t w, ListDeadLetter (t_fault t) (tn_ID tn) (limitParam limit) (t_plan_ids t) (w_db w));
  pret (match r with
        | Ok l => mkResponse 200 (EntriesReply l)
        | Err _ => writeError 500 "failed to list dead letter"
        end).

(** [handleReady]: a ping of each store answers unless its call fails. *)
Definition ping_ok (f : fault) : bool := match f with NoFault => true | _ => false end.

Definition handleReady : prog response :=
  do pg ← ask (λ t _, ping_ok (t_fault t));
  do rd ← ask (λ t _, ping_ok (t_fault t));
  pret (mkResponse (if pg && rd then 200 else 503) (ChecksReply pg rd)).
End admin.
