(* ===== verification/Server.v ===== *)
(** * The API server (internal/api: server.go, middleware.go, ws_handler.go)

    The routing table, authentication and every handler put together: one request from
    its method, path, headers and body to its response. Matching a path against the
    table is chi's, and decoding bodies encoding/json's: both are parameters. *)

From stdpp Require Import pretty.
From S2P Require Import Prelude GoBase Encoding Job Redis Queue Ratelimit Db Storage Tenants Schedules Stats World Scheduler.
From S2P Require Import Api Admin.

Open Scope Z_scope.
Local Open Scope prog_scope.
Local Open Scope sluice_scope.

(** ** Requests *)
Record request := mkRequest {
  rq_method : string;
  rq_path : string;
  rq_authorization : string;           (* the Authorization header *)
  rq_query : string → string;          (* a query parameter, empty if absent *)
  rq_body : string;
  rq_trace : string;                   (* the traceparent of the request's span *)
}.

Class Bodies := {
  decode_submit : string → option submitJobRequest;
  decode_create_schedule : string → option createScheduleRequest;
  decode_update_schedule : string → option updateScheduleRequest;
  decode_create_tenant : string → option createTenantRequest;
  decode_update_tenant : string → option updateTenantRequest;
}.

(** ** Routing *)
Inductive routed (E : Type) := Found (e : E) (id : string) | NoRoute | WrongMethod.
Arguments Found {E} e id.
Arguments NoRoute {E}.
Arguments WrongMethod {E}.

(** chi: the entry of a table of methods and patterns that a method and a path match,
    with the value of [{id}]. *)
Class Chi := { chi_route : ∀ E, list (string * string * E) → string → string → routed E }.
Arguments chi_route {_ E} table method path.

Inductive top_route := Healthz | Readyz | Metrics | Ws | OpenAPI | MountV1 | MountAdmin.

Inductive v1_route :=
| PostJob | ListJob | GetJob_ | JobRuns | PostCancel | PostReplay | WebhookSecret
| PostSchedule | ListSchedule | GetSchedule_ | DeleteSchedule_ | PatchSchedule
| Stats | StatsRuns | StatsDeadLetter.

Inductive admin_route := PostTenant | ListTenant | GetTenant_ | PatchTenant | PostRotateKey | PostRotateSecret.

(** A method [*] stands for every method. *)
Definition top_routes : list (string * string * top_route) :=
  [("GET", "/healthz", Healthz); ("GET", "/readyz", Readyz); ("*", "/metrics", Metrics); ("GET", "/ws", Ws);
   ("GET", "/openapi.yaml", OpenAPI); ("*", "/v1/*", MountV1); ("*", "/admin/v1/*", MountAdmin)]%string.

Definition v1_routes : list (string * string * v1_route) :=
  [("POST", "/jobs", PostJob); ("GET", "/jobs", ListJob); ("GET", "/jobs/{id}", GetJob_);
   ("GET", "/jobs/{id}/runs", JobRuns); ("POST", "/jobs/{id}/cancel", PostCancel);
   ("POST", "/jobs/{id}/replay", PostReplay); ("GET", "/webhook-secret", WebhookSecret);
   ("POST", "/schedules", PostSchedule); ("GET", "/schedules", ListSchedule); ("GET", "/schedules/{id}", GetSchedule_);
   ("DELETE", "/schedules/{id}", DeleteSchedule_); ("PATCH", "/schedules/{id}", PatchSchedule);
   ("GET", "/stats", Stats); ("GET", "/stats/runs", StatsRuns); ("GET", "/stats/dead-letter", StatsDeadLetter)]%string.

Definition admin_routes : list (string * string * admin_route) :=
  [("POST", "/tenants", PostTenant); ("GET", "/tenants", ListTenant); ("GET", "/tenants/{id}", GetTenant_);
   ("PATCH", "/tenants/{id}", PatchTenant); ("POST", "/tenants/{id}/rotate-key", PostRotateKey);
   ("POST", "/tenants/{id}/rotate-webhook-secret", PostRotateSecret)]%string.

Section server.
Context `{!UuidText} `{!PgText} `{!InputLib} `{!CronLib} `{!LuaNum} `{!Bodies} `{!Chi}.
Variables (limiter : bool) (adminTokenHash : option bytes).

(** ** Authentication *)

(** [tenantCache.lookup]. *)
Definition lookup_key (key : string) (c : cache) : prog (cache * result storage_error Tenant) :=
  do now ← local t_now;
  match cache_hit now (HashAPIKey key) c with
  | Some tn => pret (c, Ok tn)
  | None =>
      do r ← ask (λ t w, GetTenantByAPIKey (t_fault t) key (w_tenants w));
      pret (cache_store now (HashAPIKey key) r c, r)
  end.

Definition with_key (key : string) (c : cache) (next : Tenant → prog response) : prog (cache * response) :=
  if String.eqb key "" then pret (c, writeError 401 "missing api key")
  else do found ← lookup_key key c;
       match snd found with
       | Err _ => pret (fst found, writeError 401 "invalid api key")
       | Ok tn => do resp ← next tn; pret (fst found, resp)
       end.

Definition authMiddleware (rq : request) (c : cache) (next : Tenant → prog response) : prog (cache * response) :=
  with_key (extractBearerToken (rq_authorization rq)) c next.

(** ** Handlers by route *)
Definition not_found : response := mkResponse 404 NoBody.
Definition method_not_allowed : response := mkResponse 405 NoBody.

Definition serve_v1 (rq : request) (tn : Tenant) : prog response :=
  match chi_route v1_routes (rq_method rq) (rq_path rq) with
  | NoRoute => pret not_found
  | WrongMethod => pret method_not_allowed
  | Found e id =>
      match e with
      | PostJob => handleSubmitJob limiter tn (rq_trace rq) (decode_submit (rq_body rq))
      | ListJob => handleListJobs tn (rq_query rq "state") (rq_query rq "retried") (rq_query rq "limit") (rq_query rq "offset")
      | GetJob_ => handleGetJob tn id
      | JobRuns => handleListJobRuns tn id
      | PostCancel => handleCancelJob tn id
      | PostReplay => handleReplayJob tn id
      | WebhookSecret => handleWebhookSecret tn
      | PostSchedule => handleCreateSchedule tn (decode_create_schedule (rq_body rq))
      | ListSchedule => handleListSchedules tn
      | GetSchedule_ => handleGetSchedule tn id
      | DeleteSchedule_ => handleDeleteSchedule tn id
      | PatchSchedule => handleUpdateSchedule tn id (decode_update_schedule (rq_body rq))
      | Stats => handleStats tn
      | StatsRuns => handleRecentRuns tn (rq_query rq "limit")
      | StatsDeadLetter => handleDeadLetter tn (rq_query rq "limit")
      end
  end.

Definition serve_admin (rq : request) : prog response :=
  match adminAuth adminTokenHash (rq_authorization rq) with
  | Some refusal => pret refusal
  | None =>
      match chi_route admin_routes (rq_method rq) (rq_path rq) with
      | NoRoute => pret not_found
      | WrongMethod => pret method_not_allowed
      | Found e id =>
          match e with
          | PostTenant => handleAdminCreateTenant (decode_create_tenant (rq_body rq))
          | ListTenant => handleAdminListTenants
          | GetTenant_ => handleAdminGetTenant id
          | PatchTenant => handleAdminUpdateTenant id (decode_update_tenant (rq_body rq))
          | PostRotateKey => handleAdminRotateKey id
          | PostRotateSecret => handleAdminRotateWebhookSecret id
          end
      end
  end.

(** [handleWebSocket]: the key comes from the query or the header; a connection that
    is upgraded answers 101 and receives a snapshot a second, for [ticks] seconds. *)
Fixpoint ws_stream (tn : Tenant) (ticks : nat) : prog (list statsSnapshot) :=
  match ticks with
  | O => pret []
  | S ticks' =>
      do s ← snapshot tn;
      do rest ← ws_stream tn ticks';
      pret (match s with Some s => s :: rest | None => rest end)
  end.

Definition handleWebSocket (ticks : nat) (rq : request) (c : cache) : prog (cache * response) :=
  let token := rq_query rq "token" in
  let key := if String.eqb token "" then extractBearerToken (rq_authorization rq) else token in
  with_key key c (λ tn, do _ ← ws_stream tn ticks; pret (mkResponse 101 NoBody)).

(** One request. [corsMiddleware] answers OPTIONS itself, on every path. *)
Definition serve (ticks : nat) (rq : request) (c : cache) : prog (cache * response) :=
  if String.eqb (rq_method rq) "OPTIONS" then pret (c, mkResponse 204 NoBody)
  else match chi_route top_routes (rq_method rq) (rq_path rq) with
       | NoRoute => pret (c, not_found)
       | WrongMethod => pret (c, method_not_allowed)
       | Found e _ =>
           match e with
           | Healthz | Metrics | OpenAPI => pret (c, mkResponse 200 NoBody)
           | Readyz => do r ← handleReady; pret (c, r)
           | Ws => handleWebSocket ticks rq c
           | MountV1 => authMiddleware rq c (serve_v1 rq)
           | MountAdmin => do r ← serve_admin rq; pret (c, r)
           end
       end.
End server.

(** ** The HTTP server (server.go, [New], [Start], [Shutdown]) *)
Definition maxBodyBytes : Z := 2 ^ 20.

(** The fields [New] sets; the handler is the router under a span of this name. *)
Record http_server := mkHttpServer {
  sv_Addr : string;
  sv_span : string;
  sv_ReadTimeout : Z;
  sv_WriteTimeout : Z;
  sv_IdleTimeout : Z;
}.

Definition new_http_server (port : Z) : http_server :=
  mkHttpServer (":" +:+ pretty port) "sluice-api" (10 * Second) (10 * Second) (60 * Second).
