(* ===== verification/Cli.v ===== *)
(** * The command line tool (cmd/sluice-cli/main.go)

    Every command as a program of [World]: [None] is a command that ended with
    [fatalf], otherwise what it prints, as data. Flags are given parsed, as the flag
    package returns them; [args] are the positional arguments. [cmdForceFail]'s
    transaction is in [Storage]. *)

From S2P Require Import Prelude GoBase Encoding Job Redis Queue Db Storage Tenants Schedules Stats World Scheduler Api Admin.

Open Scope Z_scope.
Local Open Scope prog_scope.

Section cli.
Context `{!UuidText} `{!PgText}.

Definition fatalf {A} : prog (option A) := pret None.

(** ** Jobs *)
Definition cmdReplay (args : list string) : prog (option uuid) :=
  match args with
  | [] => fatalf
  | arg :: _ =>
      match uuid_Parse arg with
      | None => fatalf
      | Some jobID =>
          do j ← ask (λ t w, GetJob (t_fault t) jobID (w_db w));
          match j with
          | Err _ => fatalf
          | Ok j =>
              if bool_decide (State_ j = StateDead) then
                do r ← replay_job jobID (TenantID j);
                match r with
                | Err _ => fatalf
                | Ok j =>
                    do q ← on_redis (λ t, Enqueue (t_fault t) (t_server t) (TenantID j) jobID (Priority j));
                    match q with Err _ => fatalf | Ok _ => pret (Some jobID) end
                end
              else fatalf
          end
      end
  end.

Definition cmdForceFailArgs (args : list string) : prog (option uuid) :=
  match args with
  | [] => fatalf
  | arg :: _ =>
      match uuid_Parse arg with
      | None => fatalf
      | Some jobID =>
          do r ← on_db (λ t, cmdForceFail (t_fault t) (t_server t) jobID);
          match r with Err _ => fatalf | Ok _ => pret (Some jobID) end
      end
  end.

(** The latest fifty entries of every tenant. *)
Definition cmdListDead : prog (option (list DeadLetterEntry)) :=
  ask (λ t w, match query (t_fault t) (λ d, of_option (dead_entries (λ _, True) 50 (t_plan_ids t) d)) (w_db w) with
              | Ok l => Some l
              | Err _ => None
              end).

(** ** Tenants *)
Definition cmdCreateTenant (rateLimit weight maxConcurrency : Z) (args : list string) : prog (option (Tenant * string)) :=
  match args with
  | [name] =>
      if weight <=? 0 then fatalf
      else if maxConcurrency <? 0 then fatalf
      else do r ← on_tenants (λ t, InsertTenant (t_fault t) (t_random t) (t_random' t) (t_uuid t) name rateLimit weight
                                     maxConcurrency);
           match r with Err _ => fatalf | Ok tk => pret (Some tk) end
  | _ => fatalf
  end.

(** A negative flag is one that was not given. *)
Definition given (v : Z) : option Z := if v <? 0 then None else Some v.

Definition cmdSetTenantLimits (rateLimit weight maxConcurrency : Z) (args : list string) : prog (option Tenant) :=
  match args with
  | [arg] =>
      match uuid_Parse arg with
      | None => fatalf
      | Some tenantID =>
          let l := mkTenantLimits (given rateLimit) (given weight) (given maxConcurrency) in
          if negb (has_limits l) then fatalf
          else if match tl_Weight l with Some n => n =? 0 | None => false end then fatalf
          else do r ← on_tenants (λ t, UpdateTenantLimits (t_fault t) tenantID l);
               match r with Err _ => fatalf | Ok tn => pret (Some tn) end
      end
  | _ => fatalf
  end.

(** INSERT ... ON CONFLICT (id) DO UPDATE: the weight and the cap of a new row are the
    columns' defaults; another tenant with the digest is an error. *)
Definition dev_tenant : uuid := 1%N.

Definition enable_dev_stmt (hash secret : string) : stmt tenants unit := λ t,
  if hash_taken hash dev_tenant t then Err ErrPostgres
  else let row := match t !! dev_tenant with
                  | Some r => mkTenantRow (tr_tenant (set_status "active" r)) hash
                  | None => mkTenantRow (mkTenant dev_tenant "dev" 1000 100 "active" secret 0) hash
                  end in
       Ok (<[dev_tenant := row]> t, tt).

Definition cmdEnableDevTenant : prog (option unit) :=
  do random ← local t_random;
  match NewWebhookSecret random with
  | Err _ => fatalf
  | Ok secret =>
      do r ← on_tenants (λ t, exec (t_fault t) (enable_dev_stmt (HashAPIKey "dev-token") secret));
      match r with Err _ => fatalf | Ok _ => pret (Some tt) end
  end.

Definition with_tenant (args : list string) (k : uuid → prog (result storage_error string)) : prog (option string) :=
  match args with
  | [arg] =>
      match uuid_Parse arg with
      | None => fatalf
      | Some tenantID => do r ← k tenantID; match r with Err _ => fatalf | Ok s => pret (Some s) end
      end
  | _ => fatalf
  end.

Definition cmdRotateWebhookSecret (args : list string) : prog (option string) :=
  with_tenant args (λ id, on_tenants (λ t, RotateWebhookSecret (t_fault t) (t_random t) id)).

Definition cmdRotateKey (args : list string) : prog (option string) :=
  with_tenant args (λ id, on_tenants (λ t, RotateAPIKey (t_fault t) (t_random t) id)).

(** ** Queues *)

(** The lines of a tenant and a priority, and the totals by priority. *)
Definition total_of (priority : string) (depths : list Depth) : Z :=
  foldr (λ d acc, if String.eqb (d_Priority d) priority then d_Depth d + acc else acc) 0 depths.

Definition cmdQueueDepth : prog (option (list Depth * list (string * Z))) :=
  do tenants ← ask (λ t w, GetTenants (t_fault t) (t_plan_tenants t) (w_tenants w));
  match tenants with
  | Err _ => fatalf
  | Ok tenants =>
      do depths ← ask (λ t w, Depths (t_fault t) (t_server t) (tn_ID <$> tenants) (w_redis w));
      match depths with
      | Err _ => fatalf
      | Ok depths =>
          pret (Some (filter (λ d, 0 < d_Depth d) depths,
                      (λ p, (p, total_of p depths)) <$> ["high"; "normal"; "low"]%string))
      end
  end.

(** One key of the first SCAN of [cmdDrain]: its length, then DEL. A key that is empty,
    or whose call fails, does not count. *)
Definition drain_key (key : string) : prog (option Z) :=
  do n ← ask (λ t w, snd (call (t_fault t) (LRANGE (t_server t) key) (w_redis w)));
  match n with
  | Err _ => pret None
  | Ok [] => pret None
  | Ok l =>
      do d ← on_redis (λ t, call (t_fault t) (DEL key));
      pret (match d with Ok _ => Some (Z.of_nat (length l)) | Err _ => None end)
  end.

Fixpoint drain_keys (keys : list string) (jobs queues : Z) : prog (Z * Z) :=
  match keys with
  | [] => pret (jobs, queues)
  | k :: ks =>
      do n ← drain_key k;
      match n with
      | Some n => drain_keys ks (jobs + n) (queues + 1)
      | None => drain_keys ks jobs queues
      end
  end.

(** The SCAN loops. [pages] are the replies, [None] a call that failed. *)
Fixpoint drain_pages (pages : list (option (list string))) (jobs queues : Z) : prog (option (Z * Z)) :=
  match pages with
  | [] => pret (Some (jobs, queues))
  | None :: _ => fatalf
  | Some keys :: rest => do s ← drain_keys keys jobs queues; drain_pages rest (fst s) (snd s)
  end.

Definition DEL_all (keys : list string) : script unit := λ r, (foldl (λ r k, delete k r) r keys, Some tt).

Fixpoint clear_markers (pages : list (option (list string))) : prog (option unit) :=
  match pages with
  | [] => pret (Some tt)
  | None :: _ => fatalf
  | Some [] :: rest => clear_markers rest
  | Some keys :: rest => do _ ← on_redis (λ t, call (t_fault t) (DEL_all keys)); clear_markers rest
  end.

Definition cmdDrain (pages markers : list (option (list string))) : prog (option (Z * Z)) :=
  do s ← drain_pages pages 0 0;
  match s with
  | None => fatalf
  | Some s =>
      do m ← clear_markers markers;
      match m with None => fatalf | Some _ => pret (Some s) end
  end.

(** ** [dump-scheduler] *)
Record dump := mkDump {
  du_counts : list (State * Z);
  du_active : list (uuid * option string * State * option Z);
  du_schedules : list (string * string * Z);
  du_depths : list (string * Z);
}.

(** ORDER BY claimed_at: NULLs last. *)
Definition claimed_before (a b : Job) : Prop :=
  match ClaimedAt a, ClaimedAt b with
  | Some x, Some y => x <= y
  | None, Some _ => False
  | _, None => True
  end.

#[export] Instance claimed_before_dec : RelDecision claimed_before.
Proof. intros a b. unfold claimed_before. destruct (ClaimedAt a), (ClaimedAt b); apply _. Defined.

Fixpoint key_depths (keys : list string) : prog (list (string * Z)) :=
  match keys with
  | [] => pret []
  | k :: ks =>
      do n ← ask (λ t w, snd (call (t_fault t) (LRANGE (t_server t) k) (w_redis w)));
      do l ← key_depths ks;
      pret (match n with
            | Ok (_ :: _ as e) => (k, Z.of_nat (length e)) :: l
            | _ => l
            end)
  end.

(** A failed SCAN ends the listing of the queues with what was found. *)
Fixpoint scan_depths (pages : list (option (list string))) : prog (list (string * Z)) :=
  match pages with
  | [] | None :: _ => pret []
  | Some keys :: rest =>
      do l ← key_depths keys;
      do l' ← scan_depths rest;
      pret (l ++ l')
  end.

(** The states in the order of the [job_state] type: [cancelled] was added last. *)
Definition state_counts (d : db) : list (State * Z) :=
  omap (λ st, let n := Z.of_nat (length (filter (λ j, State_ j = st) (rows (jobs d)))) in
              if n =? 0 then None else Some (st, n))
    [StatePending; StateScheduled; StateClaimed; StateRunning; StateSucceeded; StateFailed; StateDead; StateCancelled].

Definition cmdDumpScheduler (pages : list (option (list string))) : prog (option dump) :=
  do counts ← ask (λ t w, query (t_fault t) (λ d, Ok (state_counts d)) (w_db w));
  match counts with
  | Err _ => fatalf
  | Ok counts =>
      do active ← ask (λ t w, query (t_fault t) (λ d,
          Ok ((λ j, (ID j, ClaimedBy j, State_ j, ClaimedAt j))
                <$> merge_sort claimed_before (t_plan t (filter (λ j, in_flight j = true) (rows (jobs d)))))) (w_db w));
      match active with
      | Err _ => fatalf
      | Ok active =>
          do scheds ← ask (λ t w, query (t_fault t) (λ ss,
              of_option ((λ l : list Schedule, (λ s, (sc_Name s, sc_Cron s, sc_NextRunAt s)) <$> l) <$>
                LIMIT 10 (merge_sort next_run_before (t_plan_schedules t (filter (λ s, sc_Enabled s = true) (rows ss))))))
              (w_schedules w));
          match scheds with
          | Err _ => fatalf
          | Ok scheds => do depths ← scan_depths pages; pret (Some (mkDump counts active scheds depths))
          end
      end
  end.

(** ** The commands of [main], with the SCAN replies of those that scan *)
Inductive command :=
| Replay (args : list string)
| ForceFail (args : list string)
| Drain (pages markers : list (option (list string)))
| DumpScheduler (pages : list (option (list string)))
| ListDead
| QueueDepthCmd
| CreateTenant (rateLimit weight maxConcurrency : Z) (args : list string)
| RotateKey (args : list string)
| RotateWebhookSecretCmd (args : list string)
| EnableDevTenant
| SetTenantLimits (rateLimit weight maxConcurrency : Z) (args : list string).

(** Whether the command ended without [fatalf]. *)
Definition succeeded {A} (c : prog (option A)) : prog bool :=
  do r ← c; pret (bool_decide (is_Some r)).

Definition run_command (c : command) : prog bool :=
  match c with
  | Replay args => succeeded (cmdReplay args)
  | ForceFail args => succeeded (cmdForceFailArgs args)
  | Drain pages markers => succeeded (cmdDrain pages markers)
  | DumpScheduler pages => succeeded (cmdDumpScheduler pages)
  | ListDead => succeeded cmdListDead
  | QueueDepthCmd => succeeded cmdQueueDepth
  | CreateTenant rate weight conc args => succeeded (cmdCreateTenant rate weight conc args)
  | RotateKey args => succeeded (cmdRotateKey args)
  | RotateWebhookSecretCmd args => succeeded (cmdRotateWebhookSecret args)
  | EnableDevTenant => succeeded cmdEnableDevTenant
  | SetTenantLimits rate weight conc args => succeeded (cmdSetTenantLimits rate weight conc args)
  end.
End cli.
