(* ===== verification/WorkerLife.v ===== *)
(** * The life of a worker (worker.go: [New], [Run], [loop], [Reload], [Shutdown])

    A worker is a set of goroutines: [Run], its pull loops, the one that watches the
    shutdown channel, the ones that keep the worker alive and refresh its tenants, and
    the caller of [Shutdown]. They share contexts and channels. Here each is a program
    counter in one state, an action is one thing one of them does, and [act] says which
    actions are possible and what they change; what a job does inside [process] is in
    [Worker]. Time passes by an action of its own; [delta] bounds how late a goroutine
    whose timer has fired is resumed. *)

From S2P Require Import Prelude GoBase Redis Queue Worker Process.

Open Scope Z_scope.

(** ** The state *)

(** Where a pull loop is: at the test of [pollCtx], in [Pop], and in [process] with the
    item it popped (claiming, executing, recording the outcome, putting the item back,
    in its deferred call), waiting after an error, or returned. The flag is the value
    [process] is about to return. *)
Inductive phase :=
| Polling
| Popping
| Claiming (item : Item)
| Executing (item : Item)
| Recording (item : Item)
| PuttingBack (item : Item) (ok : bool)
| Removing (item : Item) (ok : bool)
| Backoff
| Exited.

(** Where [Run] is; its loops run while it waits for them. *)
Inductive run_pc := NotStarted | Loading | Marking | Waiting | Returned.

(** Where [Shutdown] is, with the time its timer fires. *)
Inductive stop_pc := NotCalled | Draining (until : Z) | Aborting (until : Z) | Stopped.

#[export] Instance run_pc_eq_dec : EqDecision run_pc.
Proof. solve_decision. Defined.

Record life := mkLife {
  lf_now : Z;
  lf_concurrency : nat;
  lf_run : run_pc;
  lf_loops : list phase;
  lf_poll : bool;                 (* pollCtx has ended *)
  lf_exec : bool;                 (* execCtx has ended *)
  lf_shutdown : bool;             (* w.shutdown is closed *)
  lf_alive : bool;                (* the worker is kept alive *)
  lf_done : bool;                 (* w.done is closed *)
  lf_reload : bool;               (* w.reload holds a value *)
  lf_stale : bool;                (* Reload was called since the tenants were last loaded *)
  lf_stop : stop_pc;
  lf_called : option (Z * Z);     (* when Shutdown was called, with its timeout *)
}.

Record Options := mkOptions { opt_Concurrency : Z; opt_AllowPrivateWebhooks : bool }.

(** [New]: no goroutine yet. *)
Definition New (opts : Options) (now : Z) : life :=
  let concurrency := if opt_Concurrency opts <=? 0 then DefaultConcurrency else opt_Concurrency opts in
  mkLife now (Z.to_nat concurrency) NotStarted [] false false false false false false false NotCalled None.

(** ** Actions *)
Inductive loop_event :=
| EvCheck                                          (* the test of the for statement *)
| EvPopped (item : Item) | EvEmpty | EvPopError
| EvClaimed | EvLimited | EvNotPending | EvClaimError
| EvExecuted | EvRecorded | EvPutBack | EvRemoved | EvWaited.

(** One move of a pull loop. [Pop] is called under [pollCtx], but may return an item it
    took just before the context ended. *)
Definition loop_step (poll : bool) (e : loop_event) (p : phase) : option phase :=
  match p, e with
  | Polling, EvCheck => Some (if poll then Exited else Popping)
  | Popping, EvPopped item => Some (if (it_JobID item =? 0)%N then Polling else Claiming item)
  | Popping, EvEmpty => Some Polling
  | Popping, EvPopError => Some (if poll then Exited else Backoff)
  | Claiming item, EvClaimed => Some (Executing item)
  | Claiming item, EvNotPending => Some (Removing item true)
  | Claiming item, EvLimited => Some (PuttingBack item true)
  | Claiming item, EvClaimError => Some (PuttingBack item false)
  | Executing item, EvExecuted => Some (Recording item)
  | Recording item, EvRecorded => Some (Removing item true)
  | PuttingBack item ok, EvPutBack => Some (Removing item ok)
  | Removing item ok, EvRemoved => Some (if ok then Polling else Backoff)
  | Backoff, EvWaited => Some Polling
  | _, _ => None
  end.

Inductive action :=
| ABegin | ALoaded | AMarked | AReturn             (* Run *)
| ALoop (i : nat) (e : loop_event)
| ACancel                                          (* Run's ctx is cancelled *)
| AWatch                                           (* shutdown ends pollCtx *)
| AShutdown (timeout : Z) | ADone | ATimeout       (* Shutdown *)
| AReload | ARefresh (reload : bool)               (* SIGHUP; the refreshing goroutine *)
| ATick (t : Z).

Definition set_loops (l : life) (loops : list phase) : life :=
  mkLife (lf_now l) (lf_concurrency l) (lf_run l) loops (lf_poll l) (lf_exec l) (lf_shutdown l) (lf_alive l)
    (lf_done l) (lf_reload l) (lf_stale l) (lf_stop l) (lf_called l).

Definition set_run (l : life) (pc : run_pc) (loops : list phase) (alive stale : bool) : life :=
  mkLife (lf_now l) (lf_concurrency l) pc loops (lf_poll l) (lf_exec l) (lf_shutdown l) alive
    (lf_done l) (lf_reload l) stale (lf_stop l) (lf_called l).

Definition end_poll (l : life) : life :=
  mkLife (lf_now l) (lf_concurrency l) (lf_run l) (lf_loops l) true (lf_exec l) (lf_shutdown l) (lf_alive l)
    (lf_done l) (lf_reload l) (lf_stale l) (lf_stop l) (lf_called l).

(** The deferred calls of [Run]: [stopAlive], [stopPolling], [close(w.done)]. *)
Definition run_returns (l : life) : life :=
  mkLife (lf_now l) (lf_concurrency l) Returned (lf_loops l) true (lf_exec l) (lf_shutdown l) false
    true (lf_reload l) (lf_stale l) (lf_stop l) (lf_called l).

Definition set_reload (l : life) (reload stale : bool) : life :=
  mkLife (lf_now l) (lf_concurrency l) (lf_run l) (lf_loops l) (lf_poll l) (lf_exec l) (lf_shutdown l) (lf_alive l)
    (lf_done l) reload stale (lf_stop l) (lf_called l).

(** [Shutdown] up to its first wait; [None] is the panic of closing a closed channel. *)
Definition call_Shutdown (timeout : Z) (l : life) : option life :=
  if lf_shutdown l then None
  else Some (mkLife (lf_now l) (lf_concurrency l) (lf_run l) (lf_loops l) (lf_poll l) (lf_exec l) true (lf_alive l)
               (lf_done l) (lf_reload l) (lf_stale l) (Draining (lf_now l + timeout)) (Some (lf_now l, timeout))).

Definition set_stop (l : life) (exec : bool) (stop : stop_pc) : life :=
  mkLife (lf_now l) (lf_concurrency l) (lf_run l) (lf_loops l) (lf_poll l) exec (lf_shutdown l) (lf_alive l)
    (lf_done l) (lf_reload l) (lf_stale l) stop (lf_called l).

Definition set_now (l : life) (t : Z) : life :=
  mkLife t (lf_concurrency l) (lf_run l) (lf_loops l) (lf_poll l) (lf_exec l) (lf_shutdown l) (lf_alive l)
    (lf_done l) (lf_reload l) (lf_stale l) (lf_stop l) (lf_called l).

(** [Reload] never blocks: a value that is already there is enough. *)
Definition Reload (l : life) : life := set_reload l true true.

Definition is_exited (p : phase) : bool := match p with Exited => true | _ => false end.

(** The time a select of [Shutdown] waits for. *)
Definition timer_of (s : stop_pc) : option Z :=
  match s with Draining u | Aborting u => Some u | _ => None end.

Section life.
Variable delta : Z.

(** What is possible, and what it does. A load begins with [ABegin] and with
    [ARefresh]; once [pollCtx] has ended a load fails and changes nothing. *)
Definition act (a : action) (l : life) : option life :=
  match a with
  | ABegin => if decide (lf_run l = NotStarted) then Some (set_run l Loading [] false false) else None
  | ALoaded => if decide (lf_run l = Loading) then Some (set_run l Marking [] false (lf_stale l)) else None
  | AMarked => if decide (lf_run l = Marking)
               then Some (set_run l Waiting (replicate (lf_concurrency l) Polling) true (lf_stale l)) else None
  | AReturn => if decide (lf_run l = Waiting) then
                 if forallb is_exited (lf_loops l) then Some (run_returns l) else None
               else None
  | ALoop i e => p ← lf_loops l !! i; p' ← loop_step (lf_poll l) e p; Some (set_loops l (<[i := p']> (lf_loops l)))
  | ACancel => Some (end_poll l)
  | AWatch => if lf_shutdown l && negb (bool_decide (lf_run l = NotStarted)) then Some (end_poll l) else None
  | AShutdown timeout => call_Shutdown timeout l
  | ADone => match lf_stop l with
             | Draining _ | Aborting _ => if lf_done l then Some (set_stop l (lf_exec l) Stopped) else None
             | _ => None
             end
  | ATimeout => match lf_stop l with
                | Draining u => if u <=? lf_now l
                                then Some (set_stop l true (Aborting (lf_now l + recordTimeout))) else None
                | Aborting u => if u <=? lf_now l then Some (set_stop l (lf_exec l) Stopped) else None
                | _ => None
                end
  | AReload => Some (Reload l)
  | ARefresh reload =>
      if decide (lf_run l = Waiting) then
        if lf_poll l then None
        else if reload then if lf_reload l then Some (set_reload l false false) else None
        else Some (set_reload l (lf_reload l) false)
      else None
  | ATick t => if (lf_now l <=? t) && match timer_of (lf_stop l) with Some u => t <=? u + delta | None => true end
               then Some (set_now l t) else None
  end.

Definition life_step (l l' : life) : Prop := ∃ a, act a l = Some l'.

Definition lives (opts : Options) (l : life) : Prop := ∃ now, rtc life_step (New opts now) l.

(** ** The invariant *)

(** What the place of [Run] says about the rest. *)
Definition run_ok (l : life) : Prop :=
  match lf_run l with
  | Waiting => lf_alive l = true ∧ lf_done l = false ∧ length (lf_loops l) = lf_concurrency l
  | Returned => lf_alive l = false ∧ lf_done l = true ∧ length (lf_loops l) = lf_concurrency l
                ∧ forallb is_exited (lf_loops l) = true
  | _ => lf_alive l = false ∧ lf_done l = false ∧ lf_loops l = []
  end.

(** What the place of [Shutdown] says. *)
Definition stop_ok (l : life) : Prop :=
  match lf_stop l, lf_called l with
  | NotCalled, None => lf_shutdown l = false ∧ lf_exec l = false
  | Draining u, Some (t0, timeout) =>
      lf_shutdown l = true ∧ lf_exec l = false ∧ u = t0 + timeout ∧ t0 <= lf_now l <= Z.max t0 (u + delta)
  | Aborting u, Some (t0, timeout) =>
      lf_shutdown l = true ∧ lf_exec l = true ∧ t0 + timeout + recordTimeout <= u
      ∧ u <= Z.max t0 (t0 + timeout + delta) + recordTimeout ∧ u - recordTimeout <= lf_now l <= u + Z.max 0 delta
  | Stopped, Some (t0, timeout) =>
      lf_shutdown l = true ∧ (lf_done l = true ∨ lf_exec l = true) ∧ (lf_exec l = true → t0 + timeout <= lf_now l)
  | _, _ => False
  end.

Record life_ok (l : life) : Prop := {
  lo_run : run_ok l;
  lo_stop : stop_ok l;
  lo_exited : Exited ∈ lf_loops l → lf_poll l = true;
  lo_reload : lf_stale l = true → lf_reload l = true;
}.

Lemma New_ok opts now : life_ok (New opts now).
Proof. split; cbn; try done. by intros ?%not_elem_of_nil. Qed.

Lemma loop_step_exited poll e p : loop_step poll e p = Some Exited → poll = true.
Proof. destruct p, e; cbn; try done; repeat case_match; congruence. Qed.

(** Take a possible action apart: its guards become hypotheses. *)
Ltac act_cases Ha :=
  cbn [act] in Ha; unfold call_Shutdown in Ha;
  repeat match type of Ha with
  | (_ ← _; _) = Some _ => let x := fresh "x" in apply bind_Some in Ha as (x&?&Ha)
  | (if decide ?P then _ else _) = _ => destruct (decide P)
  | (if ?b then _ else _) = _ => destruct b eqn:?
  | match ?x with _ => _ end = _ => destruct x eqn:?
  end; try discriminate Ha; simplify_eq; bool_to_prop.

Lemma act_run_ok a l l' : run_ok l → act a l = Some l' → run_ok l'.
Proof.
  intros Hr Ha. destruct a; act_cases Ha; try exact Hr; unfold run_ok in *; cbn.
  all: try (match goal with He : lf_run _ = _ |- _ => rewrite He in Hr end; rewrite ?length_replicate; tauto).
  destruct (lf_run l); rewrite ?length_insert; destruct Hr as (?&?&Hr); try done.
  all: try (match goal with Hi : lf_loops _ !! _ = Some _ |- _ => by rewrite Hr in Hi end).
  destruct Hr as [_ Hall]. exfalso. rewrite forallb_forall in Hall.
  assert (is_exited x = true) as Hx by (apply Hall, list_elem_of_In; by eapply list_elem_of_lookup_2).
  by destruct x, e.
Qed.

Lemma act_stop_ok a l l' : 0 <= delta → stop_ok l → act a l = Some l' → stop_ok l'.
Proof.
  intros Hd Hs Ha. destruct a; act_cases Ha; try exact Hs; unfold stop_ok in *; cbn.
  all: unfold recordTimeout, Second in *.
  all: destruct (lf_stop _) eqn:?, (lf_called _) as [[t0 timeout']|]; cbn [timer_of] in *; simplify_eq; bool_to_prop;
    intuition (congruence || lia).
Qed.

Lemma act_ok a l l' : 0 <= delta → life_ok l → act a l = Some l' → life_ok l'.
Proof.
  intros Hd [Hr Hs He Hl] Ha. split; [by eapply act_run_ok|by eapply act_stop_ok|..].
  - destruct a; act_cases Ha; cbn; auto; try by intros ?%not_elem_of_nil.
    all: try (intros Hx%He; congruence).
    + by intros [? _]%elem_of_replicate.
    + intros [k Hk]%list_elem_of_lookup. apply list_lookup_insert_Some in Hk as [(_&Hx&_)|[_ Hk]].
      * subst. by eapply loop_step_exited.
      * apply He. by eapply list_elem_of_lookup_2.
  - destruct a; act_cases Ha; cbn; auto; by intros ?.
Qed.

Lemma lives_ok opts l : 0 <= delta → lives opts l → life_ok l.
Proof.
  intros Hd [now Hr]. assert (life_ok (New opts now)) as Hok by apply New_ok.
  induction Hr as [|l1 l2 l3 [a Ha] _ IH]; [done|]. by eapply IH, act_ok.
Qed.

(** ** Draining

    How many moves a loop can make once [pollCtx] has ended. *)
Definition moves_left (p : phase) : nat :=
  match p with
  | Popping => 7 | Claiming _ => 6 | Executing _ => 5 | Recording _ => 4 | PuttingBack _ _ => 4
  | Removing _ _ => 3 | Backoff => 2 | Polling => 1 | Exited => 0
  end.

Definition total_left (l : life) : nat := sum_list (moves_left <$> lf_loops l).

Definition loop_move (l l' : life) : Prop := ∃ i e, act (ALoop i e) l = Some l'.

Lemma loop_step_left e p p' : loop_step true e p = Some p' → (moves_left p' < moves_left p)%nat.
Proof. destruct p, e; cbn; try done; repeat case_match; intros [= <-]; cbn; lia. Qed.

Lemma loop_step_live p : p ≠ Exited → ∃ e p', loop_step true e p = Some p'.
Proof.
  intros Hp. destruct p; [exists EvCheck|exists EvEmpty|exists EvClaimed|exists EvExecuted|exists EvRecorded
    |exists EvPutBack|exists EvRemoved|exists EvWaited|done]; by eexists.
Qed.

Lemma sum_insert (ps : list phase) i p p' :
  ps !! i = Some p → (moves_left p' < moves_left p)%nat →
  (sum_list (moves_left <$> <[i := p']> ps) < sum_list (moves_left <$> ps))%nat.
Proof.
  revert i. induction ps as [|q ps IH]; intros [|i] Hi Hlt; csimpl in *; try done; [simplify_eq; lia|].
  specialize (IH i Hi Hlt). lia.
Qed.

Lemma loop_move_left l l' :
  lf_poll l = true → loop_move l l' →
  lf_poll l' = true ∧ lf_run l' = lf_run l ∧ (total_left l' < total_left l)%nat.
Proof.
  intros Hp (i&e&Ha). act_cases Ha. rewrite Hp in *. split; [done|]. split; [done|].
  unfold total_left. cbn. eapply sum_insert; [done|by eapply loop_step_left].
Qed.

Lemma total_left_bound l : (total_left l <= 7 * length (lf_loops l))%nat.
Proof.
  unfold total_left. induction (lf_loops l) as [|p ps IH]; [done|]. csimpl in *.
  assert (moves_left p <= 7)%nat by (destruct p; cbn; lia). lia.
Qed.

Lemma all_exited_or ps : forallb is_exited ps = true ∨ ∃ i p, ps !! i = Some p ∧ p ≠ Exited.
Proof.
  induction ps as [|p ps IH]; [by left|]. destruct (is_exited p) eqn:Hp.
  - destruct IH as [IH|(i&q&Hi&Hq)]; [left; cbn; by rewrite Hp|right; by exists (S i), q].
  - right. exists 0%nat, p. split; [done|]. by intros ->.
Qed.



(** [Shutdown] returns in bounded time. It is back within its timeout plus ten
    seconds (and the lateness of two timers), even when jobs never end: at any later time
    it has returned, and from any state in which it waits, passing the time of its timer
    lets it go on to its return. *)
Theorem Shutdown_bounded opts l t0 timeout :
  0 <= delta → 0 <= timeout → lives opts l → lf_called l = Some (t0, timeout) →
  (lf_stop l = Stopped ∨ lf_now l <= t0 + timeout + recordTimeout + 2 * delta)
  ∧ (∃ l', rtc life_step l l' ∧ lf_stop l' = Stopped).
Proof.
  intros Hd Ht Hl Hc. destruct (lives_ok opts l Hd Hl) as [_ Hs _ _].
  unfold stop_ok in Hs. rewrite Hc in Hs. split.
  - destruct (lf_stop l); try done; [right|right|by left]; unfold recordTimeout, Second in *; lia.
  - assert (∀ l1 u, lf_stop l1 = Aborting u → lf_now l1 <= u + delta → ∃ l', rtc life_step l1 l' ∧ lf_stop l' = Stopped)
      as Habort.
    { intros l1 u Hu Hn. pose (l2 := set_now l1 (Z.max u (lf_now l1))).
      exists (set_stop l2 (lf_exec l2) Stopped). split; [|done].
      apply (rtc_l _ _ l2); [exists (ATick (Z.max u (lf_now l1)))|apply rtc_once; exists ATimeout].
      - cbn. rewrite Hu. cbn. rewrite (proj2 (Z.leb_le _ _)), (proj2 (Z.leb_le _ _)) by lia. done.
      - cbn. rewrite Hu. rewrite (proj2 (Z.leb_le _ _)) by lia. done. }
    destruct (lf_stop l) eqn:Hstop; try done.
    + pose (l2 := set_now l (Z.max until (lf_now l))).
      pose (l3 := set_stop l2 true (Aborting (lf_now l2 + recordTimeout))).
      destruct (Habort l3 (lf_now l2 + recordTimeout)) as (l'&Hl'&Hd'); [done|cbn; unfold recordTimeout, Second; lia|].
      exists l'. split; [|done]. apply (rtc_l _ _ l2); [exists (ATick (Z.max until (lf_now l)))|apply (rtc_l _ _ l3); [exists ATimeout|done]].
      * cbn. rewrite Hstop. cbn. rewrite (proj2 (Z.leb_le _ _)), (proj2 (Z.leb_le _ _)) by lia. done.
      * cbn. rewrite Hstop. rewrite (proj2 (Z.leb_le _ _)) by lia. done.
    + by apply (Habort l until); [|lia].
    + by exists l.
Qed.
End life.
