(* ===== verification/Election.v ===== *)
(** * Leader election (leader.go, [Campaign]; scheduler.go, [Run])

    The calls on the etcd client that a campaign, a term of office and a resignation
    make, in their order, with the client's answers as an argument; the goroutine that
    ends the leader's context when the session is lost; and the whole of [Scheduler.Run]
    as the sequence of those calls. What a leader does in its term is in [Process]. *)

From S2P Require Import Prelude GoBase Process.

Open Scope Z_scope.

(** ** The client (leader.go, [New], [NewClient]) *)
Definition DefaultTTLSeconds : Z := 2.

Record Election := mkElection { el_prefix : string; el_ttl : Z }.

Definition New_Election (prefix : string) (ttlSeconds : Z) : Election := mkElection prefix ttlSeconds.

Inductive client_error := ErrTls (e : tls_error) | ErrDial.

(** [dial] is whether [clientv3.New] accepts the configuration. *)
Definition NewClient `{!TlsFiles} (dial : ClientConfig → option tlsSettings → bool) (cfg : ClientConfig)
    : result client_error (option tlsSettings) :=
  match tlsConfig cfg with
  | Err e => Err (ErrTls e)
  | Ok tls => if dial cfg tls then Ok tls else Err ErrDial
  end.

(** ** Calls

    A session is named by the number of its [NewSession] call. *)
Inductive etcd_call :=
| ENewSession (s : nat) (ttl : Z) (ok : bool)      (* a lease of [ttl] seconds *)
| ECampaign (s : nat) (prefix val : string) (won : bool)
| EResign (s : nat)
| EClose (s : nat)
| ECancel (s : nat)                                (* the leader's context is cancelled *)
| EGauge (leader : bool)                           (* sluice_scheduler_is_leader *)
| ELead (s : nat)                                  (* the loops are started *)
| ELed (s : nat).                                  (* they have all returned *)

Inductive campaign_error := ErrCreateSession | ErrCampaign.

(** What etcd answers to one campaign. *)
Record answer := mkAnswer { an_session : bool; an_won : bool }.

(** [Campaign]: the calls, and the session of the leader's context. *)
Definition Campaign (e : Election) (val : string) (s : nat) (a : answer) : list etcd_call * result campaign_error nat :=
  if negb (an_session a) then ([ENewSession s (el_ttl e) false], Err ErrCreateSession)
  else if negb (an_won a) then
    ([ENewSession s (el_ttl e) true; ECampaign s (el_prefix e) val false; EClose s], Err ErrCampaign)
  else ([ENewSession s (el_ttl e) true; ECampaign s (el_prefix e) val true], Ok s).

(** The function [Campaign] returns; the errors of its calls are dropped. *)
Definition resign (s : nat) : list etcd_call := [EResign s; EClose s; ECancel s].

(** The goroutine of [Campaign]: it waits for the session or the leader's context to
    end, whichever is first, and cancels the latter if it was the session. *)
Inductive watch_event := SessionDone | LeaderDone.

Definition watch (s : nat) (e : watch_event) : list etcd_call :=
  match e with SessionDone => [ECancel s] | LeaderDone => [] end.

(** [Run], from the [s]-th session on. Each entry of [rounds] is one turn of its loop:
    whether ctx had ended at the test, the answers to the campaign, and what ended the
    term. A list that is used up leaves [Run] at the test. *)
Record round := mkRound { rd_cancelled : bool; rd_answer : answer; rd_ended : watch_event }.

Fixpoint run_calls (e : Election) (val : string) (s : nat) (rounds : list round) : list etcd_call * run_end :=
  match rounds with
  | [] => ([], RunCampaigning)
  | r :: rest =>
      if rd_cancelled r then ([], RunCancelled)
      else match Campaign e val s (rd_answer r) with
           | (calls, Err _) => (calls, RunCampaignFailed)
           | (calls, Ok sess) =>
               let '(more, end_) := run_calls e val (S s) rest in
               (calls ++ [EGauge true; ELead sess] ++ watch sess (rd_ended r) ++ [ELed sess; EGauge false] ++ resign sess ++ more, end_)
           end
  end.

(** ** The discipline

    What a process may do with its sessions: one at a time; lead only under a session
    that won, with the gauge up; close what it opened, and resign before it closes a
    session that won. *)
Inductive office :=
| Vacant                          (* no session *)
| Standing (s : nat)              (* a session, campaigning *)
| Defeated (s : nat)              (* the campaign failed *)
| Elected (s : nat)
| InOffice (s : nat)              (* the gauge is up *)
| Leading (s : nat)
| Leaving (s : nat)               (* the loops have returned *)
| Out (s : nat)                   (* the gauge is down *)
| Resigned (s : nat)
| Closed (s : nat).

Definition same (s s' : nat) (o : office) : option office := if Nat.eqb s s' then Some o else None.

Definition advance (o : office) (c : etcd_call) : option office :=
  match o, c with
  | Vacant, ENewSession s _ ok => Some (if ok then Standing s else Vacant)
  | Standing s, ECampaign s' _ _ won => same s s' (if won then Elected s else Defeated s)
  | Defeated s, EClose s' => same s s' Vacant
  | Elected s, EGauge true => Some (InOffice s)
  | InOffice s, ELead s' => same s s' (Leading s)
  | Leading s, ECancel s' => same s s' (Leading s)
  | Leading s, ELed s' => same s s' (Leaving s)
  | Leaving s, EGauge false => Some (Out s)
  | Out s, EResign s' => same s s' (Resigned s)
  | Resigned s, EClose s' => same s s' (Closed s)
  | Closed s, ECancel s' => same s s' Vacant
  | _, _ => None
  end.

Fixpoint advances (o : office) (cs : list etcd_call) : option office :=
  match cs with
  | [] => Some o
  | c :: cs' => o' ← advance o c; advances o' cs'
  end.

Lemma same_refl s o : same s s o = Some o.
Proof. unfold same. by rewrite Nat.eqb_refl. Qed.

Lemma advances_app o cs cs' : advances o (cs ++ cs') = advances o cs ≫= λ o', advances o' cs'.
Proof.
  revert o. induction cs as [|c cs IH]; intros o; [done|]. cbn. destruct (advance o c); cbn; [apply IH|done].
Qed.

(** A term of office, from the campaign that won it to the resignation. *)
Lemma term_disciplined e val s ended more :
  advances Vacant (([ENewSession s (el_ttl e) true; ECampaign s (el_prefix e) val true]
                    ++ [EGauge true; ELead s] ++ watch s ended ++ [ELed s; EGauge false] ++ resign s) ++ more)
  = advances Vacant more.
Proof. destruct ended; cbn; do 10 (rewrite ?same_refl; cbn); done. Qed.

(** C27: A scheduler process holds at most one session and gives each back. Whatever etcd
    answers and however its terms end, the calls of [Run] follow the discipline, and
    when it returns no session is left: a campaign that fails closes its session, a
    term ends with the resignation, then the close, then the cancelled context. The
    loops run only under a session that won, and [sluice_scheduler_is_leader] is 1
    exactly from before they start until after the last of them has returned, which is
    longer than the lease is held when the session was lost. *)
Theorem run_releases_sessions e val s rounds :
  advances Vacant (fst (run_calls e val s rounds)) = Some Vacant.
Proof.
  revert s. induction rounds as [|r rest IH]; intros s; [done|]. cbn.
  destruct (rd_cancelled r); [done|]. unfold Campaign.
  destruct (an_session (rd_answer r)), (an_won (rd_answer r)); cbn [negb]; try done.
  - destruct (run_calls e val (S s) rest) as [more end_] eqn:Hr. cbn [fst].
    rewrite <- (IH (S s)), Hr. cbn [fst]. rewrite <- (term_disciplined e val s (rd_ended r) more).
    by rewrite <- !app_assoc.
  - cbn. rewrite same_refl. cbn. by rewrite same_refl.
Qed.
