(* ===== verification/Main.v ===== *)
(** * The process (cmd/sluice/main.go, with NewPool of storage.go and NewClient of queue.go)

    [main] from the configuration to the exit status: what it opens in which order, what
    ends it, what it closes. The libraries' answers (does the DSN parse, does the server
    reply, does the socket bind) are an argument. [os.Exit] runs no deferred call. *)

From S2P Require Import Prelude GoBase Queue Job Redis Db Tenants Webhook Worker Scheduler Api Admin Process Telemetry Election WorkerLife.

Open Scope Z_scope.
Local Open Scope sluice_scope.

(** [strings.Contains]. *)
Fixpoint contains (sub s : string) : bool :=
  String.prefix sub s || match s with EmptyString => false | String _ s' => contains sub s' end.

(** [strings.Split(s, ",")]. *)
Fixpoint split_comma (acc s : string) : list string :=
  match s with
  | EmptyString => [acc]
  | String c s' => if Ascii.eqb c ","%char then acc :: split_comma EmptyString s'
                   else split_comma (acc +:+ String c EmptyString) s'
  end.

(** ** Connections *)

(** [pgxpool.ParseConfig]: the [MaxConns] of a DSN. *)
Class PgxPool := { ParseConfig : string → option Z }.

Inductive pool_error := ErrParseDSN | ErrCreatePool | ErrPing.

(** [NewPool]: the size of the pool it opens. [create] and [ping] are the answers. *)
Definition NewPool `{!PgxPool} (create ping : bool) (dsn : string) (minMaxConns : Z) : result pool_error Z :=
  match ParseConfig dsn with
  | None => Err ErrParseDSN
  | Some n =>
      let n := if negb (contains "pool_max_conns" dsn) && (n <? minMaxConns) then minMaxConns else n in
      if negb create then Err ErrCreatePool
      else if negb ping then Err ErrPing
      else Ok n
  end.

(** go-redis: the options of a URL, of which the model keeps the address. *)
Class RedisURL := { ParseURL : string → option string }.

Definition NewRedis `{!RedisURL} (addr : string) : option string :=
  if negb (contains "://" addr) then Some addr else ParseURL addr.

(** ** What happens to a process *)
Record answers := mkAnswers {
  an_exporter : bool; an_resource : bool;      (* telemetry.Init *)
  an_create : bool; an_ping : bool;            (* the pool *)
  an_redis : bool;                             (* Ping of Redis *)
  an_serve : bool;                             (* the API listens until it is stopped *)
  an_stop : bool;                              (* its Shutdown succeeds in time *)
  an_dial : bool;                              (* clientv3.New *)
}.

Inductive main_event :=
| PrintedVersion | Usage (what : string)
| TracingOn (service : string) | TracingOff
| PoolOpened (maxConns : Z) | PoolFailed (e : pool_error)
| RedisConfigured | RedisURLBad | RedisDown
| MetricsListening (port : Z)
| AdminEnabled | AdminRefused
| ApiListening (port : Z) | ApiFailed | ApiStopping | ApiStopFailed
| EtcdConnected (endpoints : list string) | EtcdFailed (e : client_error)
| SchedulerRan (retention : Z) | WorkerRan (opts : Options)
| RedisClosed | PoolClosed | TracingFlushed | EtcdClosed.

(** How [main] ends, with its trace: the status and whether deferred calls ran. *)
Definition exits (status : Z) (tr : list main_event) : list main_event * Z := (tr, status).

(** [startMetricsServer] binds in the background: a failure is logged only. *)
Definition startMetricsServer (port defaultPort : Z) : list main_event := [MetricsListening (metrics_port port defaultPort)].

(** [runAPI]; [None] is an exit with status 1. *)
Definition runAPI (c : config) (an : answers) : list main_event * option unit :=
  match api_admin c with
  | None => ([AdminRefused], None)
  | Some h =>
      let admin := match h with Some _ => [AdminEnabled] | None => [] end in
      if an_serve an
      then (admin ++ [ApiListening (httpPort c); ApiStopping] ++ (if an_stop an then [] else [ApiStopFailed]), Some tt)
      else (admin ++ [ApiListening (httpPort c); ApiFailed], Some tt)
  end.

(** The client's configuration in [runScheduler]. *)
Definition etcd_config (c : config) : ClientConfig :=
  mkClientConfig (split_comma EmptyString (etcdEndpoints c)) (Username (etcd c)) (Password (etcd c))
    (CAFile (etcd c)) (CertFile (etcd c)) (KeyFile (etcd c)).

Definition scheduler_election : Election := New_Election "/sluice/scheduler/leader" DefaultTTLSeconds.

(** [runScheduler]: [Scheduler.Run] with [scheduler_election] is [run_calls]. *)
Definition runScheduler `{!TlsFiles} (c : config) (an : answers) : list main_event * option unit :=
  match NewClient (λ _ _, an_dial an) (etcd_config c) with
  | Err e => ([EtcdFailed e], None)
  | Ok _ => ([EtcdConnected (Endpoints (etcd_config c)); SchedulerRan (Retention c); EtcdClosed], Some tt)
  end.

(** [runWorker]: the worker it makes lives as in [WorkerLife]; [worker_may] is what the
    process does to it: SIGHUP reloads, [Shutdown] comes once, after the signal. *)
Definition worker_options (c : config) : Options := mkOptions (concurrency c) (webhookPrivate c).

Definition worker_may (c : config) (l : life) (a : action) : bool :=
  match a with AShutdown timeout => (timeout =? shutdownTimeout c) && lf_poll l | _ => true end.

Definition runWorker (c : config) : list main_event * option unit := ([WorkerRan (worker_options c)], Some tt).

Section main.
Context `{!TlsFiles} `{!PgxPool} `{!RedisURL}.

(** The switch on the role, with the calls deferred before it, the last one first. *)
Definition run_role (c : config) (an : answers) (st : startup) (deferred : list main_event) : list main_event * Z :=
  let '(tr, r) := match st with
    | RunScheduler => let '(tr, r) := runScheduler c an in (startMetricsServer (metricsPort c) 9091 ++ tr, r)
    | RunWorker => let '(tr, r) := runWorker c in (startMetricsServer (metricsPort c) 9092 ++ tr, r)
    | _ => runAPI c an
    end in
  match r with
  | Some _ => (tr ++ deferred, 0)
  | None => (tr, 1)
  end.

(** The connections of [main], then the role. *)
Definition connect (c : config) (an : answers) (st : startup) : list main_event * Z :=
  let '(_, otel) := Init (an_exporter an) (an_resource an) ("sluice-" +:+ role c) (otlpEndpoint c) otel_default in
  let tracing := match otel with Ok _ => [TracingOn ("sluice-" +:+ role c)] | Err _ => [TracingOff] end in
  let flush := match otel with Ok _ => [TracingFlushed] | Err _ => [] end in
  match NewPool (an_create an) (an_ping an) (postgresURL c) (minConns c) with
  | Err e => exits 1 (tracing ++ [PoolFailed e])
  | Ok n =>
      match NewRedis (redisAddr c) with
      | None => exits 1 (tracing ++ [PoolOpened n; RedisURLBad])
      | Some _ =>
          if negb (an_redis an) then exits 1 (tracing ++ [PoolOpened n; RedisConfigured; RedisDown])
          else let '(tr, status) := run_role c an st ([RedisClosed; PoolClosed] ++ flush) in
               (tracing ++ [PoolOpened n; RedisConfigured] ++ tr, status)
      end
  end.

Definition main (c : config) (an : answers) : list main_event * Z :=
  match startup_of c with
  | PrintVersion => exits 0 [PrintedVersion]
  | ExitUsage => exits 1 [Usage (role c)]
  | st => connect c an st
  end.
End main.

(** ** Facts *)

(** Work for others: a role that serves, schedules or pulls jobs. *)
Definition serving (e : main_event) : bool :=
  match e with ApiListening _ | MetricsListening _ | SchedulerRan _ | WorkerRan _ => true | _ => false end.

Section main_facts.
Context `{!TlsFiles} `{!PgxPool} `{!RedisURL}.

Lemma int32_id z : - 2 ^ 31 <= z < 2 ^ 31 → int32 z = z.
Proof. intros Hz. unfold int32. rewrite Z.mod_small; lia. Qed.

Lemma NewPool_size create ping dsn m n :
  NewPool create ping dsn m = Ok n → contains "pool_max_conns" dsn = false → m <= n.
Proof.
  unfold NewPool. intros Hn Hc. rewrite Hc in Hn. cbn in Hn. destruct (ParseConfig dsn) as [k|]; [|done].
  destruct create, ping; cbn in Hn; try done. zcases; simplify_eq; lia.
Qed.

(** Where an event of a trace comes from. *)
Ltac in_cases :=
  repeat match goal with
  | H : _ ∈ _ ++ _ |- _ => apply elem_of_app in H as [H|H]
  | H : _ ∈ _ :: _ |- _ => apply elem_of_cons in H as [H|H]
  | H : _ ∈ [] |- _ => by apply not_elem_of_nil in H
  end.

Lemma main_worker c an :
  startup_of c = RunWorker → main c an = connect c an RunWorker ∧ role c = "worker"%string ∧ 1 <= concurrency c.
Proof.
  intros Hs. unfold main. rewrite Hs. split; [done|]. unfold startup_of in Hs.
  destruct (showVersion c); [done|]. destruct (retentionDays c <? 0); [done|].
  destruct (Z.ltb_spec (concurrency c) 1); [done|].
  destruct (String.eqb_spec (role c) "api"); [done|]. destruct (String.eqb_spec (role c) "scheduler"); [done|].
  by destruct (String.eqb_spec (role c) "worker").
Qed.

(** A worker's pool has a connection for each of its jobs. Unless the DSN fixes the
    size of the pool itself, the pool a worker process opens has at least four
    connections more than the jobs it runs at once, for every concurrency whose
    sum fits 32 bits; from 2147483644 on, which the checks of [main] let pass, the sum
    wraps around and asks for nothing. *)
Theorem worker_pool_covers c an n :
  startup_of c = RunWorker → contains "pool_max_conns" (postgresURL c) = false →
  PoolOpened n ∈ fst (main c an) →
  (concurrency c < 2 ^ 31 - 4 → concurrency c + 4 <= n)
  ∧ (2 ^ 31 - 4 <= concurrency c < 2 ^ 31 → minConns c < 0).
Proof.
  intros Hs Hdsn. destruct (main_worker c an Hs) as (->&Hrole&Hc). intros Hin.
  assert (minConns c = int32 (int32 (concurrency c) + 4)) as Hm by (unfold minConns; by rewrite Hrole).
  split.
  - intros Hlt. rewrite (int32_id (concurrency c)), int32_id in Hm by lia. rewrite <- Hm.
    unfold connect in Hin. destruct (Init _ _ _ _ _) as [? otel].
    destruct (NewPool _ _ _ _) as [k|e] eqn:Hk; [|destruct otel; cbn in Hin; in_cases; done].
    eapply NewPool_size in Hk; [|done]. enough (n = k) by lia.
    destruct otel, (NewRedis _), (an_redis an); cbn in Hin; in_cases; congruence.
  - intros Hr. rewrite Hm, (int32_id (concurrency c)) by lia. unfold int32.
    rewrite <- (Z.mod_unique (concurrency c + 4 + 2 ^ 31) (2 ^ 32) 1 (concurrency c + 4 + 2 ^ 31 - 2 ^ 32)); lia.
Qed.

Lemma run_role_end c an st deferred tr status :
  run_role c an st deferred = (tr, status) →
  (status = 0 ∧ ∃ before, tr = before ++ deferred) ∨ (status = 1 ∧ ApiFailed ∉ tr).
Proof.
  unfold run_role, runScheduler, runAPI, runWorker, startMetricsServer. intros Hr.
  destruct st; repeat case_match; simplify_eq; try (left; split; [done|by eexists]).
  all: right; split; [done|]; intros Hin; cbn in Hin; by in_cases.
Qed.

(** [connect] fails with status 1 before any role runs, or runs it between the opening of
    its connections and their closing. *)
Lemma connect_end c an st tr status :
  connect c an st = (tr, status) →
  (status = 1 ∧ (ApiFailed ∉ tr) ∧ ∀ e, e ∈ tr → serving e = false)
  ∨ (an_ping an = true ∧ an_redis an = true ∧ ∃ tracing n role_tr flush,
       run_role c an st ([RedisClosed; PoolClosed] ++ flush) = (role_tr, status)
       ∧ tr = tracing ++ [PoolOpened n; RedisConfigured] ++ role_tr ∧ ApiFailed ∉ tracing).
Proof.
  unfold connect. destruct (Init _ _ _ _ _) as [? otel].
  destruct (NewPool _ _ _ _) as [n|e] eqn:Hp;
    [|intros [= <- <-]; left; split; [done|]; split;
      [intros Hin; destruct otel; in_cases; done|intros e' Hin; destruct otel; in_cases; by subst]].
  assert (an_ping an = true) as Hping.
  { unfold NewPool in Hp. destruct (ParseConfig _); [|done]. by destruct (an_create an), (an_ping an). }
  destruct (NewRedis _); [destruct (an_redis an) eqn:Hr; cbn [negb]|].
  - destruct (run_role _ _ _ _) as [rtr st'] eqn:Hrole. intros [= <- <-]. right. split; [done|]. split; [done|].
    eexists _, n, rtr, _. split; [exact Hrole|]. split; [done|]. intros Hin. destruct otel; in_cases; done.
  - intros [= <- <-]; left; split; [done|]; split;
      [intros Hin; destruct otel; in_cases; done|intros e' Hin; destruct otel; in_cases; by subst].
  - intros [= <- <-]; left; split; [done|]; split;
      [intros Hin; destruct otel; in_cases; done|intros e' Hin; destruct otel; in_cases; by subst].
Qed.

(** How a process ends. It serves, schedules or pulls jobs only after Postgres and
    Redis have answered; its status is 0 or 1; with status 0 (but for a version request)
    it has closed Redis, then the pool; and the status says whether the process started,
    not how it ended: an API server that could not listen exits with status 0, as one
    that was asked to stop. *)
Theorem main_exit_status c an tr status :
  main c an = (tr, status) →
  (status = 0 ∨ status = 1)
  ∧ (∀ e, e ∈ tr → serving e = true → an_ping an = true ∧ an_redis an = true ∧ ∃ n, PoolOpened n ∈ tr)
  ∧ (status = 0 → startup_of c ≠ PrintVersion → ∃ before flush, tr = before ++ [RedisClosed; PoolClosed] ++ flush)
  ∧ (ApiFailed ∈ tr → status = 0).
Proof.
  intros Hm. assert (main c an = connect c an (startup_of c) ∨ ∃ e, tr = [e] ∧ serving e = false ∧ e ≠ ApiFailed
    ∧ (status = 1 ∨ (status = 0 ∧ startup_of c = PrintVersion))) as [He|(e&->&Hse&Hne&Hst)].
  { unfold main in *. destruct (startup_of c); try (by left); injection Hm as <- <-; right; eexists; eauto 10. }
  - rewrite He in Hm. destruct (connect_end _ _ _ _ _ Hm) as [(->&Hno&Hs)|(Hp&Hr&tg&n&rtr&flush&Hrole&->&Htg)].
    + split; [by right|]. split; [intros e Hin Hse; by rewrite (Hs e Hin) in Hse|]. by split.
    + destruct (run_role_end _ _ _ _ _ _ Hrole) as [[-> [before ->]]|[-> Hno]].
      * split; [by left|]. split; [|split; [|done]].
        -- intros _ _ _. split; [done|]. split; [done|]. exists n. set_solver.
        -- intros _ _. exists (tg ++ [PoolOpened n; RedisConfigured] ++ before), flush. by rewrite <- !app_assoc.
      * split; [by right|]. split; [|split; [done|]].
        -- intros _ _ _. split; [done|]. split; [done|]. exists n. set_solver.
        -- intros Hin. exfalso. cbn in Hin. in_cases; done.
  - split; [tauto|]. split; [intros e' Hin Hse'; in_cases; subst; congruence|]. split.
    + intros -> Hnv. destruct Hst as [|[_ ?]]; done.
    + intros Hin. in_cases. by subst.
Qed.
End main_facts.
