(* ===== verification/Loadtest.v ===== *)
(** * The load test (scripts/loadtest/main.go)

    The script's submitters and its webhook receiver share counters and maps. A run is a
    sequence of events: the receiver marks a number as seen, and later records it (the
    locked section and the counter after it); a submitter takes a number, and later gets
    its reply. Beside it the report and its percentile function. *)

From stdpp Require Import pretty.
From S2P Require Import Prelude GoBase.

Open Scope Z_scope.

(** ** State (main.go, [main]) *)
Record load := mkLoad {
  ld_accepted : gmap Z Z;        (* when the submission of a job was acknowledged *)
  ld_e2e : list Z;               (* latencies, the last one first *)
  ld_received : Z;
  ld_dupes : Z;
  ld_seen : gset Z;
  ld_counting : gmap Z Z;        (* seen, not yet counted, with the arrival *)
  ld_next : Z;
  ld_inflight : gset Z;          (* taken by a submitter, no reply yet *)
  ld_failures : Z;
  ld_submit : gmap Z Z;          (* how long a submission took *)
}.

Definition load_init : load := mkLoad ∅ [] 0 0 ∅ ∅ 0 ∅ 0 ∅.

(** The receiver gets a request: [now] is its arrival, before any delay; [seq] is what
    [strconv.Atoi] makes of its query. [hook] is the part up to [seen.LoadOrStore],
    [count] the rest. *)
Definition hook (now : Z) (seq : option Z) (l : load) : load :=
  match seq with
  | None => l
  | Some seq =>
      if decide (seq ∈ ld_seen l)
      then mkLoad (ld_accepted l) (ld_e2e l) (ld_received l) (ld_dupes l + 1) (ld_seen l) (ld_counting l) (ld_next l)
             (ld_inflight l) (ld_failures l) (ld_submit l)
      else mkLoad (ld_accepted l) (ld_e2e l) (ld_received l) (ld_dupes l) ({[seq]} ∪ ld_seen l) (<[seq := now]> (ld_counting l))
             (ld_next l) (ld_inflight l) (ld_failures l) (ld_submit l)
  end.

Definition count (seq now : Z) (l : load) : load :=
  mkLoad (ld_accepted l)
    (match ld_accepted l !! seq with Some t => now - t :: ld_e2e l | None => ld_e2e l end)
    (ld_received l + 1) (ld_dupes l) (ld_seen l) (delete seq (ld_counting l)) (ld_next l) (ld_inflight l)
    (ld_failures l) (ld_submit l).

Section submitters.
Variable n : Z.

(** A submitter takes the next number; past the last it returns. *)
Definition take_seq (l : load) : load :=
  let seq := ld_next l in
  mkLoad (ld_accepted l) (ld_e2e l) (ld_received l) (ld_dupes l) (ld_seen l) (ld_counting l) (seq + 1)
    (if n <=? seq then ld_inflight l else {[seq]} ∪ ld_inflight l) (ld_failures l) (ld_submit l).

(** The reply to a submission: an error of the client, or a status, with the times
    before and after the request. *)
Definition submitted (seq : Z) (reply : option (Z * Z * Z)) (l : load) : load :=
  let failed := mkLoad (ld_accepted l) (ld_e2e l) (ld_received l) (ld_dupes l) (ld_seen l) (ld_counting l) (ld_next l)
                  (ld_inflight l ∖ {[seq]}) (ld_failures l + 1) (ld_submit l) in
  match reply with
  | None => failed
  | Some (status, t0, t1) =>
      if status =? 201
      then mkLoad (<[seq := t1]> (ld_accepted l)) (ld_e2e l) (ld_received l) (ld_dupes l) (ld_seen l) (ld_counting l) (ld_next l)
             (ld_inflight l ∖ {[seq]}) (ld_failures l) (<[seq := t1 - t0]> (ld_submit l))
      else failed
  end.

Inductive load_event :=
| EvHook (now : Z) (seq : option Z)
| EvCount (seq : Z)
| EvTake
| EvReply (seq : Z) (reply : option (Z * Z * Z)).

(** An event; a reply is for a submission under way, a count for a request marked as seen. *)
Definition load_step (l : load) (e : load_event) : option load :=
  match e with
  | EvHook now seq => Some (hook now seq l)
  | EvCount seq => now ← ld_counting l !! seq; Some (count seq now l)
  | EvTake => Some (take_seq l)
  | EvReply seq reply => if decide (seq ∈ ld_inflight l) then Some (submitted seq reply l) else None
  end.

Fixpoint load_run (l : load) (es : list load_event) : option load :=
  match es with
  | [] => Some l
  | e :: es' => l' ← load_step l e; load_run l' es'
  end.

(** All submitters have returned. *)
Definition all_submitted (l : load) : Prop := n <= ld_next l ∧ ld_inflight l = ∅.

(** The end of [main]: the submissions that succeeded, and the exit status. *)
Definition submitted_ok (l : load) : Z := n - ld_failures l.
Definition exit_status (l : load) : Z := if ld_received l <? submitted_ok l then 1 else 0.
End submitters.

(** ** Percentiles (main.go, [pct]) *)

(** [time.Duration.Round]: halves away from zero, saturating. *)
Definition Round (d m : Z) : Z :=
  if m <=? 0 then d
  else if d <? 0 then
    let r := - Z.rem d m in
    if 2 * r <? m then d + r
    else let d1 := int64 (d - m + r) in if d1 <? d then d1 else - 2 ^ 63
  else
    let r := Z.rem d m in
    if 2 * r <? m then d - r
    else let d1 := int64 (d + m - r) in if d <? d1 then d1 else 2 ^ 63 - 1.

Definition pct_index (len p : Z) : Z := let i := len * p / 100 in if len <=? i then len - 1 else i.

Definition pct (ds : list Z) (p : Z) : Z :=
  match ds with
  | [] => 0
  | _ => let sorted := merge_sort Z.le ds in
         Round (default 0 (sorted !! Z.to_nat (pct_index (Z.of_nat (length ds)) p))) (10 * 1000)
  end.

(** ** The report

    [subs]: the positive submit latencies, in the order of the numbers. *)
Record report := mkReport {
  rt_ok : Z; rt_failed : Z;
  rt_submit50 : Z; rt_submit99 : Z;
  rt_executed : Z;
  rt_e2e50 : Z; rt_e2e99 : Z;
  rt_dupes : Z;
  rt_status : Z;
}.

Definition subs (n : Z) (l : load) : list Z :=
  filter (λ d, 0 < d) ((λ seq, default 0 (ld_submit l !! seq)) <$> seqZ 0 n).

Definition report_of (n : Z) (l : load) : report :=
  mkReport (submitted_ok n l) (ld_failures l) (pct (subs n l) 50) (pct (subs n l) 99)
    (ld_received l) (pct (reverse (ld_e2e l)) 50) (pct (reverse (ld_e2e l)) 99) (ld_dupes l) (exit_status n l).

(** ** What a run counts *)
Definition dom_size (m : gmap Z Z) : Z := Z.of_nat (size m).
Definition set_size (s : gset Z) : Z := Z.of_nat (size s).

Record load_ok (n : Z) (l : load) : Prop := {
  lo_received : ld_received l + dom_size (ld_counting l) = set_size (ld_seen l);
  lo_counting seq : is_Some (ld_counting l !! seq) → seq ∈ ld_seen l;
  lo_next : 0 <= ld_next l;
  lo_failures : 0 <= ld_failures l;
  lo_accepted seq : seq ∈ dom (ld_accepted l) → 0 <= seq < n;
  lo_inflight seq : seq ∈ ld_inflight l → 0 <= seq < Z.min n (ld_next l);
  lo_apart seq : seq ∈ dom (ld_accepted l) → seq < ld_next l ∧ seq ∉ ld_inflight l;
  lo_count : ld_failures l + dom_size (ld_accepted l) + set_size (ld_inflight l) = Z.min n (ld_next l);
}.

Lemma set_size_insert x (s : gset Z) : x ∉ s → set_size ({[x]} ∪ s) = set_size s + 1.
Proof. intros Hx. unfold set_size. rewrite size_union by set_solver. rewrite size_singleton. lia. Qed.

Lemma set_size_remove x (s : gset Z) : x ∈ s → set_size (s ∖ {[x]}) = set_size s - 1.
Proof.
  intros Hx. unfold set_size. rewrite size_difference by set_solver. rewrite size_singleton.
  assert (size s ≠ 0%nat) by (intros Hz%size_empty_inv; set_solver). lia.
Qed.

Lemma load_init_ok n : 0 <= n → load_ok n load_init.
Proof.
  intros Hn. split; unfold dom_size, set_size; cbn; rewrite ?map_size_empty, ?size_empty; try done; try set_solver by lia; try lia.
  intros seq [x Hx]. done.
Qed.

Lemma hook_ok n now seq l : load_ok n l → load_ok n (hook now seq l).
Proof.
  intros [Hr Hk Hn Hf Ha Hi Hap Hc]. unfold hook. destruct seq as [seq|]; [|by split].
  destruct (decide (seq ∈ ld_seen l)); split; cbn; try done.
  - rewrite set_size_insert by done. unfold dom_size in *. rewrite map_size_insert_None; [lia|].
    apply eq_None_not_Some. by intros ?%Hk.
  - intros s. rewrite lookup_insert_is_Some. intros [->|[_ Hs%Hk]]; set_solver.
Qed.

Lemma count_ok n now seq l : ld_counting l !! seq = Some now → load_ok n l → load_ok n (count seq now l).
Proof.
  intros Hs [Hr Hk Hn Hf Ha Hi Hap Hc]. split; cbn; try done.
  - unfold dom_size in *. rewrite map_size_delete_Some by eauto.
    assert (size (ld_counting l) ≠ 0%nat) by (rewrite map_size_non_empty_iff; intros He; by rewrite He in Hs). lia.
  - intros s [x [_ Hx]%lookup_delete_Some]. eauto.
Qed.

Lemma take_ok n l : 0 <= n → load_ok n l → load_ok n (take_seq n l).
Proof.
  intros Hn0 [Hr Hk Hn Hf Ha Hi Hap Hc]. unfold take_seq. destruct (Z.leb_spec n (ld_next l)) as [Hle|Hlt]; split; cbn; try done; try lia.
  - intros seq Hs. specialize (Hi seq Hs). lia.
  - intros seq Hs. destruct (Hap seq Hs). split; [lia|done].
  - intros seq [->%elem_of_singleton|Hs]%elem_of_union; [lia|]. specialize (Hi seq Hs). lia.
  - intros seq Hs. destruct (Hap seq Hs). split; [lia|]. intros [->%elem_of_singleton|?]%elem_of_union; [lia|done].
  - rewrite set_size_insert; [lia|]. intros Hs. specialize (Hi _ Hs). lia.
Qed.

Lemma submitted_reply_ok n seq reply l : seq ∈ ld_inflight l → load_ok n l → load_ok n (submitted seq reply l).
Proof.
  intros Hin [Hr Hk Hn Hf Ha Hi Hap Hc].
  assert (∀ s, s ∈ ld_inflight l ∖ {[seq]} → 0 <= s < Z.min n (ld_next l)) as Hi' by (intros s Hs; apply Hi; set_solver).
  pose proof (set_size_remove seq _ Hin) as Hsz. pose proof (Hi seq Hin) as Hseq.
  assert (load_ok n (mkLoad (ld_accepted l) (ld_e2e l) (ld_received l) (ld_dupes l) (ld_seen l) (ld_counting l) (ld_next l)
            (ld_inflight l ∖ {[seq]}) (ld_failures l + 1) (ld_submit l))) as Hfail.
  { split; cbn; try done; try lia. intros s Hs. destruct (Hap s Hs). split; [done|set_solver]. }
  unfold submitted. destruct reply as [[[status t0] t1]|]; [|done]. destruct (status =? 201); [|done].
  split; cbn; try done.
  - intros s. rewrite dom_insert_L. intros [->%elem_of_singleton|Hs]%elem_of_union; [lia|by apply Ha].
  - intros s. rewrite dom_insert_L. intros [->%elem_of_singleton|Hs]%elem_of_union; [split; [lia|set_solver]|].
    destruct (Hap s Hs). split; [done|set_solver].
  - unfold dom_size. rewrite map_size_insert_None; [unfold dom_size in Hc; lia|].
    apply not_elem_of_dom. intros Hs. by destruct (Hap seq Hs).
Qed.

Lemma load_run_ok n l es l' : 0 <= n → load_ok n l → load_run n l es = Some l' → load_ok n l'.
Proof.
  intros Hn. revert l. induction es as [|e es IH]; intros l Hl Hr; cbn in Hr; [by simplify_eq|].
  apply bind_Some in Hr as (l1&H1&Hr). eapply IH; [|exact Hr]. destruct e as [now seq|seq| |seq reply]; cbn in H1.
  - simplify_eq. by apply hook_ok.
  - apply bind_Some in H1 as (now&Hs&H1). simplify_eq. by apply count_ok.
  - simplify_eq. by apply take_ok.
  - case_decide; [|done]. simplify_eq. by apply submitted_reply_ok.
Qed.

(** The numbers below [n]. *)
Definition seqs (n : Z) : gset Z := list_to_set (seqZ 0 n).

Lemma elem_of_seqs n seq : seq ∈ seqs n ↔ 0 <= seq < n.
Proof. unfold seqs. rewrite elem_of_list_to_set, elem_of_seqZ. lia. Qed.

Lemma size_seqs n : 0 <= n → set_size (seqs n) = n.
Proof.
  intros Hn. unfold set_size, seqs. rewrite size_list_to_set by apply NoDup_seqZ. rewrite length_seqZ. lia.
Qed.

(** A set of numbers below [n] that has [n] elements has them all. *)
Lemma all_seen n (s : gset Z) : 0 <= n → (∀ seq, seq ∈ s → 0 <= seq < n) → n <= set_size s → s = seqs n.
Proof.
  intros Hn Hs Hle. apply set_subseteq_size_eq; [intros seq Hin; by apply elem_of_seqs, Hs|].
  pose proof (size_seqs n Hn). unfold set_size in *. lia.
Qed.

(** What the verdict of a load test means. When all submitters have returned, the
    number of successful submissions it reports is the number of jobs acknowledged with
    201. If none failed, and the receiver got requests for submitted jobs only, status 0
    means that every one of the [n] jobs was executed. If some did fail, it does not: a
    job whose submission failed for the client only (the reply was lost) is counted when
    it executes, so the test can pass while an acknowledged job never ran. *)
Theorem loadtest_verdict n es l :
  0 <= n → load_run n load_init es = Some l → all_submitted n l →
  submitted_ok n l = dom_size (ld_accepted l)
  ∧ (ld_failures l = 0 → (∀ seq, seq ∈ ld_seen l → 0 <= seq < n) → exit_status n l = 0 → ld_seen l = seqs n)
  ∧ ∃ es' l' seq, load_run 2 load_init es' = Some l' ∧ all_submitted 2 l' ∧ exit_status 2 l' = 0
      ∧ seq ∈ dom (ld_accepted l') ∧ seq ∉ ld_seen l'.
Proof.
  intros Hn Hr [Hall Hin]. pose proof (load_run_ok n _ _ _ Hn (load_init_ok n Hn) Hr) as [Hrec _ _ _ _ _ _ Hc].
  split; [|split].
  - unfold submitted_ok. rewrite Hin in Hc. unfold set_size in Hc. rewrite size_empty in Hc. lia.
  - intros Hf Hseen. unfold exit_status, submitted_ok. rewrite Hf. intros Hx.
    apply all_seen; [done|done|]. unfold dom_size in Hrec. zcases; [done|lia].
  - exists [EvTake; EvTake; EvReply 0 None; EvReply 1 (Some (201, 0, 1)); EvHook 2 (Some 0); EvCount 0; EvTake].
    eexists _, 1. split; [reflexivity|]. split; [split; [done|vm_compute; reflexivity]|].
    split; [reflexivity|]. split; [apply (bool_decide_unpack _); reflexivity|].
    apply (bool_decide_unpack _); reflexivity.
Qed.

(** A latency can come out negative: the receiver reads the clock, then sleeps for
    [-delay]; a submission acknowledged meanwhile counts as before the arrival. *)
Lemma negative_latency :
  ∃ es l, load_run 1 load_init es = Some l ∧ ld_e2e l = [-5].
Proof. exists [EvTake; EvReply 0 (Some (201, 0, 15)); EvHook 10 (Some 0); EvCount 0]. eexists. split; reflexivity. Qed.

(** ** Percentiles *)
Lemma sorted_split (L : list Z) i v :
  StronglySorted Z.le L → L !! i = Some v →
  (∀ x, x ∈ take i L → x <= v) ∧ (∀ x, x ∈ drop (S i) L → v <= x).
Proof.
  intros Hs. revert i. induction Hs as [|a L Hs IH Ha]; intros [|i] Hi; cbn in *; try done.
  - simplify_eq. split; [by intros x ?%not_elem_of_nil|]. intros x Hx. rewrite drop_0 in Hx.
    rewrite Forall_forall in Ha. by apply Ha.
  - destruct (IH i Hi) as [Hlo Hhi]. split; [|done]. intros x [->|Hx]%elem_of_cons; [|by apply Hlo].
    rewrite Forall_forall in Ha. apply Ha. by eapply list_elem_of_lookup_2.
Qed.

Lemma filter_length_all (P : Z → Prop) `{!∀ x, Decision (P x)} (l : list Z) :
  (∀ x, x ∈ l → P x) → length (filter P l) = length l.
Proof.
  intros Hl. induction l as [|a l IH]; [done|]. rewrite filter_cons, decide_True by (apply Hl; by left).
  cbn. rewrite IH; [done|]. intros x Hx. apply Hl. by right.
Qed.

Lemma filter_length_none (P : Z → Prop) `{!∀ x, Decision (P x)} (l : list Z) :
  (∀ x, x ∈ l → ¬ P x) → filter P l = [].
Proof.
  intros Hl. induction l as [|a l IH]; [done|]. rewrite filter_cons, decide_False by (apply Hl; by left).
  apply IH. intros x Hx. apply Hl. by right.
Qed.

(** [pct] is the percentile. For [0 <= p <= 100] and any non-empty durations the
    result is one of them, rounded to ten microseconds: at least [p] percent of the
    durations are at most that one, and at most [p] percent are below it; whatever the
    order they are given in. *)
Theorem pct_percentile ds p :
  ds ≠ [] → 0 <= p <= 100 →
  ∃ v, v ∈ ds ∧ pct ds p = Round v (10 * 1000)
    ∧ Z.of_nat (length ds) * p <= Z.of_nat (length (filter (λ x, x <= v) ds)) * 100
    ∧ Z.of_nat (length (filter (λ x, x < v) ds)) * 100 <= Z.of_nat (length ds) * p.
Proof.
  intros Hne Hp. set (L := merge_sort Z.le ds). set (len := Z.of_nat (length ds)).
  assert (0 < len) as Hlen by (unfold len; destruct ds; [done|cbn; lia]).
  pose proof (merge_sort_Permutation Z.le ds) as Hperm. fold L in Hperm.
  assert (StronglySorted Z.le L) as Hs by (apply StronglySorted_merge_sort; apply _).
  set (i := pct_index len p). assert (0 <= i < len ∧ i * 100 <= len * p < (i + 1) * 100 ∨ (i = len - 1 ∧ i * 100 <= len * p)) as Hi.
  { unfold i, pct_index. pose proof (Z.mul_div_le (len * p) 100 ltac:(lia)).
    pose proof (Z.mul_succ_div_gt (len * p) 100 ltac:(lia)). destruct (Z.leb_spec len (len * p / 100)); [right|left]; nia. }
  assert (length L = length ds) as HL by (by rewrite Hperm).
  destruct (lookup_lt_is_Some_2 L (Z.to_nat i)) as [v Hv]; [rewrite HL; unfold len in *; lia|].
  exists v. split; [rewrite <- Hperm; by eapply list_elem_of_lookup_2|].
  split; [unfold pct; destruct ds; [done|]; fold len i; fold L; by rewrite Hv|].
  destruct (sorted_split L (Z.to_nat i) v Hs Hv) as [Hlo Hhi].
  assert (∀ P `{!∀ x, Decision (P x)}, length (filter P ds) = length (filter P L)) as Hf.
  { intros P HP. by rewrite Hperm. }
  rewrite !Hf, <- (take_drop_middle L (Z.to_nat i) v Hv), !filter_app, !filter_cons, !length_app.
  assert (length (take (Z.to_nat i) L) = Z.to_nat i) as Ht by (rewrite length_take, HL; unfold len in *; lia).
  split.
  - rewrite decide_True by lia. rewrite (filter_length_all (λ x, x <= v) (take _ _) Hlo), Ht. cbn [length].
    unfold len in *. nia.
  - rewrite decide_False by lia. rewrite (filter_length_none (λ x, x < v) (drop _ _)) by (intros x Hx%Hhi; lia).
    pose proof (length_filter (λ x, x < v) (take (Z.to_nat i) L)) as Hlt. rewrite Ht in Hlt. cbn [length]. lia.
Qed.

(** ** The start of [main], the request of a submission, and the wait for the rest *)
Definition default_callback (callback listen : string) : string :=
  if String.eqb callback "" then ("http://" +:+ listen +:+ "/hook")%string else callback.

Inductive load_start := NoKey | NoListen | Started.

(** The exit status of the first two is 2 and 1. *)
Definition load_start_of (key : string) (listening : bool) : load_start :=
  if String.eqb key "" then NoKey else if listening then Started else NoListen.

(** [apis[seq%len(apis)]] ([strings.Split] gives one address at least), the URL the job is to call, and the header with the key. *)
Record load_request := mkLoadRequest { lr_url : string; lr_hook : string; lr_authorization : string }.

Definition load_request_of (apis : list string) (callback key : string) (seq : Z) : load_request :=
  mkLoadRequest (default ""%string (apis !! Z.to_nat (Z.rem seq (Z.of_nat (length apis)))) +:+ "/v1/jobs")
    (callback +:+ "?seq=" +:+ pretty seq) ("Bearer " +:+ key).

Inductive waited := AllReceived (polls : nat) | Deadline (polls : nat) | WaitOutOfFuel.

(** [received.Load()] and the clock at the [k]-th look; a look is a tenth of a second
    after the last one at least. *)
Fixpoint wait_loop (received now : nat → Z) (ok deadline : Z) (k fuel : nat) : waited :=
  if negb (received k <? ok) then AllReceived k
  else if negb (now k <? deadline) then Deadline k
  else match fuel with
       | O => WaitOutOfFuel
       | S fuel' => wait_loop received now ok deadline (S k) fuel'
       end.

(** [t0] is the clock where the deadline is set. *)
Definition wait_all (received now : nat → Z) (t0 ok wait : Z) : waited :=
  wait_loop received now ok (t0 + wait) O (Z.to_nat (wait / (100 * Millisecond) + 1)).

Lemma wait_loop_ends received now ok deadline fuel : ∀ k,
  (∀ i, now i + 100 * Millisecond <= now (S i)) → deadline - now k < 100 * Millisecond * Z.of_nat fuel →
  wait_loop received now ok deadline k fuel ≠ WaitOutOfFuel.
Proof.
  induction fuel as [|fuel IH]; intros k Hn Hf; cbn [wait_loop]; destruct (received k <? ok); cbn [negb]; try done;
    destruct (Z.ltb_spec (now k) deadline); cbn [negb]; try done.
  - lia.
  - apply IH; [done|]. pose proof (Hn k). unfold Millisecond in *. lia.
Qed.

Lemma wait_loop_all received now ok deadline fuel : ∀ k m,
  wait_loop received now ok deadline k fuel = AllReceived m → ok <= received m.
Proof.
  induction fuel as [|fuel IH]; intros k m; cbn [wait_loop]; destruct (Z.ltb_spec (received k) ok); cbn [negb];
    try (intros [= <-]; lia); destruct (now k <? deadline); cbn [negb]; try done. apply IH.
Qed.

(** The load test does not hang: after the last submission it looks at most once per
    tenth of a second of [-wait], and once more; and it stops early only when as many
    jobs were received as submissions succeeded. *)
Theorem wait_all_ends received now t0 ok wait :
  t0 <= now O → (∀ i, now i + 100 * Millisecond <= now (S i)) →
  wait_all received now t0 ok wait ≠ WaitOutOfFuel
  ∧ ∀ m, wait_all received now t0 ok wait = AllReceived m → ok <= received m.
Proof.
  intros H0 Hn. split; [|apply wait_loop_all]. apply wait_loop_ends; [done|]. unfold Millisecond.
  destruct (Z.le_gt_cases 0 wait).
  - pose proof (Z.mul_succ_div_gt wait (100 * 1000000) ltac:(lia)). rewrite Z2Nat.id by (pose proof (Z.div_pos wait (100 * 1000000)); lia). lia.
  - lia.
Qed.
