(* ===== verification/Migrations.v ===== *)
(** * Migrations (migrations/*.sql)

    The thirteen migrations as functions of the catalogue (the enum of states, tables
    with their columns, indexes) and of the rows they touch. A migration is one
    transaction: [None] is one that fails and changes nothing. Beside them the tables and
    columns that the program's own statements name. *)

From S2P Require Import Prelude GoBase Encoding Job Db Partitions Tenants Schedules.

Open Scope Z_scope.
Local Open Scope sluice_scope.

(** ** Catalogue *)
Record catalog := mkCatalog {
  c_states : option (list string);     (* the enum job_state *)
  c_tables : gmap string (gset string);
  c_indexes : gmap string string;      (* with the table each is on *)
}.

Definition catalog_empty : catalog := mkCatalog None ∅ ∅.

Definition has_column (k : string) (cols : gset string) : bool := bool_decide (k ∈ cols).

Definition guard_ {A} (b : bool) (k : option A) : option A := if b then k else None.

Definition create_type (values : list string) (c : catalog) : option catalog :=
  guard_ (bool_decide (c_states c = None)) (Some (mkCatalog (Some values) (c_tables c) (c_indexes c))).

Definition drop_type_if_exists (c : catalog) : option catalog := Some (mkCatalog None (c_tables c) (c_indexes c)).

(** ALTER TYPE job_state ADD VALUE IF NOT EXISTS. *)
Definition add_value (v : string) (c : catalog) : option catalog :=
  vs ← c_states c;
  Some (mkCatalog (Some (if bool_decide (v ∈ (vs : list string)) then vs else vs ++ [v])) (c_tables c) (c_indexes c)).

Definition create_table (t : string) (cols : list string) (c : catalog) : option catalog :=
  guard_ (bool_decide (c_tables c !! t = None))
    (Some (mkCatalog (c_states c) (<[t := list_to_set cols]> (c_tables c)) (c_indexes c))).

(** DROP TABLE takes the indexes of the table along. *)
Definition drop_table_if_exists (t : string) (c : catalog) : option catalog :=
  Some (mkCatalog (c_states c) (delete t (c_tables c)) (filter (λ it, snd it ≠ t) (c_indexes c))).

Definition drop_table (t : string) (c : catalog) : option catalog :=
  guard_ (bool_decide (is_Some (c_tables c !! t))) (drop_table_if_exists t c).

Definition rename_table (t t' : string) (c : catalog) : option catalog :=
  cols ← c_tables c !! t;
  guard_ (bool_decide (c_tables c !! t' = None))
    (Some (mkCatalog (c_states c) (<[t' := cols]> (delete t (c_tables c)))
             ((λ o, if String.eqb o t then t' else o) <$> c_indexes c))).

Definition add_column (t col : string) (c : catalog) : option catalog :=
  cols ← c_tables c !! t;
  guard_ (negb (has_column col cols)) (Some (mkCatalog (c_states c) (<[t := {[col]} ∪ cols]> (c_tables c)) (c_indexes c))).

Definition drop_column (t col : string) (c : catalog) : option catalog :=
  cols ← c_tables c !! t;
  guard_ (has_column col cols) (Some (mkCatalog (c_states c) (<[t := cols ∖ {[col]}]> (c_tables c)) (c_indexes c))).

(** CREATE INDEX: the table must have the columns of the key, and the enum the states
    of the condition. *)
Definition create_index (i t : string) (key states : list string) (c : catalog) : option catalog :=
  cols ← c_tables c !! t;
  guard_ (bool_decide (c_indexes c !! i = None) && forallb (λ k, has_column k cols) key
          && forallb (λ s, bool_decide (s ∈ default [] (c_states c))) states)
    (Some (mkCatalog (c_states c) (c_tables c) (<[i := t]> (c_indexes c)))).

Definition drop_index_if_exists (i : string) (c : catalog) : option catalog :=
  Some (mkCatalog (c_states c) (c_tables c) (delete i (c_indexes c))).

(** The statements of a migration, one after the other. *)
Fixpoint script {A} (l : list (A → option A)) (a : A) : option A :=
  match l with [] => Some a | f :: l' => a' ← f a; script l' a' end.

Definition jobs_columns : list string :=
  ["id"; "tenant_id"; "type"; "payload"; "priority"; "state"; "run_at"; "claimed_at"; "claimed_by"; "claim_token";
   "deadline"; "attempt"; "max_retries"; "backoff_seconds"; "idempotency_key"; "last_error"; "created_at"; "completed_at"].
Definition schedules_columns : list string :=
  ["id"; "tenant_id"; "name"; "cron"; "timezone"; "job_template"; "enabled"; "last_run_at"; "next_run_at"].
Definition job_runs_columns : list string :=
  ["id"; "job_id"; "tenant_id"; "attempt"; "started_at"; "finished_at"; "state"; "error"; "duration_ms"].
Definition dead_letter_columns : list string :=
  ["job_id"; "tenant_id"; "moved_at"; "final_error"; "attempt_count"; "original_job"].
Definition tenants_columns : list string := ["id"; "name"; "api_key"; "rate_limit"; "status"; "created_at"].

Definition in_flight_states : list string := ["claimed"; "running"].

Definition run_indexes : list (catalog → option catalog) :=
  [create_index "idx_job_runs_job" "job_runs" ["job_id"] []; create_index "idx_job_runs_tenant" "job_runs" ["tenant_id"; "started_at"] []].

(** The statements of each migration, [up_<v>.up.sql] and [down_<v>.down.sql], on the
    catalogue. *)
Definition up_1 : list (catalog → option catalog) :=
  [create_type ["pending"; "scheduled"; "claimed"; "running"; "succeeded"; "failed"; "dead"];
   create_table "jobs" jobs_columns;
   create_index "idx_jobs_scheduled" "jobs" ["run_at"; "priority"] ["scheduled"];
   create_index "idx_jobs_in_flight" "jobs" ["deadline"] in_flight_states;
   create_index "idx_jobs_pending" "jobs" ["priority"; "created_at"] ["pending"];
   create_index "idx_jobs_tenant_recent" "jobs" ["tenant_id"; "created_at"] [];
   create_table "schedules" schedules_columns;
   create_index "idx_schedules_due" "schedules" ["next_run_at"] [];
   create_table "job_runs" job_runs_columns]
  ++ run_indexes ++
  [create_table "dead_letter" dead_letter_columns;
   create_index "idx_dead_letter_tenant" "dead_letter" ["tenant_id"; "moved_at"] []].

Definition up_2 : list (catalog → option catalog) :=
  [create_table "tenants" tenants_columns].

Definition up_3 : list (catalog → option catalog) :=
  [drop_index_if_exists "idx_job_runs_job"; drop_index_if_exists "idx_job_runs_tenant";
   rename_table "job_runs" "job_runs_old"; create_table "job_runs" job_runs_columns]
  ++ run_indexes ++ [drop_table "job_runs_old"].

Definition up_4 : list (catalog → option catalog) :=
  [add_column "tenants" "weight"].

Definition up_6 : list (catalog → option catalog) :=
  [add_value "cancelled"].

Definition up_7 : list (catalog → option catalog) :=
  [add_column "tenants" "api_key_hash"; drop_column "tenants" "api_key"].

Definition up_8 : list (catalog → option catalog) :=
  [create_index "idx_jobs_dead" "jobs" ["id"] ["dead"]].

Definition up_9 : list (catalog → option catalog) :=
  [create_index "idx_jobs_finished" "jobs" ["completed_at"] ["succeeded"; "cancelled"];
   create_index "idx_dead_letter_moved" "dead_letter" ["moved_at"] []].

Definition up_10 : list (catalog → option catalog) :=
  [add_column "tenants" "webhook_secret"].

Definition up_12 : list (catalog → option catalog) :=
  [add_column "tenants" "max_concurrency"; create_index "idx_jobs_tenant_in_flight" "jobs" ["tenant_id"] in_flight_states].

Definition up_13 : list (catalog → option catalog) :=
  [add_column "jobs" "trace_context"].

(** What migration [v] does to the catalogue. *)
Definition cat_up (v : nat) : catalog → option catalog := script
  match v with
  | 1%nat => up_1
  | 2%nat => up_2
  | 3%nat => up_3
  | 4%nat => up_4
  | 6%nat => up_6
  | 7%nat => up_7
  | 8%nat => up_8
  | 9%nat => up_9
  | 10%nat => up_10
  | 12%nat => up_12
  | 13%nat => up_13
  | _ => []
  end.

Definition down_1 : list (catalog → option catalog) :=
  [drop_table_if_exists "dead_letter"; drop_table_if_exists "job_runs"; drop_table_if_exists "schedules";
   drop_table_if_exists "jobs"; drop_type_if_exists].

Definition down_2 : list (catalog → option catalog) :=
  [drop_table_if_exists "tenants"].

Definition down_3 : list (catalog → option catalog) :=
  [create_table "job_runs_unpart" job_runs_columns; drop_table "job_runs"; rename_table "job_runs_unpart" "job_runs"]
  ++ run_indexes.

Definition down_4 : list (catalog → option catalog) :=
  [drop_column "tenants" "weight"].

Definition down_7 : list (catalog → option catalog) :=
  [add_column "tenants" "api_key"; drop_column "tenants" "api_key_hash"].

Definition down_8 : list (catalog → option catalog) :=
  [drop_index_if_exists "idx_jobs_dead"].

Definition down_9 : list (catalog → option catalog) :=
  [drop_index_if_exists "idx_jobs_finished"; drop_index_if_exists "idx_dead_letter_moved"].

Definition down_10 : list (catalog → option catalog) :=
  [drop_column "tenants" "webhook_secret"].

Definition down_12 : list (catalog → option catalog) :=
  [drop_index_if_exists "idx_jobs_tenant_in_flight"; drop_column "tenants" "max_concurrency"].

Definition down_13 : list (catalog → option catalog) :=
  [drop_column "jobs" "trace_context"].

Definition cat_down (v : nat) : catalog → option catalog := script
  match v with
  | 1%nat => down_1
  | 2%nat => down_2
  | 3%nat => down_3
  | 4%nat => down_4
  | 7%nat => down_7
  | 8%nat => down_8
  | 9%nat => down_9
  | 10%nat => down_10
  | 12%nat => down_12
  | 13%nat => down_13
  | _ => []
  end.

(** ** Rows

    A row of [tenants] at any version: [None] in a column the table has not got. *)
Record trow := mkTrow {
  m_id : uuid;
  m_name : string;
  m_rate_limit : Z;
  m_status : string;
  m_api_key : option string;
  m_weight : option Z;
  m_api_key_hash : option string;
  m_webhook_secret : option string;
  m_max_concurrency : option Z;
}.

(** The rows. [d_parts] is [None] while [job_runs] is a plain table; then its monthly
    partitions, and whether there is a default one. *)
Record data := mkData {
  d_jobs : gmap uuid Job;
  d_schedules : schedules;
  d_dead_letter : gmap uuid dl_row;
  d_runs : list run_row;
  d_parts : option (partitions * bool);
  d_tenants : gmap uuid trow;
}.

Definition data_empty : data := mkData ∅ ∅ ∅ [] None ∅.

Definition set_d_tenants (d : data) (t : gmap uuid trow) : data :=
  mkData (d_jobs d) (d_schedules d) (d_dead_letter d) (d_runs d) (d_parts d) t.
Definition set_d_runs (d : data) (runs : list run_row) (ps : option (partitions * bool)) : data :=
  mkData (d_jobs d) (d_schedules d) (d_dead_letter d) runs ps (d_tenants d).
Definition set_d_jobs (d : data) (jobs : gmap uuid Job) (runs : list run_row) : data :=
  mkData jobs (d_schedules d) (d_dead_letter d) runs (d_parts d) (d_tenants d).

Definition dev_id : uuid := 1%N.
Definition dev_key : string := "dev-token".

Definition with_keys (key hash : option string) (r : trow) : trow :=
  mkTrow (m_id r) (m_name r) (m_rate_limit r) (m_status r) key (m_weight r) hash (m_webhook_secret r) (m_max_concurrency r).
Definition with_weight (w : option Z) (r : trow) : trow :=
  mkTrow (m_id r) (m_name r) (m_rate_limit r) (m_status r) (m_api_key r) w (m_api_key_hash r) (m_webhook_secret r) (m_max_concurrency r).
Definition with_secret (s : option string) (r : trow) : trow :=
  mkTrow (m_id r) (m_name r) (m_rate_limit r) (m_status r) (m_api_key r) (m_weight r) (m_api_key_hash r) s (m_max_concurrency r).
Definition with_cap (n : option Z) (r : trow) : trow :=
  mkTrow (m_id r) (m_name r) (m_rate_limit r) (m_status r) (m_api_key r) (m_weight r) (m_api_key_hash r) (m_webhook_secret r) n.
Definition with_status (s : string) (r : trow) : trow :=
  mkTrow (m_id r) (m_name r) (m_rate_limit r) s (m_api_key r) (m_weight r) (m_api_key_hash r) (m_webhook_secret r) (m_max_concurrency r).

Definition dev_row : trow := mkTrow dev_id "dev" 1000 "active" (Some dev_key) None None None None.

(** NOT NULL and UNIQUE on a column of [tenants]. *)
Definition column_unique (col : trow → option string) (t : gmap uuid trow) : bool :=
  bool_decide (Forall (λ r, is_Some (col r)) (rows t)) && bool_decide (NoDup (col <$> rows t)).

(** Migration 7. *)
Definition hash_keys (t : gmap uuid trow) : option (gmap uuid trow) :=
  let t' := (λ r, with_keys (m_api_key r) (HashAPIKey <$> m_api_key r) r) <$> t in
  guard_ (column_unique m_api_key_hash t') (Some ((λ r, with_keys None (m_api_key_hash r) r) <$> t')).

(** The condition of migration 11, up and down. *)
Definition is_dev (r : trow) : bool :=
  bool_decide (m_id r = dev_id) && bool_decide (m_api_key_hash r = Some (HashAPIKey dev_key)).

Definition set_dev_status (s : string) (r : trow) : trow := if is_dev r then with_status s r else r.

(** The first month seeded by migration 3, January 2026; it seeds thirteen. *)
Definition first_seed : Z := month_of 2026 1.
Definition seed_months : list Z := (λ i, first_seed + i) <$> seqZ 0 13.

Section rows.
Context `{!UuidText} `{!SessionZone}.

Definition seeds : partitions :=
  list_to_map ((λ k, (partition_name k, (midnight k, midnight (k + 1)))) <$> seed_months).

(** An INSERT into the partitioned table finds a partition for the row. *)
Definition has_partition (ps : partitions) (r : run_row) : bool :=
  existsb (λ nb, within (snd nb) r) (map_to_list ps).

(** Migration 7 down: keys that tell of the tenant. *)
Definition reissued_key (r : trow) : string :=
  if bool_decide (m_id r = dev_id) then dev_key else "reissue-" +:+ uuid_String (m_id r).

Definition unhash_keys (t : gmap uuid trow) : option (gmap uuid trow) :=
  let t' := (λ r, with_keys (Some (reissued_key r)) (m_api_key_hash r) r) <$> t in
  guard_ (column_unique m_api_key t') (Some ((λ r, with_keys (m_api_key r) None r) <$> t')).

Definition is_cancelled (j : Job) : bool := match State_ j with StateCancelled => true | _ => false end.

Definition cancelled_id (d : data) (id : uuid) : bool :=
  match d_jobs d !! id with Some j => is_cancelled j | None => false end.

(** [draw] gives the 32 bytes of the two random identifiers of a row. *)
Variable draw : uuid → bytes.

Definition map_tenants (f : trow → trow) (d : data) : data := set_d_tenants d (f <$> d_tenants d).

(** Migration 3: the rows move to the partitioned table, and back to one with a primary
    and a foreign key. *)
Definition partition_runs (d : data) : option data :=
  guard_ (forallb (has_partition seeds) (d_runs d)) (Some (set_d_runs d (d_runs d) (Some (seeds, false)))).

Definition unpartition_runs (d : data) : option data :=
  guard_ (forallb (λ r, bool_decide (is_Some (d_jobs d !! rr_job_id r))) (d_runs d) && bool_decide (NoDup (rr_id <$> d_runs d)))
    (Some (set_d_runs d (d_runs d) None)).

(** Migration 5. *)
Definition add_default (d : data) : option data :=
  match d_parts d with
  | Some (ps, false) => Some (set_d_runs d (d_runs d) (Some (ps, true)))
  | _ => None
  end.

Definition drop_default (d : data) : data :=
  match d_parts d with
  | Some (ps, true) => set_d_runs d (filter (λ r, in_default ps r = false) (d_runs d)) (Some (ps, false))
  | _ => d
  end.

(** Migration 6 down. *)
Definition delete_cancelled (d : data) : data :=
  set_d_jobs d (filter (λ kj : uuid * Job, is_cancelled (snd kj) = false) (d_jobs d))
    (filter (λ r, cancelled_id d (rr_job_id r) = false) (d_runs d)).

(** Migration 10. *)
Definition draw_secret (r : trow) : trow := with_secret (Some ("whsec_" +:+ base64_std (draw (m_id r)))) r.

(** What migration [v] does to the rows. *)
Definition data_up (v : nat) (d : data) : option data :=
  match v with
  | 2%nat => Some (set_d_tenants d {[dev_id := dev_row]})
  | 3%nat => partition_runs d
  | 4%nat => Some (map_tenants (with_weight (Some 100)) d)
  | 5%nat => add_default d
  | 7%nat => t ← hash_keys (d_tenants d); Some (set_d_tenants d t)
  | 10%nat => Some (map_tenants draw_secret d)
  | 11%nat => Some (map_tenants (set_dev_status "disabled") d)
  | 12%nat => Some (map_tenants (with_cap (Some 0)) d)
  | 13%nat => Some (set_d_jobs d (set_trace None <$> d_jobs d) (d_runs d))
  | _ => Some d
  end.

Definition data_down (v : nat) (d : data) : option data :=
  match v with
  | 1%nat => Some (mkData ∅ ∅ ∅ [] None (d_tenants d))
  | 2%nat => Some (set_d_tenants d ∅)
  | 3%nat => unpartition_runs d
  | 4%nat => Some (map_tenants (with_weight None) d)
  | 5%nat => Some (drop_default d)
  | 6%nat => Some (delete_cancelled d)
  | 7%nat => t ← unhash_keys (d_tenants d); Some (set_d_tenants d t)
  | 10%nat => Some (map_tenants (with_secret None) d)
  | 11%nat => Some (map_tenants (set_dev_status "active") d)
  | 12%nat => Some (map_tenants (with_cap None) d)
  | 13%nat => Some (set_d_jobs d (set_trace None <$> d_jobs d) (d_runs d))
  | _ => Some d
  end.

Definition up (v : nat) (m : catalog * data) : option (catalog * data) :=
  c ← cat_up v (fst m); d ← data_up v (snd m); Some (c, d).

Definition down (v : nat) (m : catalog * data) : option (catalog * data) :=
  c ← cat_down v (fst m); d ← data_down v (snd m); Some (c, d).

(** Up from version [v] to [v + n], and down again. *)
Fixpoint ups (v n : nat) (m : catalog * data) : option (catalog * data) :=
  match n with O => Some m | S n' => m' ← up (S v) m; ups (S v) n' m' end.

Fixpoint downs (v n : nat) (m : catalog * data) : option (catalog * data) :=
  match n, v with S n', S v' => m' ← down v m; downs v' n' m' | _, _ => Some m end.
End rows.

(** ** The tables as the program sees them at the last version *)
Definition latest : nat := 13.

Definition code_row (r : trow) : option tenant_row :=
  w ← m_weight r; h ← m_api_key_hash r; s ← m_webhook_secret r; n ← m_max_concurrency r;
  Some (mkTenantRow (mkTenant (m_id r) (m_name r) (m_rate_limit r) w (m_status r) s n) h).

Definition code_tenants (d : data) : tenants := omap code_row (d_tenants d).

(** ** What the program's statements name

    The function a statement is in, the columns it reads or writes of each table, and the
    states it writes as literals. *)
Record statement := mkStatement {
  st_in : string;
  st_tables : list (string * list string);
  st_states : list string;
}.

Definition jobColumns : list string :=
  ["id"; "tenant_id"; "type"; "payload"; "priority"; "state"; "run_at"; "claimed_at"; "claimed_by"; "claim_token"; "deadline";
   "attempt"; "max_retries"; "backoff_seconds"; "idempotency_key"; "last_error"; "created_at"; "completed_at"].

Definition job_statements : list statement := [
  mkStatement "InsertJob"
    [("jobs", ["id"; "tenant_id"; "type"; "payload"; "priority"; "state"; "run_at"; "attempt"; "max_retries";
               "backoff_seconds"; "idempotency_key"; "created_at"; "trace_context"])] [];
  mkStatement "GetJobByIdempotencyKey" [("jobs", jobColumns)] [];
  mkStatement "GetJob" [("jobs", jobColumns)] [];
  mkStatement "claimSQL"
    [("jobs", jobColumns ++ ["trace_context"]); ("job_runs", ["id"; "job_id"; "tenant_id"; "attempt"; "started_at"; "state"])]
    ["running"; "pending"];
  mkStatement "TryClaimLimited" [("tenants", ["id"]); ("jobs", ["tenant_id"; "state"])] in_flight_states;
  mkStatement "ExtendDeadline" [("jobs", ["deadline"; "id"; "claim_token"; "state"])] in_flight_states;
  mkStatement "CompleteJob"
    [("jobs", ["state"; "completed_at"; "claim_token"; "deadline"; "id"]);
     ("job_runs", ["state"; "finished_at"; "duration_ms"; "started_at"; "job_id"; "id"])] ("succeeded" :: in_flight_states);
  mkStatement "FailJob"
    [("jobs", ["state"; "attempt"; "max_retries"; "run_at"; "last_error"; "claim_token"; "deadline"; "id"]);
     ("job_runs", ["state"; "finished_at"; "error"; "duration_ms"; "started_at"; "job_id"; "id"])]
    (["dead"; "failed"] ++ in_flight_states);
  mkStatement "PromoteDueScheduled" [("jobs", ["id"; "run_at"; "state"; "priority"; "tenant_id"])] ["scheduled"; "pending"];
  mkStatement "PromoteReadyFailed" [("jobs", ["id"; "run_at"; "state"; "priority"; "tenant_id"])] ["failed"; "pending"];
  mkStatement "GetStaleClaims" [("jobs", jobColumns)] in_flight_states;
  mkStatement "RequeueStaleJob"
    [("job_runs", ["state"; "finished_at"; "error"; "duration_ms"; "started_at"; "job_id"]);
     ("jobs", ["state"; "attempt"; "max_retries"; "claim_token"; "claimed_at"; "claimed_by"; "deadline"; "last_error"; "id"])]
    (["failed"; "dead"; "pending"] ++ in_flight_states);
  mkStatement "MoveToDeadLetter"
    [("dead_letter", ["job_id"; "tenant_id"; "final_error"; "attempt_count"; "original_job"]);
     ("jobs", ["id"; "tenant_id"; "last_error"; "attempt"; "state"])] ["dead"];
  mkStatement "ListJobs" [("jobs", jobColumns)] [];
  mkStatement "CancelJob" [("jobs", ["state"; "completed_at"; "id"; "tenant_id"])] ["cancelled"; "pending"; "scheduled"; "failed"];
  mkStatement "ReplayJob"
    [("jobs", ["state"; "attempt"; "run_at"; "last_error"; "claim_token"; "claimed_at"; "claimed_by"; "deadline"; "completed_at"; "id"; "tenant_id"]);
     ("dead_letter", ["job_id"])] ["pending"; "dead"];
  mkStatement "GetJobForTenant" [("jobs", jobColumns)] [];
  mkStatement "GetPendingJobs" [("jobs", jobColumns)] ["pending"];
  mkStatement "PromoteFailedToPending" [("jobs", ["state"; "run_at"; "id"])] ["pending"; "failed"]].

Definition scheduleColumns : list string :=
  ["id"; "tenant_id"; "name"; "cron"; "timezone"; "job_template"; "enabled"; "last_run_at"; "next_run_at"].

Definition schedule_statements : list statement := [
  mkStatement "InsertSchedule"
    [("schedules", ["id"; "tenant_id"; "name"; "cron"; "timezone"; "job_template"; "enabled"; "next_run_at"])] [];
  mkStatement "GetSchedule" [("schedules", scheduleColumns)] [];
  mkStatement "ListSchedules" [("schedules", scheduleColumns)] [];
  mkStatement "UpdateSchedule"
    [("schedules", ["cron"; "timezone"; "job_template"; "enabled"; "next_run_at"; "id"; "tenant_id"])] [];
  mkStatement "DeleteSchedule" [("schedules", ["id"; "tenant_id"])] [];
  mkStatement "GetDueSchedules" [("schedules", scheduleColumns)] [];
  mkStatement "UpdateScheduleAfterRun" [("schedules", ["last_run_at"; "next_run_at"; "id"])] []].

Definition tenantColumns : list string := ["id"; "name"; "rate_limit"; "weight"; "status"; "webhook_secret"; "max_concurrency"].

Definition tenant_statements : list statement := [
  mkStatement "RotateWebhookSecret" [("tenants", ["webhook_secret"; "id"])] [];
  mkStatement "GetTenant" [("tenants", tenantColumns)] [];
  mkStatement "GetTenantByAPIKey" [("tenants", "api_key_hash" :: tenantColumns)] [];
  mkStatement "InsertTenant" [("tenants", "api_key_hash" :: tenantColumns)] [];
  mkStatement "ListAllTenants" [("tenants", tenantColumns)] [];
  mkStatement "GetTenantAnyStatus" [("tenants", tenantColumns)] [];
  mkStatement "SetTenantStatus" [("tenants", ["status"; "id"])] [];
  mkStatement "UpdateTenantLimits" [("tenants", tenantColumns)] [];
  mkStatement "RotateAPIKey" [("tenants", ["api_key_hash"; "id"])] [];
  mkStatement "GetTenants" [("tenants", tenantColumns)] []].

Definition joined_run : list (string * list string) :=
  [("job_runs", ["id"; "job_id"; "tenant_id"; "attempt"; "state"; "duration_ms"; "started_at"; "finished_at"; "error"]);
   ("jobs", ["id"; "type"])].

Definition stats_statements : list statement := [
  mkStatement "CountJobsByState" [("jobs", ["state"; "tenant_id"])] [];
  mkStatement "ListRecentRuns" joined_run [];
  mkStatement "ListJobRuns" joined_run [];
  mkStatement "ListDeadLetter" [("dead_letter", ["job_id"; "tenant_id"; "attempt_count"; "final_error"; "moved_at"])] []].

Definition retention_statements : list statement := [
  mkStatement "PruneFinishedJobs" [("jobs", ["id"; "state"; "completed_at"]); ("job_runs", ["job_id"])] ["succeeded"; "cancelled"];
  mkStatement "PruneDeadLetter" [("dead_letter", ["job_id"; "moved_at"]); ("job_runs", ["job_id"]); ("jobs", ["id"; "state"])] ["dead"]].

Definition cli_statements : list statement := [
  mkStatement "cmdForceFail"
    [("jobs", ["state"; "last_error"; "claim_token"; "deadline"; "id"]);
     ("job_runs", ["state"; "finished_at"; "error"; "duration_ms"; "started_at"; "job_id"])]
    (["dead"; "pending"; "scheduled"; "failed"] ++ in_flight_states);
  mkStatement "cmdListDead" [("dead_letter", ["job_id"; "tenant_id"; "moved_at"; "final_error"; "attempt_count"])] [];
  mkStatement "cmdEnableDevTenant" [("tenants", ["id"; "name"; "api_key_hash"; "rate_limit"; "status"; "webhook_secret"])] [];
  mkStatement "cmdDumpScheduler"
    [("jobs", ["state"; "id"; "claimed_by"; "claimed_at"]); ("schedules", ["name"; "cron"; "next_run_at"; "enabled"])] in_flight_states].

Definition statements : list statement :=
  job_statements ++ schedule_statements ++ tenant_statements ++ stats_statements ++ retention_statements ++ cli_statements.

(** Every table, column and state a statement names exists. *)
Definition typed (c : catalog) (s : statement) : bool :=
  forallb (λ tc, match c_tables c !! fst tc with
                 | Some cols => forallb (λ col, has_column col cols) (snd tc)
                 | None => false
                 end) (st_tables s)
  && forallb (λ v, bool_decide (v ∈ default [] (c_states c))) (st_states s).
