(* ===== verification/StorageFacts.v ===== *)
(** * What single storage calls do

    The functional behaviour of the calls of [Storage] on every branch: the outcome
    of a failed attempt, promotion by two schedulers at once, the tenant boundary,
    retention, and the cases in which the reaper does more than it means to. *)

From S2P Require Import Prelude GoBase Job Db Storage.

Open Scope Z_scope.

Section outcomes.
Context `{!PgText}.
Implicit Types d : db.

(** ** A failed attempt *)

(** The runs a call closes have lasted less than the 24.8 days a 32-bit number of
    milliseconds can hold. *)
Definition runs_fit (p : run_row → bool) (at_ : Z) (d : db) : Prop :=
  ∀ r, r ∈ job_runs d → p r = true → is_Some (duration_ms at_ (rr_started_at r)).

Lemma finish_run_total s at_ e r : is_Some (duration_ms at_ (rr_started_at r)) → is_Some (finish_run s at_ e r).
Proof. unfold finish_run. intros [ms ->]. by eexists. Qed.

Lemma attempt_state_retry s j :
  - 2 ^ 31 <= Attempt j + 1 < 2 ^ 31 →
  attempt_state s j = Some (Attempt j + 1, if ShouldRetry j then s else StateDead).
Proof.
  intros Ha. unfold attempt_state. rewrite pg_int4_Some by done. cbn. unfold ShouldRetry.
  destruct (Z.ltb_spec (MaxRetries j) (Attempt j + 1)), (Z.ltb_spec (Attempt j) (MaxRetries j)); done || lia.
Qed.

(** The worker and the database agree on when a job is out of retries. When the
    owner records a failure, the SQL CASE sends the job to dead exactly when the
    worker's [ShouldRetry] said no; otherwise the job waits in failed until the given
    time. The attempt is counted, the claim is released, the run is closed with the
    same state, and no other job changes. *)
Theorem FailJob_outcome now id run tok e next d j :
  jobs d !! id = Some j → owns tok j = true → text_ok e = true → - 2 ^ 31 <= Attempt j + 1 < 2 ^ 31 →
  runs_fit (is_run id run) (pg_ts now) d →
  ∃ d' j', FailJob NoFault now id run tok e next d = (d', Ok tt)
    ∧ jobs d' !! id = Some j'
    ∧ State_ j' = (if ShouldRetry j then StateFailed else StateDead)
    ∧ RunAt j' = (if ShouldRetry j then default (RunAt j) (pg_ts <$> next) else RunAt j)
    ∧ Attempt j' = Attempt j + 1 ∧ LastError j' = Some e ∧ ClaimToken j' = None ∧ Deadline j' = None
    ∧ (∀ id', id' ≠ id → jobs d' !! id' = jobs d !! id')
    ∧ (∀ r', r' ∈ job_runs d' → is_run id run r' = true →
         rr_state r' = State_ j' ∧ rr_finished_at r' = Some (pg_ts now) ∧ rr_error r' = Some e).
Proof.
  intros Hj Ho Ht Ha Hfit.
  set (s' := if ShouldRetry j then StateFailed else StateDead).
  destruct (update_runs_total (is_run id run) (finish_run s' (pg_ts now) (Some e)) (job_runs d)) as [runs Hruns].
  { intros r Hr Hp. apply finish_run_total. by apply Hfit. }
  exists (mkDb (<[id := failed_row (Attempt j + 1) s' e next j]> (jobs d)) runs (dead_letter d)),
    (failed_row (Attempt j + 1) s' e next j).
  split.
  { unfold FailJob, exec, fail_stmt. rewrite Ht, Hj, Ho, (attempt_state_retry _ _ Ha). cbn. fold s'.
    by rewrite Hruns. }
  cbn. rewrite lookup_insert_eq. do 2 (split; [done|]). split.
  { unfold ShouldRetry.
    destruct (Z.ltb_spec (MaxRetries j) (Attempt j + 1)), (Z.ltb_spec (Attempt j) (MaxRetries j)); done || lia. }
  do 4 (split; [done|]). split; [intros id' Hne; by rewrite lookup_insert_ne|].
  intros r' Hr' Hrun. destruct (update_runs_elem _ _ _ _ _ Hruns Hr') as (r&_&[[_ Hf]|[Hp ->]]); [|congruence].
  unfold finish_run in Hf. destruct (duration_ms _ _); [|done]. by injection Hf as <-.
Qed.

(** ** Reaping *)

(** A stale claim comes back. When a running job's deadline has passed, the
    reaper's call returns it to pending with one more attempt counted, or to dead
    when none is left, reports which, and closes every open run of the job; the old
    claim's token and deadline are gone. *)
Theorem RequeueStaleJob_outcome now snow id d j :
  jobs d !! id = Some j → stale snow j = true → - 2 ^ 31 <= Attempt j + 1 < 2 ^ 31 →
  runs_fit (λ r, bool_decide (rr_job_id r = id) && bool_decide (rr_finished_at r = None)) (pg_ts now) d →
  ∃ d' j', RequeueStaleJob NoFault now snow id d = (d', Ok (negb (ShouldRetry j)))
    ∧ jobs d' !! id = Some j'
    ∧ State_ j' = (if ShouldRetry j then StatePending else StateDead)
    ∧ Attempt j' = Attempt j + 1 ∧ ClaimToken j' = None ∧ ClaimedBy j' = None ∧ Deadline j' = None
    ∧ (∀ id', id' ≠ id → jobs d' !! id' = jobs d !! id')
    ∧ (∀ r', r' ∈ job_runs d' → rr_job_id r' = id → is_Some (rr_finished_at r')).
Proof.
  intros Hj Hs Ha Hfit. unfold RequeueStaleJob, exec, requeue_tx.
  destruct (update_runs_total
    (λ r, bool_decide (rr_job_id r = id) && bool_decide (rr_finished_at r = None))
    (finish_run StateFailed (pg_ts now) (Some heartbeat_expired)) (job_runs d)) as [runs Hruns].
  { intros r Hr Hp. apply finish_run_total. by apply Hfit. }
  unfold close_open_runs. rewrite Hruns, Hj, Hs. cbn. rewrite (attempt_state_retry _ _ Ha). cbn.
  eexists _, _. split; [f_equal; f_equal; by destruct (ShouldRetry j)|].
  cbn. rewrite lookup_insert_eq. do 6 (split; [done|]). split; [intros id' Hne; by rewrite lookup_insert_ne|].
  intros r' Hr' Hid. destruct (update_runs_elem _ _ _ _ _ Hruns Hr') as (r&_&[[_ Hf]|[Hp ->]]).
  - unfold finish_run in Hf. destruct (duration_ms _ _); [|done]. injection Hf as <-. by eexists.
  - rewrite bool_decide_true in Hp by done. cbn in Hp. bool_to_prop.
    by destruct (rr_finished_at r) eqn:Hfin; [eexists|].
Qed.
End outcomes.

Section reaper_findings.
Context `{!PgText}.
Implicit Types d : db.

(** The reaper closes the run of a live job. If the job is not stale when the
    reaper's transaction runs (its worker's heartbeat extended the deadline after the
    scan listed it), the call reports success with nothing to re-enqueue as dead, the
    job rightly stays as it is, but its open run has been committed as failed with
    [worker heartbeat expired]. *)
Theorem RequeueStaleJob_closes_live_run now snow id d j r :
  jobs d !! id = Some j → stale snow j = false →
  r ∈ job_runs d → rr_job_id r = id → rr_finished_at r = None →
  runs_fit (λ r, bool_decide (rr_job_id r = id) && bool_decide (rr_finished_at r = None)) (pg_ts now) d →
  ∃ d' r', RequeueStaleJob NoFault now snow id d = (d', Ok false)
    ∧ jobs d' = jobs d
    ∧ r' ∈ job_runs d' ∧ rr_id r' = rr_id r ∧ rr_state r' = StateFailed
    ∧ rr_finished_at r' = Some (pg_ts now) ∧ rr_error r' = Some heartbeat_expired.
Proof.
  intros Hj Hs Hr Hid Hfin Hfit. unfold RequeueStaleJob, exec, requeue_tx.
  destruct (update_runs_total
    (λ r, bool_decide (rr_job_id r = id) && bool_decide (rr_finished_at r = None))
    (finish_run StateFailed (pg_ts now) (Some heartbeat_expired)) (job_runs d)) as [runs Hruns].
  { intros r0 Hr0 Hp. apply finish_run_total. by apply Hfit. }
  unfold close_open_runs. rewrite Hruns, Hj, Hs. cbn.
  apply update_runs_Forall2 in Hruns. apply list_elem_of_lookup in Hr as [i Hi].
  destruct (Forall2_lookup_l _ _ _ _ _ Hruns Hi) as (r'&Hi'&Hf).
  rewrite !bool_decide_true in Hf by done. cbn in Hf. unfold finish_run in Hf.
  destruct (duration_ms _ _); [|done]. injection Hf as <-.
  eexists _, _. do 2 (split; [done|]). split; [by eapply list_elem_of_lookup_2|]. done.
Qed.

Lemma duration_ms_overflow at_ started : 2 ^ 31 * Millisecond <= at_ - started → duration_ms at_ started = None.
Proof.
  intros Hlong. unfold duration_ms, round_div. unfold Millisecond in *.
  rewrite (proj2 (Z.leb_le 0 (at_ - started))) by lia.
  assert (2 ^ 31 <= (2 * (at_ - started) + 1000000) / (2 * 1000000)) by (apply Z.div_le_lower_bound; lia).
  unfold pg_int4. rewrite (proj2 (Z.ltb_ge _ _)) by done. by rewrite andb_false_r.
Qed.

(** A run left open for 2^31 milliseconds (24.8 days, an outage) can never be
    closed: the reaper's statement fails on the 32-bit [duration_ms], now and at every
    later time, the transaction rolls back and the job stays running; force-failing
    it fails in the same way. *)
Theorem long_open_run_stuck f now snow id d r :
  r ∈ job_runs d → rr_job_id r = id → rr_finished_at r = None →
  2 ^ 31 * Millisecond <= pg_ts now - rr_started_at r → pg_ts now <= snow →
  RequeueStaleJob f now snow id d = (d, Err ErrPostgres)
  ∧ (∀ j, jobs d !! id = Some j → in_flight j = true → cmdForceFail f snow id d = (d, Err ErrPostgres)).
Proof.
  intros Hr Hid Hfin Hlong Hsnow.
  assert (∀ s at_ e, pg_ts now <= at_ → close_open_runs s at_ e id d = None) as Hclose.
  { intros s at_ e Hat. unfold close_open_runs. apply (update_runs_fails _ _ _ r); [done|by rewrite !bool_decide_true|].
    unfold finish_run. by rewrite duration_ms_overflow by lia. }
  split.
  - unfold RequeueStaleJob, exec, requeue_tx. rewrite Hclose by lia. by destruct f.
  - intros j Hj Hfl. unfold cmdForceFail, exec, force_fail_tx, force_failable.
    rewrite Hj, Hfl. cbn. rewrite Hclose by done. by destruct f.
Qed.
End reaper_findings.

(** ** Promotion *)
Section promotion.
Context `{!PgText}.
Implicit Types d : db.

#[local] Instance due_before_trans : Transitive due_before.
Proof. intros a b c. unfold due_before. lia. Qed.
#[local] Instance due_before_total : Total due_before.
Proof. intros a b. unfold due_before. lia. Qed.

(** The jobs a promotion may take. *)
Definition due (s : State) (now : Z) (locked : gset uuid) (d : db) (j : Job) : Prop :=
  j ∈ rows (jobs d) ∧ State_ j = s ∧ RunAt j <= now ∧ ID j ∉ locked.

Lemma StronglySorted_take {A} (R : A → A → Prop) n l x y :
  StronglySorted R l → x ∈ take n l → y ∈ drop n l → R x y.
Proof.
  intros Hs Hx Hy. rewrite <- (take_drop n l) in Hs. revert Hs Hx. generalize (take n l) as l1.
  induction l1 as [|z l1 IH]; intros Hs Hx; [by apply not_elem_of_nil in Hx|].
  apply StronglySorted_inv in Hs as [Hs Hz]. apply elem_of_cons in Hx as [->|Hx]; [|by apply IH].
  rewrite Forall_forall in Hz. apply Hz, elem_of_app. by right.
Qed.

(** What a promotion selects: [limit] of the due jobs, none of which is behind one
    it leaves. *)
Lemma due_rows_spec s now limit locked p d l :
  due_rows s now limit locked p d = Some l →
  ∃ rest, (∀ j, j ∈ l ++ rest ↔ due s now locked d j)
    ∧ StronglySorted due_before l
    ∧ (∀ a b, a ∈ l → b ∈ rest → due_before a b)
    ∧ (Z.of_nat (length l) <= limit) ∧ (Z.of_nat (length l) < limit → rest = [])
    ∧ (keyed (jobs d) → NoDup (ID <$> l)).
Proof.
  unfold due_rows. intros [Hlim ->]%LIMIT_Some.
  set (sorted := merge_sort due_before _).
  assert (StronglySorted due_before sorted) as Hsorted by apply (StronglySorted_merge_sort due_before).
  exists (drop (Z.to_nat limit) sorted). rewrite take_drop. split; [|split; [|split; [|split; [|split]]]].
  - intros j. unfold sorted, due. rewrite merge_sort_Permutation, elem_of_visit, list_elem_of_filter. tauto.
  - rewrite <- (take_drop (Z.to_nat limit) sorted) in Hsorted. by apply StronglySorted_app_1_l in Hsorted.
  - intros a b. by apply StronglySorted_take.
  - rewrite length_take. lia.
  - rewrite length_take. intros Hlt. apply drop_ge. lia.
  - intros Hk. assert (NoDup (ID <$> sorted)) as Hnd.
    { unfold sorted. rewrite merge_sort_Permutation, (visit_perm p _). by apply NoDup_fmap_filter, rows_NoDup_ids. }
    rewrite <- (take_drop (Z.to_nat limit) sorted), fmap_app in Hnd. by apply NoDup_app in Hnd as [? _].
Qed.

Definition promotes_rows (upd : Job → Job) (chosen : list Job) (d d' : db) : Prop :=
  (∀ id, jobs d' !! id = (if bool_decide (id ∈ (ID <$> chosen)) then upd <$> jobs d !! id else jobs d !! id))
  ∧ job_runs d' = job_runs d ∧ dead_letter d' = dead_letter d.

(** Only which rows were chosen matters, not in what order. *)
#[export] Instance promotes_rows_proper upd : Proper ((≡ₚ) ==> (=) ==> (=) ==> iff) (promotes_rows upd).
Proof.
  intros l1 l2 Hl d1 d2 <- e1 e2 <-. unfold promotes_rows. f_equiv.
  apply forall_proper. intros id. by rewrite (bool_decide_ext (id ∈ (ID <$> l1)) (id ∈ (ID <$> l2))) by (by rewrite Hl).
Qed.

Lemma promote_spec s upd now limit locked p p' d d' l :
  promote s upd now limit locked p p' d = Ok (d', l) →
  ∃ chosen rest, l = released <$> chosen
    ∧ (∀ j, j ∈ chosen ++ rest ↔ due s now locked d j)
    ∧ StronglySorted due_before chosen
    ∧ (∀ a b, a ∈ chosen → b ∈ rest → due_before a b)
    ∧ (Z.of_nat (length chosen) <= limit) ∧ (Z.of_nat (length chosen) < limit → rest = [])
    ∧ promotes_rows upd chosen d d' ∧ (keyed (jobs d) → NoDup (ID <$> chosen)).
Proof.
  unfold promote. destruct (due_rows s now limit locked p d) as [sel|] eqn:Hsel; [|done].
  cbn. intros [= <- <-]. destruct (due_rows_spec _ _ _ _ _ _ _ Hsel) as (rest&Hin&_&Hlt&Hlen&Hfull&Hnd).
  set (chosen := merge_sort due_before (p' sel)).
  assert (chosen ≡ₚ sel) as Hperm by (unfold chosen; by rewrite merge_sort_Permutation, (visit_perm p' sel)).
  exists chosen, rest. split; [done|]. split; [intros j; rewrite <- Hin; by rewrite !elem_of_app, Hperm|].
  split; [apply (StronglySorted_merge_sort due_before)|].
  split; [intros a b Ha; apply Hlt; by rewrite <- Hperm|]. rewrite (Permutation_length Hperm).
  do 2 (split; [done|]). split; [|by rewrite Hperm].
  rewrite Hperm. split; [|done]. intros id. cbn. rewrite lookup_update_ids.
  case_bool_decide; by destruct (jobs d !! id).
Qed.

(** A poll releases the right jobs. A promotion that returns has moved to
    pending, and returned, only jobs in the state it looks for whose time has come and
    which no other scheduler holds; it takes at most [limit] of them and stops short
    only when there are no more; it returns them by priority and then by due time,
    and no job it leaves behind was ahead of one it took. Nothing else changes. *)
Theorem promotion_exact now limit locked p p' d d' l :
  PromoteDueScheduled NoFault now limit locked p p' d = (d', Ok l) →
  ∃ chosen rest, l = released <$> chosen
    ∧ (∀ j, j ∈ chosen ++ rest ↔ due StateScheduled now locked d j)
    ∧ StronglySorted due_before chosen
    ∧ (∀ a b, a ∈ chosen → b ∈ rest → due_before a b)
    ∧ (Z.of_nat (length chosen) <= limit) ∧ (Z.of_nat (length chosen) < limit → rest = [])
    ∧ promotes_rows (set_state StatePending) chosen d d'.
Proof.
  unfold PromoteDueScheduled. intros Hst%exec_Ok.
  destruct (promote_spec _ _ _ _ _ _ _ _ _ _ Hst) as (chosen&rest&?&?&?&?&?&?&?&_). by exists chosen, rest.
Qed.

(** The row promoted by an earlier poll is in no later poll's due set. *)
Lemma promoted_not_due s upd now chosen locked d d' j :
  keyed (jobs d) → (∀ j, State_ (upd j) ≠ s) → (∀ j, ID (upd j) = ID j) →
  promotes_rows upd chosen d d' → due s now locked d' j → ID j ∉ (ID <$> chosen).
Proof.
  intros Hk Hs Hid (Hrows&_&_) (Hj&Hst&_) Hin. apply elem_of_rows in Hj as [id Hj].
  rewrite Hrows in Hj. destruct (jobs d !! id) as [k|] eqn:Hkd; [|by case_bool_decide].
  pose proof (Hk id k Hkd) as Hkid. case_bool_decide as Hb; cbn in Hj; injection Hj as <-.
  - by apply (Hs k).
  - by rewrite Hkid in Hin.
Qed.

Lemma released_ids (l : list Job) : rel_ID <$> (released <$> l) = ID <$> l.
Proof. symmetry. apply (list_fmap_compose released rel_ID). Qed.

Lemma promote_disjoint s upd upd2 now1 limit1 locked1 p1 p1' now2 limit2 locked2 p2 p2' d d1 l1 :
  keyed (jobs d) → (∀ j, State_ (upd j) ≠ s) → (∀ j, ID (upd j) = ID j) →
  promote s upd now1 limit1 locked1 p1 p1' d = Ok (d1, l1) →
  (∀ d2 l2, promote s upd2 now2 limit2 (locked2 ∪ list_to_set (rel_ID <$> l1)) p2 p2' d = Ok (d2, l2) →
     rel_ID <$> l1 ## (rel_ID <$> l2))
  ∧ (∀ d2 l2, promote s upd2 now2 limit2 locked2 p2 p2' d1 = Ok (d2, l2) → rel_ID <$> l1 ## (rel_ID <$> l2)).
Proof.
  intros Hk Hs Hid H1. destruct (promote_spec _ _ _ _ _ _ _ _ _ _ H1) as (c1&r1&->&_&_&_&_&_&Hp1&_).
  rewrite released_ids. split; intros d2 l2 H2;
    destruct (promote_spec _ _ _ _ _ _ _ _ _ _ H2) as (c2&r2&->&Hin2&_);
    rewrite released_ids;
    intros id Hi1 Hi2; apply list_elem_of_fmap in Hi2 as (j&->&Hj);
    assert (j ∈ c2 ++ r2) as Hd%Hin2 by (apply elem_of_app; by left).
  - destruct Hd as (_&_&_&Hl). apply Hl, elem_of_union_r, elem_of_list_to_set. done.
  - by eapply promoted_not_due in Hd.
Qed.

(** Two schedulers that briefly both lead never release the same job. If one
    poll returned jobs, then a second poll of the same kind shares none with it,
    whether it ran while the first held its rows locked or after the first
    committed. *)
Theorem promotion_split_brain call now1 limit1 locked1 p1 p1' now2 limit2 locked2 p2 p2' d d1 l1 :
  call = PromoteDueScheduled ∨ call = PromoteReadyFailed →
  keyed (jobs d) →
  call NoFault now1 limit1 locked1 p1 p1' d = (d1, Ok l1) →
  (∀ d2 l2, call NoFault now2 limit2 (locked2 ∪ list_to_set (rel_ID <$> l1)) p2 p2' d = (d2, Ok l2) →
     rel_ID <$> l1 ## (rel_ID <$> l2))
  ∧ (∀ d2 l2, call NoFault now2 limit2 locked2 p2 p2' d1 = (d2, Ok l2) →
       rel_ID <$> l1 ## (rel_ID <$> l2)).
Proof.
  assert (∀ s (upd : Z → Job → Job), (∀ t j, State_ (upd t j) ≠ s) → (∀ t j, ID (upd t j) = ID j) →
    keyed (jobs d) →
    exec NoFault (promote s (upd now1) now1 limit1 locked1 p1 p1') d = (d1, Ok l1) →
    (∀ d2 l2, exec NoFault (promote s (upd now2) now2 limit2 (locked2 ∪ list_to_set (rel_ID <$> l1)) p2 p2') d
                = (d2, Ok l2) → rel_ID <$> l1 ## (rel_ID <$> l2))
    ∧ (∀ d2 l2, exec NoFault (promote s (upd now2) now2 limit2 locked2 p2 p2') d1 = (d2, Ok l2) →
         rel_ID <$> l1 ## (rel_ID <$> l2))) as Hgen.
  { intros s upd Hs Hid Hk Hst%exec_Ok.
    destruct (promote_disjoint s (upd now1) (upd now2) _ _ _ _ _ now2 limit2 locked2 p2 p2' _ _ _ Hk
                (Hs now1) (Hid now1) Hst) as [Ho Ha].
    split; intros d2 l2 H2%exec_Ok; eauto. }
  intros [->| ->].
  - apply (Hgen StateScheduled (λ _, set_state StatePending)); done.
  - apply (Hgen StateFailed (λ now j, set_run_at now (set_state StatePending j))); done.
Qed.
End promotion.

(** ** Inserting dead letters *)
Lemma insert_dead_letters_keep now l dl id :
  is_Some (dl !! id) → fst (insert_dead_letters now l dl) !! id = dl !! id.
Proof.
  revert dl. induction l as [|k l IH]; intros dl Hid; cbn; [done|].
  destruct (dl !! ID k) eqn:He; [by apply IH|].
  assert (ID k ≠ id) as Hne by (intros <-; rewrite He in Hid; by destruct Hid).
  specialize (IH (<[ID k := dead_letter_row now k]> dl)).
  rewrite lookup_insert_ne in IH by done. destruct (insert_dead_letters now l _). by apply IH.
Qed.

Lemma insert_dead_letters_all now l dl j : j ∈ l → is_Some (fst (insert_dead_letters now l dl) !! ID j).
Proof.
  revert dl. induction l as [|k l IH]; intros dl Hj; [by apply not_elem_of_nil in Hj|]. cbn.
  apply elem_of_cons in Hj as [->|Hj].
  - destruct (dl !! ID k) eqn:He; [rewrite insert_dead_letters_keep; by eexists|].
    pose proof (insert_dead_letters_keep now l (<[ID k := dead_letter_row now k]> dl) (ID k)) as Hkeep.
    rewrite lookup_insert_eq in Hkeep. destruct (insert_dead_letters now l _). cbn in *. rewrite Hkeep; by eexists.
  - destruct (dl !! ID k); [by apply IH|].
    specialize (IH (<[ID k := dead_letter_row now k]> dl) Hj). by destruct (insert_dead_letters now l _).
Qed.

(** ** The tenant boundary *)
Section tenants.
Context `{!PgText}.
Implicit Types d : db.

(** Tenant isolation. To a caller authenticated as one tenant, another tenant's
    job is indistinguishable from one that does not exist: reading, cancelling and
    replaying it report not found and change nothing, a listing never contains it, and
    no idempotency key leads to it. *)
Theorem tenant_isolation now id tenantID f' env d j :
  jobs d !! id = Some j → TenantID j ≠ tenantID →
  GetJobForTenant NoFault id tenantID d = Err ErrNotFound
  ∧ CancelJob NoFault now id tenantID d = (d, Err ErrNotFound)
  ∧ ReplayJob NoFault f' now id tenantID env d = (d, Err ErrNotFound)
  ∧ (∀ lf p l, lf_TenantID lf = Some tenantID → ListJobs NoFault lf p d = Ok l →
       Forall (λ k, TenantID k = tenantID) l)
  ∧ (∀ key k, GetJobByIdempotencyKey NoFault tenantID key d = Ok k → TenantID k = tenantID).
Proof.
  intros Hj Hne. split; [|split; [|split; [|split]]].
  - cbn. by rewrite Hj, bool_decide_false.
  - unfold CancelJob, exec, cancel_stmt. by rewrite Hj, bool_decide_false.
  - unfold ReplayJob, exec, replay_tx. by rewrite Hj, bool_decide_false.
  - intros lf p l Ht. unfold ListJobs, query. destruct (lf_Offset lf <? 0); [done|].
    destruct (LIMIT _ _) as [page|] eqn:Hp; [|done]. cbn. intros [= <-]. apply LIMIT_Some in Hp as [_ ->].
    apply Forall_forall. intros k Hk. apply list_elem_of_fmap in Hk as (k0&->&Hk).
    apply elem_of_take_in in Hk. apply (elem_of_drop_in _ _ _) in Hk.
    rewrite merge_sort_Permutation, elem_of_visit, list_elem_of_filter in Hk. destruct Hk as [Hm _].
    unfold list_matches in Hm. rewrite Ht in Hm. bool_to_prop. done.
  - intros key k. cbn. unfold find_row. destruct (filter _ _) as [|k0 l] eqn:Hf; [done|]. intros [= <-].
    assert (k0 ∈ k0 :: l) as Hin by left. rewrite <- Hf, list_elem_of_filter in Hin.
    destruct Hin as [Hp _]. cbn. bool_to_prop. done.
Qed.
End tenants.

(** ** Retention *)
Section retention.
Context `{!PgText}.
Implicit Types d : db.

(** Retention deletes only what has finished. A pruning pass removes at most
    [limit] jobs, each of them succeeded or cancelled before the cutoff, together with
    exactly their runs; every other job, run and dead-letter entry is untouched; and
    when it removes fewer than [limit], no such job is left. *)
Theorem PruneFinishedJobs_exact cutoff limit p d d' n :
  keyed (jobs d) → PruneFinishedJobs NoFault cutoff limit p d = (d', Ok n) →
  n <= limit
  ∧ (∀ id, jobs d' !! id = jobs d !! id
       ∨ ∃ j, jobs d !! id = Some j ∧ finished_before cutoff j ∧ jobs d' !! id = None)
  ∧ (∀ r, r ∈ job_runs d' ↔ r ∈ job_runs d ∧ (jobs d !! rr_job_id r = jobs d' !! rr_job_id r))
  ∧ dead_letter d' = dead_letter d
  ∧ (n < limit → ∀ id j, jobs d' !! id = Some j → ¬ finished_before cutoff j).
Proof.
  intros Hk Hst. unfold PruneFinishedJobs in Hst. apply exec_Ok in Hst. unfold prune_finished_stmt in Hst.
  set (old := p (filter (finished_before cutoff) (rows (jobs d)))) in Hst.
  assert (∀ j, j ∈ old ↔ finished_before cutoff j ∧ j ∈ rows (jobs d)) as Hold
    by (intros j; unfold old; by rewrite elem_of_visit, list_elem_of_filter).
  destruct (LIMIT limit old) as [l|] eqn:Hl; [|done]. injection Hst as <- <-.
  apply LIMIT_Some in Hl as [Hlim ->]. set (l := take (Z.to_nat limit) old).
  assert (∀ id, id ∈ (ID <$> l) → ∃ j, jobs d !! id = Some j ∧ finished_before cutoff j) as Hids.
  { intros id Hid. apply (elem_of_ids (jobs d)) in Hid as (j&Hj&Hd); [|done|].
    - exists j. split; [done|]. by apply Hold, (elem_of_take_in (Z.to_nat limit)).
    - intros j Hj. by apply Hold, (elem_of_take_in (Z.to_nat limit)). }
  split; [|split; [|split; [|split]]]; cbn.
  - unfold l. rewrite length_take. lia.
  - intros id. rewrite lookup_delete_ids. case_bool_decide as Hid; [right|by left].
    destruct (Hids id Hid) as (j&?&?). eauto.
  - intros r. rewrite list_elem_of_filter, lookup_delete_ids. case_bool_decide as Hid; [|tauto].
    destruct (Hids _ Hid) as (j&->&_). split; [tauto|]. intros [_ [=]].
  - done.
  - intros Hn id j Hj Hf. rewrite lookup_delete_ids in Hj. case_bool_decide as Hid; [done|].
    apply Hid. rewrite <- (Hk id j Hj). apply list_elem_of_fmap_2. unfold l in *. rewrite length_take in Hn.
    rewrite take_ge by lia. apply Hold. split; [done|]. apply elem_of_rows. eauto.
Qed.

(** ** Dead letters and replays *)

(** A replay can be overtaken by the dead-letter pass. INSERT ... SELECT reads
    the jobs from the snapshot it starts with; if a replay commits between that read
    and the insert, the job ends up pending and in [dead_letter] at once, and when it
    dies again its new death is not recorded, because an entry exists. *)
Theorem MoveToDeadLetter_overtakes_replay now now' limit p d d1 l j :
  keyed (jobs d) → unmoved_dead limit p d = Some l → j ∈ l →
  exec NoFault (replay_tx now' (ID j) (TenantID j)) d = (d1, Ok tt) →
  let d2 := mkDb (jobs d1) (job_runs d1) (fst (insert_dead_letters now l (dead_letter d1))) in
  State_ <$> jobs d2 !! ID j = Some StatePending
  ∧ is_Some (dead_letter d2 !! ID j)
  ∧ (∀ limit' p' l' d3 k, dead_letter d3 = dead_letter d2 → ID k = ID j →
       unmoved_dead limit' p' d3 = Some l' → k ∉ l').
Proof.
  intros Hk Hl Hj Hre. apply exec_Ok in Hre.
  apply LIMIT_Some in Hl as [_ ->]. pose proof (elem_of_take_in _ _ _ Hj) as Hj0.
  rewrite elem_of_visit, list_elem_of_filter, elem_of_rows in Hj0. destruct Hj0 as [[Hs Hnone] [id Hid]].
  assert (id = ID j) as -> by (symmetry; by apply Hk).
  unfold replay_tx in Hre. rewrite Hid, !bool_decide_true in Hre by done. injection Hre as <-. cbn.
  split; [by rewrite lookup_insert_eq|].
  assert (is_Some (fst (insert_dead_letters now (take (Z.to_nat limit)
    (p (filter (λ j, State_ j = StateDead ∧ dead_letter d !! ID j = None) (rows (jobs d)))))
    (delete (ID j) (dead_letter d))) !! ID j)) as Hin by (by apply insert_dead_letters_all).
  split; [exact Hin|].
  intros limit' p' l' d3 k Hd3 Hkj [_ ->]%LIMIT_Some Hk'. apply elem_of_take_in in Hk'.
  rewrite elem_of_visit, list_elem_of_filter in Hk'. destruct Hk' as [[_ Hno] _].
  rewrite Hd3, Hkj in Hno. by rewrite Hno in Hin; destruct Hin.
Qed.
End retention.
