(* ===== verification/SchedulerFacts.v ===== *)
(** * What a scheduler pass achieves

    The passes of [Scheduler] on a quiet stretch, in which nothing else moves and
    nothing fails: the reconciler re-enqueues the stranded jobs up to its cap, a poll
    releases every due job, the dead-letter pass drains. *)

From S2P Require Import Prelude GoBase Job Redis Queue QueueInv Db Storage StorageFacts Tenants Schedules World Scheduler.

Open Scope Z_scope.
Local Open Scope prog_scope.

(** ** The order of pending jobs *)
Definition pending_lt (a b : Job) : Prop := cursor_lt (cursor_of a) (cursor_of b).

Lemma pending_lt_irrefl a : ¬ pending_lt a a.
Proof. unfold pending_lt, cursor_lt. cbn. lia. Qed.

Lemma cursor_lt_trans a b c : cursor_lt a b → cursor_lt b c → cursor_lt a c.
Proof. unfold cursor_lt. lia. Qed.

Lemma pending_lt_trans a b c : pending_lt a b → pending_lt b c → pending_lt a c.
Proof. apply cursor_lt_trans. Qed.

Lemma pending_before_cases a b : pending_before a b → ID a ≠ ID b → pending_lt a b.
Proof. unfold pending_before, pending_lt, cursor_lt. cbn. lia. Qed.

#[export] Instance pending_before_trans : Transitive pending_before.
Proof. intros a b c. unfold pending_before, cursor_lt. cbn. lia. Qed.
#[export] Instance pending_before_total : Total pending_before.
Proof. intros a b. unfold pending_before, cursor_lt. cbn. lia. Qed.

(** A sorted list of rows with distinct identifiers is strictly sorted. *)
Lemma pending_sorted_strict l :
  NoDup (ID <$> l) → StronglySorted pending_before l → StronglySorted pending_lt l.
Proof.
  intros Hnd Hs. induction Hs as [|a l Hs IH Ha]; [constructor|].
  rewrite fmap_cons, NoDup_cons in Hnd. destruct Hnd as [Hn Hnd]. constructor; [by apply IH|].
  rewrite Forall_forall in Ha |- *. intros b Hb. apply pending_before_cases; [by apply Ha|].
  intros He. apply Hn. rewrite He. by apply list_elem_of_fmap_2.
Qed.

(** The jobs the reconciler looks for, in its order. *)
Definition overdue (now : Z) (j : Job) : Prop :=
  State_ j = StatePending ∧ RunAt j <= pg_ts (now - pendingReconcileAge).

#[export] Instance overdue_dec now j : Decision (overdue now j).
Proof. unfold overdue. apply _. Defined.

Definition overdue_jobs (now : Z) (d : db) : list Job :=
  merge_sort pending_before (filter (overdue now) (rows (jobs d))).

(** Columns as [InsertJob] and the request validation leave them. *)
Definition rows_stored (d : db) : Prop :=
  keyed (jobs d) ∧ ∀ id j, jobs d !! id = Some j → 1 <= Priority j ∧ pg_ts (CreatedAt j) = CreatedAt j.

Lemma overdue_jobs_in now d j : j ∈ overdue_jobs now d ↔ overdue now j ∧ j ∈ rows (jobs d).
Proof. unfold overdue_jobs. by rewrite merge_sort_Permutation, list_elem_of_filter. Qed.

Lemma overdue_jobs_strict now d : keyed (jobs d) → StronglySorted pending_lt (overdue_jobs now d).
Proof.
  intros Hk. apply pending_sorted_strict; [|apply (StronglySorted_merge_sort pending_before)].
  unfold overdue_jobs. rewrite merge_sort_Permutation. apply NoDup_fmap_filter. by apply rows_NoDup_ids.
Qed.

(** Where a pass is after the jobs [done]. *)
Definition cursor_at (done : list Job) : PendingCursor :=
  match last done with Some j => cursor_of j | None => zero_cursor end.

Lemma sorted_app_lt done todo a b :
  StronglySorted pending_lt (done ++ todo) → a ∈ done → b ∈ todo → pending_lt a b.
Proof.
  intros Hs Ha Hb. induction done as [|x done IH]; [by apply not_elem_of_nil in Ha|].
  cbn in Hs. apply StronglySorted_inv in Hs as [Hs Hx]. apply elem_of_cons in Ha as [->|Ha]; [|by apply IH].
  rewrite Forall_forall in Hx. apply Hx, elem_of_app. by right.
Qed.

Lemma sorted_last_max l a k : StronglySorted pending_lt l → last l = Some k → a ∈ l → a = k ∨ pending_lt a k.
Proof.
  intros Hs Hk Ha. apply last_Some in Hk as [l' ->].
  apply elem_of_app in Ha as [Ha|Ha%list_elem_of_singleton]; [|by left].
  right. apply (sorted_app_lt l' [k]); [done..|by left].
Qed.

(** Which jobs come after the cursor. *)
Lemma after_cursor now d done todo j :
  rows_stored d → overdue_jobs now d = done ++ todo →
  (pending_after now pendingReconcileAge (cursor_at done) j ∧ j ∈ rows (jobs d)) ↔ j ∈ todo.
Proof.
  intros [Hk Hst] Hl. pose proof (overdue_jobs_strict now d Hk) as Hs. rewrite Hl in Hs.
  assert (∀ k, k ∈ done ++ todo ↔ overdue now k ∧ k ∈ rows (jobs d)) as Hin
    by (intros k; rewrite <- Hl; apply overdue_jobs_in).
  assert (∀ k, k ∈ rows (jobs d) → 1 <= Priority k ∧ pg_ts (CreatedAt k) = CreatedAt k) as Hst'
    by (intros k [id Hid]%elem_of_rows; eauto).
  assert (∀ k, last done = Some k →
    mkCursor (pc_Priority (cursor_of k)) (pg_ts (pc_CreatedAt (cursor_of k))) (pc_ID (cursor_of k)) = cursor_of k) as Hcur.
  { intros k Hlast. apply last_Some in Hlast as [l' ->].
    destruct (proj1 (Hin k)) as [_ Hr]; [apply elem_of_app; left; apply elem_of_app; right; by left|].
    cbn. by rewrite (proj2 (Hst' k Hr)). }
  unfold pending_after, cursor_at. split.
  - intros ((Hp&Hr&Hc)&Hrow). assert (j ∈ done ++ todo) as Hj by (by apply Hin).
    apply elem_of_app in Hj as [Hj|Hj]; [exfalso|done].
    destruct (last done) as [k|] eqn:Hlast; [|apply last_None in Hlast; subst; by apply not_elem_of_nil in Hj].
    rewrite (Hcur k eq_refl) in Hc. apply StronglySorted_app_1_l in Hs.
    destruct (sorted_last_max done j k Hs Hlast Hj) as [->|Hlt]; [by apply (pending_lt_irrefl k)|].
    apply (pending_lt_irrefl k). by eapply pending_lt_trans.
  - intros Hj. destruct (proj1 (Hin j)) as [[Hp Hr] Hrow]; [apply elem_of_app; by right|].
    split; [|done]. split; [done|]. split; [done|].
    destruct (last done) as [k|] eqn:Hlast.
    + rewrite (Hcur k eq_refl). apply (sorted_app_lt done todo); [done| |done].
      apply last_Some in Hlast as [l' ->]. apply elem_of_app. right. by left.
    + left. cbn. destruct (Hst' j Hrow). lia.
Qed.

(** The page after [done] is the next part of the list. *)
Lemma page_after now d (p : plan Job) done todo :
  rows_stored d → overdue_jobs now d = done ++ todo →
  merge_sort pending_before (p (filter (pending_after now pendingReconcileAge (cursor_at done)) (rows (jobs d))))
  = todo.
Proof.
  intros Hst Hl. pose proof (proj1 Hst) as Hk. pose proof (overdue_jobs_strict now d Hk) as Hs. rewrite Hl in Hs.
  pose proof (rows_NoDup_ids (jobs d) Hk) as Hnd.
  apply (strict_sorted_perm pending_lt);
    [apply pending_lt_irrefl|apply pending_lt_trans| |by apply StronglySorted_app_1_r in Hs|].
  { apply pending_sorted_strict; [|apply (StronglySorted_merge_sort pending_before)].
    rewrite merge_sort_Permutation, (visit_perm p _). by apply NoDup_fmap_filter. }
  rewrite merge_sort_Permutation, (visit_perm p _). apply NoDup_Permutation.
  - apply NoDup_filter. by eapply NoDup_fmap_1.
  - assert (NoDup (done ++ todo)) as [_ [_ ?]]%NoDup_app; [|done].
    rewrite <- Hl. unfold overdue_jobs. rewrite merge_sort_Permutation. apply NoDup_filter. by eapply NoDup_fmap_1.
  - intros j. rewrite list_elem_of_filter. by apply after_cursor.
Qed.


Section passes.
Context `{!UuidText} `{!PgText} `{!InputLib}.

(** ** Enqueueing a list of jobs *)

(** The lanes gained exactly the jobs [ids]. *)
Definition gained (r r' : redis) (ids : list uuid) : Prop :=
  ∀ x, uuid_valid x → queued r' x ↔ queued r x ∨ x ∈ ids.

Lemma gained_nil r : gained r r [].
Proof. intros x _. rewrite elem_of_nil. tauto. Qed.

Lemma gained_app r1 r2 r3 l1 l2 : gained r1 r2 l1 → gained r2 r3 l2 → gained r1 r3 (l1 ++ l2).
Proof. intros Hg1 Hg2 x Hx. rewrite (Hg2 x Hx), (Hg1 x Hx), elem_of_app. tauto. Qed.

Lemma enqueue_gained now r tenantID jobID p :
  queue_inv now r → uuid_valid jobID → gained r (fst (Enqueue NoFault now tenantID jobID p r)) [jobID].
Proof.
  intros Hi Hv x Hx. rewrite list_elem_of_singleton. split.
  - unfold Enqueue. set (lane := queue_key (bucketForPriority p) tenantID).
    assert (lane_key lane) as Hlane by (unfold lane; auto with sluice).
    destruct (enqueue_to_cases NoFault now lane jobID r (qi_keyspace _ _ Hi) Hlane) as [->|[_ [Hl _ Hf _]]]; [by left|].
    intros (k&Hk&Hin). destruct (decide (k = lane)) as [->|].
    + rewrite Hl in Hin. apply elem_of_cons in Hin as [He|Hin]; [right|left; by exists lane].
      by apply uuid_String_inj in He.
    + left. exists k. split; [done|]. unfold qlist in Hin. rewrite Hf in Hin; [done|done| |apply Hk].
      intros ->. by apply (queue_not_enqueued (marker_key jobID)); [apply marker_key_enqueued|apply Hk].
  - intros [Hq| ->]; [by apply enqueue_keeps|by apply enqueue_queued].
Qed.

Lemma enqueue_each_quiet o now l : ∀ n w,
  quiet o now → queue_inv now (w_redis w) → Forall (λ j, uuid_valid (ID j)) l →
  ∃ n' r', enqueue_each l o (n, w) = ((n', set_redis w r'), tt)
    ∧ queue_inv now r' ∧ gained (w_redis w) r' (ID <$> l).
Proof.
  induction l as [|j l IH]; intros n w Hq Hi Hv; cbn [enqueue_each].
  { exists n, (w_redis w). destruct w. split; [done|]. split; [done|apply gained_nil]. }
  apply Forall_cons in Hv as [Hj Hv]. erewrite pbind_run by (by apply (on_quiet o now)). cbn beta.
  rewrite (q_fault o now Hq), (q_server o now Hq). set (r1 := fst _).
  assert (queue_inv now r1) as Hi1 by (apply queue_inv_enqueue; auto with sluice).
  destruct (IH (S n) (set_redis w r1) Hq Hi1 Hv) as (n'&r'&->&Hi'&Hg).
  exists n', r'. split; [done|]. split; [done|].
  apply (gained_app _ r1 _ [ID j]); [by apply enqueue_gained|done].
Qed.

(** ** The reconciler *)
Definition ids_valid (d : db) : Prop := ∀ id j, jobs d !! id = Some j → uuid_valid (ID j).

Lemma GetPendingJobs_page now d p done todo :
  rows_stored d → overdue_jobs now d = done ++ todo →
  GetPendingJobs NoFault now pendingReconcileAge (cursor_at done) pendingReconcileBatchSize p d
  = (match last (take 500 todo) with Some j => cursor_of j | None => cursor_at done end,
     Ok (scanJob <$> take 500 todo)).
Proof.
  intros Hst Hl. unfold GetPendingJobs, query. rewrite (page_after now d p done todo Hst Hl). done.
Qed.

Lemma cursor_at_next done page j : last page = Some j → cursor_at (done ++ page) = cursor_of j.
Proof. intros Hj. unfold cursor_at. by rewrite last_app, Hj. Qed.

Lemma scan_ids (l : list Job) : ID <$> (scanJob <$> l) = ID <$> l.
Proof. symmetry. apply (list_fmap_compose scanJob ID). Qed.

Lemma reconcile_loop_quiet o now fuel : ∀ n w done todo,
  quiet o now → queue_inv now (w_redis w) → rows_stored (w_db w) → ids_valid (w_db w) →
  overdue_jobs now (w_db w) = done ++ todo →
  (∃ k, (length done = 500 * k)%nat) → (length done <= 5000)%nat → (5000 - length done < 500 * fuel)%nat →
  ∃ n' r', reconcile_loop fuel (cursor_at done) (Z.of_nat (length done)) o (n, w) = ((n', set_redis w r'), PassDone)
    ∧ queue_inv now r' ∧ gained (w_redis w) r' (ID <$> take (5000 - length done) todo).
Proof.
  induction fuel as [|fuel IH]; intros n w done todo Hq Hi Hst Hv Hl [k Hk] Hle Hfuel; [lia|].
  cbn [reconcile_loop]. unfold pbind at 1, local. rewrite (q_done o now Hq). cbn [negb]. rewrite andb_true_r.
  destruct (Z.ltb_spec (Z.of_nat (length done)) pendingReconcileMaxPerPass) as [Hlt|Hge];
    unfold pendingReconcileMaxPerPass in *; cycle 1.
  { exists n, (w_redis w). destruct w. replace (5000 - length done)%nat with O by lia.
    split; [done|]. split; [done|apply gained_nil]. }
  erewrite pbind_run by (by apply (ask_quiet o now)). cbn beta.
  rewrite (q_fault o now Hq), (q_now o now Hq), (GetPendingJobs_page now _ _ done todo Hst Hl).
  set (page := take 500 todo).
  assert (Forall (λ j, uuid_valid (ID j)) (scanJob <$> page)) as Hvp.
  { apply Forall_fmap, Forall_forall. intros j Hj%elem_of_take_in.
    assert (j ∈ overdue_jobs now (w_db w)) as Hj' by (rewrite Hl; apply elem_of_app; by right).
    apply overdue_jobs_in in Hj' as [_ [id Hid]%elem_of_rows]. exact (Hv id j Hid). }
  destruct (enqueue_each_quiet o now _ (S n) w Hq Hi Hvp) as (n1&r1&Hrun&Hi1&Hg1).
  erewrite pbind_run by exact Hrun. rewrite scan_ids in Hg1. rewrite length_fmap.
  assert (length page = Nat.min 500 (length todo)) as Hlen by apply length_take.
  destruct (Z.ltb_spec (Z.of_nat (length page)) pendingReconcileBatchSize) as [Hshort|Hfull];
    unfold pendingReconcileBatchSize in *.
  { exists n1, r1. split; [done|]. split; [done|].
    replace (take (5000 - length done) todo) with page; [done|]. unfold page.
    rewrite (take_ge todo 500) by lia. by rewrite take_ge by lia. }
  destruct (last page) as [j|] eqn:Hlast; [|apply last_None in Hlast; rewrite Hlast in Hfull; cbn in Hfull; lia].
  assert (length (done ++ page) = length done + 500)%nat as Hlen' by (rewrite length_app; lia).
  destruct (IH n1 (set_redis w r1) (done ++ page) (drop 500 todo)) as (n'&r'&Hrun'&Hi'&Hg');
    [done|done|done|done| |exists (S k); lia|lia|lia|].
  { cbn. rewrite Hl, <- app_assoc. unfold page. by rewrite take_drop. }
  exists n', r'. rewrite (cursor_at_next done page j Hlast), Hlen' in Hrun'.
  replace (Z.of_nat (length done) + Z.of_nat (length page)) with (Z.of_nat (length done + 500)) by lia.
  split; [exact Hrun'|]. split; [done|].
  replace (take (5000 - length done) todo) with (page ++ take (5000 - length (done ++ page)) (drop 500 todo)).
  - rewrite fmap_app. by eapply gained_app.
  - unfold page at 1. rewrite take_take_drop. f_equal. lia.
Qed.

(** C22: The reconciler repairs Redis, up to its cap. A pass over a quiet store ends
    by itself, leaves Postgres alone, and puts into the lanes exactly those jobs that
    are among the first 5000 pending jobs due for more than 30 seconds, in the order of
    priority, creation time and identifier, each page starting where the last one
    ended; so when there are no more than 5000 of them, every stranded job is queued
    again, and when there are more, the ones behind are not reached, by this pass or by
    the next, which starts over. *)
Theorem reconcilePending_exact o now n w :
  quiet o now → queue_inv now (w_redis w) → rows_stored (w_db w) → ids_valid (w_db w) →
  let repaired := take 5000 (overdue_jobs now (w_db w)) in
  ∃ n' r', reconcilePending o (n, w) = ((n', set_redis w r'), PassDone)
    ∧ gained (w_redis w) r' (ID <$> repaired)
    ∧ ((length (overdue_jobs now (w_db w)) <= 5000)%nat →
       ∀ id j, jobs (w_db w) !! id = Some j → overdue now j → queued r' id).
Proof.
  intros Hq Hi Hst Hv repaired.
  destruct (reconcile_loop_quiet o now 11 n w [] (overdue_jobs now (w_db w))) as (n'&r'&Hrun&_&Hg);
    [done|done|done|done|done|by exists O|cbn; lia|cbn; lia|].
  exists n', r'. split; [exact Hrun|]. split; [exact Hg|].
  intros Hlen id j Hj Ho. pose proof (proj1 Hst id j Hj) as Hid.
  apply Hg; [rewrite <- Hid; by apply (Hv id)|]. right. rewrite <- Hid. apply list_elem_of_fmap_2.
  rewrite take_ge by (cbn; lia). apply overdue_jobs_in. split; [done|]. apply elem_of_rows. eauto.
Qed.

(** ** Releasing due jobs *)
Lemma pipeline_quiet now entries : ∀ r,
  queue_inv now r → Forall (λ e, uuid_valid (e_JobID e)) entries →
  ∃ r', pipeline_enqueue now entries r = (r', true)
    ∧ queue_inv now r' ∧ gained r r' (e_JobID <$> entries).
Proof.
  induction entries as [|e es IH]; intros r Hi Hv; cbn [pipeline_enqueue].
  { exists r. split; [done|]. split; [done|apply gained_nil]. }
  apply Forall_cons in Hv as [He Hv].
  destruct (enqueue_queued now r (e_TenantID e) (e_JobID e) (e_Priority e) Hi) as [Hres _].
  pose proof (enqueue_gained now r (e_TenantID e) (e_JobID e) (e_Priority e) Hi He) as Hg1.
  assert (queue_inv now (fst (Enqueue NoFault now (e_TenantID e) (e_JobID e) (e_Priority e) r))) as Hi1
    by (apply queue_inv_enqueue; auto with sluice).
  destruct (Enqueue NoFault now _ _ _ r) as [r1 res]. cbn in Hres, Hg1, Hi1. subst res.
  destruct (IH r1 Hi1 Hv) as (r'&->&Hi'&Hg'). exists r'. split; [done|]. split; [done|].
  by apply (gained_app _ r1 _ [e_JobID e]).
Qed.

Lemma EnqueueMany_quiet now entries r :
  queue_inv now r → Forall (λ e, uuid_valid (e_JobID e)) entries →
  ∃ r', EnqueueMany None now entries r = (r', Ok tt)
    ∧ queue_inv now r' ∧ gained r r' (e_JobID <$> entries).
Proof.
  intros Hi Hv. destruct entries as [|e es]; [exists r; split; [done|]; split; [done|apply gained_nil]|].
  destruct (pipeline_quiet now (e :: es) r Hi Hv) as (r'&Hp&?&?). exists r'. unfold EnqueueMany. by rewrite Hp.
Qed.

(** Jobs in state [s] whose time has come. *)
Definition dues (s : State) (now : Z) (d : db) : list Job :=
  filter (λ j, State_ j = s ∧ RunAt j <= now) (rows (jobs d)).

Lemma promotes_keyed upd chosen d d' :
  (∀ j, ID (upd j) = ID j) → promotes_rows upd chosen d d' → keyed (jobs d) → keyed (jobs d').
Proof.
  intros Hid [Hrows _] Hk id j. rewrite Hrows. destruct (jobs d !! id) as [k|] eqn:Hj; [|by case_bool_decide].
  case_bool_decide; cbn; intros [= <-]; rewrite ?Hid; by apply Hk.
Qed.

(** A promotion takes the chosen jobs out of the due ones and leaves the others. *)
Lemma promotes_dues s upd now chosen d d' :
  (∀ j, State_ (upd j) ≠ s) → (∀ j, ID (upd j) = ID j) → keyed (jobs d) →
  promotes_rows upd chosen d d' → (∀ j, j ∈ chosen → j ∈ dues s now d) → NoDup (ID <$> chosen) →
  dues s now d ≡ₚ chosen ++ dues s now d'.
Proof.
  intros Hs Hid Hk Hp Hch Hnd. pose proof (promotes_keyed _ _ _ _ Hid Hp Hk) as Hk'.
  assert (∀ j, j ∈ dues s now d' → (ID j ∉ (ID <$> chosen)) ∧ j ∈ dues s now d) as Hleft.
  { intros j [[Hst Hrun] Hj]%list_elem_of_filter.
    assert (ID j ∉ (ID <$> chosen)) as Hn.
    { apply (promoted_not_due s upd now chosen ∅ d d' j); done. }
    split; [done|]. apply list_elem_of_filter. split; [done|]. apply elem_of_rows in Hj as [id Hj].
    pose proof (Hk' id j Hj) as <-. rewrite (proj1 Hp), bool_decide_false in Hj by done. apply elem_of_rows. eauto. }
  apply NoDup_Permutation.
  - apply NoDup_filter. eapply NoDup_fmap_1. by apply rows_NoDup_ids.
  - apply NoDup_app. split; [by eapply NoDup_fmap_1|]. split.
    + intros j Hj [Hn _]%Hleft. by apply Hn, list_elem_of_fmap_2.
    + apply NoDup_filter. eapply NoDup_fmap_1. by apply rows_NoDup_ids.
  - intros j. rewrite elem_of_app. split; [|intros [?|[_ ?]%Hleft]; auto].
    intros Hj. pose proof Hj as [[Hst Hrun] Hrow]%list_elem_of_filter.
    destruct (decide (ID j ∈ (ID <$> chosen))) as [Hin|Hnin].
    + left. apply list_elem_of_fmap in Hin as (k&He&Hin).
      pose proof (Hch k Hin) as [_ Hrow']%list_elem_of_filter. by rewrite (rows_eq (jobs d) j k).
    + right. apply list_elem_of_filter. split; [done|]. apply elem_of_rows in Hrow as [id Hid'].
      pose proof (Hk id j Hid') as <-. apply elem_of_rows. exists (ID j).
      by rewrite (proj1 Hp), bool_decide_false.
Qed.

Lemma promotes_trans upd c1 c2 d d1 d2 :
  (∀ id, id ∈ (ID <$> c1) → id ∉ (ID <$> c2)) →
  promotes_rows upd c1 d d1 → promotes_rows upd c2 d1 d2 → promotes_rows upd (c1 ++ c2) d d2.
Proof.
  intros Hdis (Hr1&Hj1&Hd1) (Hr2&Hj2&Hd2). split; [|split; congruence]. intros id. rewrite Hr2, Hr1, fmap_app.
  rewrite (bool_decide_ext (id ∈ (ID <$> c1) ++ (ID <$> c2)) (id ∈ (ID <$> c1) ∨ id ∈ (ID <$> c2)))
    by apply elem_of_app.
  destruct (decide (id ∈ (ID <$> c1))) as [Hin1|Hn1], (decide (id ∈ (ID <$> c2))) as [Hin2|Hn2].
  - by destruct (Hdis id Hin1).
  - rewrite (bool_decide_false (id ∈ (ID <$> c2))), (bool_decide_true (id ∈ (ID <$> c1))),
      bool_decide_true by auto. done.
  - rewrite (bool_decide_true (id ∈ (ID <$> c2))), (bool_decide_false (id ∈ (ID <$> c1))),
      bool_decide_true by auto. done.
  - rewrite (bool_decide_false (id ∈ (ID <$> c2))), (bool_decide_false (id ∈ (ID <$> c1))),
      bool_decide_false by tauto. done.
Qed.

Section release.
Variables (o : oracle) (now : Z) (s : State) (upd : Job → Job).
Hypothesis Hq : quiet o now.
Hypothesis Hs : ∀ j, State_ (upd j) ≠ s.
Hypothesis Hid : ∀ j, ID (upd j) = ID j.
Variable call : promote_call.
Hypothesis Hcall : ∀ limit p p' d,
  call NoFault now limit ∅ p p' d = exec NoFault (promote s upd now limit ∅ p p') d.

(** What [release] did: the jobs [done], all of them due, are pending and queued. *)
Record released_jobs (w : world) (d' : db) (r' : redis) (done : list Job) : Prop := {
  rj_rows : promotes_rows upd done (w_db w) d';
  rj_dues : dues s now (w_db w) ≡ₚ done ++ dues s now d';
  rj_queue : queue_inv now r';
  rj_gained : gained (w_redis w) r' (ID <$> done);
}.

(** One batch. *)
Lemma release_batch n w :
  keyed (jobs (w_db w)) → ids_valid (w_db w) → queue_inv now (w_redis w) →
  ∃ d1 r1 jobs1 chosen,
    call NoFault now releaseBatchSize ∅ (t_plan (o n)) (t_plan' (o n)) (w_db w) = (d1, Ok jobs1)
    ∧ EnqueueMany None now (entry_of <$> jobs1) (w_redis w) = (r1, Ok tt)
    ∧ released_jobs w d1 r1 chosen
    ∧ length jobs1 = length chosen
    ∧ (Z.of_nat (length jobs1) < releaseBatchSize → dues s now d1 = []).
Proof.
  intros Hk Hv Hi.
  destruct (promote s upd now releaseBatchSize ∅ (t_plan (o n)) (t_plan' (o n)) (w_db w)) as [[d1 jobs1]|e] eqn:Hp;
    [|by unfold promote, due_rows, LIMIT in Hp].
  destruct (promote_spec _ _ _ _ _ _ _ _ _ _ Hp) as (chosen&rest&->&Hin&_&_&_&Hrest&Hrows&Hnd).
  assert (∀ j, due s now ∅ (w_db w) j ↔ j ∈ dues s now (w_db w)) as Hdue
    by (intros j; unfold due, dues; rewrite list_elem_of_filter; set_solver).
  assert (∀ j, j ∈ chosen → j ∈ dues s now (w_db w)) as Hch
    by (intros j Hj; apply Hdue, Hin, elem_of_app; by left).
  pose proof (promotes_dues s upd now chosen (w_db w) d1 Hs Hid Hk Hrows Hch (Hnd Hk)) as Hdues.
  assert (e_JobID <$> (entry_of <$> (released <$> chosen)) = ID <$> chosen) as He
    by (rewrite <- !list_fmap_compose; done).
  destruct (EnqueueMany_quiet now (entry_of <$> (released <$> chosen)) (w_redis w) Hi) as (r1&Hen&Hi1&Hg).
  { apply Forall_fmap, Forall_fmap, Forall_forall. intros j [_ [id Hj]%elem_of_rows]%Hch%list_elem_of_filter.
    exact (Hv id j Hj). }
  exists d1, r1, (released <$> chosen), chosen. rewrite Hcall. unfold exec. rewrite Hp. split; [done|].
  split; [done|]. split; [split; try done; by rewrite <- He|]. split; [apply length_fmap|].
  rewrite length_fmap. intros Hlt. specialize (Hrest Hlt) as ->. apply elem_of_nil_inv. intros j Hj.
  assert (j ∈ dues s now (w_db w)) as Hj' by (rewrite Hdues; apply elem_of_app; by right).
  apply Hdue, Hin in Hj'. rewrite app_nil_r in Hj'.
  destruct (promoted_not_due s upd now chosen ∅ (w_db w) d1 j Hk Hs Hid Hrows); [|by apply list_elem_of_fmap_2].
  apply list_elem_of_filter in Hj as [[? ?] ?]. done.
Qed.

Lemma promotes_valid done d d' : promotes_rows upd done d d' → ids_valid d → ids_valid d'.
Proof.
  intros [Hr _] Hv id j. rewrite Hr. destruct (jobs d !! id) as [k|] eqn:Hk; [|by case_bool_decide].
  case_bool_decide; cbn; intros [= <-]; rewrite ?Hid; by eapply Hv.
Qed.

Lemma released_trans w d1 r1 d2 r2 c1 c2 :
  keyed (jobs (w_db w)) →
  released_jobs w d1 r1 c1 →
  released_jobs (set_redis (set_db w d1) r1) d2 r2 c2 → released_jobs w d2 r2 (c1 ++ c2).
Proof.
  intros Hk [Hr1 Hd1 _ Hg1] [Hr2 Hd2 Hi2 Hg2]. split; [|by rewrite Hd1, Hd2, app_assoc|done|].
  - apply (promotes_trans upd c1 c2 _ d1); [|done..]. intros id Hin1 Hin2.
    apply list_elem_of_fmap in Hin2 as (j&->&Hj).
    assert (j ∈ dues s now d1) as Hj' by (cbn in Hd2; rewrite Hd2; apply elem_of_app; by left).
    apply (promoted_not_due s upd now c1 ∅ (w_db w) d1 j); try done.
    apply list_elem_of_filter in Hj' as [[? ?] ?]. done.
  - rewrite fmap_app. by eapply gained_app.
Qed.

Lemma release_quiet batches : ∀ n w,
  keyed (jobs (w_db w)) → ids_valid (w_db w) → queue_inv now (w_redis w) → batches ≠ O →
  ∃ n' d' r' done,
    release call batches o (n, w) = ((n', set_redis (set_db w d') r'), tt)
    ∧ released_jobs w d' r' done
    ∧ (Z.of_nat (length (dues s now (w_db w))) <= releaseBatchSize * Z.of_nat batches → dues s now d' = []).
Proof.
  induction batches as [|batches IH]; intros n w Hk Hv Hi Hne; [done|]. cbn [release].
  destruct (release_batch n w Hk Hv Hi) as (d1&r1&jobs1&chosen&Hpr&Hen&Hrel&Hlen&Hshort).
  erewrite pbind_run by (by apply (on_quiet o now)). cbn beta.
  rewrite (q_fault o now Hq), (q_server o now Hq), (q_locked o now Hq), Hpr. cbn [fst snd].
  erewrite pbind_run by (by apply (on_quiet o now)). cbn beta.
  rewrite (q_cut o now Hq), (q_server o now Hq). cbn [w_redis set_db]. rewrite Hen. cbn [fst snd].
  destruct (Z.ltb_spec (Z.of_nat (length jobs1)) releaseBatchSize) as [Hlt|Hge].
  { exists (S (S n)), d1, r1, chosen. split; [done|]. split; [done|]. auto. }
  set (w1 := set_redis (set_db w d1) r1).
  assert (keyed (jobs (w_db w1))) as Hk1 by (eapply promotes_keyed; [done|apply Hrel|done]).
  assert (ids_valid (w_db w1)) as Hv1 by (eapply promotes_valid; [apply Hrel|done]).
  pose proof (Permutation_length (rj_dues _ _ _ _ Hrel)) as Hcount. rewrite length_app in Hcount.
  destruct batches as [|b].
  - exists (S (S n)), d1, r1, chosen. split; [done|]. split; [done|]. intros Hfit.
    apply nil_length_inv. unfold releaseBatchSize in *. lia.
  - destruct (IH (S (S n)) w1 Hk1 Hv1 (rj_queue _ _ _ _ Hrel) ltac:(done)) as (n'&d'&r'&done_&Hrun&Hrel'&Hall).
    exists n', d', r', (chosen ++ done_). split; [exact Hrun|]. split; [by eapply released_trans|].
    intros Hfit. apply Hall. change (w_db w1) with d1. unfold releaseBatchSize in *. lia.
Qed.
End release.

(** A poll releases every due job. On a quiet store, a poll for scheduled jobs
    moves jobs to pending only when they are scheduled and their time has come, every
    job it moves is in a Redis lane afterwards and nothing else is added to the lanes,
    and when no more than 20,000 are due none is left waiting. *)
Theorem pollScheduledJobs_drains o now n w :
  quiet o now → keyed (jobs (w_db w)) → ids_valid (w_db w) → queue_inv now (w_redis w) →
  ∃ n' d' r' done,
    pollScheduledJobs o (n, w) = ((n', set_redis (set_db w d') r'), tt)
    ∧ (∀ j, j ∈ done → j ∈ dues StateScheduled now (w_db w))
    ∧ promotes_rows (set_state StatePending) done (w_db w) d'
    ∧ gained (w_redis w) r' (ID <$> done)
    ∧ (Z.of_nat (length (dues StateScheduled now (w_db w))) <= 20000 → dues StateScheduled now d' = []).
Proof.
  intros Hq Hk Hv Hi.
  destruct (release_quiet o now StateScheduled (set_state StatePending) Hq ltac:(done) ltac:(done)
    PromoteDueScheduled ltac:(done) releaseMaxBatches n w Hk Hv Hi ltac:(done))
    as (n'&d'&r'&done_&Hrun&[Hrows Hdues _ Hg]&Hall).
  exists n', d', r', done_. split; [exact Hrun|]. split; [|done].
  intros j Hj. rewrite Hdues. apply elem_of_app. by left.
Qed.

(** The same of retries: a poll for failed jobs releases every job whose
    backoff has elapsed, up to 20,000, with [run_at] set to the time of release. *)
Theorem pollFailedJobs_drains o now n w :
  quiet o now → keyed (jobs (w_db w)) → ids_valid (w_db w) → queue_inv now (w_redis w) →
  ∃ n' d' r' done,
    pollFailedJobs o (n, w) = ((n', set_redis (set_db w d') r'), tt)
    ∧ (∀ j, j ∈ done → j ∈ dues StateFailed now (w_db w))
    ∧ promotes_rows (λ j, set_run_at now (set_state StatePending j)) done (w_db w) d'
    ∧ gained (w_redis w) r' (ID <$> done)
    ∧ (Z.of_nat (length (dues StateFailed now (w_db w))) <= 20000 → dues StateFailed now d' = []).
Proof.
  intros Hq Hk Hv Hi.
  destruct (release_quiet o now StateFailed (λ j, set_run_at now (set_state StatePending j)) Hq
    ltac:(done) ltac:(done) PromoteReadyFailed ltac:(done) releaseMaxBatches n w Hk Hv Hi ltac:(done))
    as (n'&d'&r'&done_&Hrun&[Hrows Hdues _ Hg]&Hall).
  exists n', d', r', done_. split; [exact Hrun|]. split; [|done].
  intros j Hj. rewrite Hdues. apply elem_of_app. by left.
Qed.

(** ** Draining dead jobs *)
Definition unmoved (d : db) : list Job :=
  filter (λ j, State_ j = StateDead ∧ dead_letter d !! ID j = None) (rows (jobs d)).

Lemma insert_dead_letters_count now l dl :
  NoDup (ID <$> l) → (∀ j, j ∈ l → dl !! ID j = None) →
  snd (insert_dead_letters now l dl) = Z.of_nat (length l)
  ∧ ∀ id, fst (insert_dead_letters now l dl) !! id = None ↔ dl !! id = None ∧ (id ∉ (ID <$> l)).
Proof.
  revert dl. induction l as [|j l IH]; intros dl Hnd Hno; cbn.
  { split; [done|]. intros id. rewrite elem_of_nil. tauto. }
  rewrite fmap_cons, NoDup_cons in Hnd. destruct Hnd as [Hj Hnd]. rewrite (Hno j) by (by left).
  destruct (IH (<[ID j := dead_letter_row now j]> dl) Hnd) as [Hn Hl].
  { intros k Hk. rewrite lookup_insert_ne; [apply Hno; by right|]. intros He. apply Hj. rewrite He.
    by apply list_elem_of_fmap_2. }
  destruct (insert_dead_letters now l _) as [dl' m]. cbn in *. split; [lia|]. intros id. rewrite Hl.
  destruct (decide (id = ID j)) as [->|]; [rewrite lookup_insert_eq|rewrite lookup_insert_ne by done];
    rewrite not_elem_of_cons; intuition congruence.
Qed.

Lemma move_spec now p d :
  keyed (jobs d) →
  ∃ d' moved, MoveToDeadLetter NoFault now deadLetterBatchSize p d = (d', Ok (Z.of_nat (length moved)))
    ∧ jobs d' = jobs d ∧ job_runs d' = job_runs d
    ∧ (∀ id e, dead_letter d !! id = Some e → dead_letter d' !! id = Some e)
    ∧ unmoved d ≡ₚ moved ++ unmoved d'
    ∧ (Z.of_nat (length moved) < deadLetterBatchSize → unmoved d' = []).
Proof.
  intros Hk. set (moved := take 500 (p (unmoved d))).
  assert (NoDup (ID <$> (p (unmoved d)))) as Hnd
    by (rewrite (visit_perm p _); by apply NoDup_fmap_filter, rows_NoDup_ids).
  assert (∀ j, j ∈ p (unmoved d) → State_ j = StateDead ∧ dead_letter d !! ID j = None ∧ j ∈ rows (jobs d)) as Hun
    by (intros j; rewrite elem_of_visit; unfold unmoved; rewrite list_elem_of_filter; tauto).
  assert (NoDup (ID <$> moved)) as Hndm.
  { rewrite <- (take_drop 500 (p (unmoved d))), fmap_app in Hnd. by apply NoDup_app in Hnd as [? _]. }
  destruct (insert_dead_letters_count now moved (dead_letter d) Hndm) as [Hcount Hnone].
  { intros j Hj%elem_of_take_in. by apply Hun. }
  pose proof (λ id H, insert_dead_letters_keep now moved (dead_letter d) id H) as Hkeep.
  exists (mkDb (jobs d) (job_runs d) (fst (insert_dead_letters now moved (dead_letter d)))), moved.
  assert (unmoved d ≡ₚ moved ++
    unmoved (mkDb (jobs d) (job_runs d) (fst (insert_dead_letters now moved (dead_letter d))))) as Hperm.
  { apply NoDup_Permutation.
    - apply NoDup_filter. eapply NoDup_fmap_1. by apply rows_NoDup_ids.
    - apply NoDup_app. split; [by eapply NoDup_fmap_1|].
      split; [|apply NoDup_filter; eapply NoDup_fmap_1; by apply rows_NoDup_ids].
      intros j Hj [[_ Hno] _]%list_elem_of_filter. apply Hnone in Hno as [_ Hno]. by apply Hno, list_elem_of_fmap_2.
    - intros j. rewrite elem_of_app. unfold unmoved at 2. rewrite list_elem_of_filter. cbn. rewrite Hnone. split.
      + intros Hj. destruct (decide (ID j ∈ (ID <$> moved))) as [Hin|Hnin].
        * left. apply list_elem_of_fmap in Hin as (k&He&Hin). apply list_elem_of_filter in Hj as [_ Hj].
          rewrite (rows_eq (jobs d) j k); [done|done|done| |done]. by apply Hun, (elem_of_take_in 500).
        * right. apply list_elem_of_filter in Hj as [[? ?] ?]. done.
      + intros [Hj%elem_of_take_in|[[? [? _]] ?]]; [by rewrite elem_of_visit in Hj|by apply list_elem_of_filter]. }
  split; [|split; [done|split; [done|split; [|split; [done|]]]]].
  - unfold MoveToDeadLetter, exec, move_stmt.
    assert (unmoved_dead deadLetterBatchSize p d = Some moved) as -> by reflexivity. cbn.
    destruct (insert_dead_letters now moved (dead_letter d)) as [dl m]. cbn in Hcount |- *. by subst m.
  - intros id e He. cbn. rewrite Hkeep by (by eexists). done.
  - intros Hshort. unfold moved in Hshort at 1. rewrite length_take in Hshort.
    apply Permutation_length in Hperm. rewrite length_app in Hperm. apply nil_length_inv.
    unfold moved in Hperm at 1. rewrite length_take in Hperm.
    pose proof (Permutation_length (visit_perm p (unmoved d))). unfold deadLetterBatchSize in *. lia.
Qed.

(** The dead-letter pass drains. On a quiet store with [k] dead jobs not yet
    recorded, the pass ends by itself within [k/500 + 1] batches; then every dead job
    has its dead-letter entry, entries that were there are as they were, and no job
    and no run changed. *)
Theorem promoteDeadJobs_drains o now fuel n w :
  quiet o now → keyed (jobs (w_db w)) → (length (unmoved (w_db w)) < 500 * fuel)%nat →
  ∃ n' d', promoteDeadJobs fuel o (n, w) = ((n', set_db w d'), PassDone)
    ∧ jobs d' = jobs (w_db w) ∧ job_runs d' = job_runs (w_db w)
    ∧ (∀ id e, dead_letter (w_db w) !! id = Some e → dead_letter d' !! id = Some e)
    ∧ (∀ id j, jobs d' !! id = Some j → State_ j = StateDead → is_Some (dead_letter d' !! id)).
Proof.
  intros Hq. revert n w. induction fuel as [|fuel IH]; intros n w Hk Hfuel; [lia|]. cbn [promoteDeadJobs].
  unfold pbind at 1, local. rewrite (q_done o now Hq).
  destruct (move_spec now (t_plan (o n)) (w_db w) Hk) as (d1&moved&Hmv&Hj1&Hr1&Hd1&Hperm&Hshort).
  erewrite pbind_run by (by apply (on_quiet o now)). cbn beta.
  rewrite (q_fault o now Hq), (q_server o now Hq), Hmv. cbn [fst snd].
  destruct (Z.ltb_spec (Z.of_nat (length moved)) deadLetterBatchSize) as [Hlt|Hge].
  - exists (S n), d1. do 4 (split; [done|]). intros id j Hj Hdead. specialize (Hshort Hlt).
    apply not_eq_None_Some. intros Hnone. apply (not_elem_of_nil j). rewrite <- Hshort. apply list_elem_of_filter.
    rewrite Hj1 in Hj. pose proof (Hk id j Hj) as ->. split; [done|]. apply elem_of_rows. exists id. by rewrite Hj1.
  - apply Permutation_length in Hperm. rewrite length_app in Hperm.
    destruct (IH (S n) (set_db w d1)) as (n'&d'&Hrun&Hj'&Hr'&Hd'&Hall).
    + cbn. by rewrite Hj1.
    + cbn. unfold deadLetterBatchSize in *. lia.
    + cbn in *. exists n', d'. split; [done|]. split; [congruence|]. split; [congruence|]. split; [|done].
      intros id e He. by apply Hd', Hd1.
Qed.
End passes.
