(* ===== verification/CliFacts.v ===== *)
(** * What the command line tool guarantees

    [drain] empties the queues and their markers and nothing else, and what it removed
    comes back with the next pass of the reconciler; what it reports is counted. *)

From S2P Require Import Prelude GoBase Encoding Job Redis Queue QueueInv Db Storage Tenants World Scheduler SchedulerFacts Cli.

Open Scope Z_scope.

(** ** Sums over a keyspace *)
Definition measure (f : string → rentry → Z) (r : redis) : Z := map_fold (λ k e acc, f k e + acc) 0 r.

Lemma measure_empty f : measure f ∅ = 0.
Proof. apply map_fold_empty. Qed.

Lemma measure_insert f (r : redis) k e : r !! k = None → measure f (<[k := e]> r) = f k e + measure f r.
Proof. intros Hk. unfold measure. rewrite map_fold_insert_L; [done|intros; lia|done]. Qed.

Lemma measure_delete f (r : redis) k e : r !! k = Some e → measure f r = f k e + measure f (delete k r).
Proof.
  intros Hk. rewrite <- (measure_insert f (delete k r) k e) by apply lookup_delete_eq.
  by rewrite insert_delete_id.
Qed.

Lemma measure_zero f (r : redis) : (∀ k e, r !! k = Some e → f k e = 0) → measure f r = 0.
Proof.
  induction r as [|k e r Hk IH] using map_ind; intros Hf; [apply measure_empty|].
  rewrite measure_insert by done. rewrite (Hf k e) by apply lookup_insert_eq. rewrite IH; [done|].
  intros k' e' Hk'. apply (Hf k' e'). rewrite lookup_insert_ne; [done|]. intros ->. by rewrite Hk in Hk'.
Qed.

Definition entry_list (e : rentry) : list string := match r_val e with RList l => l | _ => [] end.

(** The entries of the lists under ["queue:"], the job entries among them, and how many
    of those lists are not empty. *)
Definition queue_len (k : string) (e : rentry) : Z :=
  if String.prefix "queue:" k then Z.of_nat (length (entry_list e)) else 0.
Definition lane_len (k : string) (e : rentry) : Z := if String.eqb k wakeKey then 0 else queue_len k e.
Definition queue_busy (k : string) (e : rentry) : Z :=
  if String.prefix "queue:" k && negb (Nat.eqb (length (entry_list e)) 0) then 1 else 0.

(** The wake tokens are counted with the jobs. *)
Lemma queue_len_wake (r : redis) : measure queue_len r = measure lane_len r + Z.of_nat (length (qlist r wakeKey)).
Proof.
  induction r as [|k e r Hk IH] using map_ind.
  { rewrite !measure_empty. unfold qlist. by rewrite lookup_empty. }
  rewrite !measure_insert, IH by done.
  assert (lane_len k e = if String.eqb k wakeKey then 0 else queue_len k e) as -> by done.
  destruct (String.eqb_spec k wakeKey) as [->|Hne]; unfold qlist.
  - rewrite lookup_insert_eq, Hk. destruct e as [[] ?]; cbn; lia.
  - rewrite lookup_insert_ne by done. lia.
Qed.

(** ** Emptying keys under a prefix *)
Record emptied (p : string) (r r' : redis) : Prop := {
  em_sub : r' ⊆ r;
  em_other k : ¬ has_prefix p k → r' !! k = r !! k;
}.

Lemma emptied_refl p r : emptied p r r.
Proof. by split. Qed.

Lemma emptied_trans p r1 r2 r3 : emptied p r1 r2 → emptied p r2 r3 → emptied p r1 r3.
Proof. intros [Hs1 Ho1] [Hs2 Ho2]. split; [by etrans|]. intros k Hk. by rewrite Ho2, Ho1. Qed.

Lemma emptied_delete p r k : has_prefix p k → emptied p r (delete k r).
Proof.
  intros Hp. split; [apply delete_subseteq|]. intros k' Hk'. apply lookup_delete_ne. by intros ->.
Qed.

Lemma emptied_qlist p r r' k : emptied p r r' → qlist r k = [] → qlist r' k = [].
Proof.
  intros [Hs _] Hk. unfold qlist in *. destruct (r' !! k) as [e|] eqn:He; [|done].
  by rewrite (lookup_weaken _ _ _ _ He Hs) in Hk.
Qed.

Lemma emptied_keyspace p r r' : emptied p r r' → keyspace_ok r → keyspace_ok r'.
Proof.
  intros [Hs _] [Hq Hp]. split.
  - intros k Hk e He. apply (Hq k Hk e). by eapply lookup_weaken.
  - intros k e Hk He. apply (Hp k e Hk). by eapply lookup_weaken.
Qed.

(** A complete iteration of SCAN over an idle keyspace: every key of the pattern, and
    only those, some perhaps more than once. *)
Record scanned (p : string) (r : redis) (pages : list (list string)) : Prop := {
  sc_all k : is_Some (r !! k) → has_prefix p k → k ∈ concat pages;
  sc_only k : k ∈ concat pages → has_prefix p k;
}.

Section drain.
Context `{!UuidText} `{!PgText} `{!InputLib} (o : oracle) (now : Z) (Hq : quiet o now).

(** What the first SCAN of [cmdDrain] did when it went from [r] to [r']. *)
Record drained (keys : list string) (r r' : redis) (jobs queues jobs' queues' : Z) : Prop := {
  dr_emptied : emptied "queue:" r r';
  dr_gone k : k ∈ keys → qlist r' k = [];
  dr_jobs : jobs' = jobs + measure queue_len r - measure queue_len r';
  dr_queues : queues' = queues + measure queue_busy r - measure queue_busy r';
}.

Lemma drained_trans k1 k2 r1 r2 r3 a b a' b' a'' b'' :
  drained k1 r1 r2 a b a' b' → drained k2 r2 r3 a' b' a'' b'' → drained (k1 ++ k2) r1 r3 a b a'' b''.
Proof.
  intros [He1 Hg1 Hj1 Hc1] [He2 Hg2 Hj2 Hc2]. split; [by eapply emptied_trans| |lia|lia].
  intros k [Hk|Hk]%elem_of_app; [by eapply emptied_qlist; [|apply Hg1]|by apply Hg2].
Qed.

(** One key: counted once, and gone. *)
Lemma drain_key_quiet n w k :
  keyspace_ok (w_redis w) → has_prefix "queue:" k →
  ∃ n' r' c, drain_key k o (n, w) = ((n', set_redis w r'), c)
    ∧ ∀ jobs queues, drained [k] (w_redis w) r' jobs queues
                       (jobs + default 0 c) (queues + from_option (λ _, 1) 0 c).
Proof using Hq.
  intros Hok Hp. unfold drain_key. erewrite pbind_run by (by apply (ask_quiet o now)). cbn beta.
  rewrite (q_fault o now Hq), (q_server o now Hq). unfold call, LRANGE.
  assert (qlist (w_redis w) k = [] → ∃ n' r' c, ((S n, w), None) = ((n', set_redis w r'), c)
    ∧ ∀ jobs queues, drained [k] (w_redis w) r' jobs queues (jobs + default 0 c) (queues + from_option (λ _, 1) 0 c)) as Hidle.
  { intros Hl. exists (S n), (w_redis w), (@None Z). split; [by destruct w|]. intros jobs queues.
    split; [apply emptied_refl| |cbn; lia|cbn; lia]. by intros k' ->%list_elem_of_singleton. }
  destruct (w_redis w !! k) as [e|] eqn:He; cycle 1.
  { unfold rget. rewrite He. apply Hidle. unfold qlist. by rewrite He. }
  destruct (ks_queue _ Hok k Hp e He) as [l ->].
  assert (rget now (w_redis w) k = Some (REntry (RList l) None)) as -> by (unfold rget; by rewrite He).
  cbn. destruct l as [|x l]; [apply Hidle; unfold qlist; by rewrite He|].
  erewrite pbind_run by (by apply (on_quiet o now)). cbn beta. rewrite (q_fault o now Hq).
  eexists _, _, _. split; [reflexivity|]. intros jobs queues.
  pose proof (measure_delete queue_len _ _ _ He) as Hm1. pose proof (measure_delete queue_busy _ _ _ He) as Hm2.
  assert (queue_len k (REntry (RList (x :: l)) None) = Z.of_nat (S (length l))) as Hl1 by (unfold queue_len; by rewrite Hp).
  assert (queue_busy k (REntry (RList (x :: l)) None) = 1) as Hl2 by (unfold queue_busy; by rewrite Hp).
  rewrite Hl1 in Hm1. rewrite Hl2 in Hm2. split; cbn [call DEL fst snd from_option length]; unfold id;
    [by apply emptied_delete| |lia|lia].
  intros k' ->%list_elem_of_singleton. unfold qlist. by rewrite lookup_delete_eq.
Qed.

Lemma drain_keys_quiet keys : ∀ n w jobs queues,
  keyspace_ok (w_redis w) → Forall (has_prefix "queue:") keys →
  ∃ n' r' jobs' queues', drain_keys keys jobs queues o (n, w) = ((n', set_redis w r'), (jobs', queues'))
    ∧ drained keys (w_redis w) r' jobs queues jobs' queues'.
Proof using Hq.
  induction keys as [|k keys IH]; intros n w jobs queues Hok Hp; cbn [drain_keys].
  { exists n, (w_redis w), jobs, queues. split; [by destruct w|].
    split; [apply emptied_refl|by intros k ?%elem_of_nil|lia|lia]. }
  apply Forall_cons in Hp as [Hk Hp]. destruct (drain_key_quiet n w k Hok Hk) as (n1&r1&c&Hrun&Hd).
  specialize (Hd jobs queues). erewrite pbind_run by exact Hrun.
  assert (keyspace_ok r1) as Hok1 by (eapply emptied_keyspace; [apply Hd|done]).
  destruct c as [c|]; cbn [from_option] in Hd; unfold id in Hd;
    [destruct (IH n1 (set_redis w r1) (jobs + c) (queues + 1) Hok1 Hp) as (n'&r'&j'&q'&Hrun'&Hd')
    |rewrite !Z.add_0_r in Hd;
     destruct (IH n1 (set_redis w r1) jobs queues Hok1 Hp) as (n'&r'&j'&q'&Hrun'&Hd')];
    exists n', r', j', q'; (split; [exact Hrun'|exact (drained_trans [k] keys _ _ _ _ _ _ _ _ _ Hd Hd')]).
Qed.

Lemma drain_pages_quiet pages : ∀ n w jobs queues,
  keyspace_ok (w_redis w) → Forall (has_prefix "queue:") (concat pages) →
  ∃ n' r' jobs' queues',
    drain_pages (Some <$> pages) jobs queues o (n, w) = ((n', set_redis w r'), Some (jobs', queues'))
    ∧ drained (concat pages) (w_redis w) r' jobs queues jobs' queues'.
Proof using Hq.
  induction pages as [|keys pages IH]; intros n w jobs queues Hok Hp; cbn [fmap list_fmap drain_pages concat].
  { exists n, (w_redis w), jobs, queues. split; [by destruct w|].
    split; [apply emptied_refl|by intros k ?%elem_of_nil|lia|lia]. }
  apply Forall_app in Hp as [Hk Hp].
  destruct (drain_keys_quiet keys n w jobs queues Hok Hk) as (n1&r1&j1&q1&Hrun&Hd).
  erewrite pbind_run by exact Hrun. cbn [fst snd].
  assert (keyspace_ok r1) as Hok1 by (eapply emptied_keyspace; [apply Hd|done]).
  destruct (IH n1 (set_redis w r1) j1 q1 Hok1 Hp) as (n'&r'&j'&q'&Hrun'&Hd').
  exists n', r', j', q'. split; [exact Hrun'|exact (drained_trans keys _ _ _ _ _ _ _ _ _ _ Hd Hd')].
Qed.

(** ** The markers *)
Lemma DEL_all_lookup keys : ∀ (r : redis) k,
  fst (DEL_all keys r) !! k = if bool_decide (k ∈ keys) then None else r !! k.
Proof.
  unfold DEL_all. cbn [fst]. induction keys as [|x keys IH]; intros r k; cbn [foldl]; [done|].
  rewrite IH. case_bool_decide as Hk; case_bool_decide as Hxk; try done.
  - exfalso. apply Hxk. by right.
  - apply elem_of_cons in Hxk as [->|]; [apply lookup_delete_eq|done].
  - apply lookup_delete_ne. intros ->. apply Hxk. by left.
Qed.

Lemma clear_markers_quiet pages : ∀ n w,
  ∃ n' r', clear_markers (Some <$> pages) o (n, w) = ((n', set_redis w r'), Some tt)
    ∧ ∀ k, r' !! k = if bool_decide (k ∈ concat pages) then None else w_redis w !! k.
Proof using Hq.
  induction pages as [|keys pages IH]; intros n w; cbn [fmap list_fmap clear_markers concat].
  { exists n, (w_redis w). by destruct w. }
  destruct keys as [|x keys]; [apply IH|]. erewrite pbind_run by (by apply (on_quiet o now)). cbn beta.
  rewrite (q_fault o now Hq). cbn [call]. set (r1 := fst _).
  destruct (IH (S n) (set_redis w r1)) as (n'&r'&Hrun&Hl). exists n', r'. split; [exact Hrun|].
  intros k. rewrite Hl. cbn [w_redis set_redis].
  assert (r1 !! k = if bool_decide (k ∈ x :: keys) then None else w_redis w !! k) as ->
    by apply (DEL_all_lookup (x :: keys)).
  repeat case_bool_decide; rewrite ?elem_of_app in *; tauto.
Qed.

(** ** [drain] *)
Definition queues_cleared (r r' : redis) : Prop :=
  (∀ k, has_prefix "queue:" k → qlist r' k = [])
  ∧ (∀ k, has_prefix enqueuedPrefix k → r' !! k = None)
  ∧ (∀ k, ¬ has_prefix "queue:" k → ¬ has_prefix enqueuedPrefix k → r' !! k = r !! k).

Lemma cmdDrain_quiet n w pages markers :
  keyspace_ok (w_redis w) → scanned "queue:" (w_redis w) pages → scanned enqueuedPrefix (w_redis w) markers →
  ∃ n' r', cmdDrain (Some <$> pages) (Some <$> markers) o (n, w)
             = ((n', set_redis w r'), Some (measure queue_len (w_redis w), measure queue_busy (w_redis w)))
    ∧ queues_cleared (w_redis w) r' ∧ queue_inv now r'.
Proof using Hq.
  intros Hok Hs Hm. unfold cmdDrain.
  destruct (drain_pages_quiet pages n w 0 0 Hok) as (n1&r1&j1&q1&Hrun&[He Hg Hj Hc]).
  { apply Forall_forall, (sc_only _ _ _ Hs). }
  erewrite pbind_run by exact Hrun. destruct (clear_markers_quiet markers n1 (set_redis w r1)) as (n'&r'&Hrun'&Hl).
  erewrite pbind_run by exact Hrun'. cbn [w_redis set_redis] in Hl.
  assert (∀ k, has_prefix "queue:" k → qlist r1 k = []) as Hgone.
  { intros k Hk. destruct (w_redis w !! k) as [e|] eqn:Hke; [apply Hg; by eapply sc_all; [done|by exists e|]|].
    eapply emptied_qlist; [done|]. unfold qlist. by rewrite Hke. }
  assert (∀ k e, r1 !! k = Some e → has_prefix "queue:" k → length (entry_list e) = O) as Hempty.
  { intros k e Hke Hk. specialize (Hgone k Hk). unfold qlist in Hgone. rewrite Hke in Hgone.
    destruct e as [[] ?]; cbn in *; congruence || by subst. }
  rewrite (measure_zero queue_len r1) in Hj;
    [|intros k e Hke; unfold queue_len; destruct (String.prefix _ k) eqn:?; [by rewrite (Hempty k e)|done]].
  rewrite (measure_zero queue_busy r1) in Hc;
    [|intros k e Hke; unfold queue_busy; destruct (String.prefix _ k) eqn:?; [by rewrite (Hempty k e)|done]].
  exists n', r'. split; [unfold pret; do 3 f_equal; lia|].
  assert (∀ k, has_prefix enqueuedPrefix k → r' !! k = None) as Hmark.
  { intros k Hk. rewrite Hl. case_bool_decide as Hin; [done|]. rewrite (em_other _ _ _ He) by (by apply queue_not_enqueued).
    destruct (w_redis w !! k) as [e|] eqn:Hke; [|done]. destruct Hin. by eapply sc_all; [done|by exists e|]. }
  assert (∀ k, ¬ has_prefix enqueuedPrefix k → r' !! k = r1 !! k) as Hsame.
  { intros k Hk. rewrite Hl. case_bool_decide as Hin; [|done]. by apply (sc_only _ _ _ Hm) in Hin. }
  split; [split; [|split; [done|]]|split].
  - intros k Hk. unfold qlist. rewrite Hsame; [by apply Hgone|]. intros ?. by apply (queue_not_enqueued k).
  - intros k Hk Hk'. rewrite Hsame by done. by apply (em_other _ _ _ He).
  - assert (keyspace_ok r1) as [Hq1 Hp1] by (by eapply emptied_keyspace).
    assert (∀ k e, r' !! k = Some e → r1 !! k = Some e) as Hle by (intros k e; rewrite Hl; by case_bool_decide).
    split; [intros k Hk e Hke; apply (Hq1 k Hk e); auto|intros k e Hk Hke; apply (Hp1 k e Hk); auto].
  - intros s (e&He'&_)%rexists_Some. by rewrite Hmark in He' by apply has_prefix_app.
Qed.
End drain.

Section drain_facts.
Context `{!UuidText} `{!PgText} `{!InputLib}.

(** [drain] empties Redis of queued work and of nothing else. On a quiet store whose
    SCANs are complete it ends without an error; no lane and no wake token is left, no
    marker either, every other key (processing lists, heartbeats, the rate limiter) is
    as it was, and neither Postgres nor any other table changes. The number of "jobs" it
    reports is the number of job entries plus the number of wake tokens, since the wake
    list is under the prefix it scans. *)
Theorem cmdDrain_exact o now n w pages markers :
  quiet o now → keyspace_ok (w_redis w) →
  scanned "queue:" (w_redis w) pages → scanned enqueuedPrefix (w_redis w) markers →
  ∃ n' r', cmdDrain (Some <$> pages) (Some <$> markers) o (n, w)
             = ((n', set_redis w r'),
                Some (measure lane_len (w_redis w) + Z.of_nat (length (qlist (w_redis w) wakeKey)),
                      measure queue_busy (w_redis w)))
    ∧ queues_cleared (w_redis w) r'.
Proof.
  intros Hq Hok Hs Hm. destruct (cmdDrain_quiet o now Hq n w pages markers Hok Hs Hm) as (n'&r'&Hrun&Hc&_).
  exists n', r'. rewrite <- queue_len_wake. by split.
Qed.

(** A drained queue is rebuilt from Postgres. When [drain] is followed by a pass of
    the reconciler, the lanes hold exactly the first 5000 pending jobs due for more than
    30 seconds, whatever they held before, and no job row has changed: draining loses no
    work, and leaves no entry behind for a job that is not pending. *)
Theorem drain_then_reconcile o now n w pages markers :
  quiet o now → keyspace_ok (w_redis w) → rows_stored (w_db w) → ids_valid (w_db w) →
  scanned "queue:" (w_redis w) pages → scanned enqueuedPrefix (w_redis w) markers →
  ∃ n' r' s, pbind (cmdDrain (Some <$> pages) (Some <$> markers)) (λ s, pbind reconcilePending (λ _, pret s)) o (n, w)
               = ((n', set_redis w r'), Some s)
    ∧ ∀ id, uuid_valid id → queued r' id ↔ id ∈ ID <$> take 5000 (overdue_jobs now (w_db w)).
Proof.
  intros Hq Hok Hst Hv Hs Hm.
  destruct (cmdDrain_quiet o now Hq n w pages markers Hok Hs Hm) as (n1&r1&Hrun&(Hc&_)&Hi).
  destruct (reconcile_loop_quiet o now 11 n1 (set_redis w r1) [] (overdue_jobs now (w_db w))) as (n'&r'&Hrun'&_&Hg);
    [done|done|done|done|done|by exists O|cbn; lia|cbn; lia|].
  eexists n', r', _. split; [erewrite pbind_run by exact Hrun; by erewrite pbind_run by exact Hrun'|].
  intros id Hid. rewrite (Hg id Hid). cbn [w_redis set_redis]. split; [intros [(k&[Hk _]&Hin)|?]; [|done]|by right].
  rewrite Hc in Hin by done. by apply not_elem_of_nil in Hin.
Qed.
End drain_facts.
