(* ===== verification/RetentionFacts.v ===== *)
(** * What retention keeps, what partition maintenance prepares

    [enforceRetention] and [DropJobRunsPartitionsBefore] against any interference and
    faults: what is recent survives. [ensurePartitions] on a quiet day of the month up
    to the 28th: the next three months are ready; on a later day a short month is
    skipped. *)

From S2P Require Import Prelude GoBase Job Redis Queue Db Partitions Storage Tenants Schedules World Scheduler.

Open Scope Z_scope.
Local Open Scope prog_scope.

Section catalogue.
Context `{!SessionZone}.

Definition month_bounds (k : Z) : Z * Z := (midnight k, midnight (k + 1)).

(** Partitions come from the migrations and from [EnsureJobRunsPartition]: each is named
    after a month and holds it. *)
Definition parts_ok (ps : partitions) : Prop :=
  ∀ name b, ps !! name = Some b → ∃ k, 0 <= k < 120000 ∧ name = partition_name k ∧ b = month_bounds k.

Lemma partition_name_inj j k :
  0 <= j < 120000 → 0 <= k < 120000 → partition_name j = partition_name k → j = k.
Proof. intros Hj Hk He. apply (f_equal monthlyPartition) in He. rewrite !monthlyPartition_name in He by done. congruence. Qed.

Lemma parts_ok_month ps k b :
  parts_ok ps → 0 <= k < 120000 → ps !! partition_name k = Some b → b = month_bounds k.
Proof.
  intros Hok Hk Hp. destruct (Hok _ _ Hp) as (j&Hj&Hn&->). by rewrite (partition_name_inj k j).
Qed.

Lemma parts_ok_create ps runs k s a :
  0 <= k < 120000 → parts_ok ps → create_stmt k (ps, runs) = Ok (s, a) → parts_ok (fst s).
Proof.
  intros Hk Hok. unfold create_stmt. repeat case_match; try done; intros [= <- <-]; [done|]. cbn.
  intros name b. rewrite lookup_insert. case_decide as Hn; [intros [= <-]|by apply Hok].
  exists k. by rewrite <- Hn.
Qed.

Lemma parts_ok_drop ps runs name s a : parts_ok ps → drop_stmt name (ps, runs) = Ok (s, a) → parts_ok (fst s).
Proof.
  intros Hok. unfold drop_stmt. case_match; intros [= <- <-]; [|done]. cbn. intros n b [_ Hn]%lookup_delete_Some. by eapply Hok.
Qed.

(** An expired partition ends, in UTC, at or before the cutoff. *)
Lemma expired_recent ps name cutoff b r :
  (∀ k, midnight k <= month_start k) → parts_ok ps → ps !! name = Some b → expired cutoff name = true →
  cutoff <= rr_started_at r → within b r = false.
Proof.
  intros Hzone Hok Hn He Hr. destruct (Hok _ _ Hn) as (k&Hk&->&->). unfold expired in He.
  rewrite monthlyPartition_name in He by done. unfold within, month_bounds. cbn.
  specialize (Hzone (k + 1)). bool_to_prop. apply andb_false_iff. right. apply Z.ltb_ge. lia.
Qed.

Lemma drop_keeps ps runs name cutoff s a r :
  (∀ k, midnight k <= month_start k) → parts_ok ps → expired cutoff name = true → cutoff <= rr_started_at r →
  drop_stmt name (ps, runs) = Ok (s, a) → r ∈ runs → r ∈ snd s.
Proof.
  intros Hzone Hok He Hr. unfold drop_stmt. case_match eqn:Hn; intros [= <- <-] Hin; [|done].
  cbn. apply list_elem_of_filter. split; [|done]. by eapply expired_recent.
Qed.

(** ** Creating a month *)
Hypothesis Hmono : ∀ j k, j <= k → midnight j <= midnight k.

Lemma months_disjoint j k : j ≠ k → overlaps (month_bounds j) (month_bounds k) = false.
Proof.
  intros Hne. unfold overlaps, month_bounds. cbn. apply andb_false_iff.
  destruct (decide (j < k)).
  - right. apply Z.ltb_ge, Hmono. lia.
  - left. apply Z.ltb_ge, Hmono. lia.
Qed.

Lemma create_stmt_ready ps runs k :
  0 <= k < 120000 → parts_ok ps → (∀ r, r ∈ runs → rr_started_at r < midnight k) →
  create_stmt k (ps, runs) = Ok ((match ps !! partition_name k with
                                  | Some _ => ps
                                  | None => <[partition_name k := month_bounds k]> ps
                                  end, runs), tt).
Proof.
  intros Hk Hok Hruns. unfold create_stmt. change (midnight k, midnight (k + 1)) with (month_bounds k).
  destruct (ps !! partition_name k) as [b|] eqn:Hp; [done|]. rewrite bool_decide_false by (by intros [? ?]).
  destruct (existsb (λ nb, overlaps (month_bounds k) nb.2) (map_to_list ps)) eqn:Ho.
  { apply existsb_exists in Ho as ([n b]&Hin%list_elem_of_In%elem_of_map_to_list&Ho).
    destruct (Hok _ _ Hin) as (j&Hj&->&->). cbn in Ho. rewrite months_disjoint in Ho; [done|]. intros <-. congruence. }
  destruct (existsb _ runs) eqn:He; [|done].
  apply existsb_exists in He as (r&Hin%list_elem_of_In&He). specialize (Hruns r Hin).
  unfold within, month_bounds in He. cbn in He. bool_to_prop. lia.
Qed.
End catalogue.

Section retention.
Context `{!UuidText} `{!PgText} `{!InputLib} `{!CronLib} `{!SessionZone}.

(** ** What a retention pass may not delete *)

(** Run [r] of job [id] at a cutoff: the job is not finished before it, its death, if any,
    was not recorded before it, and the run started at it or later. *)
Record kept (cutoff : Z) (id : uuid) (r : run_row) (w : world) : Prop := {
  kept_keyed : keyed (jobs (w_db w));
  kept_parts : parts_ok (w_parts w);
  kept_row : ∃ j, jobs (w_db w) !! id = Some j ∧ ¬ finished_before cutoff j;
  kept_letter e : dead_letter (w_db w) !! id = Some e → pg_ts cutoff <= dl_moved_at e;
  kept_run : r ∈ job_runs (w_db w) ∧ rr_job_id r = id ∧ cutoff <= rr_started_at r;
}.

Lemma prune_finished_kept cutoff limit p id r w d n :
  kept cutoff id r w → prune_finished_stmt cutoff limit p (w_db w) = Ok (d, n) → kept cutoff id r (set_db w d).
Proof.
  intros [Hk Hp (j&Hj&Hf) Hl (Hr&Hid&Hs)] Hst. unfold prune_finished_stmt in Hst.
  destruct (LIMIT limit _) as [l|] eqn:Hlim; [|done]. injection Hst as <- <-. apply LIMIT_Some in Hlim as [_ ->].
  assert (id ∉ ID <$> take (Z.to_nat limit) (p (filter (finished_before cutoff) (rows (jobs (w_db w)))))) as Hout.
  { intros (j'&Heq&Hin%elem_of_take_in)%list_elem_of_fmap. rewrite elem_of_visit, list_elem_of_filter in Hin.
    destruct Hin as [Hf' [i Hi]%elem_of_rows]. pose proof (Hk i j' Hi). apply Hf. congruence. }
  split; cbn.
  - intros i j'. rewrite lookup_delete_ids. case_bool_decide; [done|]. apply Hk.
  - done.
  - exists j. by rewrite lookup_delete_ids, bool_decide_false.
  - done.
  - by rewrite list_elem_of_filter, Hid.
Qed.

Lemma prune_dead_kept cutoff limit p id r w d n :
  kept cutoff id r w → prune_dead_stmt cutoff limit p (w_db w) = Ok (d, n) → kept cutoff id r (set_db w d).
Proof.
  intros [Hk Hp (j&Hj&Hf) Hl (Hr&Hid&Hs)] Hst. unfold prune_dead_stmt in Hst.
  destruct (LIMIT limit _) as [l|] eqn:Hlim; [|done]. injection Hst as <- <-. apply LIMIT_Some in Hlim as [_ ->].
  assert (id ∉ take (Z.to_nat limit) (p (old_entries cutoff (w_db w)))) as Hout.
  { intros Hin%elem_of_take_in. unfold old_entries in Hin. rewrite elem_of_visit in Hin.
    apply list_elem_of_fmap in Hin as ([i e]&->&Hin). apply list_elem_of_filter in Hin as [He Hin%elem_of_map_to_list].
    specialize (Hl e Hin). cbn in He. lia. }
  split; cbn.
  - intros i j'. rewrite lookup_delete_ids. case_bool_decide; [done|]. apply Hk.
  - done.
  - exists j. rewrite lookup_delete_ids, bool_decide_false; [done|]. by intros [_ ?]%list_elem_of_filter.
  - intros e. rewrite lookup_delete_ids. case_bool_decide; [done|]. apply Hl.
  - by rewrite list_elem_of_filter, Hid.
Qed.

Lemma PruneFinishedJobs_kept f cutoff limit p id r w :
  kept cutoff id r w → kept cutoff id r (set_db w (fst (PruneFinishedJobs f cutoff limit p (w_db w)))).
Proof.
  intros Hw. unfold PruneFinishedJobs. destruct (exec_cases f (prune_finished_stmt cutoff limit p) (w_db w)) as [->|[a Ha]];
    [by rewrite set_db_same|by eapply prune_finished_kept].
Qed.

Lemma PruneDeadLetter_kept f cutoff limit p id r w :
  kept cutoff id r w → kept cutoff id r (set_db w (fst (PruneDeadLetter f cutoff limit p (w_db w)))).
Proof.
  intros Hw. unfold PruneDeadLetter. destruct (exec_cases f (prune_dead_stmt cutoff limit p) (w_db w)) as [->|[a Ha]];
    [by rewrite set_db_same|by eapply prune_dead_kept].
Qed.

Lemma drop_kept cutoff id r w name f :
  (∀ k, midnight k <= month_start k) → expired cutoff name = true → kept cutoff id r w →
  kept cutoff id r (set_runs w (fst (exec f (drop_stmt name) (w_runs w)))).
Proof.
  intros Hzone He [Hk Hp Hrow Hl (Hr&Hid&Hs)].
  destruct (exec_cases f (drop_stmt name) (w_runs w)) as [->|[a Ha]]; [by destruct w as [[]]|].
  split; [done| |done|done|].
  - by eapply parts_ok_drop.
  - split; [|done]. by eapply drop_keeps.
Qed.

Section pass.
Variables (o : oracle) (cutoff : Z) (id : uuid) (r : run_row).
Hypothesis Hzone : ∀ k, midnight k <= month_start k.
Hypothesis Henv : ∀ n w, kept cutoff id r w → kept cutoff id r (t_env (o n) w).

Lemma prune_loop_kept prune fuel :
  (∀ t w, kept cutoff id r w → kept cutoff id r (set_db w (fst (prune t (w_db w))))) →
  preserves (kept cutoff id r) o (prune_loop prune fuel).
Proof.
  intros Hp. induction fuel as [|fuel IH]; [apply preserves_pret|]. cbn.
  apply preserves_pbind; [apply preserves_local|]. intros []; [apply preserves_pret|].
  apply preserves_pbind; [by apply preserves_on|]. intros [n|e]; [|apply preserves_pret].
  case_match; [apply preserves_pret|apply IH].
Qed.

Lemma drop_each_kept names dropped :
  (∀ name, name ∈ names → expired cutoff name = true) →
  preserves (kept cutoff id r) o (drop_each names dropped).
Proof.
  revert dropped. induction names as [|name names IH]; intros dropped Hn; [apply preserves_pret|]. cbn.
  apply preserves_pbind.
  - apply preserves_on; [done|]. intros t w Hw. apply drop_kept; [done|apply Hn; by left|done].
  - intros [a|e]; [|apply preserves_pret]. apply IH. intros n' Hn'. apply Hn. by right.
Qed.

Lemma Drop_kept : preserves (kept cutoff id r) o (DropJobRunsPartitionsBefore cutoff).
Proof.
  apply preserves_pbind; [by apply preserves_ask|]. intros [names|e]; [|apply preserves_pret].
  apply drop_each_kept. by intros name [? _]%list_elem_of_filter.
Qed.
End pass.

End retention.

(** ** Dropping on a quiet stretch *)
Section drop.
Context `{!UuidText} `{!PgText} `{!InputLib} `{!CronLib} `{!SessionZone}.

Definition drop_all (names : list string) (s : partitions * list run_row) : partitions * list run_row :=
  foldl (λ s name, fst (exec NoFault (drop_stmt name) s)) s names.

Lemma drop_stmt_Ok name s : exec NoFault (drop_stmt name) s = (fst (exec NoFault (drop_stmt name) s), Ok tt).
Proof. destruct s as [ps runs]. unfold exec, drop_stmt. by destruct (ps !! name). Qed.

Lemma drop_each_quiet o now names dropped n w :
  quiet o now →
  drop_each names dropped o (n, w)
  = ((n + length names, set_runs w (drop_all names (w_runs w)))%nat, (dropped ++ names, Ok tt)).
Proof.
  intros Hq. revert dropped n w. induction names as [|name names IH]; intros dropped n w; cbn [drop_each length].
  { cbn. by rewrite Nat.add_0_r, app_nil_r, set_runs_same. }
  unfold on_runs. rewrite (pbind_run _ _ _ _ _ _ (on_quiet o now _ _ _ n w Hq)). rewrite (q_fault o now Hq), drop_stmt_Ok. cbn [fst snd].
  rewrite IH, set_runs_twice, w_runs_set. by rewrite <- app_assoc, Nat.add_succ_r.
Qed.

Lemma drop_all_cons name names ps runs :
  drop_all (name :: names) (ps, runs)
  = drop_all names (match ps !! name with
                    | Some b => (delete name ps, filter (λ r, within b r = false) runs)
                    | None => (ps, runs)
                    end).
Proof. unfold drop_all. cbn. by destruct (ps !! name). Qed.

Lemma drop_all_spec names ps runs :
  let '(ps', runs') := drop_all names (ps, runs) in
  (∀ name, ps' !! name = if bool_decide (name ∈ names) then None else ps !! name)
  ∧ (∀ r, r ∈ runs' ↔ r ∈ runs ∧ ∀ name b, name ∈ names → ps !! name = Some b → within b r = false).
Proof.
  revert ps runs. induction names as [|name names IH]; intros ps runs.
  { cbn. split; [done|]. intros r. split; [|tauto]. intros Hin. split; [done|]. intros m c Hm. by apply not_elem_of_nil in Hm. }
  rewrite drop_all_cons. destruct (ps !! name) as [b|] eqn:Hn.
  - specialize (IH (delete name ps) (filter (λ r, within b r = false) runs)). destruct (drop_all names _) as [ps' runs'].
    destruct IH as [Hp Hr]. split.
    + intros m. rewrite Hp. destruct (decide (m = name)) as [->|Hne].
      * rewrite lookup_delete_eq. rewrite (bool_decide_true (name ∈ name :: names)) by left. by case_bool_decide.
      * rewrite lookup_delete_ne by done. rewrite (bool_decide_ext _ (m ∈ name :: names)); [done|].
        rewrite elem_of_cons. split; [by right|by intros [?|?]].
    + intros r. rewrite Hr, list_elem_of_filter. split.
      * intros [[Hb Hin] Hall]. split; [done|]. intros m c Hm Hc. destruct (decide (m = name)) as [->|Hne]; [by simplify_eq|].
        apply (Hall m); [by apply elem_of_cons in Hm as [?|?]|by rewrite lookup_delete_ne].
      * intros [Hin Hall]. split; [split; [|done]; apply (Hall name); [by left|done]|].
        intros m c Hm [_ Hc]%lookup_delete_Some. apply (Hall m); [by right|done].
  - specialize (IH ps runs). destruct (drop_all names _) as [ps' runs']. destruct IH as [Hp Hr]. split.
    + intros m. rewrite Hp. destruct (decide (m = name)) as [->|Hne].
      * rewrite Hn, (bool_decide_true (name ∈ name :: names)) by left. by case_bool_decide.
      * rewrite (bool_decide_ext _ (m ∈ name :: names)); [done|]. rewrite elem_of_cons. split; [by right|by intros [?|?]].
    + intros r. rewrite Hr. split; intros [Hin Hall]; (split; [done|]).
      * intros m c [->|Hm]%elem_of_cons Hc; [congruence|by apply (Hall m)].
      * intros m c Hm. apply Hall. by right.
Qed.

(** Dropping partitions is exact. With nothing in the way, the monthly partitions whose
    month ends at or before the cutoff are dropped and reported, in the order the server
    listed them; every other partition stays; and the runs left are those of no
    dropped partition. *)
Theorem DropJobRunsPartitionsBefore_exact cutoff o now n w :
  quiet o now →
  let '((_, w'), (dropped, r)) := DropJobRunsPartitionsBefore cutoff o (n, w) in
  r = Ok tt
  ∧ (∀ name, name ∈ dropped ↔ is_Some (w_parts w !! name) ∧ expired cutoff name = true)
  ∧ (∀ name, w_parts w' !! name = if expired cutoff name then None else w_parts w !! name)
  ∧ (∀ r, r ∈ job_runs (w_db w') ↔ r ∈ job_runs (w_db w)
       ∧ ∀ name b, w_parts w !! name = Some b → expired cutoff name = true → within b r = false)
  ∧ jobs (w_db w') = jobs (w_db w) ∧ dead_letter (w_db w') = dead_letter (w_db w).
Proof.
  intros Hq. unfold DropJobRunsPartitionsBefore. rewrite (pbind_run _ _ _ _ _ _ (ask_quiet o now _ n w Hq)).
  rewrite (q_fault o now Hq). cbn [list_partitions query]. set (names := filter _ _).
  assert (∀ name, name ∈ names ↔ is_Some (w_parts w !! name) ∧ expired cutoff name = true) as Hnames.
  { intros name. unfold names. rewrite list_elem_of_filter, elem_of_visit, elem_of_cons, list_elem_of_fmap. split.
    - intros [He [->|([m b]&->&Hin%elem_of_map_to_list)]]; [done|]. cbn in *. eauto.
    - intros [[b Hb] He]. split; [done|]. right. exists (name, b). split; [done|]. by apply elem_of_map_to_list. }
  rewrite (drop_each_quiet o now) by done. cbn [app]. pose proof (drop_all_spec names (w_parts w) (job_runs (w_db w))) as Hd.
  change (w_parts w, job_runs (w_db w)) with (w_runs w) in Hd. destruct (drop_all names (w_runs w)) as [ps' runs'].
  destruct Hd as [Hp Hr]. split; [done|]. split; [done|]. split; [|split; [|done]]; cbn.
  - intros name. rewrite Hp. case_bool_decide as Hin; rewrite Hnames in Hin.
    + by destruct Hin as [_ ->].
    + destruct (expired cutoff name) eqn:He; [|done]. destruct (w_parts w !! name) eqn:Hn; [|done]. by exfalso; eauto.
  - intros r. rewrite Hr. split; intros [Hin Hall]; (split; [done|]).
    + intros name b Hb He. apply (Hall name); [|done]. apply Hnames. eauto.
    + intros name b Hn Hb. apply Hnames in Hn as [_ He]. by apply (Hall name).
Qed.
End drop.

(** ** Preparing the months ahead *)
Section ahead.
Context `{!UuidText} `{!PgText} `{!InputLib} `{!CronLib} `{!SessionZone}.

Definition ensured (k : Z) (ps : partitions) : partitions :=
  match ps !! partition_name k with
  | Some _ => ps
  | None => <[partition_name k := month_bounds k]> ps
  end.

Lemma month_of_Year_Month k : month_of (Year k) (Month k) = k.
Proof. unfold month_of, Year, Month. pose proof (Z.div_mod k 12). lia. Qed.

Lemma add_months_early d i : d_day d <= 28 → add_months d i = d_month d + i.
Proof.
  intros Hd. unfold add_months. pose proof (days_in_month_bounds (d_month d + i)).
  by rewrite (proj2 (Z.ltb_ge _ _)) by lia.
Qed.

Lemma add_months_le d i : d_month d + i <= add_months d i <= d_month d + i + 1.
Proof. unfold add_months. case_match; lia. Qed.

Lemma ensured_ok k ps : 0 <= k < 120000 → parts_ok ps → parts_ok (ensured k ps).
Proof.
  intros Hk Hok. unfold ensured. case_match; [done|]. intros name b. rewrite lookup_insert.
  case_decide as Hn; [intros [= <-]|by apply Hok]. exists k. by rewrite <- Hn.
Qed.

Lemma ensured_at k ps : 0 <= k < 120000 → parts_ok ps → ensured k ps !! partition_name k = Some (month_bounds k).
Proof.
  intros Hk Hok. unfold ensured. destruct (ps !! partition_name k) eqn:Hp; [|by rewrite lookup_insert_eq].
  rewrite Hp. f_equal. by eapply parts_ok_month.
Qed.

Lemma ensured_mono k ps name b : ps !! name = Some b → ensured k ps !! name = Some b.
Proof. intros Hn. unfold ensured. case_match; [done|]. rewrite lookup_insert_ne; [done|congruence]. Qed.

Lemma ensured_other k ps name : name ≠ partition_name k → ensured k ps !! name = ps !! name.
Proof. intros Hn. unfold ensured. case_match; [done|]. by rewrite lookup_insert_ne. Qed.

Section quiet.
Variables (o : oracle) (now : Z).
Hypothesis Hq : quiet o now.
Hypothesis Hmono : ∀ j k, j <= k → midnight j <= midnight k.

Lemma ensure_each_quiet d ahead n w :
  (∀ i, i ∈ ahead → 0 <= add_months d i < 120000
       ∧ ∀ r, r ∈ job_runs (w_db w) → rr_started_at r < midnight (add_months d i)) →
  parts_ok (w_parts w) →
  ensure_each d ahead o (n, w)
  = ((n + length ahead, set_parts w (foldl (λ ps i, ensured (add_months d i) ps) (w_parts w) ahead))%nat, tt).
Proof.
  revert n w. induction ahead as [|i ahead IH]; intros n w Hall Hok; cbn [ensure_each length].
  { cbn. rewrite Nat.add_0_r. by destruct w. }
  destruct (Hall i ltac:(by left)) as [Hk Hruns]. unfold on_runs.
  rewrite (pbind_run _ _ _ _ _ _ (on_quiet o now _ _ _ n w Hq)). rewrite (q_fault o now Hq).
  unfold EnsureJobRunsPartition, exec. rewrite month_of_Year_Month.
  unfold w_runs at 1. rewrite create_stmt_ready by done. fold (ensured (add_months d i) (w_parts w)). cbn [fst snd].
  rewrite IH.
  - rewrite Nat.add_succ_r. by destruct w as [[]].
  - intros i' Hi'. apply Hall. by right.
  - cbn. by apply ensured_ok.
Qed.
End quiet.

(** Partition maintenance stays ahead. On a day up to the 28th, when no run starts
    after the current month, the pass creates the partitions of the next three months,
    keeps the ones there are, and changes nothing else; every run that starts in those
    months then has a monthly partition of its own. *)
Theorem ensurePartitions_ahead o now n w :
  let m := d_month (date_of now) in
  quiet o now → (∀ j k, j <= k → midnight j <= midnight k) →
  d_day (date_of now) <= 28 → 0 <= m → m + 3 < 120000 → parts_ok (w_parts w) →
  (∀ r, r ∈ job_runs (w_db w) → rr_started_at r < midnight (m + 1)) →
  let '((_, w'), _) := ensurePartitions o (n, w) in
  w' = set_parts w (w_parts w') ∧ parts_ok (w_parts w')
  ∧ (∀ name b, w_parts w !! name = Some b → w_parts w' !! name = Some b)
  ∧ (∀ i, 1 <= i <= 3 → w_parts w' !! partition_name (m + i) = Some (month_bounds (m + i)))
  ∧ (∀ r, midnight (m + 1) <= rr_started_at r < midnight (m + 4) → in_default (w_parts w') r = false).
Proof.
  intros m Hq Hmono Hday Hm0 Hm3 Hok Hruns. unfold ensurePartitions.
  rewrite pbind_local, (q_now o now Hq).
  change (seqZ 1 (Z.of_nat partitionLookaheadMonths)) with [1; 2; 3].
  rewrite (ensure_each_quiet o now Hq Hmono); [|intros i Hi; rewrite add_months_early by done; fold m|done].
  2: { assert (1 <= i <= 3) by (repeat (apply elem_of_cons in Hi as [->|Hi]; [lia|]); by apply not_elem_of_nil in Hi).
       split; [lia|]. intros r Hr. specialize (Hruns r Hr). specialize (Hmono (m + 1) (m + i)). lia. }
  cbn [foldl]. rewrite !add_months_early by done. fold m. cbn [w_parts set_parts]. clearbody m.
  set (p1 := ensured (m + 1) (w_parts w)). set (p2 := ensured (m + 2) p1). set (p3 := ensured (m + 3) p2).
  assert (parts_ok p1) by (apply ensured_ok; [lia|done]). assert (parts_ok p2) by (apply ensured_ok; [lia|done]).
  assert (∀ i, 1 <= i <= 3 → p3 !! partition_name (m + i) = Some (month_bounds (m + i))) as Hat.
  { intros i Hi. assert (i = 1 ∨ i = 2 ∨ i = 3) as [->|[->| ->]] by lia.
    - apply ensured_mono, ensured_mono, ensured_at; [lia|done].
    - apply ensured_mono, ensured_at; [lia|done].
    - apply ensured_at; [lia|done]. }
  split; [done|]. split; [apply ensured_ok; [lia|done]|]. split; [|split; [done|]].
  - intros name b Hb. by apply ensured_mono, ensured_mono, ensured_mono.
  - intros r Hr.
    assert (∃ i, 1 <= i <= 3 ∧ midnight (m + i) <= rr_started_at r < midnight (m + i + 1)) as (i&Hi&Hin).
    { replace (m + 4) with (m + 3 + 1) in Hr by lia.
      destruct (decide (rr_started_at r < midnight (m + 2))); [exists 1; replace (m + 1 + 1) with (m + 2) by lia; lia|].
      destruct (decide (rr_started_at r < midnight (m + 3))); [exists 2; replace (m + 2 + 1) with (m + 3) by lia; lia|].
      exists 3. lia. }
    unfold in_default. apply not_true_iff_false. rewrite forallb_forall. intros Hall.
    specialize (Hall (partition_name (m + i), month_bounds (m + i))).
    rewrite <- list_elem_of_In, elem_of_map_to_list in Hall. specialize (Hall (Hat i Hi)).
    unfold within, month_bounds in Hall. cbn in Hall. apply negb_true_iff, andb_false_iff in Hall as [?%Z.leb_gt|?%Z.ltb_ge]; lia.
Qed.

Lemma create_stmt_other k ps runs s a name :
  create_stmt k (ps, runs) = Ok (s, a) → name ≠ partition_name k → fst s !! name = ps !! name.
Proof.
  unfold create_stmt. repeat case_match; try done; intros [= <- <-] Hn; [done|]. cbn. by rewrite lookup_insert_ne.
Qed.

(** On the last days of a month the next one can be missed. When the next month is
    shorter than today's day of the month, as on the 31st of January, no step of the
    pass creates the partition of the next month, whatever the calls return. *)
Theorem ensurePartitions_skips_short_month o n w :
  let d := date_of (t_now (o n)) in
  let next := partition_name (d_month d + 1) in
  0 <= d_month d → d_month d + 4 < 120000 → days_in_month (d_month d + 1) < d_day d →
  (∀ m w', w_parts (t_env (o m) w') !! next = w_parts w' !! next) →
  w_parts (snd (fst (ensurePartitions o (n, w)))) !! next = w_parts w !! next.
Proof.
  intros d next Hm0 Hm4 Hshort Henv. unfold ensurePartitions. rewrite pbind_local. fold d.
  change (seqZ 1 (Z.of_nat partitionLookaheadMonths)) with [1; 2; 3].
  assert (∀ ahead, (∀ i, i ∈ ahead → 1 <= i <= 3) →
    preserves (λ w', w_parts w' !! next = w_parts w !! next) o (ensure_each d ahead)) as Hall.
  { induction ahead as [|i ahead IH]; intros Hi; cbn [ensure_each]; [apply preserves_pret|].
    apply preserves_pbind; [|intros _; apply IH; intros i' Hi'; apply Hi; by right].
    apply preserves_on; [intros k w' Hw'; by rewrite Henv|]. intros t w' Hw'.
    unfold EnsureJobRunsPartition. rewrite month_of_Year_Month.
    destruct (exec_cases (t_fault t) (create_stmt (add_months d i)) (w_runs w')) as [->|[a Ha]];
      [by rewrite set_runs_same|]. cbn.
    rewrite (create_stmt_other _ _ _ _ _ next Ha); [done|]. unfold next. intros Heq.
    specialize (Hi i ltac:(by left)). pose proof (add_months_le d i). apply partition_name_inj in Heq; [|lia..].
    assert (i = 1) as -> by lia. unfold add_months in Heq. rewrite (proj2 (Z.ltb_lt _ _) Hshort) in Heq. lia. }
  refine (Hall [1; 2; 3] _ (n, w) eq_refl).
  intros i Hi. repeat (apply elem_of_cons in Hi as [->|Hi]; [lia|]). by apply not_elem_of_nil in Hi.
Qed.
End ahead.
