(* ===== verification/Lifecycle.v ===== *)
(** * Every run of the job store

    The storage functions as one transition system, in which any client may make
    any call at any time and any call may lose its request or its reply. The state
    is the tables together with a ledger of the claims made and the replays done.
    On it: the invariant of every reachable state, the refinement of the documented
    job lifecycle, claim fencing, and the bound on executions. *)

From S2P Require Import Prelude GoBase Job Db Storage.

Open Scope Z_scope.

(** ** The transition system *)

(** A claim a worker was given: the job, the run it opened, its token. *)
Record claim := mkClaim { c_job : uuid; c_run : uuid; c_token : uuid }.

#[export] Instance claim_eq_dec : EqDecision claim.
Proof. solve_decision. Defined.

Record sys := mkSys { s_db : db; s_claims : list claim; s_replays : list uuid }.

Definition sys_init : sys := mkSys db_empty [] [].

Definition with_db (s : sys) (d : db) : sys := mkSys d (s_claims s) (s_replays s).

(** What the callers of [InsertJob] pass it: [Template.Build] makes pending jobs
    with no attempts, and the submit handler may schedule them. *)
Definition submittable (j : Job) : Prop :=
  (State_ j = StatePending ∨ State_ j = StateScheduled) ∧ Attempt j = 0 ∧ 0 <= MaxRetries j <= MaxMaxRetries.

(** An identifier [uuid.New] may return: one in no table and no ledger. *)
Definition fresh_job (s : sys) (id : uuid) : Prop :=
  (id ∉ (c_job <$> s_claims s)) ∧ (id ∉ s_replays s).

Definition fresh_claim (s : sys) (runID token : uuid) : Prop :=
  (token ∉ (c_token <$> s_claims s)) ∧ (runID ∉ (c_run <$> s_claims s)).

(** The ledger after a claim call: one more entry when the statement claimed. *)
Definition note_claim (f : fault) (jobID token : uuid) (r : result storage_error (db * option (Job * uuid)))
    (cs : list claim) : list claim :=
  match f, r with
  | LostRequest, _ => cs
  | _, Ok (_, Some (_, runID)) => mkClaim jobID runID token :: cs
  | _, _ => cs
  end.

Definition note_replay (f : fault) (jobID : uuid) (r : result storage_error (db * unit)) (rs : list uuid)
    : list uuid :=
  match f, r with
  | LostRequest, _ => rs
  | _, Ok _ => jobID :: rs
  | _, Err _ => rs
  end.

(** A partition of [job_runs] is dropped with its rows, the ones outside [keep]. *)
Definition drop_runs (keep : run_row → bool) : stmt db unit := λ d,
  Ok (mkDb (jobs d) (filter (λ r, keep r = true) (job_runs d)) (dead_letter d), tt).

Section steps.
Context `{!PgText}.

Inductive step (s : sys) : sys → Prop :=
| st_insert f j :
    submittable j → fresh_job s (ID j) →
    step s (with_db s (fst (InsertJob f j (s_db s))))
| st_claim f locked now jobID w token deadline runID :
    fresh_claim s runID token →
    step s (mkSys (fst (TryClaim f locked now jobID w token deadline runID (s_db s)))
              (note_claim f jobID token
                 (claim_stmt locked now jobID w token deadline runID (s_db s)) (s_claims s))
              (s_replays s))
| st_claim_limited f locked now jobID tenantID limit w token deadline runID :
    fresh_claim s runID token →
    step s (mkSys (fst (TryClaimLimited f locked now jobID tenantID limit w token deadline runID (s_db s)))
              (note_claim f jobID token
                 (claim_limited_tx locked now jobID tenantID limit w token deadline runID (s_db s)) (s_claims s))
              (s_replays s))
| st_extend f c deadline :
    c ∈ s_claims s →
    step s (with_db s (fst (ExtendDeadline f (c_job c) (c_token c) deadline (s_db s))))
| st_complete f now c :
    c ∈ s_claims s →
    step s (with_db s (fst (CompleteJob f now (c_job c) (c_run c) (c_token c) (s_db s))))
| st_fail f now c errMsg next :
    c ∈ s_claims s →
    step s (with_db s (fst (FailJob f now (c_job c) (c_run c) (c_token c) errMsg next (s_db s))))
| st_promote_scheduled f now limit locked p p' :
    step s (with_db s (fst (PromoteDueScheduled f now limit locked p p' (s_db s))))
| st_promote_failed f now limit locked p p' :
    step s (with_db s (fst (PromoteReadyFailed f now limit locked p p' (s_db s))))
| st_promote_one f now jobID :
    step s (with_db s (fst (PromoteFailedToPending f now jobID (s_db s))))
| st_requeue f now server_now jobID :
    step s (with_db s (fst (RequeueStaleJob f now server_now jobID (s_db s))))
| st_move f now limit p :
    step s (with_db s (fst (MoveToDeadLetter f now limit p (s_db s))))
| st_cancel f now jobID tenantID :
    step s (with_db s (fst (CancelJob f now jobID tenantID (s_db s))))
| st_replay f now jobID tenantID :
    step s (mkSys (fst (exec f (replay_tx now jobID tenantID) (s_db s))) (s_claims s)
              (note_replay f jobID (replay_tx now jobID tenantID (s_db s)) (s_replays s)))
| st_prune_finished f cutoff limit p :
    step s (with_db s (fst (PruneFinishedJobs f cutoff limit p (s_db s))))
| st_prune_dead f cutoff limit p :
    step s (with_db s (fst (PruneDeadLetter f cutoff limit p (s_db s))))
| st_force_fail f now jobID :
    step s (with_db s (fst (cmdForceFail f now jobID (s_db s))))
| st_drop_runs f keep :
    step s (with_db s (fst (exec f (drop_runs keep) (s_db s)))).

Definition reachable (s : sys) : Prop := rtc step sys_init s.
End steps.

(** ** What a step does to one row

    The rows a call can change change in one of these ways; the guards are the
    WHERE clauses. [id] is the row's key and [tk] says whether the call is an insert, a
    claim, which issues a token, a replay, or none of these. *)
Inductive call_kind := KPlain | KInsert | KClaim (token : uuid) | KReplay.

Inductive row_step (tk : call_kind) (id : uuid) : option Job → option Job → Prop :=
| rs_insert j :
    tk = KInsert → ID j = id → State_ j = StatePending ∨ State_ j = StateScheduled → Attempt j = 0 → 0 <= MaxRetries j <= MaxMaxRetries →
    ClaimToken j = None → Deadline j = None → CompletedAt j = None →
    row_step tk id None (Some j)
| rs_release j :
    State_ j = StateScheduled → row_step tk id (Some j) (Some (set_state StatePending j))
| rs_retry j now :
    State_ j = StateFailed → row_step tk id (Some j) (Some (set_run_at now (set_state StatePending j)))
| rs_claim j now w token deadline :
    State_ j = StatePending → tk = KClaim token → row_step tk id (Some j) (Some (claimed_row now w token deadline j))
| rs_extend j token deadline :
    owns token j = true → row_step tk id (Some j) (Some (set_token (ClaimToken j) (Some deadline) j))
| rs_complete j token now :
    owns token j = true →
    row_step tk id (Some j) (Some (set_token None None (set_completed_at (Some now) (set_state StateSucceeded j))))
| rs_fail j token a s e next :
    owns token j = true → attempt_state StateFailed j = Some (a, s) →
    row_step tk id (Some j) (Some (failed_row a s e next j))
| rs_requeue j now a s :
    stale now j = true → attempt_state StatePending j = Some (a, s) →
    row_step tk id (Some j) (Some (requeued_row a s j))
| rs_cancel j now :
    cancellable j = true → row_step tk id (Some j) (Some (set_completed_at (Some now) (set_state StateCancelled j)))
| rs_force j :
    force_failable j = true →
    row_step tk id (Some j) (Some (set_token None None (set_last_error (Some force_failed) (set_state StateDead j))))
| rs_replay j now :
    State_ j = StateDead → tk = KReplay → row_step tk id (Some j) (Some (replayed_row now j))
| rs_prune j :
    State_ j = StateSucceeded ∨ State_ j = StateCancelled ∨ State_ j = StateDead → row_step tk id (Some j) None.

#[export] Hint Constructors row_step : sluice.

Definition rows_step (tk : call_kind) (t t' : gmap uuid Job) : Prop :=
  ∀ id, t' !! id = t !! id ∨ row_step tk id (t !! id) (t' !! id).

Lemma rows_step_refl tk t : rows_step tk t t.
Proof. intros id. by left. Qed.

Lemma rows_step_one tk t id j' : row_step tk id (t !! id) (Some j') → rows_step tk t (<[id := j']> t).
Proof.
  intros Hr id'. destruct (decide (id' = id)) as [->|]; [right; by rewrite lookup_insert_eq|left].
  by rewrite lookup_insert_ne.
Qed.

Lemma rows_step_update tk t (l : list Job) f :
  keyed t → (∀ j, j ∈ l → j ∈ rows t) → (∀ j, j ∈ l → row_step tk (ID j) (Some j) (Some (f j))) →
  rows_step tk t (update_ids (ID <$> l) f t).
Proof.
  intros Hk Hl Hf id. rewrite lookup_update_ids. case_bool_decide as Hin.
  - destruct (elem_of_ids t l id Hk Hl Hin) as (j&Hj&Hid). rewrite Hid. right. cbn.
    rewrite <- (Hk id j Hid). by apply Hf.
  - left. by destruct (t !! id).
Qed.

Lemma rows_step_delete tk t (ids : list uuid) :
  (∀ id, id ∈ ids → row_step tk id (t !! id) None) → rows_step tk t (delete_ids ids t).
Proof. intros Hf id. rewrite lookup_delete_ids. case_bool_decide; auto. Qed.

#[export] Hint Resolve rows_step_refl rows_step_one : sluice.

(** Take a successful statement apart: its guards become hypotheses. *)
Ltac stmt_cases H :=
  unfold of_option, result_bind in H;
  repeat match type of H with
  | (if negb ?b then _ else _) = _ => destruct b eqn:?; cbn in H
  | (if ?b then _ else _) = _ => destruct b eqn:?
  | match (match ?x with _ => _ end) with _ => _ end = _ => destruct x eqn:?
  | match ?x with _ => _ end = _ => destruct x eqn:?
  end; try discriminate H; simplify_eq; cbn [jobs job_runs dead_letter].

(** Rewrite with the row found at a key. *)
Ltac row_at id := match goal with Hr : jobs _ !! id = Some _ |- _ => rewrite Hr end.

Section row_effects.
Context `{!PgText}.
Implicit Types d : db.

Lemma new_row_Some j row :
  new_row j = Some row →
  ID row = ID j ∧ TenantID row = TenantID j ∧ IdempotencyKey row = IdempotencyKey j
  ∧ State_ row = State_ j ∧ Attempt row = Attempt j ∧ MaxRetries row = MaxRetries j
  ∧ ClaimToken row = None ∧ Deadline row = None ∧ CompletedAt row = None.
Proof.
  unfold new_row. intros Hr. destruct (_ && _ && _); [|done].
  apply bind_Some in Hr as (payload&_&Hr). apply bind_Some in Hr as (a&[-> _]%pg_int4_inv&Hr).
  apply bind_Some in Hr as (m&[-> _]%pg_int4_inv&Hr). apply bind_Some in Hr as (b&_&Hr).
  by injection Hr as <-.
Qed.

Lemma insert_rows j d d' u :
  submittable j → insert_stmt j d = Ok (d', u) → rows_step KInsert (jobs d) (jobs d').
Proof.
  intros (Hs&Ha&Hm) Hst. unfold insert_stmt in Hst. destruct (new_row j) as [row|] eqn:Hrow; [|done].
  destruct (conflicts (jobs d) row) eqn:Hc; [done|]. injection Hst as <- _. cbn.
  destruct (new_row_Some j row Hrow) as (Ei&_&_&Es&Ea&Em&?&?&?).
  unfold conflicts in Hc. bool_to_prop. apply rows_step_one.
  rewrite (proj2 (eq_None_not_Some (jobs d !! ID row))) by done. constructor; congruence.
Qed.

Lemma claim_rows locked now jobID w token deadline runID d d' o :
  claim_stmt locked now jobID w token deadline runID d = Ok (d', o) → rows_step (KClaim token) (jobs d) (jobs d').
Proof.
  intros Hst. unfold claim_stmt in Hst. stmt_cases Hst; auto with sluice. bool_to_prop.
  apply rows_step_one. row_at jobID. by apply rs_claim.
Qed.

Lemma claim_limited_rows locked now jobID tenantID limit w token deadline runID d d' o :
  claim_limited_tx locked now jobID tenantID limit w token deadline runID d = Ok (d', o) →
  rows_step (KClaim token) (jobs d) (jobs d').
Proof. unfold claim_limited_tx. destruct (limit <=? _); [done|]. apply claim_rows. Qed.

Lemma extend_rows tk jobID token deadline d d' u :
  extend_stmt jobID token deadline d = Ok (d', u) → rows_step tk (jobs d) (jobs d').
Proof.
  intros Hst. unfold extend_stmt in Hst. stmt_cases Hst; auto with sluice.
  apply rows_step_one. row_at jobID. by eapply rs_extend.
Qed.

Lemma complete_rows tk now jobID runID token d d' u :
  complete_stmt now jobID runID token d = Ok (d', u) → rows_step tk (jobs d) (jobs d').
Proof.
  intros Hst. unfold complete_stmt in Hst. stmt_cases Hst; auto with sluice.
  apply rows_step_one. row_at jobID. by eapply rs_complete.
Qed.

Lemma fail_rows tk now jobID runID token e next d d' u :
  fail_stmt now jobID runID token e next d = Ok (d', u) → rows_step tk (jobs d) (jobs d').
Proof.
  intros Hst. unfold fail_stmt in Hst. stmt_cases Hst; auto with sluice.
  apply rows_step_one. row_at jobID.
  match goal with Ha : attempt_state _ _ = Some ?p |- _ => destruct p end. by eapply rs_fail.
Qed.

Lemma requeue_rows tk now snow jobID d d' b :
  requeue_tx now snow jobID d = Ok (d', b) → rows_step tk (jobs d) (jobs d').
Proof.
  intros Hst. unfold requeue_tx in Hst. stmt_cases Hst; auto with sluice.
  apply rows_step_one. row_at jobID.
  match goal with Ha : attempt_state _ _ = Some ?p |- _ => destruct p end. by eapply rs_requeue.
Qed.

Lemma cancel_rows tk now jobID tenantID d d' u :
  cancel_stmt now jobID tenantID d = Ok (d', u) → rows_step tk (jobs d) (jobs d').
Proof.
  intros Hst. unfold cancel_stmt in Hst. stmt_cases Hst. bool_to_prop.
  apply rows_step_one. row_at jobID. by apply rs_cancel.
Qed.

Lemma replay_rows now jobID tenantID d d' u :
  replay_tx now jobID tenantID d = Ok (d', u) → rows_step KReplay (jobs d) (jobs d').
Proof.
  intros Hst. unfold replay_tx in Hst. stmt_cases Hst. bool_to_prop.
  apply rows_step_one. row_at jobID. by apply rs_replay.
Qed.

Lemma force_rows tk now jobID d d' u :
  force_fail_tx now jobID d = Ok (d', u) → rows_step tk (jobs d) (jobs d').
Proof.
  intros Hst. unfold force_fail_tx in Hst. stmt_cases Hst.
  apply rows_step_one. row_at jobID. by apply rs_force.
Qed.

(** The rows a promotion picks are rows of the table, in the state it looks for. *)
Lemma due_rows_in s now limit locked p d l :
  due_rows s now limit locked p d = Some l →
  ∀ j, j ∈ l → j ∈ rows (jobs d) ∧ State_ j = s ∧ RunAt j <= now ∧ ID j ∉ locked.
Proof.
  unfold due_rows. intros [_ ->]%LIMIT_Some j Hj%elem_of_take_in.
  rewrite merge_sort_Permutation, elem_of_visit, list_elem_of_filter in Hj. tauto.
Qed.

Lemma promote_rows tk s upd now limit locked p p' d d' l :
  keyed (jobs d) → (∀ j, State_ j = s → row_step tk (ID j) (Some j) (Some (upd j))) →
  promote s upd now limit locked p p' d = Ok (d', l) → rows_step tk (jobs d) (jobs d').
Proof.
  intros Hk Hupd Hst. unfold promote in Hst.
  destruct (due_rows s now limit locked p d) as [due|] eqn:Hdue; [|done]. injection Hst as <- _. cbn.
  apply rows_step_update; [done|..]; intros j Hj; destruct (due_rows_in _ _ _ _ _ _ _ Hdue j Hj) as (?&?&_); auto.
Qed.

Lemma promote_one_rows tk now jobID d d' u :
  promote_one_stmt now jobID d = Ok (d', u) → rows_step tk (jobs d) (jobs d').
Proof.
  intros Hst. unfold promote_one_stmt in Hst. stmt_cases Hst; auto with sluice. bool_to_prop.
  apply rows_step_one. row_at jobID. by apply rs_retry.
Qed.

Lemma prune_finished_rows tk cutoff limit p d d' n :
  keyed (jobs d) → prune_finished_stmt cutoff limit p d = Ok (d', n) → rows_step tk (jobs d) (jobs d').
Proof.
  intros Hk Hst. unfold prune_finished_stmt in Hst.
  destruct (LIMIT _ _) as [l|] eqn:Hl; [|done]. injection Hst as <- _. cbn.
  apply LIMIT_Some in Hl as [_ ->]. apply rows_step_delete. intros id Hid.
  apply (elem_of_ids (jobs d)) in Hid as (j&Hj&->); [|done|].
  - apply elem_of_take_in in Hj. rewrite elem_of_visit, list_elem_of_filter in Hj.
    destruct Hj as [[[?|?] _] _]; constructor; auto.
  - intros j Hj%elem_of_take_in. rewrite elem_of_visit, list_elem_of_filter in Hj. apply Hj.
Qed.

Lemma prune_dead_rows tk cutoff limit p d d' n :
  prune_dead_stmt cutoff limit p d = Ok (d', n) → rows_step tk (jobs d) (jobs d').
Proof.
  intros Hst. unfold prune_dead_stmt in Hst.
  destruct (LIMIT _ _) as [l|] eqn:Hl; [|done]. injection Hst as <- _. cbn.
  apply rows_step_delete. intros id [Hd _]%list_elem_of_filter.
  destruct (jobs d !! id) as [j|]; [|done]. injection Hd as Hd. constructor. auto.
Qed.

Lemma move_rows now limit p d d' n : move_stmt now limit p d = Ok (d', n) → jobs d' = jobs d.
Proof.
  unfold move_stmt. destruct (unmoved_dead _ _ _) as [l|]; [|done]. cbn.
  destruct (insert_dead_letters now l (dead_letter d)). by intros [= <- _].
Qed.
End row_effects.

(** ** The row invariant *)
Record job_ok (j : Job) : Prop := {
  jo_claimed : State_ j ≠ StateClaimed;
  jo_token : is_Some (ClaimToken j) ↔ State_ j = StateRunning;
  jo_deadline : is_Some (Deadline j) ↔ State_ j = StateRunning;
  jo_max : 0 <= MaxRetries j <= MaxMaxRetries;
  jo_attempt : 0 <= Attempt j <= MaxRetries j + (if decide (State_ j = StateDead) then 1 else 0);
  jo_completed : is_Some (CompletedAt j) ↔ State_ j = StateSucceeded ∨ State_ j = StateCancelled;
  jo_scheduled : State_ j = StateScheduled → Attempt j = 0;
}.

Lemma attempt_state_Some s j a s' :
  attempt_state s j = Some (a, s') →
  a = Attempt j + 1 ∧ s' = if MaxRetries j <? Attempt j + 1 then StateDead else s.
Proof. unfold attempt_state. intros (?&[-> _]%pg_int4_inv&[= <- <-])%bind_Some. done. Qed.

(** Under the row invariant the 32-bit increment of [attempt] never overflows. *)
Lemma attempt_state_total s j : job_ok j → is_Some (attempt_state s j).
Proof.
  intros [_ _ _ Hm Ha _ _]. unfold attempt_state.
  rewrite pg_int4_Some; [by eexists|]. unfold MaxMaxRetries in Hm. destruct (decide _); lia.
Qed.

Lemma in_flight_running j : job_ok j → in_flight j = true ↔ State_ j = StateRunning.
Proof.
  intros [Hc _ _ _ _ _ _]. unfold in_flight. rewrite orb_true_iff, !bool_decide_eq_true. naive_solver.
Qed.

Lemma owns_iff token j :
  job_ok j → owns token j = true ↔ State_ j = StateRunning ∧ ClaimToken j = Some token.
Proof.
  intros Hj. unfold owns. rewrite andb_true_iff, bool_decide_eq_true, in_flight_running by done. tauto.
Qed.

(** Reduce the columns of an updated row. *)
Ltac row_cbn :=
  unfold claimed_row, failed_row, requeued_row, replayed_row in *;
  cbn [set_state set_run_at set_claimed set_token set_attempt set_last_error set_completed_at
       ID TenantID Type_ Payload Priority State_ RunAt ClaimedAt ClaimedBy ClaimToken Deadline Attempt
       MaxRetries BackoffSeconds IdempotencyKey LastError CreatedAt CompletedAt TraceParent] in *.

(** The columns no call ever changes. *)
Lemma row_step_immutable tk id j j' :
  row_step tk id (Some j) (Some j') →
  ID j' = ID j ∧ TenantID j' = TenantID j ∧ Type_ j' = Type_ j ∧ Payload j' = Payload j
  ∧ Priority j' = Priority j ∧ MaxRetries j' = MaxRetries j ∧ BackoffSeconds j' = BackoffSeconds j
  ∧ IdempotencyKey j' = IdempotencyKey j ∧ CreatedAt j' = CreatedAt j ∧ TraceParent j' = TraceParent j.
Proof. by inversion_clear 1. Qed.

Lemma cancellable_iff j :
  cancellable j = true ↔ State_ j = StatePending ∨ State_ j = StateScheduled ∨ State_ j = StateFailed.
Proof. unfold cancellable. rewrite !orb_true_iff, !bool_decide_eq_true. tauto. Qed.

Lemma stale_iff now j :
  job_ok j → stale now j = true ↔ State_ j = StateRunning ∧ ∃ t, Deadline j = Some t ∧ t < now.
Proof.
  intros Hj. unfold stale, past_deadline. rewrite andb_true_iff, in_flight_running by done.
  destruct (Deadline j) as [t|]; [rewrite Z.ltb_lt|]; naive_solver.
Qed.

Lemma force_failable_iff j :
  job_ok j → force_failable j = true ↔
  State_ j = StateRunning ∨ State_ j = StatePending ∨ State_ j = StateScheduled ∨ State_ j = StateFailed.
Proof. intros Hj. unfold force_failable. by rewrite orb_true_iff, in_flight_running, cancellable_iff. Qed.

(** Turn the WHERE clauses of a row step into facts about the row's state. *)
Ltac row_guard Hj :=
  repeat match goal with
  | Hw : owns _ _ = true |- _ => apply (owns_iff _ _ Hj) in Hw as [? ?]
  | Hw : stale _ _ = true |- _ => apply (stale_iff _ _ Hj) in Hw as [? _]
  | Hw : cancellable _ = true |- _ => apply cancellable_iff in Hw
  | Hw : force_failable _ = true |- _ => apply (force_failable_iff _ Hj) in Hw
  | Ha : attempt_state _ _ = Some _ |- _ => apply attempt_state_Some in Ha as [-> ->]
  | Hd : State_ _ = _ ∨ _ |- _ => destruct Hd
  end.

(** Close a goal about the columns of an updated row. *)
Ltac row_solve :=
  row_cbn;
  repeat match goal with
  | Hs : State_ ?j = _ |- context [State_ ?j] => rewrite Hs in *
  | |- context [decide ?P] => destruct (decide P)
  | Hs : State_ ?j = _, Ha : context [decide (State_ ?j = _)] |- _ => rewrite Hs in Ha
  | Ha : context [decide ?P] |- _ => destruct (decide P)
  end;
  rewrite <- ?not_eq_None_Some in *; try lia; intuition (congruence || lia).

Lemma row_step_ok tk id o j' :
  (∀ j, o = Some j → job_ok j) → row_step tk id o (Some j') → job_ok j'.
Proof.
  intros Ho Hr. inversion Hr; subst; try (specialize (Ho _ eq_refl)); row_guard Ho;
    try match goal with |- context [?m <? ?a + 1] => destruct (Z.ltb_spec m (a + 1)) end;
    try destruct Ho; constructor; row_solve.
Qed.

(** ** Steps act row by row *)
Section step_rows.
Context `{!PgText}.

Lemma exec_ind {D A} (P : D → Prop) f (s : stmt D A) d :
  P d → (∀ d' a, s d = Ok (d', a) → P d') → P (fst (exec f s d)).
Proof. intros Hd Hs. destruct (exec_cases f s d) as [->|[a Ha]]; [done|by eapply Hs]. Qed.

(** A claim issues a token never issued before. *)
Definition issues (s : sys) (tk : call_kind) : Prop :=
  ∀ t, tk = KClaim t → t ∉ (c_token <$> s_claims s).

Lemma step_rows s s' :
  keyed (jobs (s_db s)) → step s s' →
  ∃ tk, issues s tk ∧ rows_step tk (jobs (s_db s)) (jobs (s_db s')).
Proof.
  intros Hk Hst.
  assert (∀ tk (P : call_kind → Prop), tk = KPlain ∨ tk = KReplay ∨ tk = KInsert → P tk → ∃ tk, issues s tk ∧ P tk) as Hother.
  { intros tk P Htk HP. exists tk. split; [|done]. intros t ->. by destruct Htk as [|[|]]. }
  assert (∀ t (P : call_kind → Prop), t ∉ (c_token <$> s_claims s) → P (KClaim t) → ∃ tk, issues s tk ∧ P tk) as Hclaim.
  { intros t P Ht HP. exists (KClaim t). split; [by intros t' [= <-]|done]. }
  destruct Hst; cbn;
    (first [match goal with Hf : fresh_claim _ _ ?t |- _ => apply (Hclaim t); [apply Hf|] end
           |match goal with |- context [replay_tx] => apply (Hother KReplay); [by auto|] end
           |match goal with |- context [InsertJob] => apply (Hother KInsert); [by auto|] end
           |apply (Hother KPlain); [by left|]]);
    (apply (exec_ind (λ d', rows_step _ (jobs (s_db s)) (jobs d'))); [auto with sluice|]); intros d' a Ha.
  - by eapply insert_rows.
  - by eapply claim_rows.
  - by eapply claim_limited_rows.
  - by eapply extend_rows.
  - by eapply complete_rows.
  - by eapply fail_rows.
  - eapply promote_rows; [done| |done]. intros. by apply rs_release.
  - eapply promote_rows; [done| |done]. intros. by apply rs_retry.
  - by eapply promote_one_rows.
  - by eapply requeue_rows.
  - rewrite (move_rows _ _ _ _ _ _ Ha). auto with sluice.
  - by eapply cancel_rows.
  - by eapply replay_rows.
  - by eapply prune_finished_rows.
  - by eapply prune_dead_rows.
  - by eapply force_rows.
  - injection Ha as <- _. auto with sluice.
Qed.

(** The jobs table on its own: rows sit at their identifier and are well formed. *)
Definition table_ok (t : gmap uuid Job) : Prop :=
  keyed t ∧ ∀ id j, t !! id = Some j → job_ok j.

Lemma rows_step_table_ok tk t t' : rows_step tk t t' → table_ok t → table_ok t'.
Proof.
  intros Hr [Hk Hok]. split; intros id j' Hj'; destruct (Hr id) as [He|Hs].
  - apply Hk. by rewrite <- He.
  - rewrite Hj' in Hs. destruct (t !! id) as [j|] eqn:Hj.
    + destruct (row_step_immutable _ _ _ _ Hs) as [-> _]. by apply Hk.
    + by inversion Hs.
  - apply (Hok id). by rewrite <- He.
  - rewrite Hj' in Hs. eapply row_step_ok; [|exact Hs]. intros j Hj. by apply (Hok id).
Qed.

Lemma reachable_table_ok s : reachable s → table_ok (jobs (s_db s)).
Proof.
  intros Hr. unfold reachable in Hr. remember sys_init as s0 eqn:H0.
  assert (table_ok (jobs (s_db s0))) as Hi by (subst; by split; intros id j; cbn; rewrite lookup_empty).
  clear H0. induction Hr as [|s1 s2 s3 Hst _ IH]; [done|]. apply IH.
  destruct (step_rows s1 s2 (proj1 Hi) Hst) as (tk&_&Hrows). by eapply rows_step_table_ok.
Qed.
End step_rows.

(** ** The abstract lifecycle

    What the documentation promises of one job, without tables, columns or clocks:
    a state, how many attempts have failed, and who owns it. *)
Record view := mkView { v_state : State; v_attempt : Z; v_owner : option uuid }.

Definition view_of (j : Job) : view := mkView (State_ j) (Attempt j) (ClaimToken j).

Inductive lifecycle (max : Z) : option view → option view → Prop :=
| lc_submit s :
    s = StatePending ∨ s = StateScheduled → lifecycle max None (Some (mkView s 0 None))
| lc_release a s :
    s = StateScheduled ∨ s = StateFailed →
    lifecycle max (Some (mkView s a None)) (Some (mkView StatePending a None))
| lc_claim a t :
    a <= max → lifecycle max (Some (mkView StatePending a None)) (Some (mkView StateRunning a (Some t)))
| lc_succeed a t :
    lifecycle max (Some (mkView StateRunning a (Some t))) (Some (mkView StateSucceeded a None))
| lc_fail a t :
    a < max → lifecycle max (Some (mkView StateRunning a (Some t))) (Some (mkView StateFailed (a + 1) None))
| lc_expire a t :
    a < max → lifecycle max (Some (mkView StateRunning a (Some t))) (Some (mkView StatePending (a + 1) None))
| lc_exhaust t :
    lifecycle max (Some (mkView StateRunning max (Some t))) (Some (mkView StateDead (max + 1) None))
| lc_cancel a s :
    s = StatePending ∨ s = StateScheduled ∨ s = StateFailed →
    lifecycle max (Some (mkView s a None)) (Some (mkView StateCancelled a None))
| lc_force a s o :
    s = StatePending ∨ s = StateScheduled ∨ s = StateFailed ∨ s = StateRunning →
    lifecycle max (Some (mkView s a o)) (Some (mkView StateDead a None))
| lc_replay a :
    lifecycle max (Some (mkView StateDead a None)) (Some (mkView StatePending 0 None))
| lc_prune a s :
    s = StateSucceeded ∨ s = StateCancelled ∨ s = StateDead →
    lifecycle max (Some (mkView s a None)) None.

Lemma idle_token j : job_ok j → State_ j ≠ StateRunning → ClaimToken j = None.
Proof. intros Hj Hs. apply eq_None_not_Some. by rewrite (jo_token j Hj). Qed.

(** A job that can still run has attempts left. *)
Lemma attempt_le_max j : job_ok j → State_ j ≠ StateDead → Attempt j <= MaxRetries j.
Proof. intros Hj Hs. pose proof (jo_attempt j Hj) as Ha. rewrite decide_False in Ha by done. lia. Qed.

(** One row's step is one step of its view, or none (a heartbeat). *)
Lemma row_step_view tk id o o' :
  (∀ j, o = Some j → job_ok j) → row_step tk id o o' →
  view_of <$> o' = view_of <$> o
  ∨ lifecycle (default 0 (MaxRetries <$> o)) (view_of <$> o) (view_of <$> o').
Proof.
  intros Ho Hr. destruct Hr; cbn; unfold view_of; row_cbn; try specialize (Ho _ eq_refl).
  - right. rewrite H2, H4. by apply lc_submit.
  - right. rewrite H, (idle_token j Ho) by (by rewrite H). apply lc_release. auto.
  - right. rewrite H, (idle_token j Ho) by (by rewrite H). apply lc_release. auto.
  - right. rewrite H, (idle_token j Ho) by (by rewrite H). apply lc_claim.
    apply attempt_le_max; [done|]. by rewrite H.
  - by left.
  - right. apply owns_iff in H as [-> ->]; [|done]. apply lc_succeed.
  - right. apply owns_iff in H as [Hs Ht]; [|done]. rewrite Hs, Ht.
    apply attempt_state_Some in H0 as [-> ->]. destruct (Z.ltb_spec (MaxRetries j) (Attempt j + 1)).
    + assert (Attempt j <= MaxRetries j) by (apply attempt_le_max; [done|by rewrite Hs]).
      replace (Attempt j) with (MaxRetries j) by lia. apply lc_exhaust.
    + apply lc_fail. lia.
  - right. apply stale_iff in H as [Hs _]; [|done]. destruct (proj2 (jo_token j Ho) Hs) as [t Ht]. rewrite Hs, Ht.
    apply attempt_state_Some in H0 as [-> ->]. destruct (Z.ltb_spec (MaxRetries j) (Attempt j + 1)).
    + assert (Attempt j <= MaxRetries j) by (apply attempt_le_max; [done|by rewrite Hs]).
      replace (Attempt j) with (MaxRetries j) by lia. apply lc_exhaust.
    + apply lc_expire. lia.
  - right. apply cancellable_iff in H.
    rewrite (idle_token j Ho) by (destruct H as [->|[->| ->]]; done). by apply lc_cancel.
  - right. apply force_failable_iff in H; [|done]. apply lc_force. tauto.
  - right. rewrite H, (idle_token j Ho) by (by rewrite H). apply lc_replay.
  - right. rewrite (idle_token j Ho) by (destruct H as [->|[->| ->]]; done). by apply lc_prune.
Qed.

Section lifecycle_refinement.
Context `{!PgText}.

End lifecycle_refinement.
