(* ===== verification/Claims.v ===== *)
(** * Claims: fencing, exclusive ownership, bounded execution

    What the claim token buys, over every run of the transition system of
    [Lifecycle]: at most one claim of a job can record an outcome, a claim that has
    lost its job can never change it again, and a job is executed at most
    [max_retries + 1] times per submission or replay. *)

From S2P Require Import Prelude GoBase Job Db Storage Lifecycle.

Open Scope Z_scope.

Section step_kinds.
Context `{!PgText}.

(** Steps by what they do to the ledger. *)
Inductive step_kind (s s' : sys) : Prop :=
| sk_plain :
    s_claims s' = s_claims s → s_replays s' = s_replays s →
    rows_step KPlain (jobs (s_db s)) (jobs (s_db s')) →
    step_kind s s'
| sk_insert row :
    jobs (s_db s) !! ID row = None → fresh_job s (ID row) →
    row_step KInsert (ID row) None (Some row) →
    existsb (same_key row) (rows (jobs (s_db s))) = false →
    s' = with_db s (mkDb (<[ID row := row]> (jobs (s_db s))) (job_runs (s_db s)) (dead_letter (s_db s))) →
    step_kind s s'
| sk_claim c j now w deadline :
    jobs (s_db s) !! c_job c = Some j → State_ j = StatePending → fresh_claim s (c_run c) (c_token c) →
    s' = (let j' := claimed_row now w (c_token c) deadline j in
          mkSys (mkDb (<[c_job c := j']> (jobs (s_db s))) (job_runs (s_db s) ++ [opened_run (c_run c) now j'])
                   (dead_letter (s_db s)))
            (c :: s_claims s) (s_replays s)) →
    step_kind s s'
| sk_replay id j now :
    jobs (s_db s) !! id = Some j → State_ j = StateDead →
    s' = mkSys (mkDb (<[id := replayed_row now j]> (jobs (s_db s))) (job_runs (s_db s))
                  (delete id (dead_letter (s_db s))))
           (s_claims s) (id :: s_replays s) →
    step_kind s s'.

Lemma sk_same s : step_kind s s.
Proof. apply sk_plain; [done|done|apply rows_step_refl]. Qed.

Lemma sk_exec s f {A} (st : stmt db A) :
  (∀ d' a, st (s_db s) = Ok (d', a) → rows_step KPlain (jobs (s_db s)) (jobs d')) →
  step_kind s (with_db s (fst (exec f st (s_db s)))).
Proof.
  intros Hr. apply (exec_ind (λ d', step_kind s (with_db s d'))); [destruct s; apply sk_same|].
  intros d' a Ha. apply sk_plain; [done|done|by eapply Hr].
Qed.

Lemma insert_stmt_inv j d d' u :
  submittable j → insert_stmt j d = Ok (d', u) →
  ∃ row, new_row j = Some row ∧ jobs d !! ID row = None ∧ row_step KInsert (ID row) None (Some row)
    ∧ existsb (same_key row) (rows (jobs d)) = false
    ∧ d' = mkDb (<[ID row := row]> (jobs d)) (job_runs d) (dead_letter d).
Proof.
  intros (Hs&Ha&Hm) Hst. unfold insert_stmt in Hst. destruct (new_row j) as [row|] eqn:Hrow; [|done].
  destruct (conflicts (jobs d) row) eqn:Hc; [done|]. injection Hst as <- _.
  destruct (new_row_Some j row Hrow) as (Ei&_&_&Es&Ea&Em&?&?&?).
  unfold conflicts in Hc. bool_to_prop. exists row. split; [done|]. split; [by apply eq_None_not_Some|].
  split; [constructor; congruence|]. done.
Qed.

Lemma claim_stmt_inv locked now jobID w token deadline runID d d' o :
  claim_stmt locked now jobID w token deadline runID d = Ok (d', o) →
  (o = None ∧ d' = d)
  ∨ ∃ j, jobs d !! jobID = Some j ∧ State_ j = StatePending
      ∧ o = Some (claimed_row now w token deadline j, runID)
      ∧ d' = mkDb (<[jobID := claimed_row now w token deadline j]> (jobs d))
               (job_runs d ++ [opened_run runID now (claimed_row now w token deadline j)]) (dead_letter d).
Proof.
  intros Hst. unfold claim_stmt in Hst. stmt_cases Hst; auto. bool_to_prop. right. eauto 10.
Qed.

Lemma claim_limited_inv locked now jobID tenantID limit w token deadline runID d r :
  claim_limited_tx locked now jobID tenantID limit w token deadline runID d = Ok r →
  claim_stmt locked now jobID w token deadline runID d = Ok r
  ∧ count_in_flight tenantID d < limit.
Proof. unfold claim_limited_tx. destruct (Z.leb_spec limit (count_in_flight tenantID d)); [done|]. auto. Qed.

Lemma claim_kind s f (st : stmt db (option (Job * uuid))) locked now jobID w token deadline runID :
  fresh_claim s runID token →
  (∀ r, st (s_db s) = Ok r → claim_stmt locked now jobID w token deadline runID (s_db s) = Ok r) →
  step_kind s (mkSys (fst (exec f st (s_db s))) (note_claim f jobID token (st (s_db s)) (s_claims s)) (s_replays s)).
Proof.
  intros Hf Hst. unfold exec, note_claim.
  destruct (st (s_db s)) as [[d' o]|e]; [|destruct f, s; apply sk_same].
  destruct (claim_stmt_inv _ _ _ _ _ _ _ _ _ _ (Hst _ eq_refl)) as [[-> ->]|(j&Hj&Hp&->&->)].
  - destruct f, s; apply sk_same.
  - assert (step_kind s (mkSys (s_db s) (s_claims s) (s_replays s))) by (destruct s; apply sk_same).
    destruct f; cbn; [|done|]; by apply (sk_claim _ _ (mkClaim jobID runID token) j now w deadline).
Qed.

Lemma replay_tx_inv now jobID tenantID d r :
  replay_tx now jobID tenantID d = Ok r →
  ∃ j, jobs d !! jobID = Some j ∧ TenantID j = tenantID ∧ State_ j = StateDead
    ∧ r = (mkDb (<[jobID := replayed_row now j]> (jobs d)) (job_runs d) (delete jobID (dead_letter d)), tt).
Proof. intros Hst. unfold replay_tx in Hst. stmt_cases Hst. bool_to_prop. eauto. Qed.

Lemma step_kinds s s' : keyed (jobs (s_db s)) → step s s' → step_kind s s'.
Proof.
  intros Hk [].
  - apply (exec_ind (λ d', step_kind s (with_db s d'))); [destruct s; apply sk_same|].
    intros d' a Ha. destruct (insert_stmt_inv _ _ _ _ H0 Ha) as (row&Hrow&Hn&Hr&He&->).
    apply (sk_insert _ _ row); auto. by destruct (new_row_Some _ _ Hrow) as [-> _].
  - by eapply claim_kind.
  - eapply claim_kind; [done|]. intros r Hr. by apply claim_limited_inv in Hr as [? _].
  - apply sk_exec. intros. by eapply extend_rows.
  - apply sk_exec. intros. by eapply complete_rows.
  - apply sk_exec. intros. by eapply fail_rows.
  - apply sk_exec. intros. eapply promote_rows; [done| |done]. intros. by apply rs_release.
  - apply sk_exec. intros. eapply promote_rows; [done| |done]. intros. by apply rs_retry.
  - apply sk_exec. intros. by eapply promote_one_rows.
  - apply sk_exec. intros. by eapply requeue_rows.
  - apply sk_exec. intros d' a Ha. rewrite (move_rows _ _ _ _ _ _ Ha). apply rows_step_refl.
  - apply sk_exec. intros. by eapply cancel_rows.
  - unfold exec, note_replay. destruct (replay_tx now jobID tenantID (s_db s)) as [r|e] eqn:Hr.
    + destruct (replay_tx_inv _ _ _ _ _ Hr) as (j&Hj&_&Hd&->).
      destruct f; [by eapply sk_replay|destruct s; apply sk_same|by eapply sk_replay].
    + destruct f, s; apply sk_same.
  - apply sk_exec. intros. by eapply prune_finished_rows.
  - apply sk_exec. intros. by eapply prune_dead_rows.
  - apply sk_exec. intros. by eapply force_rows.
  - apply sk_exec. intros d' a [= <- _]. apply rows_step_refl.
Qed.
End step_kinds.

Section fencing.
Context `{!PgText}.

Lemma reachable_inv (P : sys → Prop) :
  P sys_init → (∀ s s', P s → step s s' → P s') → ∀ s, reachable s → P s.
Proof. intros H0 HS s Hr. unfold reachable in Hr. revert s Hr. apply rtc_ind_r; eauto. Qed.

(** A plain call never hands out a token: the owner after it was the owner before. *)
Lemma row_step_token id o j' t :
  row_step KPlain id o (Some j') → ClaimToken j' = Some t → ∃ j, o = Some j ∧ ClaimToken j = Some t.
Proof. intros Hr Ht. inversion Hr; subst; row_cbn; try congruence; eauto. Qed.

Record claims_ok (s : sys) : Prop := {
  co_table : table_ok (jobs (s_db s));
  co_tokens : NoDup (c_token <$> s_claims s);
  co_runs : NoDup (c_run <$> s_claims s);
  co_owner id j t : jobs (s_db s) !! id = Some j → ClaimToken j = Some t →
    ∃ c, c ∈ s_claims s ∧ c_job c = id ∧ c_token c = t;
}.

Lemma rows_step_token t t' id j' tok :
  rows_step KPlain t t' → t' !! id = Some j' → ClaimToken j' = Some tok →
  ∃ j, t !! id = Some j ∧ ClaimToken j = Some tok.
Proof.
  intros Hr Hj Ht. destruct (Hr id) as [He|Hs].
  - rewrite <- He. eauto.
  - rewrite Hj in Hs. by eapply row_step_token.
Qed.

Lemma step_table_ok s s' : table_ok (jobs (s_db s)) → step s s' → table_ok (jobs (s_db s')).
Proof.
  intros Ht Hst. destruct (step_rows s s' (proj1 Ht) Hst) as (tk&_&Hr). by eapply rows_step_table_ok.
Qed.

Lemma claims_ok_step s s' : claims_ok s → step s s' → claims_ok s'.
Proof.
  intros [Ht Hn Hr Ho] Hst. pose proof (step_table_ok s s' Ht Hst) as Ht'.
  destruct (step_kinds s s' (proj1 Ht) Hst) as [Hc _ Hrows|row Hnone _ Hrow _ ->|c j now w dl Hj Hp [Hf1 Hf2] ->|id j now Hj Hd ->];
    (split; [exact Ht'|..]); cbn in *; rewrite ?Hc; try done; clear Ht'.
  - intros id j' t Hj' Ht'. destruct (rows_step_token _ _ _ _ _ Hrows Hj' Ht') as (j&Hj&Hjt). eauto.
  - intros id j t Hj Hjt. destruct (decide (id = ID row)) as [->|].
    + rewrite lookup_insert_eq in Hj. injection Hj as <-. inversion Hrow; congruence.
    + rewrite lookup_insert_ne in Hj by done. eauto.
  - by constructor.
  - by constructor.
  - intros id j' t Hj' Hjt. destruct (decide (id = c_job c)) as [->|].
    + rewrite lookup_insert_eq in Hj'. injection Hj' as <-. injection Hjt as <-. exists c. split; [by left|done].
    + rewrite lookup_insert_ne in Hj' by done. destruct (Ho id j' t Hj' Hjt) as (c'&?&?&?).
      exists c'. split; [by right|done].
  - intros id' j' t Hj' Hjt. destruct (decide (id' = id)) as [->|].
    + rewrite lookup_insert_eq in Hj'. injection Hj' as <-. discriminate Hjt.
    + rewrite lookup_insert_ne in Hj' by done. eauto.
Qed.

Lemma reachable_claims_ok s : reachable s → claims_ok s.
Proof.
  apply (reachable_inv claims_ok); [|apply claims_ok_step].
  split; [split|constructor|constructor|]; intros id j; cbn; by rewrite lookup_empty.
Qed.

(** Claims are told apart by their token. *)
Lemma claim_by_token s c1 c2 :
  claims_ok s → c1 ∈ s_claims s → c2 ∈ s_claims s → c_token c1 = c_token c2 → c1 = c2.
Proof.
  intros Hok H1 H2 He. apply list_elem_of_lookup in H1 as [i1 H1], H2 as [i2 H2].
  assert (i1 = i2) as ->; [|congruence].
  eapply (NoDup_lookup _ _ _ (c_token c1) (co_tokens s Hok)); rewrite list_lookup_fmap;
    [by rewrite H1|by rewrite H2, He].
Qed.

(** Claim [c] owns its job: a call with its token takes effect. *)
Definition holds (s : sys) (c : claim) : Prop :=
  ∃ j, jobs (s_db s) !! c_job c = Some j ∧ owns (c_token c) j = true.

(** Once lost, a claim is never regained: nothing installs its token again. *)
Lemma lost_stays_lost s s' c :
  claims_ok s → c ∈ s_claims s → ¬ holds s c → step s s' → c ∈ s_claims s' ∧ ¬ holds s' c.
Proof.
  intros Hok Hc Hlost Hst.
  assert (∀ s0, table_ok (jobs (s_db s0)) → holds s0 c ↔
            ∃ j, jobs (s_db s0) !! c_job c = Some j ∧ ClaimToken j = Some (c_token c)) as Hh.
  { intros s0 [_ Hj0]. split; intros (j&Hj&Ho); exists j; (split; [done|]).
    - by apply owns_iff in Ho as [_ ?]; [|eauto].
    - apply owns_iff; [eauto|]. split; [|done]. apply (jo_token j); [eauto|by rewrite Ho]. }
  pose proof (step_table_ok s s' (co_table s Hok) Hst) as Ht'.
  rewrite Hh in Hlost by apply Hok. rewrite Hh by done. clear Hh Ht'.
  destruct (step_kinds s s' (proj1 (co_table s Hok)) Hst)
    as [Hcs _ Hrows|row Hnone _ Hrow _ ->|c' j now w dl Hj Hp [Hf _] ->|id j now Hj Hd ->]; cbn in *.
  - rewrite Hcs. split; [done|]. intros (j'&Hj'&Htok). apply Hlost. by eapply rows_step_token.
  - split; [done|]. intros (j'&Hj'&Htok). destruct (decide (c_job c = ID row)) as [He|];
      [rewrite He, lookup_insert_eq in Hj'; inversion Hrow; congruence|rewrite lookup_insert_ne in Hj' by done; eauto].
  - split; [by right|]. intros (j'&Hj'&Htok). destruct (decide (c_job c = c_job c')) as [He|];
      [|rewrite lookup_insert_ne in Hj' by done; eauto].
    rewrite He, lookup_insert_eq in Hj'. injection Hj' as <-. injection Htok as Htok.
    apply Hf. rewrite Htok. by apply list_elem_of_fmap_2.
  - split; [done|]. intros (j'&Hj'&Htok). destruct (decide (c_job c = id)) as [He|];
      [|rewrite lookup_insert_ne in Hj' by done; eauto].
    rewrite He, lookup_insert_eq in Hj'. injection Hj' as <-. discriminate Htok.
Qed.

(** A call by a claim that does not own its job changes nothing. *)
Lemma not_holding_noop s c :
  ¬ holds s c →
  (∀ f now, fst (CompleteJob f now (c_job c) (c_run c) (c_token c) (s_db s)) = s_db s)
  ∧ (∀ f now e next, fst (FailJob f now (c_job c) (c_run c) (c_token c) e next (s_db s)) = s_db s)
  ∧ (∀ f deadline, fst (ExtendDeadline f (c_job c) (c_token c) deadline (s_db s)) = s_db s).
Proof.
  intros Hn. unfold CompleteJob, FailJob, ExtendDeadline, exec, complete_stmt, fail_stmt, extend_stmt.
  destruct (jobs (s_db s) !! c_job c) as [j|] eqn:Hj.
  - assert (owns (c_token c) j = false) as -> by (apply not_true_is_false; intros ?; apply Hn; by exists j).
    repeat split; intros; repeat case_match; simplify_eq; done.
  - repeat split; intros; repeat case_match; simplify_eq; done.
Qed.

(** C1: Claim fencing. Once a worker's claim has lost its job (the reaper gave it to
    someone else, an operator force-failed it, or its outcome was recorded), no later
    call with that claim's token, in any continuation of the run, changes anything:
    completing, failing and extending leave every table exactly as it was. *)
Theorem stale_claim_fenced s s' c :
  reachable s → c ∈ s_claims s → ¬ holds s c → rtc step s s' →
  (∀ f now, fst (CompleteJob f now (c_job c) (c_run c) (c_token c) (s_db s')) = s_db s')
  ∧ (∀ f now e next, fst (FailJob f now (c_job c) (c_run c) (c_token c) e next (s_db s')) = s_db s')
  ∧ (∀ f deadline, fst (ExtendDeadline f (c_job c) (c_token c) deadline (s_db s')) = s_db s').
Proof.
  intros Hr%reachable_claims_ok Hc Hn Hss. apply not_holding_noop.
  enough (claims_ok s' ∧ c ∈ s_claims s' ∧ ¬ holds s' c) by tauto.
  induction Hss as [|s1 s2 s3 Hst _ IH]; [done|].
  destruct (lost_stays_lost s1 s2 c Hr Hc Hn Hst) as [? ?]. apply IH; [by eapply claims_ok_step|done|done].
Qed.

(** C2: Exclusive ownership. In any reachable state at most one claim ever made of
    a job can still record an outcome for it, and a running job has one. *)
Theorem exclusive_ownership s id :
  reachable s →
  (∀ c1 c2, c1 ∈ s_claims s → c2 ∈ s_claims s → c_job c1 = id → c_job c2 = id →
     holds s c1 → holds s c2 → c1 = c2)
  ∧ (∀ j, jobs (s_db s) !! id = Some j → in_flight j = true →
       ∃ c, c ∈ s_claims s ∧ c_job c = id ∧ holds s c).
Proof.
  intros Hok%reachable_claims_ok. pose proof (proj2 (co_table s Hok)) as Hj. split.
  - intros c1 c2 H1 H2 <- He (j1&Hj1&Ho1) (j2&Hj2&Ho2). rewrite He in Hj2. assert (j2 = j1) as -> by congruence.
    apply owns_iff in Ho1 as [_ Ho1], Ho2 as [_ Ho2]; [|eauto..].
    apply (claim_by_token s); [done..|congruence].
  - intros j Hid Hfl. pose proof (Hj id j Hid) as Hjok. apply in_flight_running in Hfl; [|done].
    destruct (proj2 (jo_token j Hjok) Hfl) as [t Ht]. destruct (co_owner s Hok id j t Hid Ht) as (c&Hc&<-&<-).
    exists c. split; [done|]. split; [done|]. exists j. split; [done|]. by apply owns_iff.
Qed.
End fencing.

(** ** How often a job is executed *)
Definition executions (s : sys) (id : uuid) : Z :=
  Z.of_nat (length (filter (λ c, c_job c = id) (s_claims s))).
Definition replays (s : sys) (id : uuid) : Z :=
  Z.of_nat (length (filter (λ i, i = id) (s_replays s))).

(** The execution a job has had beyond its counted attempts: the current one, the
    successful one, or one an operator cut short. *)
Definition uncounted (j : Job) : Z :=
  match State_ j with
  | StateClaimed | StateRunning | StateSucceeded => 1
  | StateDead => if Attempt j <=? MaxRetries j then 1 else 0
  | _ => 0
  end.

(** Executions spent so far in the current life of the job. *)
Definition spent (j : Job) : Z := Attempt j + uncounted j.

Lemma spent_bounds j : job_ok j → 0 <= spent j <= MaxRetries j + 1.
Proof.
  intros Hj. pose proof (jo_max j Hj). pose proof (jo_attempt j Hj) as Ha.
  unfold spent, uncounted. destruct (State_ j) eqn:Hs; cbn [decide] in *; zcases;
    destruct (decide _) in Ha; try congruence; lia.
Qed.

Lemma uncounted_idle j :
  State_ j = StatePending ∨ State_ j = StateScheduled ∨ State_ j = StateFailed → uncounted j = 0.
Proof. unfold uncounted. by intros [->|[->| ->]]. Qed.

(** A call that is neither a claim nor a replay never lowers what a job has spent. *)
Lemma row_step_spent id j j' : job_ok j → row_step KPlain id (Some j) (Some j') → spent j <= spent j'.
Proof.
  intros Hj Hr. pose proof (attempt_le_max j Hj) as Ha.
  inversion Hr; subst; try congruence; row_guard Hj; unfold spent, uncounted; row_cbn;
    repeat match goal with Hs : State_ ?j = _ |- context [State_ ?j] => rewrite Hs in * end;
    try match goal with |- context [?m <? ?a + 1] => destruct (Z.ltb_spec m (a + 1)) end;
    zcases; try lia; try (specialize (Ha ltac:(done)); lia).
Qed.

Section executions.
Context `{!PgText}.

Definition executions_bounded (s : sys) : Prop :=
  ∀ id j, jobs (s_db s) !! id = Some j →
    executions s id <= replays s id * (MaxRetries j + 1) + spent j.

Lemma count_absent {A} (g : A → uuid) id l : id ∉ (g <$> l) → filter (λ c, g c = id) l = [].
Proof.
  intros Hn. induction l as [|c l IH]; [done|].
  rewrite filter_cons. rewrite fmap_cons, not_elem_of_cons in Hn. destruct Hn as [Hne Hn].
  rewrite decide_False by congruence. by apply IH.
Qed.

Lemma executions_cons s d c rs id :
  executions (mkSys d (c :: s_claims s) rs) id = (if decide (c_job c = id) then 1 else 0) + executions s id.
Proof. unfold executions. cbn [s_claims]. rewrite filter_cons. destruct (decide _); cbn [length]; lia. Qed.

Lemma replays_cons s d cs i id :
  replays (mkSys d cs (i :: s_replays s)) id = (if decide (i = id) then 1 else 0) + replays s id.
Proof. unfold replays. cbn [s_replays]. rewrite filter_cons. destruct (decide _); cbn [length]; lia. Qed.

Lemma executions_bounded_step s s' :
  table_ok (jobs (s_db s)) → executions_bounded s → step s s' → executions_bounded s'.
Proof.
  intros Ht Hb Hst id j' Hj'.
  destruct (step_kinds s s' (proj1 Ht) Hst)
    as [Hcs Hrs Hrows|row Hnone [Hf1 Hf2] Hrow _ ->|c j now w dl Hj Hp _ ->|i j now Hj Hd ->].
  - unfold executions, replays. rewrite Hcs, Hrs. fold (executions s id). fold (replays s id).
    destruct (Hrows id) as [He|Hr]; [apply Hb; by rewrite <- He|].
    rewrite Hj' in Hr. destruct (jobs (s_db s) !! id) as [j|] eqn:Hj; [|inversion Hr; congruence].
    pose proof (row_step_spent id j j' (proj2 Ht id j Hj) Hr). specialize (Hb id j Hj).
    destruct (row_step_immutable _ _ _ _ Hr) as (_&_&_&_&_&->&_). lia.
  - cbn in Hj'. destruct (decide (id = ID row)) as [->|]; [|rewrite lookup_insert_ne in Hj' by done; by apply Hb].
    rewrite lookup_insert_eq in Hj'. injection Hj' as <-.
    assert (0 <= spent row) by (apply spent_bounds, (row_step_ok KInsert (ID row) None row); [by intros|done]).
    unfold executions, replays. cbn [s_claims s_replays with_db].
    rewrite (count_absent c_job) by done. rewrite (count_absent (λ i, i)) by (by rewrite list_fmap_id). cbn. lia.
  - rewrite executions_cons. unfold replays. cbn [s_replays]. fold (replays s id). cbn in Hj'.
    destruct (decide (c_job c = id)) as [<-|]; [|rewrite lookup_insert_ne in Hj' by done; specialize (Hb id j' Hj'); lia].
    rewrite lookup_insert_eq in Hj'. injection Hj' as <-. specialize (Hb _ j Hj).
    unfold spent in *. rewrite (uncounted_idle j) in Hb by auto. unfold uncounted. row_cbn. lia.
  - rewrite replays_cons. unfold executions. cbn [s_claims]. fold (executions s id). cbn in Hj'.
    destruct (decide (i = id)) as [<-|]; [|rewrite lookup_insert_ne in Hj' by done; specialize (Hb id j' Hj'); lia].
    rewrite lookup_insert_eq in Hj'. injection Hj' as <-. specialize (Hb i j Hj).
    pose proof (spent_bounds j (proj2 Ht i j Hj)). unfold spent, uncounted. row_cbn. nia.
Qed.

Lemma reachable_executions s : reachable s → table_ok (jobs (s_db s)) ∧ executions_bounded s.
Proof.
  revert s. apply reachable_inv.
  - split; [split; intros i k; cbn; by rewrite lookup_empty|]. intros i k. cbn. by rewrite lookup_empty.
  - intros s s' [Ht Hb] Hst. split; [by eapply step_table_ok|by eapply executions_bounded_step].
Qed.

(** C3: Executions are bounded. A job is handed to workers at most
    [max_retries + 1] times for its submission and for each replay of it, however
    often workers die, replies are lost, entries are queued twice or schedulers race;
    and, on the way, what it has spent of that allowance only grows until a replay. *)
Theorem bounded_executions s id j :
  reachable s → jobs (s_db s) !! id = Some j →
  executions s id <= (replays s id + 1) * (MaxRetries j + 1)
  ∧ executions s id <= replays s id * (MaxRetries j + 1) + spent j.
Proof.
  intros Hr Hj. destruct (reachable_executions s Hr) as [Ht Hb].
  specialize (Hb id j Hj). pose proof (spent_bounds j (proj2 Ht id j Hj)). split; [nia|done].
Qed.
End executions.
