(* ===== verification/Heartbeat.v ===== *)
(** * Heartbeats against the reaper (worker.go, [heartbeat]; storage.go, [RequeueStaleJob])

    When a claim is kept. The goroutine of [heartbeat] takes a tick every five seconds,
    calls Redis, then moves the deadline in Postgres fifteen seconds ahead; the reaper
    takes a job whose deadline has passed. The times of the beats follow from how long
    the calls take, and between them the reaper runs whenever it likes. *)

From S2P Require Import Prelude GoBase Job Redis Queue Db Storage Worker Lifecycle StorageFacts.

Open Scope Z_scope.

Definition heartbeatInterval : Z := 5 * Second.

(** One beat: how long the Redis call took, how long after it the UPDATE took effect,
    how long its reply took, and whether it took effect at all. *)
Record beat := mkBeat { b_redis : Z; b_write : Z; b_reply : Z; b_ok : bool }.

Definition beat_time (b : beat) : Z := b_redis b + b_write b + b_reply b.

(** When the goroutine takes its next tick. The ticker, made at [s], sends every
    [heartbeatInterval] into a channel of capacity one: a tick that comes while the
    goroutine is busy waits there, further ones are dropped. *)
Definition next_start (s start free : Z) : Z :=
  Z.max free (s + heartbeatInterval * ((start - s) / heartbeatInterval + 1)).

Definition after_beat (s start : Z) (b : beat) : Z := next_start s start (start + beat_time b).

(** The start of the beat after those of [l]. *)
Fixpoint start_after (s start : Z) (l : list beat) : Z :=
  match l with
  | [] => start
  | b :: l' => start_after s (after_beat s start b) l'
  end.

(** What happens to the row: an UPDATE of [ExtendDeadline] whose deadline was computed
    at a time, or a transaction of the reaper. *)
Inductive row_event := Extend (computed : Z) | Reap (f : fault) (now server_now : Z).

Section events.
Context `{!PgText}.
Variables (id token : uuid).

Definition run_event (d : db) (e : row_event) : db :=
  match e with
  | Extend computed => fst (ExtendDeadline NoFault id token (computed + HeartbeatTTL) d)
  | Reap f now server_now => fst (RequeueStaleJob f now server_now id d)
  end.

Definition run_events (es : list row_event) (d : db) : db := foldl run_event d es.
End events.

(** The orders of beats and reaps that time allows: a reap before a beat took effect is
    not later than that, and one after the last beat not later than [limit]. *)
Inductive timed (s limit : Z) : Z → list beat → list row_event → Prop :=
| tl_end start : timed s limit start [] []
| tl_beat start b l es :
    timed s limit (after_beat s start b) l es →
    timed s limit start (b :: l) (if b_ok b then Extend (start + b_redis b) :: es else es)
| tl_reap start b l es f now server_now :
    server_now <= start + b_redis b + b_write b →
    timed s limit start (b :: l) es → timed s limit start (b :: l) (Reap f now server_now :: es)
| tl_reap_last start es f now server_now :
    server_now <= limit → timed s limit start [] es → timed s limit start [] (Reap f now server_now :: es).

(** Beats that take at most [D]; no two in a row are lost ([missed]: the one before
    was). *)
Definition beat_in (D : Z) (b : beat) : Prop :=
  0 <= b_redis b ∧ 0 <= b_write b ∧ 0 <= b_reply b ∧ beat_time b <= D.

Fixpoint one_missed (missed : bool) (l : list beat) : bool :=
  match l with
  | [] => true
  | b :: l' => if b_ok b then one_missed false l' else negb missed && one_missed true l'
  end.

(** Whether the last beat was lost. *)
Fixpoint last_missed (missed : bool) (l : list beat) : bool :=
  match l with [] => missed | b :: l' => last_missed (negb (b_ok b)) l' end.

(** ** Lemmas *)
Lemma pg_ts_gt t : t - 1000 < pg_ts t.
Proof. unfold pg_ts. pose proof (Z.mul_succ_div_gt t 1000 ltac:(lia)). lia. Qed.

Lemma after_beat_le s start b D :
  beat_in D b → D <= heartbeatInterval → start < after_beat s start b <= start + heartbeatInterval.
Proof.
  intros (Hr&Hw&Hp&Ht) HD. unfold after_beat, next_start, heartbeatInterval, Second in *.
  pose proof (Z.mul_div_le (start - s) (5 * 1000000000) ltac:(lia)).
  pose proof (Z.mul_succ_div_gt (start - s) (5 * 1000000000) ltac:(lia)). unfold beat_time in *. lia.
Qed.

Section kept.
Context `{!PgText}.
Variables (id token : uuid).

(** The row is owned, and its deadline is at least [dl]. *)
Definition kept (dl : Z) (d : db) : Prop :=
  ∃ j t, jobs d !! id = Some j ∧ owns token j = true ∧ Deadline j = Some t ∧ dl <= t.

Lemma kept_extend computed dl d :
  kept dl d → kept (pg_ts (computed + HeartbeatTTL)) (run_event id token d (Extend computed)).
Proof.
  intros (j&t&Hj&Ho&_). unfold kept. cbn. unfold ExtendDeadline, exec, extend_stmt. rewrite Hj, Ho. cbn.
  rewrite lookup_insert_eq. eexists _, _. split; [done|]. split; [exact Ho|]. split; [done|lia].
Qed.

Lemma kept_reap f now server_now dl d :
  kept dl d → server_now <= dl → kept dl (run_event id token d (Reap f now server_now)).
Proof.
  intros (j&t&Hj&Ho&Hd&Hdl) Hs. exists j, t. split; [|done].
  change (run_event id token d (Reap f now server_now)) with (fst (exec f (requeue_tx now server_now id) d)).
  destruct (exec_cases f (requeue_tx now server_now id) d) as [->|[b He]]; [done|].
  revert He. generalize (fst (exec f (requeue_tx now server_now id) d)). intros d' He.
  unfold requeue_tx in He. destruct (of_option _) as [runs|]; [|done]. cbn in He. rewrite Hj in He.
  assert (stale server_now j = false) as Hst.
  { unfold stale, past_deadline. rewrite Hd. apply andb_false_iff. right. apply Z.ltb_ge. lia. }
  rewrite Hst in He. injection He as He _. by rewrite <- He.
Qed.

(** A beat that starts within one interval (two after a lost one) of the beat that set
    the deadline takes effect before it. [base] is the start of that beat, [A] what its
    deadline lacks. *)
Lemma kept_timed A D s limit start l es base missed d :
  0 <= A → 0 <= D → A + D + 1000 <= heartbeatInterval →
  Forall (beat_in D) l → one_missed missed l = true →
  start <= base + (if missed then 2 else 1) * heartbeatInterval →
  limit <= start_after s start l + (if last_missed missed l then 1 else 2) * heartbeatInterval - A - 1000 →
  kept (base + HeartbeatTTL - A - 1000) d → timed s limit start l es →
  ∃ dl, kept dl (run_events id token es d).
Proof.
  intros HA HD Hsum Hl Hm Hst Hlim Hk Ht. revert base missed d Hl Hm Hst Hlim Hk.
  assert (HeartbeatTTL = 3 * heartbeatInterval) as HTTL by done.
  assert (0 < heartbeatInterval) by done.
  induction Ht as [start|start b l es Ht IH|start b l es f now sn Hsn Ht IH|start es f now sn Hsn Ht IH];
    intros base missed d Hl Hm Hst Hlim Hk.
  - by eexists.
  - apply Forall_cons in Hl as [Hb Hl]. destruct (after_beat_le s start b D Hb ltac:(lia)) as [_ Hn].
    cbn in Hm, Hlim. destruct (b_ok b) eqn:Hok; cbn in Hlim.
    + cbn. eapply (IH (start + b_redis b) false); [done|done| |done|].
      * destruct Hb as (?&_). lia.
      * destruct Hb as (?&_). eapply (kept_extend (start + b_redis b)) in Hk as (j&t&Hj&Ho&Hd&Hdl).
        exists j, t. split; [exact Hj|]. split; [done|]. split; [done|].
        pose proof (pg_ts_gt (start + b_redis b + HeartbeatTTL)). lia.
    + bool_to_prop. destruct missed; [done|]. by eapply (IH base true); [done|done|lia|done|].
  - cbn. apply (IH base missed); [done|done|done|done|]. apply kept_reap; [done|].
    apply Forall_cons in Hl as [(?&?&?&Hb) _]. unfold beat_time in Hb. destruct missed; [|lia].
    cbn in Hm. lia.
  - cbn. apply (IH base missed); [done|done|done|done|]. apply kept_reap; [done|]. cbn in Hlim. destruct missed; lia.
Qed.

(** C16: A healthy worker keeps its claim. The deadline of the claim was computed at [t0]
    and the ticker started at [s], at most [A] later; every beat takes at most [D], no
    two beats in a row are lost, and [A + D] is below the five seconds between beats (by
    the microsecond Postgres rounds away); the clocks of the worker and the server agree.
    Then, however often and whenever the reaper
    runs, the job stays the worker's while it executes; and from [stop], when the
    execution ended, for ten seconds less [A + D] (five seconds less, if the last beat
    was lost), in which the worker tries to record the outcome. *)
Theorem healthy_claim_kept A D t0 s l es stop d j :
  0 <= A → 0 <= D → A + D + 1000 <= heartbeatInterval →
  t0 <= s <= t0 + A → Forall (beat_in D) l → one_missed false l = true →
  jobs d !! id = Some j → owns token j = true → Deadline j = Some (pg_ts (t0 + HeartbeatTTL)) →
  stop <= start_after s (s + heartbeatInterval) l + D →
  timed s (stop + (if last_missed false l then 1 else 2) * heartbeatInterval - A - D - 1000)
    (s + heartbeatInterval) l es →
  ∃ j', jobs (run_events id token es d) !! id = Some j' ∧ owns token j' = true.
Proof.
  intros HA HD Hsum Hs Hl Hm Hj Ho Hdl Hstop Ht.
  enough (∃ dl, kept dl (run_events id token es d)) as (dl&j'&t&Hj'&Ho'&_) by (by exists j').
  eapply (kept_timed A D) with (base := t0 + A) (missed := false); [done..| | | |exact Ht]; [lia| |].
  - destruct (last_missed false l); lia.
  - exists j, (pg_ts (t0 + HeartbeatTTL)). split; [done|]. split; [done|]. split; [done|].
    pose proof (pg_ts_gt (t0 + HeartbeatTTL)). lia.
Qed.

(** C37: A stalled Redis loses the claim of a healthy job. The beat writes a key in Redis,
    which nothing reads, before it moves the deadline in Postgres. If the Redis call of
    the first beat takes more than ten seconds, there is a moment before the UPDATE at
    which the reaper, with Postgres and the worker in good health, takes the job away; the
    UPDATE then finds nothing to extend, and the job runs a second time. *)
Theorem redis_stall_loses_claim t0 s r limit d j now :
  t0 <= s → HeartbeatTTL - heartbeatInterval < r →
  jobs d !! id = Some j → owns token j = true → Deadline j = Some (pg_ts (t0 + HeartbeatTTL)) →
  0 <= Attempt j <= MaxMaxRetries →
  runs_fit (λ r, bool_decide (rr_job_id r = id) && bool_decide (rr_finished_at r = None)) (pg_ts now) d →
  ∃ server_now j', let es := [Reap NoFault now server_now; Extend (s + heartbeatInterval + r)] in
    timed s limit (s + heartbeatInterval) [mkBeat r 0 0 true] es
    ∧ jobs (run_events id token es d) !! id = Some j' ∧ owns token j' = false
    ∧ Attempt j' = Attempt j + 1 ∧ State_ j' = (if ShouldRetry j then StatePending else StateDead).
Proof.
  intros Hs Hr Hj Ho Hdl Ha Hfit.
  set (sn := s + heartbeatInterval + r). assert (pg_ts (t0 + HeartbeatTTL) < sn) as Hlt.
  { pose proof (pg_ts_le (t0 + HeartbeatTTL)). unfold sn. lia. }
  destruct (RequeueStaleJob_outcome now sn id d j Hj) as (d'&j'&Hq&Hj'&Hst&Hat&Htok&_&_&_&_).
  { unfold stale, past_deadline. rewrite Hdl. apply andb_true_iff. split; [|by apply Z.ltb_lt].
    unfold owns in Ho. by apply andb_true_iff in Ho as [_ Ho]. }
  { unfold MaxMaxRetries in Ha. lia. }
  { done. }
  assert (owns token j' = false) as Hno by (unfold owns; by rewrite Htok).
  exists sn, j'. split; [|split; [|split; [done|split; [done|done]]]].
  - apply tl_reap; [cbn; unfold sn; lia|]. apply (tl_beat s limit _ (mkBeat r 0 0 true) []). constructor.
  - unfold run_events. cbn [foldl run_event]. rewrite Hq. cbn [fst].
    unfold ExtendDeadline, exec, extend_stmt. by rewrite Hj', Hno.
Qed.
End kept.
