(* ===== verification/TelemetryFacts.v ===== *)
(** * What contexts, traces and metrics carry

    A handler finds in its context the tenant and the identifiers the middleware put
    there; every execution of a job, retries included, belongs to the trace of the
    request that submitted it; no update of a metric has the wrong labels, and the
    counters count what their labels say. *)

From stdpp Require Import pretty.
From S2P Require Import Prelude GoBase Encoding Job Queue Db Storage Tenants Webhook Telemetry Lifecycle Claims.

Open Scope Z_scope.

(** ** Contexts *)
Lemma Value_here ctx k v : Value (WithValue ctx k v) k = Some v.
Proof. cbn. by rewrite decide_True. Qed.

Lemma Value_other ctx k k' v : k ≠ k' → Value (WithValue ctx k v) k' = Value ctx k'.
Proof. intros Hk. cbn. by rewrite decide_False. Qed.

#[export] Hint Rewrite Value_here : sluice.

Lemma FromContext_WithTenant ctx t : FromContext (WithTenant ctx t) = t.
Proof. unfold FromContext, WithTenant. by rewrite Value_here. Qed.

Lemma CorrelationID_WithTenant ctx t : CorrelationID (WithTenant ctx t) = CorrelationID ctx.
Proof. unfold CorrelationID, WithTenant. by rewrite Value_other. Qed.

Lemma CorrelationID_WithCorrelationID ctx id : CorrelationID (WithCorrelationID ctx id) = id.
Proof. unfold CorrelationID, WithCorrelationID. by rewrite Value_here. Qed.

(** What a handler behind [authMiddleware] is given. *)
Definition authenticated (tn : Tenant) (next : handler) : handler := λ ctx h, next (WithTenant ctx (Some tn)) h.

Lemma correlation_passes requestID fresh next ctx h :
  let id := if String.eqb requestID "" then fresh else requestID in
  correlationMiddleware requestID fresh next ctx h
  = next (WithCorrelationID ctx id) (header_set "X-Request-ID" id h).
Proof. done. Qed.

(** What a handler finds. Behind the whole stack of middleware, for any method but
    OPTIONS, the handler runs in a context whose tenant is the authenticated one, whose
    correlation identifier is the client's [X-Request-ID] (a fresh one if the client
    sent none), in the span the request arrived with; the same identifier is in the
    response headers and on every line the handler logs; and the request is observed
    once, under its method and the pattern of its route, with the handler's status. *)
Theorem request_context method pattern requestID fresh dur tn next ctx r :
  method ≠ "OPTIONS"%string → fresh ≠ EmptyString →
  ∃ ctx' h' id r',
    middleware_stack method pattern requestID fresh dur (authenticated tn next) ctx r = (next ctx' h', Some r')
    ∧ id = (if String.eqb requestID "" then fresh else requestID)
    ∧ FromContext ctx' = Some tn ∧ CorrelationID ctx' = id ∧ ("correlation_id"%string, id) ∈ L ctx'
    ∧ SpanFromContext ctx' = SpanFromContext ctx
    ∧ header_get "X-Request-ID" h' = id ∧ header_get "Access-Control-Allow-Origin" h' = "*"%string
    ∧ observed r' ("sluice_http_request_duration_seconds"%string, [method; metric_pattern pattern; pretty (rp_status (next ctx' h'))])
      = dur :: observed r ("sluice_http_request_duration_seconds"%string, [method; metric_pattern pattern; pretty (rp_status (next ctx' h'))]).
Proof.
  intros Hm Hf. unfold middleware_stack, metricsMiddleware, corsMiddleware.
  rewrite (proj2 (String.eqb_neq method "OPTIONS") Hm).
  rewrite correlation_passes. cbn zeta.
  set (id := if String.eqb requestID "" then fresh else requestID).
  assert (id ≠ EmptyString) as Hid.
  { unfold id. destruct (String.eqb_spec requestID ""); [done|done]. }
  eexists _, _, id, _. split; [reflexivity|]. split; [done|].
  split; [apply FromContext_WithTenant|].
  rewrite CorrelationID_WithTenant, CorrelationID_WithCorrelationID. split; [done|].
  split.
  { unfold L. rewrite CorrelationID_WithTenant, CorrelationID_WithCorrelationID.
    rewrite (proj2 (String.eqb_neq id "") Hid). apply elem_of_app. left. by left. }
  split; [done|]. split; [|split].
  - unfold header_get, header_set. by rewrite lookup_insert_eq.
  - unfold header_get, cors_headers, header_set.
    change (CanonicalHeaderKey "X-Request-ID") with "X-Request-Id"%string.
    change (CanonicalHeaderKey "Access-Control-Allow-Origin") with "Access-Control-Allow-Origin"%string.
    change (CanonicalHeaderKey "Access-Control-Allow-Methods") with "Access-Control-Allow-Methods"%string.
    change (CanonicalHeaderKey "Access-Control-Allow-Headers") with "Access-Control-Allow-Headers"%string.
    by vm_compute.
  - unfold observed at 1. cbn [reg_observed apply_op snd fst request_update]. cbn [metric_name]. by rewrite lookup_insert_eq.
Qed.

(** ** [Init]

    A second call replaces the provider of the first: the comment calls it a no-op. *)
Lemma Init_twice n1 e1 n2 e2 g :
  ot_provider (fst (Init true true n2 e2 (fst (Init true true n1 e1 g)))) = Some (n2, e2).
Proof. done. Qed.

(** A failed [Init] leaves the process as it was. *)
Lemma Init_fails exporter resource name endpoint g e :
  snd (Init exporter resource name endpoint g) = Err e → fst (Init exporter resource name endpoint g) = g.
Proof. unfold Init. by destruct exporter, resource. Qed.

(** ** Traces *)
Section traces.
Context `{!TraceContext} `{!TraceContextLaws}.

Definition tracing_on (g : otel) : Prop := ot_propagators g = true ∧ is_Some (ot_provider g).

Lemma SpanFromContext_remote g ctx sc :
  ot_propagators g = true → span_typed sc → IsValid sc = true →
  SpanFromContext (WithTraceParent g ctx (traceparent_text sc)) = mkSpan (sc_TraceID sc) (sc_SpanID sc) true.
Proof.
  intros Hg Hty Hv. unfold WithTraceParent.
  rewrite (proj2 (String.eqb_neq _ "") (traceparent_nonempty sc Hty Hv)), Hg, (traceparent_round_trip sc Hty Hv).
  change (IsValid (mkSpan (sc_TraceID sc) (sc_SpanID sc) true)) with (IsValid sc).
  rewrite Hv. unfold SpanFromContext. by rewrite Value_here.
Qed.

Lemma submit_trace_valid g ctx :
  ot_propagators g = true → span_typed (SpanFromContext ctx) → IsValid (SpanFromContext ctx) = true →
  submit_trace g ctx = Some (traceparent_text (SpanFromContext ctx)).
Proof.
  intros Hg Hty Hv. unfold submit_trace, TraceParent_of. rewrite Hg, Hv. cbn.
  by rewrite (proj2 (String.eqb_neq _ "") (traceparent_nonempty _ Hty Hv)).
Qed.

(** The execution of a job that carries the traceparent of a span. *)
Lemma execution_in_trace g newTrace newSpan ctx j sc :
  tracing_on g → span_typed sc → IsValid sc = true → TraceParent j = Some (traceparent_text sc) →
  sc_TraceID (SpanFromContext (execution_context g newTrace newSpan ctx j)) = sc_TraceID sc.
Proof.
  intros [Hg [pr Hp]] Hty Hv Hj. unfold execution_context. rewrite Hj. unfold Start. rewrite Hp.
  rewrite (SpanFromContext_remote g ctx sc Hg Hty Hv).
  change (IsValid (mkSpan (sc_TraceID sc) (sc_SpanID sc) true)) with (IsValid sc). rewrite Hv.
  unfold SpanFromContext. by rewrite Value_here.
Qed.
End traces.

(** A run of the store in which a job's row stays. *)
Definition step_with `{!PgText} (id : uuid) (s s' : sys) : Prop := step s s' ∧ is_Some (jobs (s_db s') !! id).

Section trace_of_job.
Context `{!PgText}.

Lemma step_with_trace id s s' tp :
  table_ok (jobs (s_db s)) → TraceParent <$> jobs (s_db s) !! id = Some tp → step_with id s s' →
  TraceParent <$> jobs (s_db s') !! id = Some tp.
Proof.
  intros Ht Hj [Hst [j' Hj']]. destruct (step_rows s s' (proj1 Ht) Hst) as (tk&_&Hrows).
  destruct (Hrows id) as [He|Hr]; [by rewrite He|].
  destruct (jobs (s_db s) !! id) as [j|]; [|done]. rewrite Hj' in Hr.
  pose proof (row_step_immutable _ _ _ _ Hr) as Him. rewrite Hj'. cbn in *. injection Hj as <-. f_equal. apply Him.
Qed.

Lemma steps_with_trace id s s' tp :
  table_ok (jobs (s_db s)) → TraceParent <$> jobs (s_db s) !! id = Some tp → rtc (step_with id) s s' →
  TraceParent <$> jobs (s_db s') !! id = Some tp.
Proof.
  intros Ht Hj Hr. induction Hr as [|s1 s2 s3 Hst _ IH]; [done|].
  apply IH; [by eapply step_table_ok, Hst|by eapply step_with_trace].
Qed.

Lemma claim_returns_row locked now id w token deadline runID d d' jc run :
  claim_stmt locked now id w token deadline runID d = Ok (d', Some (jc, run)) →
  ∃ j, jobs d !! id = Some j ∧ jc = claimed_row now w token deadline j.
Proof.
  unfold claim_stmt. destruct (negb _); [done|]. destruct (jobs d !! id) as [j|]; [|done].
  destruct (_ && _); [|done]. intros [= _ <- _]. eauto.
Qed.

Lemma insert_keeps_trace j d d' u :
  insert_stmt j d = Ok (d', u) → TraceParent <$> jobs d' !! ID j = Some (TraceParent j).
Proof.
  unfold insert_stmt. destruct (new_row j) as [row|] eqn:Hrow; [|done].
  destruct (conflicts _ _); [done|]. intros [= <- _]. cbn.
  destruct (new_row_Some j row Hrow) as (->&_). rewrite lookup_insert_eq. cbn. f_equal.
  unfold new_row in Hrow. destruct (_ && _ && _); [|done].
  apply bind_Some in Hrow as (?&_&Hrow). apply bind_Some in Hrow as (?&_&Hrow).
  apply bind_Some in Hrow as (?&_&Hrow). apply bind_Some in Hrow as (?&_&Hrow). by injection Hrow as <-.
Qed.

Context `{!TraceContext} `{!TraceContextLaws}.

(** C17: One trace from submission to every attempt. A request whose span is valid
    submits a job, and the row is stored. Then, whatever happens in the store (claims
    that fail or expire, retries, promotions, heartbeats, replays, under any faults) for
    as long as the row is there, the worker that claims the job executes it in a span of
    the trace of that request. Both processes have called [Init]. *)
Theorem trace_continues ga gw rctx wctx newTrace newSpan s s' j d locked now w token deadline runID d' jc run :
  tracing_on ga → tracing_on gw → span_typed (SpanFromContext rctx) → IsValid (SpanFromContext rctx) = true →
  reachable s → submittable j → fresh_job s (ID j) → TraceParent j = submit_trace ga rctx →
  insert_stmt j (s_db s) = Ok (d, tt) →
  rtc (step_with (ID j)) (with_db s d) s' →
  claim_stmt locked now (ID j) w token deadline runID (s_db s') = Ok (d', Some (jc, run)) →
  sc_TraceID (SpanFromContext (execution_context gw newTrace newSpan wctx jc))
  = sc_TraceID (SpanFromContext rctx).
Proof.
  intros Ha Hw Hty Hv Hs Hj Hf Htp Hi Hr Hc.
  rewrite (submit_trace_valid ga rctx (proj1 Ha) Hty Hv) in Htp.
  assert (table_ok (jobs d)) as Ht.
  { eapply rows_step_table_ok; [by eapply insert_rows|by apply reachable_table_ok]. }
  pose proof (steps_with_trace (ID j) (with_db s d) s' _ Ht (insert_keeps_trace j _ _ _ Hi) Hr) as Hrow.
  destruct (claim_returns_row _ _ _ _ _ _ _ _ _ _ _ Hc) as (j'&Hj'&->). rewrite Hj' in Hrow. injection Hrow as Hrow.
  apply execution_in_trace; [done|done|done|]. cbn. by rewrite Hrow.
Qed.
End trace_of_job.

(** ** Metrics *)
Definition well_labelled (u : metric * list string * metric_op) : bool :=
  Nat.eqb (length (snd (fst u))) (length (metric_labels (fst (fst u)))).

Lemma update_ok u r :
  well_labelled u = true → update u r = Some (apply_op (snd u) (metric_name (fst (fst u)), snd (fst u)) r).
Proof. intros Hu%Nat.eqb_eq. unfold update, WithLabelValues. by rewrite decide_True. Qed.

Lemma updates_ok us r : forallb well_labelled us = true → is_Some (updates us r).
Proof.
  revert r. induction us as [|u us IH]; intros r Hus; [by eexists|]. cbn in Hus. bool_to_prop. cbn.
  rewrite update_ok by done. cbn. by apply IH.
Qed.

Lemma updates_cons u us r :
  well_labelled u = true →
  updates (u :: us) r = updates us (apply_op (snd u) (metric_name (fst (fst u)), snd (fst u)) r).
Proof. intros Hu. cbn [updates]. by rewrite update_ok. Qed.

Lemma updates_app us us' r : updates (us ++ us') r = updates us r ≫= updates us'.
Proof.
  revert r. induction us as [|u us IH]; intros r; [done|]. cbn.
  destruct (update u r); cbn; [apply IH|done].
Qed.

Section metrics_facts.
Context `{!UuidText}.

Lemma finished_labelled j failed dur : forallb well_labelled (finished_updates j failed dur) = true.
Proof. unfold finished_updates. by destruct failed; [destruct (ShouldRetry j)|]. Qed.

Lemma depths_labelled depths : forallb well_labelled (depth_updates depths) = true.
Proof. unfold depth_updates. by induction depths. Qed.

(** Labels agree with declarations. The client library panics when two metrics share
    a name, and when a series is asked for with a number of label values that is not the
    metric's. Neither happens: the names are distinct, and every update the workers, the
    scheduler and the API make, whatever the job, the depths or the request, succeeds in
    any state of the registry. *)
Theorem metrics_never_panic r :
  NoDup (metric_name <$> all_metrics) ∧ (∀ m, m ∈ all_metrics)
  ∧ (∀ tenantID, is_Some (updates (throttled_updates tenantID) r))
  ∧ (∀ j failed dur, is_Some (updates (started_updates ++ finished_updates j failed dur) r))
  ∧ (∀ depths, is_Some (export_depths depths r))
  ∧ is_Some (updates (elected_updates ++ deposed_updates) r)
  ∧ (∀ method pattern status dur, is_Some (update (request_update method pattern status dur) r)).
Proof.
  split; [apply (bool_decide_unpack _); vm_compute; done|].
  split; [intros m; apply list_elem_of_In; destruct m; cbn; tauto|].
  split; [intros tenantID; by apply updates_ok|].
  split; [intros j failed dur; apply updates_ok; cbn [app started_updates forallb]; apply finished_labelled|].
  split; [intros depths; apply updates_ok, depths_labelled|].
  split; [by apply updates_ok|]. intros method pattern status dur. rewrite update_ok by done. by eexists.
Qed.

(** An execution: the job as claimed, whether it failed, how long it took. *)
Record execution := mkExecution { ex_job : Job; ex_failed : bool; ex_dur : Z }.

Definition execution_updates (e : execution) : list (metric * list string * metric_op) :=
  started_updates ++ finished_updates (ex_job e) (ex_failed e) (ex_dur e).

Definition execution_state (e : execution) : string :=
  if ex_failed e then final_state (ex_job e) else "succeeded".

Definition execution_labels (e : execution) : list string :=
  [Type_ (ex_job e); execution_state e; uuid_String (TenantID (ex_job e))].

(** The executions counted under some labels. *)
Definition counted (labels : list string) (l : list execution) : list execution :=
  filter (λ e, execution_labels e = labels) l.

Lemma value_of_add n s r s' :
  value_of (apply_op (Add n) s r) s' = value_of r s' + (if decide (s' = s) then n else 0).
Proof.
  unfold value_of. cbn. destruct (decide (s' = s)) as [->|Hs]; [by rewrite lookup_insert_eq|].
  rewrite lookup_insert_ne by done. lia.
Qed.

Lemma value_of_observe n s r s' : value_of (apply_op (Observe n) s r) s' = value_of r s'.
Proof. done. Qed.

Lemma observed_add n s r s' : observed (apply_op (Add n) s r) s' = observed r s'.
Proof. done. Qed.

Lemma observed_observe n s r s' :
  observed (apply_op (Observe n) s r) s' = if decide (s' = s) then n :: observed r s' else observed r s'.
Proof.
  unfold observed. cbn. destruct (decide (s' = s)) as [->|Hs]; [by rewrite lookup_insert_eq|].
  by rewrite lookup_insert_ne.
Qed.

(** One execution. *)
Lemma execution_counts e r r' labels :
  updates (execution_updates e) r = Some r' →
  value_of r' (metric_name JobsTotal, labels)
    = value_of r (metric_name JobsTotal, labels) + (if decide (execution_labels e = labels) then 1 else 0)
  ∧ value_of r' (metric_name WorkerInFlight, []) = value_of r (metric_name WorkerInFlight, [])
  ∧ observed r' (metric_name JobDurationSeconds, labels)
    = (if decide (execution_labels e = labels) then [ex_dur e] else []) ++ observed r (metric_name JobDurationSeconds, labels).
Proof.
  destruct e as [j failed dur]. unfold execution_updates, execution_labels, execution_state. cbn [ex_job ex_failed ex_dur].
  intros Hu. unfold started_updates, finished_updates, final_state in *.
  destruct failed; [destruct (ShouldRetry j)|]; cbn [app] in Hu; rewrite !updates_cons in Hu by done;
    cbn [updates fst snd] in Hu; apply (inj Some) in Hu; subst r';
    repeat first [rewrite value_of_observe | rewrite value_of_add | rewrite observed_observe | rewrite observed_add].
  all: repeat match goal with |- context [decide ?P] => destruct (decide P); try congruence end.
  all: simplify_eq; cbn [app]; repeat split; try done; lia.
Qed.

(** Series never mix: after any number of executions each counter has grown by the
    executions with its labels. *)
Lemma executions_count l r r' labels :
  updates (l ≫= execution_updates) r = Some r' →
  value_of r' (metric_name JobsTotal, labels)
    = value_of r (metric_name JobsTotal, labels) + Z.of_nat (length (counted labels l))
  ∧ value_of r' (metric_name WorkerInFlight, []) = value_of r (metric_name WorkerInFlight, [])
  ∧ observed r' (metric_name JobDurationSeconds, labels)
    ≡ₚ (ex_dur <$> counted labels l) ++ observed r (metric_name JobDurationSeconds, labels).
Proof.
  revert r. induction l as [|e l IH]; intros r Hu; [cbn in Hu; simplify_eq; cbn; split; [lia|done]|].
  rewrite bind_cons, updates_app in Hu. destruct (updates (execution_updates e) r) as [r1|] eqn:H1; [|done].
  destruct (execution_counts e r r1 labels H1) as (V1&F1&O1). destruct (IH r1 Hu) as (V&F&O).
  unfold counted. rewrite filter_cons. fold (counted labels l). split; [|split; [congruence|]].
  - rewrite V, V1. destruct (decide _); cbn [length]; lia.
  - rewrite O, O1. destruct (decide _); cbn [fmap list_fmap app]; [|done]. symmetry. apply Permutation_middle.
Qed.
End metrics_facts.

(** The label of a failed execution is the state [FailJob] gives the row. *)
Lemma final_state_recorded `{!PgText} now id run token e next d d' u j j' :
  jobs d !! id = Some j → owns token j = true → fail_stmt now id run token e next d = Ok (d', u) →
  jobs d' !! id = Some j' → State_string (State_ j') = final_state j.
Proof.
  intros Hj Ho. unfold fail_stmt. destruct (negb _); [done|]. rewrite Hj, Ho.
  destruct (attempt_state StateFailed j) as [[a s]|] eqn:Ha; [|done]. cbn.
  destruct (update_runs _ _ _); [|done]. intros [= <- _]. cbn. rewrite lookup_insert_eq. intros [= <-]. cbn.
  apply attempt_state_Some in Ha as [-> ->]. unfold final_state, ShouldRetry. zcases; done || lia.
Qed.

(** The counters count executions by their recorded outcome. After any executions,
    each series of [sluice_jobs_total] has grown by the number of executions with its
    type, state and tenant, the duration histogram has exactly their durations, and the
    in-flight gauge is back where it was; and the state label of a failed execution is
    the state [FailJob] leaves the row in. So the counter counts attempts: one job that
    fails and is retried counts once under [failed] and again under its later outcome,
    though the metric's help text speaks of jobs that reached a terminal state. *)
Theorem metrics_count_executions `{!UuidText} `{!PgText} l r r' labels :
  updates (l ≫= execution_updates) r = Some r' →
  value_of r' ("sluice_jobs_total"%string, labels)
    = value_of r ("sluice_jobs_total"%string, labels) + Z.of_nat (length (counted labels l))
  ∧ value_of r' ("sluice_worker_jobs_in_flight"%string, []) = value_of r ("sluice_worker_jobs_in_flight"%string, [])
  ∧ observed r' ("sluice_job_duration_seconds"%string, labels)
    ≡ₚ (ex_dur <$> counted labels l) ++ observed r ("sluice_job_duration_seconds"%string, labels)
  ∧ (∀ now id run token e next d d' u j j' dur,
       jobs d !! id = Some j → owns token j = true → fail_stmt now id run token e next d = Ok (d', u) →
       jobs d' !! id = Some j' → execution_state (mkExecution j true dur) = State_string (State_ j')).
Proof.
  intros Hu. destruct (executions_count l r r' labels Hu) as (?&?&?). split; [done|]. split; [done|]. split; [done|].
  intros. unfold execution_state. cbn. symmetry. by eapply final_state_recorded.
Qed.

(** ** The series of HTTP requests *)

(** Requests of the methods [ms], for which no route matches. *)
Definition refused_updates (ms : list string) : list (metric * list string * metric_op) :=
  (λ m, request_update m "" 405 0) <$> ms.

(** The client chooses how many series there are. The label of the path is bounded
    by the route table, but the method is a label as sent: requests with [n] different
    method names for which no route matches leave [n] series in the registry, where the
    comment on [metricsMiddleware] promises a bounded number. *)
Theorem http_series_unbounded ms r r' :
  NoDup ms → reg_observed r = ∅ → updates (refused_updates ms) r = Some r' →
  size (reg_observed r') = length ms.
Proof.
  intros Hnd Hr. assert (∀ m k, (k, [m; "unmatched"; "405"]%string) ∈ dom (reg_observed r) → m ∉ ms) as Hfresh.
  { intros m k. by rewrite Hr, dom_empty_L. }
  assert (size (reg_observed r) + length ms = length ms)%nat as Hsz by (by rewrite Hr, map_size_empty).
  intros Hu. rewrite <- Hsz. clear Hr Hsz. revert r Hfresh Hu.
  induction Hnd as [|m ms Hm _ IH]; intros r Hfresh Hu; [cbn in Hu; simplify_eq; cbn; lia|].
  unfold refused_updates in Hu. rewrite fmap_cons, updates_cons in Hu by done.
  change (pretty 405) with "405"%string in Hu. eapply IH in Hu as ->.
  - cbn. rewrite map_size_insert_None; [lia|]. apply not_elem_of_dom. intros Hin%Hfresh. by destruct Hin; left.
  - intros m' k. cbn. rewrite dom_insert_L, elem_of_union, elem_of_singleton. intros [[= -> ->]|Hin]; [done|].
    apply Hfresh in Hin. set_solver.
Qed.
