(* ===== verification/ClaimLimit.v ===== *)
(** * Concurrency caps: the statements of [TryClaimLimited], interleaved

    Elsewhere a transaction is one atomic step. [TryClaimLimited] is where that
    matters: between its statements other workers run theirs. Here its statements are
    steps of their own: lock the tenant's row, count, claim, commit, with any other call
    of the store in between. What other transactions cannot do is take the tenant's
    row while it is locked, or change a row claimed and not yet committed. *)

From S2P Require Import Prelude GoBase Job Db Storage Lifecycle.

Open Scope Z_scope.

(** How far a transaction has come. *)
Inductive phase := Begun | Locked | Counted | Claimed (now : Z).

Record tx := mkTx {
  tx_job : uuid;
  tx_tenant : uuid;
  tx_limit : Z;
  tx_worker : string;
  tx_token : uuid;
  tx_deadline : Z;
  tx_run : uuid;
  tx_phase : phase;
}.

Definition set_phase (p : phase) (x : tx) : tx :=
  mkTx (tx_job x) (tx_tenant x) (tx_limit x) (tx_worker x) (tx_token x) (tx_deadline x) (tx_run x) p.

(** It holds the tenant's row from the first SELECT FOR UPDATE to its end. *)
Definition holds_row (x : tx) : bool := match tx_phase x with Begun => false | _ => true end.

(** The committed tables and the transactions under way. *)
Record lsys := mkL { l_db : db; l_txs : gmap nat tx }.

(** A row claimed by a transaction that has not committed. *)
Definition row_taken (s : lsys) (id : uuid) : Prop :=
  ∃ k x now, l_txs s !! k = Some x ∧ tx_phase x = Claimed now ∧ tx_job x = id.

Section limited.
Context `{!PgText}.

Definition tx_claim (x : tx) (locked : gset uuid) (now : Z) : stmt db (option (Job * uuid)) :=
  claim_stmt locked now (tx_job x) (tx_worker x) (tx_token x) (tx_deadline x) (tx_run x).

Definition move (s : lsys) (k : nat) (p : phase) (x : tx) : lsys := mkL (l_db s) (<[k := set_phase p x]> (l_txs s)).
Definition finish (s : lsys) (k : nat) : lsys := mkL (l_db s) (delete k (l_txs s)).

(** A tenant [T] whose workers know its cap: they claim its jobs with a limit of at
    most [cap]. Claims of other tenants may be limited or not. *)
Variables (T : uuid) (cap : Z).

Inductive lstep (s : lsys) : lsys → Prop :=
| ls_begin k x :
    l_txs s !! k = None → tx_phase x = Begun → (tx_tenant x = T → tx_limit x <= cap) →
    lstep s (mkL (l_db s) (<[k := x]> (l_txs s)))
| ls_lock k x :
    l_txs s !! k = Some x → tx_phase x = Begun →
    (∀ k' x', l_txs s !! k' = Some x' → holds_row x' = true → tx_tenant x' ≠ tx_tenant x) →
    lstep s (move s k Locked x)
| ls_count k x :
    l_txs s !! k = Some x → tx_phase x = Locked → count_in_flight (tx_tenant x) (l_db s) < tx_limit x →
    lstep s (move s k Counted x)
| ls_claim k x locked now d' j run :            (* a job is queued under its own tenant *)
    l_txs s !! k = Some x → tx_phase x = Counted → (∀ id, row_taken s id → id ∈ locked) →
    tx_claim x locked now (l_db s) = Ok (d', Some (j, run)) → TenantID j = tx_tenant x →
    lstep s (move s k (Claimed now) x)
| ls_commit k x now d' r :
    l_txs s !! k = Some x → tx_phase x = Claimed now →
    tx_claim x ∅ now (l_db s) = Ok (d', r) →
    lstep s (mkL d' (delete k (l_txs s)))
| ls_end k :                                    (* at the limit, not claimed, or the connection is lost *)
    lstep s (finish s k)
| ls_other d' tk :                              (* any call that is not a claim *)
    (∀ token, tk ≠ KClaim token) → rows_step tk (jobs (l_db s)) (jobs d') →
    (∀ id, row_taken s id → jobs d' !! id = jobs (l_db s) !! id) →
    lstep s (mkL d' (l_txs s))
| ls_unlimited locked now jobID w token deadline runID d' r j :
    jobs (l_db s) !! jobID = Some j → TenantID j ≠ T → (∀ id, row_taken s id → id ∈ locked) →
    claim_stmt locked now jobID w token deadline runID (l_db s) = Ok (d', r) →
    lstep s (mkL d' (l_txs s)).

(** ** Counting *)
Definition flying (j : Job) : Prop := TenantID j = T ∧ in_flight j = true.

Definition flying_ids (t : gmap uuid Job) : list uuid :=
  fst <$> filter (λ kv, bool_decide (TenantID (snd kv) = T) && in_flight (snd kv) = true) (map_to_list t).

Lemma count_flying d : count_in_flight T d = Z.of_nat (length (flying_ids (jobs d))).
Proof.
  unfold count_in_flight, flying_ids, rows. f_equal. rewrite length_fmap.
  induction (map_to_list (jobs d)) as [|kv l IH]; [done|].
  rewrite fmap_cons, !filter_cons. case_decide; cbn [length]; by rewrite IH.
Qed.

Lemma elem_of_flying_ids t id : id ∈ flying_ids t ↔ ∃ j, t !! id = Some j ∧ flying j.
Proof.
  unfold flying_ids, flying. rewrite list_elem_of_fmap. setoid_rewrite list_elem_of_filter. split.
  - intros ([id' j]&->&Hf&Hin). apply elem_of_map_to_list in Hin. bool_to_prop. eauto.
  - intros (j&Hj&Ht&Hf). exists (id, j). split; [done|]. split; [|by apply elem_of_map_to_list].
    cbn. by rewrite Ht, Hf, bool_decide_true.
Qed.

Lemma flying_ids_NoDup t : NoDup (flying_ids t).
Proof. unfold flying_ids. apply NoDup_fmap_filter, NoDup_fst_map_to_list. Qed.

(** Rows not gained cannot raise the count; one row gained raises it by one. *)
Lemma count_le d d' extra :
  (∀ id j, jobs d' !! id = Some j → flying j → (∃ j0, jobs d !! id = Some j0 ∧ flying j0) ∨ id ∈ extra) →
  count_in_flight T d' <= count_in_flight T d + Z.of_nat (length extra).
Proof.
  intros Hg. rewrite !count_flying. assert (flying_ids (jobs d') ⊆+ flying_ids (jobs d) ++ extra) as Hs.
  { apply NoDup_submseteq; [apply flying_ids_NoDup|]. intros id (j&Hj&Hf)%elem_of_flying_ids.
    apply elem_of_app. destruct (Hg id j Hj Hf) as [Hold|]; [left; by apply elem_of_flying_ids|by right]. }
  apply submseteq_length in Hs. rewrite length_app in Hs. lia.
Qed.

(** A call that is not a claim puts no job in flight. *)
Lemma row_step_flying tk id o j' :
  (∀ token, tk ≠ KClaim token) → row_step tk id o (Some j') → flying j' → ∃ j, o = Some j ∧ flying j.
Proof.
  intros Htk Hr [Ht Hf]. unfold in_flight in Hf.
  inversion Hr; subst; cbn [State_ set_state set_run_at set_token set_completed_at set_last_error failed_row requeued_row replayed_row set_attempt set_claimed] in Hf;
    repeat match goal with
    | Hs : attempt_state _ _ = Some _ |- _ => apply attempt_state_Some in Hs as [-> ->]; destruct (_ <? _)
    | Hs : State_ _ = _ ∨ State_ _ = _ |- _ => destruct Hs as [Hs|Hs]; rewrite Hs in Hf
    end; try discriminate Hf; try (by exfalso; eapply Htk).
  eexists. split; [done|]. split; [done|exact Hf].
Qed.

Lemma claim_stmt_Some locked now jobID w token deadline runID d d' r :
  claim_stmt locked now jobID w token deadline runID d = Ok (d', Some r) ↔
  ∃ j, jobs d !! jobID = Some j ∧ State_ j = StatePending ∧ (jobID ∉ locked) ∧ text_ok w = true
    ∧ r = (claimed_row now w token deadline j, runID)
    ∧ d' = mkDb (<[jobID := fst r]> (jobs d)) (job_runs d ++ [opened_run runID now (fst r)]) (dead_letter d).
Proof.
  unfold claim_stmt. split.
  - intros Hst. stmt_cases Hst. bool_to_prop. eexists. split; [done|]. cbn. auto 10.
  - intros (j&Hj&Hp&Hl&Ht&->&->). rewrite Ht, Hj. cbn [negb]. by rewrite !bool_decide_true.
Qed.

(** What holds in every state the statements can reach. *)
Record linv (s : lsys) : Prop := {
  li_cap : count_in_flight T (l_db s) <= cap;
  li_lock k k' x x' : l_txs s !! k = Some x → l_txs s !! k' = Some x' → holds_row x = true → holds_row x' = true →
    tx_tenant x = tx_tenant x' → k = k';
  li_limit k x : l_txs s !! k = Some x → tx_tenant x = T → tx_limit x <= cap;
  li_count k x : l_txs s !! k = Some x → tx_tenant x = T → tx_phase x ≠ Begun → tx_phase x ≠ Locked →
    count_in_flight T (l_db s) < tx_limit x;
  li_row k x now : l_txs s !! k = Some x → tx_phase x = Claimed now → text_ok (tx_worker x) = true
    ∧ ∃ j, jobs (l_db s) !! tx_job x = Some j ∧ State_ j = StatePending ∧ TenantID j = tx_tenant x;
  li_apart k k' x x' now now' : l_txs s !! k = Some x → l_txs s !! k' = Some x' →
    tx_phase x = Claimed now → tx_phase x' = Claimed now' → tx_job x = tx_job x' → k = k';
}.

(** Tables and transactions that only let go of what they held. *)
Lemma linv_shrink s d' txs' :
  linv s → txs' ⊆ l_txs s → count_in_flight T d' <= cap →
  (∀ k x, txs' !! k = Some x → tx_tenant x = T → tx_phase x ≠ Begun → tx_phase x ≠ Locked →
     count_in_flight T d' < tx_limit x) →
  (∀ k x now, txs' !! k = Some x → tx_phase x = Claimed now → jobs d' !! tx_job x = jobs (l_db s) !! tx_job x) →
  linv (mkL d' txs').
Proof.
  intros [_ Hlock Hlim _ Hrow Hap] Hsub Hcap Hcount Hsame. rewrite map_subseteq_spec in Hsub.
  split; cbn; eauto. intros k x now Hk Hp. rewrite (Hsame k x now Hk Hp). eauto.
Qed.

(** One transaction that moves on. *)
Lemma linv_insert s k x :
  linv s →
  (∀ k' x', k' ≠ k → l_txs s !! k' = Some x' → holds_row x = true → holds_row x' = true → tx_tenant x' ≠ tx_tenant x) →
  (tx_tenant x = T → tx_limit x <= cap) →
  (tx_tenant x = T → tx_phase x ≠ Begun → tx_phase x ≠ Locked → count_in_flight T (l_db s) < tx_limit x) →
  (∀ now, tx_phase x = Claimed now → text_ok (tx_worker x) = true
    ∧ ∃ j, jobs (l_db s) !! tx_job x = Some j ∧ State_ j = StatePending ∧ TenantID j = tx_tenant x) →
  (∀ k' x' now now', k' ≠ k → l_txs s !! k' = Some x' → tx_phase x = Claimed now → tx_phase x' = Claimed now' →
     tx_job x' ≠ tx_job x) →
  linv (mkL (l_db s) (<[k := x]> (l_txs s))).
Proof.
  intros [Hcap Hlock Hlim Hcount Hrow Hap] Hl Hm Hc Hr Ha. split; cbn; [done|..].
  - intros k1 k2 x1 x2 H1 H2 Hh1 Hh2 He. apply lookup_insert_Some in H1 as [[<- <-]|[? H1]], H2 as [[<- <-]|[? H2]];
      [done| | |by eauto]; exfalso; [by eapply (Hl k2 x2)|by eapply (Hl k1 x1)].
  - intros k1 x1 [[<- <-]|[? H1]]%lookup_insert_Some; eauto.
  - intros k1 x1 [[<- <-]|[? H1]]%lookup_insert_Some; eauto.
  - intros k1 x1 now [[<- <-]|[? H1]]%lookup_insert_Some; eauto.
  - intros k1 k2 x1 x2 n1 n2 H1 H2 Hp1 Hp2 He.
    apply lookup_insert_Some in H1 as [[<- <-]|[? H1]], H2 as [[<- <-]|[? H2]];
      [done| | |by eauto]; exfalso; [by eapply (Ha k2 x2)|by eapply (Ha k1 x1)].
Qed.

(** A claim of another tenant's row, or no claim, does not raise the count of [T]. *)
Lemma claim_other_count locked now jobID w token deadline runID d d' r :
  claim_stmt locked now jobID w token deadline runID d = Ok (d', r) →
  (∀ j, jobs d !! jobID = Some j → TenantID j ≠ T) →
  count_in_flight T d' <= count_in_flight T d ∧ (∀ id, id ∈ locked ∨ id ≠ jobID → jobs d' !! id = jobs d !! id).
Proof.
  intros Hst Hten. destruct r as [r|].
  - apply claim_stmt_Some in Hst as (j&Hj&_&Hl&_&->&->). cbn. split.
    + rewrite <- (Z.add_0_r (count_in_flight T d)). apply (count_le _ _ []). cbn. intros id j' Hj' Hf. left.
      destruct (decide (id = jobID)) as [->|]; [|rewrite lookup_insert_ne in Hj' by done; eauto].
      rewrite lookup_insert_eq in Hj'. injection Hj' as <-. exfalso. exact (Hten j Hj (proj1 Hf)).
    + intros id Hid. rewrite lookup_insert_ne; [done|]. intros <-. tauto.
  - assert (d' = d) as -> by (unfold claim_stmt in Hst; by stmt_cases Hst). split; [lia|done].
Qed.

Lemma commit_count x now d d' r :
  tx_claim x ∅ now d = Ok (d', r) → count_in_flight T d' <= count_in_flight T d + 1.
Proof.
  unfold tx_claim. intros Hst. destruct r as [r|].
  - apply claim_stmt_Some in Hst as (j&Hj&_&_&_&->&->). apply (count_le _ _ [tx_job x]). cbn. intros id j' Hj' Hf.
    destruct (decide (id = tx_job x)) as [->|]; [right; by left|rewrite lookup_insert_ne in Hj' by done; left; eauto].
  - assert (d' = d) as -> by (unfold claim_stmt in Hst; by stmt_cases Hst). lia.
Qed.

Lemma linv_commit s k x now d' r :
  linv s → l_txs s !! k = Some x → tx_phase x = Claimed now → tx_claim x ∅ now (l_db s) = Ok (d', r) →
  linv (mkL d' (delete k (l_txs s))).
Proof.
  intros Hi Hk Hp Hst. pose proof Hi as [Hcap Hlock Hlim Hcount Hrow Hap].
  assert (∀ id, id ≠ tx_job x → jobs d' !! id = jobs (l_db s) !! id) as Hrest.
  { intros id Hid. unfold tx_claim in Hst. destruct r as [r|].
    - apply claim_stmt_Some in Hst as (j&_&_&_&_&_&->). cbn. by rewrite lookup_insert_ne.
    - unfold claim_stmt in Hst. by stmt_cases Hst. }
  assert (holds_row x = true) as Hx by (unfold holds_row; by rewrite Hp).
  apply (linv_shrink s); [done|apply delete_subseteq| | |].
  - destruct (decide (tx_tenant x = T)) as [Ht|Ht].
    + pose proof (commit_count _ _ _ _ _ Hst). specialize (Hlim k x Hk Ht).
      assert (count_in_flight T (l_db s) < tx_limit x) by (apply (Hcount k); try done; by rewrite Hp). lia.
    + destruct (claim_other_count _ _ _ _ _ _ _ _ _ _ Hst) as [Hle _]; [|lia].
      intros j Hj. destruct (Hrow k x now Hk Hp) as (_&j'&Hj'&_&?). congruence.
  - intros k' x' [Hne Hk']%lookup_delete_Some Ht' Hb Hlo.
    assert (holds_row x' = true) as Hx' by (unfold holds_row; by destruct (tx_phase x')).
    destruct (decide (tx_tenant x = T)) as [Ht|Ht].
    + exfalso. apply Hne, (Hlock k k' x x'); try done. congruence.
    + destruct (claim_other_count _ _ _ _ _ _ _ _ _ _ Hst) as [Hle _].
      { intros j Hj. destruct (Hrow k x now Hk Hp) as (_&j'&Hj'&_&?). congruence. }
      specialize (Hcount k' x' Hk' Ht' Hb Hlo). lia.
  - intros k' x' now' [Hne Hk']%lookup_delete_Some Hp'. apply Hrest. intros He. by apply Hne, (Hap k k' x x' now now').
Qed.

Lemma linv_step s s' : linv s → lstep s s' → linv s'.
Proof.
  intros Hi Hst. pose proof Hi as [Hcap Hlock Hlim Hcount Hrow Hap].
  destruct Hst as [k x Hk Hp Hl|k x Hk Hp Hfree|k x Hk Hp Hc|k x locked now d' j run Hk Hp Hlk Hst Hten|k x now d' r Hk Hp Hst
    |k|d' tk Htk Hrows Hsame|locked now jobID w token deadline runID d' r j Hj Hten Hlk Hst].
  - apply linv_insert; unfold holds_row; rewrite ?Hp; done.
  - apply linv_insert; try done; cbn; [|by eauto]. intros k' x' _ Hk' _ Hh. by eapply Hfree.
  - apply linv_insert; try done; cbn; [|by eauto|by intros <-].
    intros k' x' Hne Hk' _ Hh He. apply Hne, (Hlock k' k x' x); try done. unfold holds_row. by rewrite Hp.
  - apply claim_stmt_Some in Hst as (j0&Hj&Hpd&Hnl&Ht&[= -> ->]&_).
    apply linv_insert; try done; cbn; [|by eauto|by intros ?? _; eapply Hcount; [done|done|rewrite Hp|rewrite Hp]|by eauto 10|].
    + intros k' x' Hne Hk' _ Hh He. apply Hne, (Hlock k' k x' x); try done. unfold holds_row. by rewrite Hp.
    + intros k' x' _ now' Hne Hk' _ Hp' He. apply Hnl, Hlk. exists k', x', now'. auto.
  - by eapply linv_commit.
  - apply (linv_shrink s); cbn; try done; [apply delete_subseteq|].
    intros k' x' [_ Hk']%lookup_delete_Some. eauto.
  - assert (count_in_flight T d' <= count_in_flight T (l_db s)) as Hle.
    { rewrite <- (Z.add_0_r (count_in_flight T (l_db s))). apply (count_le _ _ []). intros id j' Hj' Hf. left.
      destruct (Hrows id) as [He|Hr]; [rewrite <- He; eauto|]. rewrite Hj' in Hr. by eapply row_step_flying. }
    apply (linv_shrink s); try done; [lia| |].
    + intros k x Hk Hxt Hb Hlo. specialize (Hcount k x Hk Hxt Hb Hlo). lia.
    + intros k x now Hk Hp. apply Hsame. by exists k, x, now.
  - destruct (claim_other_count _ _ _ _ _ _ _ _ _ _ Hst) as [Hle Hrest].
    { intros j' Hj'. congruence. }
    apply (linv_shrink s); try done; [lia| |].
    + intros k x Hk Hxt Hb Hlo. specialize (Hcount k x Hk Hxt Hb Hlo). lia.
    + intros k x now' Hk Hp. apply Hrest. left. apply Hlk. by exists k, x, now'.
Qed.

Lemma linv_init d : count_in_flight T d <= cap → linv (mkL d ∅).
Proof. intros Hc. split; cbn; try done; intros ?; intros; by (rewrite lookup_empty in *). Qed.

Lemma linv_reachable d s : count_in_flight T d <= cap → rtc lstep (mkL d ∅) s → linv s.
Proof.
  intros Hc Hr. pose proof (linv_init d Hc) as Hi. induction Hr as [|s1 s2 s3 Hst _ IH]; [done|].
  apply IH. by eapply linv_step.
Qed.

(** C11: Concurrency caps hold. However the statements of claiming workers interleave
    with one another and with every other call, a tenant whose claims are made with its
    cap never has more jobs in flight than the cap. *)
Theorem concurrency_cap d s :
  count_in_flight T d <= cap → rtc lstep (mkL d ∅) s → count_in_flight T (l_db s) <= cap.
Proof. intros Hc Hr. apply (linv_reachable d s Hc Hr). Qed.

(** [TryClaimLimited] is atomic. When a limited claim of the capped tenant commits,
    whatever ran between its statements, the tables change exactly as the one-step
    transaction [claim_limited_tx] changes them at that moment: the count is still below
    the limit and the job is still pending. *)
Theorem TryClaimLimited_atomic d s k x now :
  count_in_flight T d <= cap → rtc lstep (mkL d ∅) s →
  l_txs s !! k = Some x → tx_phase x = Claimed now → tx_tenant x = T →
  ∃ d' j, claim_limited_tx ∅ now (tx_job x) (tx_tenant x) (tx_limit x) (tx_worker x) (tx_token x) (tx_deadline x)
            (tx_run x) (l_db s) = Ok (d', Some (j, tx_run x))
    ∧ lstep s (mkL d' (delete k (l_txs s)))
    ∧ (∀ d2 r, tx_claim x ∅ now (l_db s) = Ok (d2, r) → d2 = d').
Proof.
  intros Hc Hr Hk Hp Ht. destruct (linv_reachable d s Hc Hr) as [Hcap Hlock Hlim Hcount Hrow Hap].
  destruct (Hrow k x now Hk Hp) as (Hw&j&Hj&Hpd&_).
  assert (count_in_flight (tx_tenant x) (l_db s) < tx_limit x) as Hlt
    by (rewrite Ht; apply (Hcount k); try done; by rewrite Hp).
  set (jc := claimed_row now (tx_worker x) (tx_token x) (tx_deadline x) j).
  assert (∃ d', tx_claim x ∅ now (l_db s) = Ok (d', Some (jc, tx_run x))) as [d' Hst].
  { eexists. apply claim_stmt_Some. exists j. split; [done|]. split; [done|]. split; [set_solver|]. done. }
  exists d', jc. split; [|split].
  - unfold claim_limited_tx. destruct (Z.leb_spec (tx_limit x) (count_in_flight (tx_tenant x) (l_db s))); [lia|done].
  - by eapply ls_commit.
  - intros d2 r Hst2. rewrite Hst in Hst2. by injection Hst2.
Qed.
End limited.
