(* ===== verification/Integrity.v ===== *)
(** * Integrity of the tables over every run

    What the rows of [jobs], [job_runs] and [dead_letter] say about each other in
    every reachable state. Since migration 3 the database enforces none of it: the
    partitioned [job_runs] has neither a primary key nor a foreign key. *)

From S2P Require Import Prelude GoBase Job Db Storage Lifecycle Claims.

Open Scope Z_scope.

(** An idempotency key names at most one job of a tenant. *)
Definition keys_ok (t : gmap uuid Job) : Prop :=
  ∀ id1 id2 j1 j2, t !! id1 = Some j1 → t !! id2 = Some j2 → same_key j1 j2 = true → id1 = id2.

(** Runs have distinct identifiers, each opened by a claim, of a job that exists and
    belongs to the run's tenant; an open run is the run of the claim that owns its
    job now. *)
Record runs_ok (t : gmap uuid Job) (runs : list run_row) (cs : list claim) : Prop := {
  ro_ids : NoDup (rr_id <$> runs);
  ro_job r : r ∈ runs → ∃ j, t !! rr_job_id r = Some j ∧ TenantID j = rr_tenant_id r;
  ro_claim r : r ∈ runs → rr_id r ∈ (c_run <$> cs);
  ro_open r : r ∈ runs → rr_finished_at r = None →
    ∃ j tok, t !! rr_job_id r = Some j ∧ State_ j = StateRunning ∧ ClaimToken j = Some tok
      ∧ mkClaim (rr_job_id r) (rr_id r) tok ∈ cs;
}.

(** A dead-letter entry is of a dead job of the same tenant. *)
Definition dead_ok (t : gmap uuid Job) (dl : gmap uuid dl_row) : Prop :=
  ∀ id e, dl !! id = Some e →
    ∃ j, t !! id = Some j ∧ State_ j = StateDead ∧ TenantID j = dl_tenant_id e.

(** ** Idempotency keys *)

Lemma same_key_iff a b :
  same_key a b = true ↔ TenantID a = TenantID b ∧ ∃ k, IdempotencyKey a = Some k ∧ IdempotencyKey b = Some k.
Proof.
  unfold same_key. rewrite andb_true_iff, bool_decide_eq_true.
  destruct (IdempotencyKey a) as [k|]; [rewrite bool_decide_eq_true|]; naive_solver.
Qed.

Lemma same_key_sym a b : same_key a b = true → same_key b a = true.
Proof. rewrite !same_key_iff. intros (?&k&?&?). eauto. Qed.

Lemma same_key_cols a a' b b' :
  TenantID a' = TenantID a → IdempotencyKey a' = IdempotencyKey a →
  TenantID b' = TenantID b → IdempotencyKey b' = IdempotencyKey b → same_key a' b' = same_key a b.
Proof. unfold same_key. by intros -> -> -> ->. Qed.

(** ** Runs *)

(** The identifying columns of a run, which no call changes. *)
Definition same_run (r r' : run_row) : Prop :=
  rr_id r' = rr_id r ∧ rr_job_id r' = rr_job_id r ∧ rr_tenant_id r' = rr_tenant_id r.

Lemma finish_run_same s at_ e r r' : finish_run s at_ e r = Some r' → same_run r r' ∧ rr_finished_at r' = Some at_.
Proof. unfold finish_run. destruct (duration_ms _ _); [|done]. by intros [= <-]. Qed.

(** An update that finishes the runs it touches. *)
Lemma update_runs_finish p f l l' :
  (∀ r r', f r = Some r' → same_run r r' ∧ is_Some (rr_finished_at r')) →
  update_runs p f l = Some l' →
  rr_id <$> l' = rr_id <$> l
  ∧ (∀ r', r' ∈ l' → ∃ r, r ∈ l ∧ same_run r r' ∧ (rr_finished_at r' = None → r' = r ∧ p r = false)).
Proof.
  intros Hf Hu. split.
  - apply update_runs_Forall2 in Hu. induction Hu as [|r r' l l' Hr _ IH]; [done|].
    rewrite !fmap_cons, IH. f_equal. destruct (p r); [by apply Hf in Hr as [[-> _] _]|by simplify_eq].
  - intros r' Hr'. destruct (update_runs_elem _ _ _ _ _ Hu Hr') as (r&Hr&[[Hp Hfr]|[Hp ->]]); exists r; (split; [done|]).
    + destruct (Hf _ _ Hfr) as [Hsame [t Ht]]. split; [done|]. intros Hn. congruence.
    + by repeat split.
Qed.

Lemma finish_run_finishes s at_ e r r' :
  finish_run s at_ e r = Some r' → same_run r r' ∧ is_Some (rr_finished_at r').
Proof. intros [? ->]%finish_run_same. split; [done|by eexists]. Qed.

(** The rows change, the runs do not: rows stay, running ones keep their owner. *)
Definition owners_kept (t t' : gmap uuid Job) : Prop :=
  ∀ id j, t !! id = Some j → ∃ j', t' !! id = Some j' ∧ TenantID j' = TenantID j
    ∧ (State_ j = StateRunning → State_ j' = StateRunning ∧ ClaimToken j' = ClaimToken j).

Lemma owners_kept_refl t : owners_kept t t.
Proof. intros id j Hj. eauto. Qed.

Lemma owners_kept_one t id j' :
  (∀ j, t !! id = Some j → TenantID j' = TenantID j
    ∧ (State_ j = StateRunning → State_ j' = StateRunning ∧ ClaimToken j' = ClaimToken j)) →
  owners_kept t (<[id := j']> t).
Proof.
  intros Hj i k Hk. destruct (decide (i = id)) as [->|].
  - rewrite lookup_insert_eq. exists j'. split; [done|]. by apply Hj.
  - rewrite lookup_insert_ne by done. eauto.
Qed.

Lemma runs_ok_rows t t' runs cs : owners_kept t t' → runs_ok t runs cs → runs_ok t' runs cs.
Proof.
  intros Hk [Hids Hjob Hcl Hop]. split; [done| |done|].
  - intros r Hr. destruct (Hjob r Hr) as (j&Hj&Ht). destruct (Hk _ j Hj) as (j'&Hj'&Ht'&_).
    exists j'. split; [done|congruence].
  - intros r Hr Hf. destruct (Hop r Hr Hf) as (j&tok&Hj&Hs&Htok&Hc). destruct (Hk _ j Hj) as (j'&Hj'&_&Hrun).
    destruct (Hrun Hs) as [? ?]. exists j', tok. repeat split; [done..|congruence|done].
Qed.

(** A job leaves the running state and its open run is closed. *)
Lemma runs_ok_close t runs runs' cs id j j' p f :
  runs_ok t runs cs → t !! id = Some j → TenantID j' = TenantID j →
  (∀ r r', f r = Some r' → same_run r r' ∧ is_Some (rr_finished_at r')) →
  update_runs p f runs = Some runs' →
  (∀ r, r ∈ runs → rr_job_id r = id → rr_finished_at r = None → p r = true) →
  runs_ok (<[id := j']> t) runs' cs.
Proof.
  intros [Hids Hjob Hcl Hop] Hj Ht Hf Hu Hp.
  destruct (update_runs_finish p f runs runs' Hf Hu) as [He Hr']. split.
  - by rewrite He.
  - intros r' Hin. destruct (Hr' r' Hin) as (r&Hr&(_&Hj'&Ht')&_). rewrite Hj', Ht'.
    destruct (Hjob r Hr) as (k&Hk&Htk). destruct (decide (rr_job_id r = id)) as [<-|].
    + rewrite lookup_insert_eq. exists j'. split; [done|congruence].
    + rewrite lookup_insert_ne by done. eauto.
  - intros r' Hin. destruct (Hr' r' Hin) as (r&Hr&(Hi&_&_)&_). rewrite Hi. by apply Hcl.
  - intros r' Hin Hfin. destruct (Hr' r' Hin) as (r&Hr&_&Hopen). destruct (Hopen Hfin) as [-> Hfalse].
    destruct (Hop r Hr Hfin) as (k&tok&Hk&?). rewrite lookup_insert_ne; [eauto|].
    intros ->. specialize (Hp r Hr eq_refl Hfin). congruence.
Qed.

(** Jobs are deleted together with their runs. *)
Lemma runs_ok_prune t t' runs cs (ids : list uuid) :
  runs_ok t runs cs → (∀ id, id ∉ ids → t' !! id = t !! id) →
  runs_ok t' (filter (λ r, rr_job_id r ∉ ids) runs) cs.
Proof.
  intros [Hids Hjob Hcl Hop] Hsame. split.
  - by apply NoDup_fmap_filter.
  - intros r [Hn Hr]%list_elem_of_filter. rewrite Hsame by done. by apply Hjob.
  - intros r [_ Hr]%list_elem_of_filter. by apply Hcl.
  - intros r [Hn Hr]%list_elem_of_filter Hf. rewrite Hsame by done. by apply Hop.
Qed.

Lemma runs_ok_more t runs cs cs' : cs ⊆ cs' → runs_ok t runs cs → runs_ok t runs cs'.
Proof.
  intros Hsub [Hids Hjob Hcl Hop]. split; [done|done| |].
  - intros r Hr. specialize (Hcl r Hr). apply list_elem_of_fmap in Hcl as (c&->&Hc).
    apply list_elem_of_fmap_2. by apply Hsub.
  - intros r Hr Hf. destruct (Hop r Hr Hf) as (j&tok&?&?&?&?). exists j, tok. auto.
Qed.

(** A pending job has no open run; claiming it opens one. *)
Lemma runs_ok_claim t runs cs c j now w deadline :
  let j' := claimed_row now w (c_token c) deadline j in
  runs_ok t runs cs → t !! c_job c = Some j → ID j = c_job c → State_ j = StatePending →
  c_run c ∉ (c_run <$> cs) →
  runs_ok (<[c_job c := j']> t) (runs ++ [opened_run (c_run c) now j']) (c :: cs).
Proof.
  intros j' Hok Hj Hid Hp Hfresh.
  assert (runs_ok (<[c_job c := j']> t) runs (c :: cs)) as [Hids Hjob Hcl Hop].
  { apply (runs_ok_more _ _ cs); [set_solver|]. apply (runs_ok_rows t); [|done].
    apply owners_kept_one. intros k Hk. assert (k = j) as -> by congruence. split; [done|congruence]. }
  split.
  - rewrite fmap_app. apply NoDup_app. split; [done|]. split; [|apply NoDup_singleton].
    intros x Hx Hx'%list_elem_of_singleton. subst x. apply list_elem_of_fmap in Hx as (r&Hr&Hin).
    apply Hfresh. cbn in Hr. rewrite Hr. by apply Hok.
  - intros r [Hr|Hr%list_elem_of_singleton]%elem_of_app; [by apply Hjob|subst r]. cbn. rewrite Hid.
    rewrite lookup_insert_eq. by exists j'.
  - intros r [Hr|Hr%list_elem_of_singleton]%elem_of_app; [by apply Hcl|subst r]. by left.
  - intros r [Hr|Hr%list_elem_of_singleton]%elem_of_app Hf; [by apply Hop|subst r]. cbn. rewrite Hid.
    rewrite lookup_insert_eq. exists j', (c_token c). repeat split. destruct c. by left.
Qed.

Section integrity.
Context `{!PgText}.

(** ** Idempotency keys stay unique *)
Lemma rows_step_cols t t' id j' :
  rows_step KPlain t t' → t' !! id = Some j' →
  ∃ j, t !! id = Some j ∧ TenantID j' = TenantID j ∧ IdempotencyKey j' = IdempotencyKey j.
Proof.
  intros Hr Hj'. destruct (Hr id) as [He|Hs]; [rewrite <- He; eauto|].
  rewrite Hj' in Hs. destruct (t !! id) as [j|]; [|inversion Hs; congruence].
  destruct (row_step_immutable _ _ _ _ Hs) as (_&?&_&_&_&_&_&?&_). eauto.
Qed.

Lemma keys_ok_cols t t' :
  (∀ id j', t' !! id = Some j' →
     ∃ j, t !! id = Some j ∧ TenantID j' = TenantID j ∧ IdempotencyKey j' = IdempotencyKey j) →
  keys_ok t → keys_ok t'.
Proof.
  intros Hc Hk id1 id2 j1' j2' H1 H2 He.
  destruct (Hc id1 j1' H1) as (j1&Hj1&?&?), (Hc id2 j2' H2) as (j2&Hj2&?&?).
  apply (Hk id1 id2 j1 j2); [done..|]. by rewrite <- (same_key_cols j1 j1' j2 j2').
Qed.

Lemma keys_ok_replace t id j j' :
  t !! id = Some j → TenantID j' = TenantID j → IdempotencyKey j' = IdempotencyKey j →
  keys_ok t → keys_ok (<[id := j']> t).
Proof.
  intros Hj Ht Hi. apply keys_ok_cols. intros i k Hk. destruct (decide (i = id)) as [->|].
  - rewrite lookup_insert_eq in Hk. injection Hk as <-. eauto.
  - rewrite lookup_insert_ne in Hk by done. eauto.
Qed.

Lemma keys_ok_insert t row :
  existsb (same_key row) (rows t) = false → keys_ok t → keys_ok (<[ID row := row]> t).
Proof.
  intros He Hk.
  assert (∀ id j, t !! id = Some j → same_key row j = false) as Hno.
  { intros id j Hj. apply not_true_is_false. intros Hs. apply not_true_iff_false in He. apply He.
    apply existsb_exists. exists j. split; [|done]. apply list_elem_of_In, elem_of_rows. eauto. }
  intros id1 id2 j1 j2 H1 H2 Hs.
  destruct (decide (id1 = ID row)) as [->|], (decide (id2 = ID row)) as [->|]; [done|..].
  - rewrite lookup_insert_eq in H1. rewrite lookup_insert_ne in H2 by done.
    injection H1 as <-. rewrite (Hno id2 j2 H2) in Hs. done.
  - rewrite lookup_insert_eq in H2. rewrite lookup_insert_ne in H1 by done.
    injection H2 as <-. apply same_key_sym in Hs. rewrite (Hno id1 j1 H1) in Hs. done.
  - rewrite lookup_insert_ne in H1 by done. rewrite lookup_insert_ne in H2 by done. by apply (Hk id1 id2 j1 j2).
Qed.

Lemma keys_ok_step s s' :
  keyed (jobs (s_db s)) → step s s' → keys_ok (jobs (s_db s)) → keys_ok (jobs (s_db s')).
Proof.
  intros Hk Hst. destruct (step_kinds s s' Hk Hst)
    as [_ _ Hrows|row _ _ _ He ->|c j now w dl Hj Hp _ ->|i j now Hj Hd ->]; cbn.
  - apply keys_ok_cols. intros id j' Hj'. by eapply rows_step_cols.
  - by apply keys_ok_insert.
  - by apply (keys_ok_replace _ _ j).
  - by apply (keys_ok_replace _ _ j).
Qed.

(** ** Dead letters *)
Lemma dead_ok_rows t t' dl :
  (∀ id j, t !! id = Some j → State_ j = StateDead → is_Some (dl !! id) →
     ∃ j', t' !! id = Some j' ∧ State_ j' = StateDead ∧ TenantID j' = TenantID j) →
  dead_ok t dl → dead_ok t' dl.
Proof.
  intros Hk Hd id e He. destruct (Hd id e He) as (j&Hj&Hs&Ht).
  destruct (Hk id j Hj Hs ltac:(by eexists)) as (j'&?&?&?). exists j'. repeat split; congruence.
Qed.

(** Overwriting a row that is not dead. *)
Lemma dead_ok_one t dl id j j' :
  t !! id = Some j → State_ j ≠ StateDead → dead_ok t dl → dead_ok (<[id := j']> t) dl.
Proof.
  intros Hj Hs. apply dead_ok_rows. intros i k Hk Hd _. exists k. rewrite lookup_insert_ne; [done|]. intros ->. congruence.
Qed.

Lemma dead_ok_new t dl id row : t !! id = None → dead_ok t dl → dead_ok (<[id := row]> t) dl.
Proof.
  intros Hn. apply dead_ok_rows. intros i k Hk Hd _. exists k. rewrite lookup_insert_ne; [done|]. intros ->. congruence.
Qed.

Lemma dead_ok_update t dl (l : list Job) f :
  keyed t → (∀ j, j ∈ l → j ∈ rows t ∧ State_ j ≠ StateDead) →
  dead_ok t dl → dead_ok (update_ids (ID <$> l) f t) dl.
Proof.
  intros Hk Hl. apply dead_ok_rows. intros i k Hi Hd _. rewrite lookup_update_ids, Hi. cbn.
  case_bool_decide as Hin; [|eauto]. apply (elem_of_ids t) in Hin as (j&Hj&Hij); [|done|apply Hl].
  destruct (Hl j Hj). congruence.
Qed.

Lemma dead_ok_move t dl now l :
  (∀ j, j ∈ l → State_ j = StateDead ∧ t !! ID j = Some j) → dead_ok t dl →
  dead_ok t (fst (insert_dead_letters now l dl)).
Proof.
  revert dl. induction l as [|j l IH]; intros dl Hl Hd; cbn; [done|].
  assert (∀ dl', dead_ok t dl' → dead_ok t (fst (insert_dead_letters now l dl'))) as IH'
    by (intros dl' Hdl'; apply IH; [intros k Hk; apply Hl; by right|done]).
  destruct (dl !! ID j) eqn:He; [by apply IH'|].
  specialize (IH' (<[ID j := dead_letter_row now j]> dl)).
  destruct (insert_dead_letters now l _) as [dl' n]. apply IH'. intros id e Hid.
  destruct (decide (id = ID j)) as [->|]; [|rewrite lookup_insert_ne in Hid by done; by apply Hd].
  rewrite lookup_insert_eq in Hid. injection Hid as <-. destruct (Hl j ltac:(by left)). by exists j.
Qed.

(** ** Each statement preserves both *)
Definition tables_ok (d : db) (cs : list claim) : Prop :=
  runs_ok (jobs d) (job_runs d) cs ∧ dead_ok (jobs d) (dead_letter d).

Lemma runs_ok_finish t runs runs' cs p f :
  (∀ r r', f r = Some r' → same_run r r' ∧ is_Some (rr_finished_at r')) →
  update_runs p f runs = Some runs' → runs_ok t runs cs → runs_ok t runs' cs.
Proof.
  intros Hf Hu [Hids Hjob Hcl Hop]. destruct (update_runs_finish p f runs runs' Hf Hu) as [He Hr']. split.
  - by rewrite He.
  - intros r' Hin. destruct (Hr' r' Hin) as (r&Hr&(_&->&->)&_). by apply Hjob.
  - intros r' Hin. destruct (Hr' r' Hin) as (r&Hr&(->&_&_)&_). by apply Hcl.
  - intros r' Hin Hfin. destruct (Hr' r' Hin) as (r&Hr&_&Hopen). destruct (Hopen Hfin) as [-> _]. by apply Hop.
Qed.

(** A row that is neither running nor dead is overwritten; runs and dead letters
    stay. *)
Lemma tables_ok_idle d cs id j j' :
  jobs d !! id = Some j → State_ j ≠ StateRunning → State_ j ≠ StateDead → TenantID j' = TenantID j →
  tables_ok d cs → tables_ok (mkDb (<[id := j']> (jobs d)) (job_runs d) (dead_letter d)) cs.
Proof.
  intros Hj Hr Hd Ht [Hruns Hdead]. split; cbn; [|by eapply dead_ok_one].
  apply (runs_ok_rows (jobs d)); [|done]. apply owners_kept_one. intros k Hk.
  assert (k = j) as -> by congruence. done.
Qed.

(** A row that is not dead is overwritten and its open runs are closed. *)
Lemma tables_ok_close d cs id j j' p f runs' :
  jobs d !! id = Some j → State_ j ≠ StateDead → TenantID j' = TenantID j →
  (∀ r r', f r = Some r' → same_run r r' ∧ is_Some (rr_finished_at r')) →
  update_runs p f (job_runs d) = Some runs' →
  (∀ r, r ∈ job_runs d → rr_job_id r = id → rr_finished_at r = None → p r = true) →
  tables_ok d cs → tables_ok (mkDb (<[id := j']> (jobs d)) runs' (dead_letter d)) cs.
Proof.
  intros Hj Hd Ht Hf Hu Hp [Hruns Hdead]. split; cbn; [by eapply runs_ok_close|by eapply dead_ok_one].
Qed.

(** The claim that owns a job opened its open run. *)
Lemma owner_open_run s c j r :
  claims_ok s → runs_ok (jobs (s_db s)) (job_runs (s_db s)) (s_claims s) →
  c ∈ s_claims s → jobs (s_db s) !! c_job c = Some j → owns (c_token c) j = true →
  r ∈ job_runs (s_db s) → rr_job_id r = c_job c → rr_finished_at r = None →
  is_run (c_job c) (c_run c) r = true.
Proof.
  intros Hok Hruns Hc Hj Ho Hr Hrj Hfin.
  destruct (ro_open _ _ _ Hruns r Hr Hfin) as (k&tok&Hk&_&Htok&Hcl).
  rewrite Hrj in Hk. assert (k = j) as -> by congruence.
  apply owns_iff in Ho as [_ Ho]; [|by eapply (co_table s Hok)].
  assert (mkClaim (rr_job_id r) (rr_id r) tok = c) as <- by (apply (claim_by_token s); [done..|cbn; congruence]).
  unfold is_run. cbn. by rewrite !bool_decide_true.
Qed.

Lemma complete_tables s c now d' u :
  claims_ok s → tables_ok (s_db s) (s_claims s) → c ∈ s_claims s →
  complete_stmt now (c_job c) (c_run c) (c_token c) (s_db s) = Ok (d', u) → tables_ok d' (s_claims s).
Proof.
  intros Hok Hi Hc Hst. unfold complete_stmt in Hst. stmt_cases Hst; try done.
  match goal with Hj : jobs _ !! _ = Some ?j, Ho : owns _ ?j = true |- _ =>
    pose proof (proj2 (co_table s Hok) _ j Hj) as Hjok;
    eapply (tables_ok_close _ _ _ j); [exact Hj| |done| |eassumption| |exact Hi];
      [by rewrite (proj1 (proj1 (owns_iff _ _ Hjok) Ho))|..] end.
  - intros r r'. apply finish_run_finishes.
  - intros r Hr Hrj Hfin. eapply owner_open_run; [exact Hok|apply Hi|done..].
Qed.

Lemma fail_tables s c now e next d' u :
  claims_ok s → tables_ok (s_db s) (s_claims s) → c ∈ s_claims s →
  fail_stmt now (c_job c) (c_run c) (c_token c) e next (s_db s) = Ok (d', u) → tables_ok d' (s_claims s).
Proof.
  intros Hok Hi Hc Hst. unfold fail_stmt in Hst. stmt_cases Hst; try done.
  match goal with Hj : jobs _ !! _ = Some ?j, Ho : owns _ ?j = true |- _ =>
    pose proof (proj2 (co_table s Hok) _ j Hj) as Hjok;
    eapply (tables_ok_close _ _ _ j); [exact Hj| |done| |eassumption| |exact Hi];
      [by rewrite (proj1 (proj1 (owns_iff _ _ Hjok) Ho))|..] end.
  - intros r r'. apply finish_run_finishes.
  - intros r Hr Hrj Hfin. eapply owner_open_run; [exact Hok|apply Hi|done..].
Qed.

Lemma close_open_all id r : rr_job_id r = id → rr_finished_at r = None →
  (λ r, bool_decide (rr_job_id r = id) && bool_decide (rr_finished_at r = None)) r = true.
Proof. intros. cbn. by rewrite !bool_decide_true. Qed.

Lemma requeue_tables d cs now snow id d' b :
  table_ok (jobs d) → tables_ok d cs → requeue_tx now snow id d = Ok (d', b) → tables_ok d' cs.
Proof.
  intros Ht Hi Hst. unfold requeue_tx, close_open_runs in Hst. stmt_cases Hst.
  - match goal with Hj : jobs _ !! _ = Some ?j, Ho : stale _ ?j = true |- _ =>
      pose proof (proj2 Ht _ j Hj) as Hjok;
      eapply (tables_ok_close _ _ _ j); [exact Hj| |done| |eassumption| |exact Hi];
        [by rewrite (proj1 (proj1 (stale_iff _ _ Hjok) Ho))|..] end.
    + intros r r'. apply finish_run_finishes.
    + intros r _. apply close_open_all.
  - split; cbn; [|apply Hi]. eapply runs_ok_finish; [|eassumption|apply Hi]. intros r r'. apply finish_run_finishes.
  - split; cbn; [|apply Hi]. eapply runs_ok_finish; [|eassumption|apply Hi]. intros r r'. apply finish_run_finishes.
Qed.

Lemma force_tables d cs now id d' u :
  table_ok (jobs d) → tables_ok d cs → force_fail_tx now id d = Ok (d', u) → tables_ok d' cs.
Proof.
  intros Ht Hi Hst. unfold force_fail_tx, close_open_runs in Hst. stmt_cases Hst.
  match goal with Hj : jobs _ !! _ = Some ?j, Ho : force_failable ?j = true |- _ =>
    pose proof (proj2 Ht _ j Hj) as Hjok;
    eapply (tables_ok_close _ _ _ j); [exact Hj| |done| |eassumption| |exact Hi];
      [apply (force_failable_iff _ Hjok) in Ho as [->|[->|[->| ->]]]; done|..] end.
  - intros r r'. apply finish_run_finishes.
  - intros r _. apply close_open_all.
Qed.

Lemma promote_tables st upd now limit locked p p' d d' l cs :
  keyed (jobs d) → st ≠ StateRunning → st ≠ StateDead → (∀ j, TenantID (upd j) = TenantID j) →
  tables_ok d cs → promote st upd now limit locked p p' d = Ok (d', l) → tables_ok d' cs.
Proof.
  intros Hk Hr Hd Hupd [Hruns Hdead] Hst. unfold promote in Hst.
  destruct (due_rows st now limit locked p d) as [due|] eqn:Hdue; [|done]. injection Hst as <- _.
  assert (∀ j, j ∈ due → j ∈ rows (jobs d) ∧ State_ j = st) as Hin
    by (intros j Hj; destruct (due_rows_in _ _ _ _ _ _ _ Hdue j Hj) as (?&?&_); done).
  split; cbn.
  - apply (runs_ok_rows (jobs d)); [|done]. intros id j Hj. rewrite lookup_update_ids, Hj. cbn.
    eexists. split; [done|]. case_bool_decide as Hid; [|done]. split; [done|].
    apply (elem_of_ids (jobs d)) in Hid as (k&Hkd&Hkid); [|done|apply Hin]. destruct (Hin k Hkd). congruence.
  - apply dead_ok_update; [done| |done]. intros j Hj. destruct (Hin j Hj). split; congruence.
Qed.

Lemma promote_one_tables now id d d' u cs :
  tables_ok d cs → promote_one_stmt now id d = Ok (d', u) → tables_ok d' cs.
Proof.
  intros Hi Hst. unfold promote_one_stmt in Hst. stmt_cases Hst; try done. bool_to_prop.
  eapply tables_ok_idle; [eassumption|congruence|congruence|done|done].
Qed.

Lemma cancel_tables now id tenantID d d' u cs :
  tables_ok d cs → cancel_stmt now id tenantID d = Ok (d', u) → tables_ok d' cs.
Proof.
  intros Hi Hst. unfold cancel_stmt in Hst. stmt_cases Hst. bool_to_prop.
  match goal with Hc : cancellable _ = true |- _ => apply cancellable_iff in Hc end.
  eapply tables_ok_idle; [eassumption|intuition congruence|intuition congruence|done|done].
Qed.

Lemma extend_tables id tok deadline d d' u cs :
  table_ok (jobs d) → tables_ok d cs → extend_stmt id tok deadline d = Ok (d', u) → tables_ok d' cs.
Proof.
  intros Ht Hi Hst. unfold extend_stmt in Hst. stmt_cases Hst; try done.
  match goal with Hj : jobs _ !! _ = Some ?j, Ho : owns _ ?j = true |- _ =>
    apply owns_iff in Ho as [Hs _]; [|by eapply Ht]; split; cbn;
      [apply (runs_ok_rows (jobs d)); [|apply Hi]; apply owners_kept_one; intros k Hk;
         assert (k = j) as -> by congruence; done
      |eapply dead_ok_one; [exact Hj|congruence|apply Hi]] end.
Qed.

Lemma move_tables now limit p d d' n cs :
  keyed (jobs d) → tables_ok d cs → move_stmt now limit p d = Ok (d', n) → tables_ok d' cs.
Proof.
  intros Hk [Hruns Hdead] Hst. unfold move_stmt in Hst.
  destruct (unmoved_dead limit p d) as [l|] eqn:Hl; [|done]. 
  pose proof (dead_ok_move (jobs d) (dead_letter d) now l) as Hmove.
  cbn in Hst. destruct (insert_dead_letters now l (dead_letter d)) as [dl k]. injection Hst as <- _. split; cbn; [done|].
  apply Hmove; [|done]. intros j Hj. apply LIMIT_Some in Hl as [_ ->]. apply elem_of_take_in in Hj.
  rewrite elem_of_visit, list_elem_of_filter, elem_of_rows in Hj. destruct Hj as [[Hs _] [id Hid]].
  split; [done|]. by rewrite (Hk id j Hid).
Qed.

Lemma replay_tables now id tenantID d d' u cs :
  tables_ok d cs → replay_tx now id tenantID d = Ok (d', u) → tables_ok d' cs.
Proof.
  intros [Hruns Hdead] (j&Hj&_&Hs&[= -> _])%replay_tx_inv. split; cbn.
  - apply (runs_ok_rows (jobs d)); [|done]. apply owners_kept_one. intros k Hk.
    assert (k = j) as -> by congruence. split; [done|congruence].
  - intros i e He. destruct (decide (i = id)) as [->|]; [by rewrite lookup_delete_eq in He|].
    rewrite lookup_delete_ne in He by done. rewrite lookup_insert_ne by done. by apply Hdead.
Qed.

Lemma prune_finished_tables cutoff limit p d d' n cs :
  keyed (jobs d) → tables_ok d cs → prune_finished_stmt cutoff limit p d = Ok (d', n) → tables_ok d' cs.
Proof.
  intros Hk [Hruns Hdead] Hst. unfold prune_finished_stmt in Hst.
  destruct (LIMIT _ _) as [l|] eqn:Hl; [|done]. injection Hst as <- _. apply LIMIT_Some in Hl as [_ ->]. split; cbn.
  - eapply runs_ok_prune; [done|]. intros id Hid. rewrite lookup_delete_ids. by rewrite bool_decide_false.
  - eapply dead_ok_rows; [|done]. intros id j Hj Hs _. exists j. rewrite lookup_delete_ids.
    rewrite bool_decide_false; [done|]. intros Hid.
    apply (elem_of_ids (jobs d)) in Hid as (k&Hin%elem_of_take_in&Hki); [|done|].
    + rewrite elem_of_visit, list_elem_of_filter in Hin. destruct Hin as [[[?|?] _] _]; congruence.
    + intros k Hin%elem_of_take_in. rewrite elem_of_visit, list_elem_of_filter in Hin. apply Hin.
Qed.

Lemma prune_dead_tables cutoff limit p d d' n cs :
  tables_ok d cs → prune_dead_stmt cutoff limit p d = Ok (d', n) → tables_ok d' cs.
Proof.
  intros [Hruns Hdead] Hst. unfold prune_dead_stmt in Hst.
  destruct (LIMIT _ _) as [l|] eqn:Hl; [|done]. injection Hst as <- _. split; cbn.
  - eapply runs_ok_prune; [done|]. intros id Hid. rewrite lookup_delete_ids, bool_decide_false; [done|].
    by intros [_ ?]%list_elem_of_filter.
  - intros id e. rewrite !lookup_delete_ids. case_bool_decide as Hid; [done|]. intros He.
    rewrite bool_decide_false by (by intros [_ ?]%list_elem_of_filter). by apply Hdead.
Qed.

Lemma drop_runs_tables keep d d' u cs : tables_ok d cs → drop_runs keep d = Ok (d', u) → tables_ok d' cs.
Proof.
  intros [[Hids Hjob Hcl Hop] Hdead] [= <- _]. split; [|done]. split; cbn.
  - by apply NoDup_fmap_filter.
  - intros r [_ Hr]%list_elem_of_filter. auto.
  - intros r [_ Hr]%list_elem_of_filter. auto.
  - intros r [_ Hr]%list_elem_of_filter. auto.
Qed.

Lemma insert_tables j d d' u cs :
  submittable j → tables_ok d cs → insert_stmt j d = Ok (d', u) → tables_ok d' cs.
Proof.
  intros Hs [Hruns Hdead] Hst. destruct (insert_stmt_inv _ _ _ _ Hs Hst) as (row&_&Hn&_&_&->).
  split; cbn; [|by apply dead_ok_new]. apply (runs_ok_rows (jobs d)); [|done].
  apply owners_kept_one. intros k Hk. congruence.
Qed.

Lemma claim_tables s f (st : stmt db (option (Job * uuid))) locked now jobID w token deadline runID :
  keyed (jobs (s_db s)) → tables_ok (s_db s) (s_claims s) → fresh_claim s runID token →
  (∀ r, st (s_db s) = Ok r → claim_stmt locked now jobID w token deadline runID (s_db s) = Ok r) →
  tables_ok (fst (exec f st (s_db s))) (note_claim f jobID token (st (s_db s)) (s_claims s)).
Proof.
  intros Hk Hi [_ Hf] Hst. unfold exec, note_claim.
  destruct (st (s_db s)) as [[d' o]|e]; [|by destruct f].
  destruct (claim_stmt_inv _ _ _ _ _ _ _ _ _ _ (Hst _ eq_refl)) as [[-> ->]|(j&Hj&Hp&->&->)]; [by destruct f|].
  destruct f; cbn; [|done|]; (split; cbn;
    [by apply (runs_ok_claim _ _ _ (mkClaim jobID runID token)); [apply Hi|done|apply Hk|done|]
    |eapply dead_ok_one; [done|congruence|apply Hi]]).
Qed.

Lemma tables_ok_step s s' :
  claims_ok s → tables_ok (s_db s) (s_claims s) → step s s' → tables_ok (s_db s') (s_claims s').
Proof.
  intros Hok Hi Hst. pose proof (co_table s Hok) as Ht. pose proof (proj1 Ht) as Hk.
  destruct Hst; cbn;
    try (apply (exec_ind (λ d', tables_ok d' (s_claims s))); [done|]; intros d' a Ha).
  - by eapply insert_tables.
  - by eapply claim_tables.
  - eapply claim_tables; [done..|]. intros r Hr. by apply claim_limited_inv in Hr as [? _].
  - by eapply extend_tables.
  - by eapply complete_tables.
  - by eapply fail_tables.
  - by eapply promote_tables; [| | | | |exact Ha].
  - by eapply promote_tables; [| | | | |exact Ha].
  - by eapply promote_one_tables.
  - by eapply requeue_tables.
  - by eapply move_tables.
  - by eapply cancel_tables.
  - by eapply replay_tables.
  - by eapply prune_finished_tables.
  - by eapply prune_dead_tables.
  - by eapply force_tables.
  - by eapply drop_runs_tables.
Qed.

Lemma reachable_tables_ok s :
  reachable s → claims_ok s ∧ keys_ok (jobs (s_db s)) ∧ tables_ok (s_db s) (s_claims s).
Proof.
  revert s. apply reachable_inv.
  - split; [by apply reachable_claims_ok, rtc_refl|]. split; [intros ????; cbn; by rewrite lookup_empty|].
    split; cbn; [|intros ??; by rewrite lookup_empty]. split; [constructor|..]; intros r; by rewrite elem_of_nil.
  - intros s s' (Hok&Hkeys&Ht) Hst. split; [by eapply claims_ok_step|]. split; [|by eapply tables_ok_step].
    eapply keys_ok_step; [apply Hok|exact Hst|done].
Qed.

End integrity.
