(* ===== verification/MigrationFacts.v ===== *)
(** * What the migrations guarantee

    Every state a database can reach by migrations up and down, and by use in between, has
    the catalogue of its version and rows of its columns; the program's statements fit the
    last version only. What becomes of API keys on the way up, and on the way down. *)

From S2P Require Import Prelude GoBase Encoding Job Db Partitions Tenants Schedules Migrations.
From S2P Require Import Lifecycle Claims Integrity.

Open Scope Z_scope.
Local Open Scope sluice_scope.

Lemma up_Some `{!UuidText} `{!SessionZone} draw v c d c' d' :
  up draw v (c, d) = Some (c', d') ↔ cat_up v c = Some c' ∧ data_up draw v d = Some d'.
Proof. unfold up. cbn [fst snd]. rewrite bind_Some. setoid_rewrite bind_Some. naive_solver. Qed.

Lemma down_Some `{!UuidText} `{!SessionZone} v c d c' d' :
  down v (c, d) = Some (c', d') ↔ cat_down v c = Some c' ∧ data_down v d = Some d'.
Proof. unfold down. cbn [fst snd]. rewrite bind_Some. setoid_rewrite bind_Some. naive_solver. Qed.

Lemma guard_Some {A} b (k : option A) a : guard_ b k = Some a ↔ b = true ∧ k = Some a.
Proof. destruct b; cbn; naive_solver. Qed.

Ltac unfold_data :=
  unfold partition_runs, unpartition_runs, add_default, drop_default, delete_cancelled, map_tenants, draw_secret.

(** ** Versions *)

(** The catalogue of a version; [cancelled] stays in the enum after a rollback. *)
Fixpoint cat_ups (v n : nat) (c : catalog) : option catalog :=
  match n with O => Some c | S n' => c' ← cat_up (S v) c; cat_ups (S v) n' c' end.

Definition catalog_at (v : nat) : catalog := default catalog_empty (cat_ups 0 v catalog_empty).

Definition states7 : list string := ["pending"; "scheduled"; "claimed"; "running"; "succeeded"; "failed"; "dead"].

Definition with_cancelled (c : catalog) : catalog :=
  mkCatalog (Some (states7 ++ ["cancelled"])) (c_tables c) (c_indexes c).

Definition catalogs (v : nat) : list catalog :=
  catalog_at v :: (if (1 <=? v)%nat && (v <? 6)%nat then [with_cancelled (catalog_at v)] else []).

#[export] Instance catalog_eq_dec : EqDecision catalog.
Proof. solve_decision. Defined.

Lemma versions_catalogs :
  forallb (λ v, forallb (λ c, match cat_up (S v) c with Some c' => bool_decide (c' ∈ catalogs (S v)) | None => false end) (catalogs v)) (seq 0 13)
  && forallb (λ v, forallb (λ c, match cat_down (S v) c with Some c' => bool_decide (c' ∈ catalogs v) | None => false end) (catalogs (S v))) (seq 0 13)
  = true.
Proof. vm_compute. reflexivity. Qed.

Lemma cat_up_catalogs v c :
  (v < latest)%nat → c ∈ catalogs v → ∃ c', cat_up (S v) c = Some c' ∧ c' ∈ catalogs (S v).
Proof.
  intros Hv Hc. pose proof versions_catalogs as [Hu _]%andb_true_iff.
  rewrite forallb_forall in Hu. specialize (Hu v ltac:(apply in_seq; unfold latest in Hv; lia)).
  rewrite forallb_forall in Hu. specialize (Hu c ltac:(by apply list_elem_of_In)).
  destruct (cat_up (S v) c) as [c'|]; [|done]. exists c'. by case_bool_decide.
Qed.

Lemma cat_down_catalogs v c :
  (v < latest)%nat → c ∈ catalogs (S v) → ∃ c', cat_down (S v) c = Some c' ∧ c' ∈ catalogs v.
Proof.
  intros Hv Hc. pose proof versions_catalogs as [_ Hd]%andb_true_iff.
  rewrite forallb_forall in Hd. specialize (Hd v ltac:(apply in_seq; unfold latest in Hv; lia)).
  rewrite forallb_forall in Hd. specialize (Hd c ltac:(by apply list_elem_of_In)).
  destruct (cat_down (S v) c) as [c'|]; [|done]. exists c'. by case_bool_decide.
Qed.

(** ** Rows have the columns of the table *)

(** The columns of [tenants] that come and go: which of them the table has, and which a
    row has a value in. *)
Definition moving_columns : list string := ["api_key"; "weight"; "api_key_hash"; "webhook_secret"; "max_concurrency"].

Definition table_flags (c : catalog) : option (list bool) :=
  (λ cols, (λ k, has_column k cols) <$> moving_columns) <$> c_tables c !! "tenants"%string.

Definition is_given {A} (o : option A) : bool := match o with Some _ => true | None => false end.

Definition row_flags (r : trow) : list bool :=
  [is_given (m_api_key r); is_given (m_weight r); is_given (m_api_key_hash r); is_given (m_webhook_secret r); is_given (m_max_concurrency r)].

Definition rows_typed (c : catalog) (t : gmap uuid trow) : Prop :=
  ∀ id r, t !! id = Some r → m_id r = id ∧ table_flags c = Some (row_flags r).

(** The columns of a version. *)
Definition flags_at (v : nat) : option (list bool) :=
  if (v <? 2)%nat then None
  else Some [(v <? 7)%nat; (4 <=? v)%nat; (7 <=? v)%nat; (10 <=? v)%nat; (12 <=? v)%nat].

Lemma table_flags_at v c : (v <= latest)%nat → c ∈ catalogs v → table_flags c = flags_at v.
Proof.
  intros Hv Hc.
  assert (forallb (λ v, forallb (λ c, bool_decide (table_flags c = flags_at v)) (catalogs v)) (seq 0 14) = true) as Hall
    by (vm_compute; reflexivity).
  rewrite forallb_forall in Hall. specialize (Hall v ltac:(apply in_seq; unfold latest in Hv; lia)).
  rewrite forallb_forall in Hall. specialize (Hall c ltac:(by apply list_elem_of_In)). by case_bool_decide.
Qed.

(** ** The states of a database *)
Section reach.
Context `{!UuidText} `{!SessionZone}.

(** A database at version [v]: an empty one; after a migration up or down that succeeded,
    whatever it drew; and after any use, which changes rows but not their columns. *)
Inductive reach : nat → catalog * data → Prop :=
| reach_empty : reach 0 (catalog_empty, data_empty)
| reach_up v m m' draw : reach v m → (v < latest)%nat → up draw (S v) m = Some m' → reach (S v) m'
| reach_down v m m' : reach (S v) m → down (S v) m = Some m' → reach v m'
| reach_use v c d d' : reach v (c, d) → rows_typed c (d_tenants d') → reach v (c, d').

Lemma unique_column (col : trow → option string) (t : gmap uuid trow) id1 id2 r1 r2 :
  NoDup (col <$> rows t) → t !! id1 = Some r1 → t !! id2 = Some r2 → col r1 = col r2 → id1 = id2.
Proof.
  unfold rows. rewrite <- list_fmap_compose. intros Hnd H1%elem_of_map_to_list H2%elem_of_map_to_list Heq.
  apply list_elem_of_lookup in H1 as [i1 H1], H2 as [i2 H2].
  assert (i1 = i2) as ->; [|congruence].
  eapply (NoDup_lookup _ _ _ (col r1) Hnd); rewrite list_lookup_fmap; [by rewrite H1|rewrite H2; cbn; by rewrite Heq].
Qed.

Lemma hash_keys_Some t t' :
  hash_keys t = Some t' →
  t' = (λ r, with_keys None (HashAPIKey <$> m_api_key r) r) <$> t
  ∧ ∀ id1 id2 r1 r2, t !! id1 = Some r1 → t !! id2 = Some r2 → is_Some (m_api_key r1)
      ∧ (HashAPIKey <$> m_api_key r1 = HashAPIKey <$> m_api_key r2 → id1 = id2).
Proof.
  unfold hash_keys. intros [[Hall Hnd]%andb_true_iff [= <-]]%guard_Some. split.
  { apply map_eq. intros id. rewrite !lookup_fmap. by destruct (t !! id). }
  apply bool_decide_eq_true in Hall, Hnd. rewrite Forall_forall in Hall.
  assert (∀ id r, t !! id = Some r → with_keys (m_api_key r) (HashAPIKey <$> m_api_key r) r
            ∈ rows ((λ r, with_keys (m_api_key r) (HashAPIKey <$> m_api_key r) r) <$> t)) as Hin.
  { intros id r Hr. apply elem_of_rows. exists id. by rewrite lookup_fmap, Hr. }
  intros id1 id2 r1 r2 H1 H2. split.
  - destruct (Hall _ (Hin _ _ H1)) as [h Hh]. cbn in Hh. destruct (m_api_key r1); [eauto|done].
  - intros Heq. eapply unique_column; [exact Hnd|..]; [by rewrite lookup_fmap, H1|by rewrite lookup_fmap, H2|done].
Qed.

Lemma unhash_keys_Some t t' :
  unhash_keys t = Some t' → t' = (λ r, with_keys (Some (reissued_key r)) None r) <$> t.
Proof.
  unfold unhash_keys. intros [_ [= <-]]%guard_Some. apply map_eq. intros id. rewrite !lookup_fmap.
  by destruct (t !! id).
Qed.

(** What a migration does to the rows of [tenants]: the row it makes of each. *)
Definition tenant_up (draw : uuid → bytes) (v : nat) (r : trow) : trow :=
  match v with
  | 4%nat => with_weight (Some 100) r
  | 7%nat => with_keys None (HashAPIKey <$> m_api_key r) r
  | 10%nat => draw_secret draw r
  | 11%nat => set_dev_status "disabled" r
  | 12%nat => with_cap (Some 0) r
  | _ => r
  end.

Definition tenant_down (v : nat) (r : trow) : trow :=
  match v with
  | 4%nat => with_weight None r
  | 7%nat => with_keys (Some (reissued_key r)) None r
  | 10%nat => with_secret None r
  | 11%nat => set_dev_status "active" r
  | 12%nat => with_cap None r
  | _ => r
  end.

Lemma fmap_same (f : trow → trow) (t : gmap uuid trow) : (∀ r, f r = r) → t = f <$> t.
Proof. intros Hf. apply map_eq. intros id. rewrite lookup_fmap. destruct (t !! id); cbn; [by rewrite Hf|done]. Qed.

Lemma data_up_tenants draw v d d' :
  v ≠ 2%nat → data_up draw v d = Some d' → d_tenants d' = tenant_up draw v <$> d_tenants d.
Proof.
  intros Hv. do 14 (try destruct v as [|v]); cbn [data_up]; unfold_data;
    try (intros [= <-]; cbn [d_tenants set_d_tenants set_d_jobs set_d_runs]; done || by apply fmap_same).
  - intros [_ [= <-]]%guard_Some. by apply fmap_same.
  - repeat case_match; [done| |done]. intros [= <-]. by apply fmap_same.
  - intros (t&Ht&[= <-])%bind_Some. by apply hash_keys_Some in Ht as [-> _].
Qed.

Lemma data_down_tenants v d d' :
  v ≠ 2%nat → data_down v d = Some d' → d_tenants d' = tenant_down v <$> d_tenants d.
Proof.
  intros Hv. do 14 (try destruct v as [|v]); cbn [data_down]; unfold_data;
    try (intros [= <-]; cbn [d_tenants set_d_tenants set_d_jobs set_d_runs]; done || by apply fmap_same).
  - intros [_ [= <-]]%guard_Some. by apply fmap_same.
  - intros [= <-]. repeat case_match; by apply fmap_same.
  - intros (t&Ht&[= <-])%bind_Some. by apply unhash_keys_Some in Ht as ->.
Qed.

(** The columns of the rows follow those of the version. *)
Lemma tenant_up_flags draw v r :
  (v < latest)%nat → v ≠ 1%nat → flags_at v = Some (row_flags r) → flags_at (S v) = Some (row_flags (tenant_up draw (S v) r)).
Proof.
  intros Hv H1 Hf. unfold latest in Hv. unfold row_flags in *.
  do 13 (try destruct v as [|v]); try lia; cbn in Hf |- *; try congruence.
  - destruct (m_api_key r); cbn in Hf |- *; congruence.
  - unfold set_dev_status. case_match; cbn; congruence.
Qed.

Lemma tenant_down_flags v r :
  (v < latest)%nat → v ≠ 1%nat → flags_at (S v) = Some (row_flags r) → flags_at v = Some (row_flags (tenant_down (S v) r)).
Proof.
  intros Hv H1 Hf. unfold latest in Hv. unfold row_flags in *.
  do 13 (try destruct v as [|v]); try lia; cbn in Hf |- *; try congruence.
  unfold set_dev_status. case_match; cbn; congruence.
Qed.

Lemma tenant_up_id draw v r : m_id (tenant_up draw v r) = m_id r.
Proof. do 14 (try destruct v as [|v]); cbn; try done. unfold set_dev_status. by case_match. Qed.

Lemma tenant_down_id v r : m_id (tenant_down v r) = m_id r.
Proof. do 14 (try destruct v as [|v]); cbn; try done. unfold set_dev_status. by case_match. Qed.

Lemma reach_ok v c d :
  reach v (c, d) → (v <= latest)%nat ∧ c ∈ catalogs v ∧ rows_typed c (d_tenants d).
Proof.
  remember (c, d) as m eqn:Hm. intros Hr. revert c d Hm.
  induction Hr as [|v m m' draw Hr IH Hv Hup|v m m' Hr IH Hdown|v c0 d0 d' Hr IH Ht]; intros c d Hm.
  - injection Hm as <- <-. split; [lia|]. split; [by left|]. intros id r. cbn. by rewrite lookup_empty.
  - destruct m as [c0 d0]. subst m'. apply up_Some in Hup as [Hc Hd]. destruct (IH _ _ eq_refl) as (_&Hcat&Ht).
    destruct (cat_up_catalogs v c0) as (c'&Hc''&Hc'); [lia|done|]. rewrite Hc in Hc''. injection Hc'' as <-. split; [lia|]. split; [done|]. intros id r Hr'.
    rewrite (table_flags_at (S v) c) by (done || lia). destruct (decide (v = 1%nat)) as [->|Hne].
    { cbn in Hd. injection Hd as <-. cbn in Hr'. apply lookup_singleton_Some in Hr' as [<- <-]. done. }
    rewrite (data_up_tenants draw (S v) d0 d ltac:(lia) Hd), lookup_fmap in Hr'.
    apply fmap_Some in Hr' as (q&Hq&->). destruct (Ht id q Hq) as [Hid Hfl]. rewrite tenant_up_id. split; [done|].
    apply tenant_up_flags; [done|done|]. by rewrite <- (table_flags_at v c0) by (done || lia).
  - destruct m as [c0 d0]. subst m'. apply down_Some in Hdown as [Hc Hd]. destruct (IH _ _ eq_refl) as (Hv&Hcat&Ht).
    destruct (cat_down_catalogs v c0) as (c'&Hc''&Hc'); [lia|done|]. rewrite Hc in Hc''. injection Hc'' as <-.
    split; [lia|]. split; [done|]. intros id r Hr'.
    rewrite (table_flags_at v c) by (done || lia). destruct (decide (v = 1%nat)) as [->|Hne].
    { cbn in Hd. injection Hd as <-. cbn in Hr'. by rewrite lookup_empty in Hr'. }
    rewrite (data_down_tenants (S v) d0 d ltac:(lia) Hd), lookup_fmap in Hr'.
    apply fmap_Some in Hr' as (q&Hq&->). destruct (Ht id q Hq) as [Hid Hfl]. rewrite tenant_down_id. split; [done|].
    apply tenant_down_flags; [lia|done|]. by rewrite <- (table_flags_at (S v) c0) by (done || lia).
  - injection Hm as <- <-. destruct (IH _ _ eq_refl) as (Hv&Hcat&_). done.
Qed.
End reach.

Lemma statements_at v c :
  (v <= latest)%nat → c ∈ catalogs v → forallb (typed c) statements = bool_decide (v = latest).
Proof.
  intros Hv Hc.
  assert (forallb (λ v, forallb (λ c, Bool.eqb (forallb (typed c) statements) (bool_decide (v = latest))) (catalogs v)) (seq 0 14) = true)
    as Hall by (vm_compute; reflexivity).
  rewrite forallb_forall in Hall. specialize (Hall v ltac:(apply in_seq; unfold latest in Hv; lia)).
  rewrite forallb_forall in Hall. specialize (Hall c ltac:(by apply list_elem_of_In)). by apply eqb_prop in Hall.
Qed.

Section facts.
Context `{!UuidText} `{!SessionZone} `{!PgText}.

Lemma code_row_typed c r :
  c ∈ catalogs latest → table_flags c = Some (row_flags r) → m_api_key r = None ∧ is_Some (code_row r).
Proof.
  intros Hc. rewrite (table_flags_at latest c) by done. destruct r as [? ? ? ? [] [] [] [] []]; cbn; by eauto.
Qed.

(** C18: Typing of the database. In every state reachable by migrations up and down and by
    use in between, a row of [tenants] has a value in exactly the columns the catalogue
    lists, at its own identifier. The statements of the program fit the last version and
    no other: there, every table, column and state they name exists, and each row reads as
    a tenant of the program; at every earlier version some statement names what is not
    there. *)
Theorem reach_typed v c d :
  reach v (c, d) →
  (∀ id r, d_tenants d !! id = Some r → m_id r = id ∧ table_flags c = Some (row_flags r))
  ∧ (forallb (typed c) statements = true ↔ v = latest)
  ∧ (v = latest → ∀ id, is_Some (code_tenants d !! id) ↔ is_Some (d_tenants d !! id)).
Proof.
  intros (Hv&Hc&Ht)%reach_ok. split; [done|]. split; [rewrite (statements_at v c Hv Hc); apply bool_decide_eq_true|].
  intros -> id. unfold code_tenants. rewrite lookup_omap. destruct (d_tenants d !! id) as [r|] eqn:Hr; cbn; [|done].
  destruct (code_row_typed c r Hc) as [_ Hsome]; [by apply (Ht id)|]. naive_solver.
Qed.

(** ** A fresh database *)
Definition fresh_row (draw : uuid → bytes) : trow :=
  mkTrow dev_id "dev" 1000 "disabled" None (Some 100) (Some (HashAPIKey dev_key))
    (Some ("whsec_" +:+ base64_std (draw dev_id))) (Some 0).

Definition fresh_data (draw : uuid → bytes) : data :=
  mkData ∅ ∅ ∅ [] (Some (seeds, true)) {[dev_id := fresh_row draw]}.

Lemma seeds_lookup k : k ∈ seed_months → is_Some (seeds !! partition_name k).
Proof.
  intros Hk. unfold seeds. destruct (list_to_map _ !! _) eqn:Hl; [eauto|]. apply not_elem_of_list_to_map in Hl.
  destruct Hl. rewrite <- list_fmap_compose. apply list_elem_of_fmap. eauto.
Qed.

Definition fresh_tenant (draw : uuid → bytes) : tenant_row :=
  mkTenantRow (mkTenant dev_id "dev" 1000 100 "disabled" ("whsec_" +:+ base64_std (draw dev_id)) 0) (HashAPIKey dev_key).

Fixpoint data_ups (draw : uuid → bytes) (v n : nat) (d : data) : option data :=
  match n with O => Some d | S n' => d' ← data_up draw (S v) d; data_ups draw (S v) n' d' end.

Lemma fresh_tenants draw : code_tenants (fresh_data draw) = {[dev_id := fresh_tenant draw]}.
Proof. by apply omap_singleton_Some. Qed.

Lemma hash_keys_singleton id r k :
  m_api_key r = Some k → hash_keys {[id := r]} = Some {[id := with_keys None (Some (HashAPIKey k)) r]}.
Proof.
  intros Hk. unfold hash_keys. rewrite !map_fmap_singleton, Hk. unfold column_unique, rows. rewrite map_to_list_singleton.
  rewrite !bool_decide_true; [done|apply NoDup_singleton|by apply Forall_singleton].
Qed.

Lemma fresh_disabled draw id status w h s n :
  set_dev_status status (mkTrow dev_id id w h None s (Some (HashAPIKey dev_key)) draw n)
  = mkTrow dev_id id w status None s (Some (HashAPIKey dev_key)) draw n.
Proof. unfold set_dev_status, is_dev. by rewrite !bool_decide_true. Qed.

Lemma ups_split draw v n c c' d d' :
  cat_ups v n c = Some c' → data_ups draw v n d = Some d' → ups draw v n (c, d) = Some (c', d').
Proof.
  revert v c d. induction n as [|n IH]; intros v c d; [by intros [= <-] [= <-]|]. cbn [cat_ups data_ups ups].
  intros (c1&Hc&Hcs)%bind_Some (d1&Hd&Hds)%bind_Some. unfold up. cbn [fst snd]. rewrite Hc. cbn [mbind option_bind].
  rewrite Hd. cbn [mbind option_bind]. by apply IH.
Qed.

Lemma fresh_rows draw : data_ups draw 0 latest data_empty = Some (fresh_data draw).
Proof.
  unfold latest. cbn [data_ups data_up]. unfold_data. cbn [data_ups data_up data_empty d_tenants set_d_tenants d_runs d_parts set_d_runs set_d_jobs mbind option_bind guard_ forallb].
  rewrite !map_fmap_singleton. rewrite (hash_keys_singleton _ _ dev_key) by done. cbn [mbind option_bind].
  cbn [d_tenants set_d_tenants d_jobs d_runs]. rewrite !map_fmap_singleton. unfold draw_secret, with_keys, with_secret. cbn [m_id].
  unfold dev_row, with_weight. cbn [m_id m_name m_rate_limit m_status m_weight m_api_key_hash m_webhook_secret m_max_concurrency].
  rewrite fresh_disabled. done.
Qed.

Lemma fresh_ups draw :
  ups draw 0 latest (catalog_empty, data_empty) = Some (catalog_at latest, fresh_data draw).
Proof. apply ups_split; [vm_compute; reflexivity|apply fresh_rows]. Qed.

(** A fresh installation accepts no API key. All thirteen migrations succeed on an
    empty database. They leave one tenant, the one for development whose key is public,
    and it is disabled: no key authenticates. The partitions they seed are those the
    program would make: asking for the partition of a seeded month changes nothing. *)
Theorem fresh_install draw :
  ups draw 0 latest (catalog_empty, data_empty) = Some (catalog_at latest, fresh_data draw)
  ∧ (∀ key, GetTenantByAPIKey NoFault key (code_tenants (fresh_data draw)) = Err ErrNotFound)
  ∧ (∀ y m, month_of y m ∈ seed_months → EnsureJobRunsPartition NoFault y m (seeds, []) = ((seeds, []), Ok tt)).
Proof.
  split; [apply fresh_ups|]. split.
  - intros key. rewrite fresh_tenants. unfold GetTenantByAPIKey, query, rows. rewrite map_to_list_singleton.
    change (snd <$> [(dev_id, fresh_tenant draw)]) with [fresh_tenant draw].
    assert (active (fresh_tenant draw) = false) as Ha by done. rewrite filter_cons_False; [done|].
    by rewrite Ha, andb_false_r.
  - intros y m Hk. unfold EnsureJobRunsPartition, exec, create_stmt.
    by rewrite bool_decide_true by (by apply seeds_lookup).
Qed.
(** ** API keys on the way up *)
Fixpoint tenant_ups (draw : uuid → bytes) (v n : nat) (r : trow) : trow :=
  match n with O => r | S n' => tenant_ups draw (S v) n' (tenant_up draw (S v) r) end.

Fixpoint tenant_downs (v n : nat) (r : trow) : trow :=
  match n, v with S n', S v' => tenant_downs v' n' (tenant_down v r) | _, _ => r end.

Lemma ups_tenants draw v n c d c' d' :
  (2 <= v)%nat → ups draw v n (c, d) = Some (c', d') → d_tenants d' = tenant_ups draw v n <$> d_tenants d.
Proof.
  revert v c d. induction n as [|n IH]; intros v c d Hv; cbn [ups]; [by intros [= <- <-]; apply fmap_same|].
  intros ([c1 d1]&[_ Hd]%up_Some&Hu)%bind_Some. rewrite (IH (S v) _ _ ltac:(lia) Hu).
  rewrite (data_up_tenants draw (S v) d d1 ltac:(lia) Hd). by rewrite <- map_fmap_compose.
Qed.

Lemma downs_tenants v n c d c' d' :
  (n + 2 <= v)%nat → downs v n (c, d) = Some (c', d') → d_tenants d' = tenant_downs v n <$> d_tenants d.
Proof.
  revert v c d. induction n as [|n IH]; intros [|v] c d Hv; cbn [downs]; try (by intros [= <- <-]; apply fmap_same).
  intros ([c1 d1]&[_ Hd]%down_Some&Hu)%bind_Some. rewrite (IH v _ _ ltac:(lia) Hu).
  rewrite (data_down_tenants (S v) d d1 ltac:(lia) Hd). by rewrite <- map_fmap_compose.
Qed.

Lemma reach_ups draw v n m m' : reach v m → (v + n <= latest)%nat → ups draw v n m = Some m' → reach (v + n) m'.
Proof.
  revert v m. induction n as [|n IH]; intros v m Hr Hv; cbn [ups]; [intros [= <-]; by rewrite Nat.add_0_r|].
  intros (m1&Hm&Hu)%bind_Some. rewrite Nat.add_succ_r. apply (IH (S v) m1); [by eapply reach_up; [exact Hr|lia|]|lia|done].
Qed.

Lemma reach_downs v n m m' : reach v m → (n <= v)%nat → downs v n m = Some m' → reach (v - n) m'.
Proof.
  revert v m. induction n as [|n IH]; intros [|v] m Hr Hv; cbn [downs]; try (intros [= <-]; done).
  intros (m1&Hm&Hu)%bind_Some. cbn. apply (IH v m1); [by eapply reach_down|lia|done].
Qed.

(** The row that the migrations after the sixth make of a row, as the program reads it. *)
Definition upgraded (draw : uuid → bytes) (r : trow) (w : Z) (key : string) : tenant_row :=
  mkTenantRow
    (mkTenant (m_id r) (m_name r) (m_rate_limit r) w
       (if bool_decide (m_id r = dev_id) && bool_decide (HashAPIKey key = HashAPIKey dev_key) then "disabled" else m_status r)
       ("whsec_" +:+ base64_std (draw (m_id r))) 0)
    (HashAPIKey key).

Lemma upgraded_row draw r w key :
  m_weight r = Some w → m_api_key r = Some key → code_row (tenant_ups draw 6 7 r) = Some (upgraded draw r w key).
Proof.
  intros Hw Hk. cbn [tenant_ups tenant_up]. rewrite Hk. cbn [fmap option_fmap option_map].
  unfold upgraded, draw_secret, set_dev_status, is_dev, with_secret, with_keys. cbn [m_id m_api_key_hash].
  destruct (bool_decide (m_id r = dev_id)); cbn [andb]; [|unfold code_row, with_cap; cbn [m_weight m_api_key_hash m_webhook_secret m_max_concurrency]; by rewrite Hw].
  destruct (decide (HashAPIKey key = HashAPIKey dev_key)) as [He|Hne].
  - rewrite !bool_decide_true by congruence. unfold code_row, with_cap, with_status.
    cbn [m_weight m_api_key_hash m_webhook_secret m_max_concurrency]. by rewrite Hw.
  - rewrite !bool_decide_false by congruence. unfold code_row, with_cap. cbn [m_weight m_api_key_hash m_webhook_secret m_max_concurrency]. by rewrite Hw.
Qed.
(** Every row of a version-6 table has a key and a weight. *)
Lemma row_at_6 c d id r :
  reach 6 (c, d) → d_tenants d !! id = Some r → m_id r = id ∧ ∃ w key, m_weight r = Some w ∧ m_api_key r = Some key.
Proof.
  intros (_&Hc&Ht)%reach_ok Hr. destruct (Ht id r Hr) as [Hid Hf]. split; [done|].
  rewrite (table_flags_at 6 c) in Hf by (done || unfold latest; lia). unfold row_flags in Hf.
  destruct (m_api_key r), (m_weight r); try done; eauto.
Qed.

(** After the migrations up from version 6, the program finds exactly the upgraded rows,
    under distinct digests. *)
Lemma upgraded_tenants draw c d c' d' :
  reach 6 (c, d) → ups draw 6 7 (c, d) = Some (c', d') →
  tenants_ok (code_tenants d')
  ∧ ∀ id q, code_tenants d' !! id = Some q ↔
      ∃ r w key, d_tenants d !! id = Some r ∧ m_weight r = Some w ∧ m_api_key r = Some key ∧ q = upgraded draw r w key.
Proof.
  intros Hr Hu.
  assert (∀ id q, code_tenants d' !! id = Some q ↔
      ∃ r w key, d_tenants d !! id = Some r ∧ m_weight r = Some w ∧ m_api_key r = Some key ∧ q = upgraded draw r w key) as Hrows.
  { intros id q. unfold code_tenants. rewrite lookup_omap, (ups_tenants draw 6 7 c d c' d' ltac:(lia) Hu), lookup_fmap.
    destruct (d_tenants d !! id) as [r|] eqn:Hl; cbn [fmap option_fmap option_map mbind option_bind]; [|naive_solver].
    destruct (row_at_6 c d id r Hr Hl) as (_&w&key&Hw&Hk). rewrite (upgraded_row draw r w key Hw Hk). split.
    - intros [= <-]. eauto 10.
    - intros (r'&w'&key'&[= <-]&?&?&->). congruence. }
  split; [|done]. cbn [ups] in Hu. apply bind_Some in Hu as ([c7 d7]&[_ Hd]%up_Some&_).
  apply bind_Some in Hd as (t7&[_ Huniq]%hash_keys_Some&_). split.
  - intros id q (r&w&key&Hl&_&_&->)%Hrows. by destruct (row_at_6 c d id r Hr Hl).
  - intros id1 id2 q1 q2 (r1&w1&k1&Hl1&_&Hk1&->)%Hrows (r2&w2&k2&Hl2&_&Hk2&->)%Hrows Hh.
    apply (Huniq id1 id2 r1 r2 Hl1 Hl2). rewrite Hk1, Hk2. cbn [fmap option_fmap option_map]. f_equal. exact Hh.
Qed.

Lemma upgraded_login draw c d c' d' id r key :
  reach 6 (c, d) → ups draw 6 7 (c, d) = Some (c', d') →
  d_tenants d !! id = Some r → m_api_key r = Some key → m_status r = "active"%string →
  (id = dev_id → HashAPIKey key ≠ HashAPIKey dev_key) →
  ∃ w, m_weight r = Some w ∧ GetTenantByAPIKey NoFault key (code_tenants d') = Ok (tr_tenant (upgraded draw r w key))
    ∧ tn_Status (tr_tenant (upgraded draw r w key)) = "active"%string.
Proof.
  intros Hr Hu Hl Hk Ha Hdev. destruct (upgraded_tenants draw c d c' d' Hr Hu) as [Hok Hrows].
  destruct (row_at_6 c d id r Hr Hl) as (Hid&w&key'&Hw&Hk'). assert (key' = key) as -> by congruence. exists w.
  assert (tn_Status (tr_tenant (upgraded draw r w key)) = "active"%string) as Hst.
  { unfold upgraded. cbn [tr_tenant tn_Status]. destruct (decide (id = dev_id)) as [He|Hne].
    - rewrite (bool_decide_false (HashAPIKey key = _)) by auto. by rewrite andb_false_r.
    - rewrite bool_decide_false by congruence. done. }
  split; [done|]. split; [|done]. apply (GetTenantByAPIKey_Ok _ _ _ Hok). exists (upgraded draw r w key). split.
  - apply Hrows. change (tn_ID (tr_tenant (upgraded draw r w key))) with (m_id r). rewrite Hid. eauto 10.
  - split; [done|]. split; [|done]. unfold active. by rewrite Hst.
Qed.

(** From version 6 only the digests can stop the migrations. *)
Lemma ups_succeed draw m :
  reach 6 m → is_Some (hash_keys (d_tenants (snd m))) → is_Some (ups draw 6 7 m).
Proof.
  destruct m as [c d]. intros (_&Hc&_)%reach_ok [t Ht]. cbn [snd] in Ht.
  assert (∀ n v c, (v + n <= latest)%nat → c ∈ catalogs v → is_Some (cat_ups v n c)) as Hcats.
  { clear. induction n as [|n IH]; intros v c Hv Hc; cbn [cat_ups]; [eauto|].
    destruct (cat_up_catalogs v c) as (c'&->&Hc'); [lia|done|]. apply IH; [lia|done]. }
  destruct (Hcats 7%nat 6%nat c) as [c' Hcs]; [unfold latest; lia|done|].
  assert (is_Some (data_ups draw 6 7 d)) as [d' Hds] by (cbn [data_ups data_up]; unfold_data; rewrite Ht; cbn; eauto).
  exists (c', d'). by apply ups_split.
Qed.


(** ** API keys on the way down *)
Lemma downgraded_row r :
  m_id r ≠ dev_id →
  m_api_key (tenant_downs 13 7 r) = Some ("reissue-" +:+ uuid_String (m_id r))
  ∧ m_status (tenant_downs 13 7 r) = m_status r.
Proof.
  intros Hne. cbn [tenant_downs tenant_down]. unfold set_dev_status, is_dev, with_cap, with_secret, with_keys, reissued_key. cbn [m_id].
  rewrite (bool_decide_false _ Hne). cbn [andb]. cbn. by rewrite (bool_decide_false _ Hne).
Qed.

(** Rolling back and upgrading again gives every tenant a key that can be guessed.
    When the migrations down to version 6 and up again have succeeded, each tenant that was
    active logs in with the word reissue and its own identifier, and identifiers are not
    secret; until its key is rotated, whoever knows the identifier is that tenant. *)
Theorem rollback_guessable draw c d c6 d6 c' d' id r :
  reach latest (c, d) → downs latest 7 (c, d) = Some (c6, d6) → ups draw 6 7 (c6, d6) = Some (c', d') →
  d_tenants d !! id = Some r → id ≠ dev_id → m_status r = "active"%string →
  ∃ tn, GetTenantByAPIKey NoFault ("reissue-" +:+ uuid_String id) (code_tenants d') = Ok tn ∧ tn_ID tn = id.
Proof.
  intros Hr Hd Hu Hl Hne Ha. assert (reach 6 (c6, d6)) as H6 by (by apply (reach_downs 13 7 (c, d)); [|unfold latest; lia|]).
  assert (m_id r = id) as Hid by (apply reach_ok in Hr as (_&_&Ht); by destruct (Ht id r Hl)).
  destruct (downgraded_row r) as [Hk Hst]; [congruence|]. rewrite Hid in Hk.
  assert (d_tenants d6 !! id = Some (tenant_downs 13 7 r)) as Hl6.
  { rewrite (downs_tenants 13 7 c d c6 d6 ltac:(lia) Hd), lookup_fmap, Hl. done. }
  destruct (upgraded_login draw c6 d6 c' d' id _ _ H6 Hu Hl6 Hk) as (w&_&Hg&_);
    [by rewrite Hst|intros He; contradiction|].
  eexists. split; [exact Hg|]. by destruct (row_at_6 c6 d6 id _ H6 Hl6).
Qed.
(** ** Rolling back *)

(** What migration 3 down demands of the rows, as the plain table has its keys back. *)
Definition runs_refer (d : data) : Prop :=
  (∀ r, r ∈ d_runs d → is_Some (d_jobs d !! rr_job_id r)) ∧ NoDup (rr_id <$> d_runs d).

Lemma data_down_refer v d d' : v ≠ 1%nat → runs_refer d → data_down v d = Some d' → runs_refer d'.
Proof.
  intros Hv [Hj Hnd]. do 14 (try destruct v as [|v]); cbn [data_down]; unfold_data; try done; try (intros [= <-]; split; done).
  - intros [_ [= <-]]%guard_Some. by split.
  - intros [= <-]. repeat case_match; try by split. split; cbn [d_runs d_jobs set_d_runs].
    + intros r [_ Hr]%list_elem_of_filter. by apply Hj.
    + by apply NoDup_fmap_filter.
  - intros [= <-]. split; cbn [d_runs d_jobs set_d_jobs].
    + intros r [Hc Hr]%list_elem_of_filter. destruct (Hj r Hr) as [j Hl]. exists j. apply map_lookup_filter_Some. split; [done|].
      cbn. unfold cancelled_id in Hc. by rewrite Hl in Hc.
    + by apply NoDup_fmap_filter.
  - intros (t&_&[= <-])%bind_Some. by split.
  - intros [= <-]. split; cbn [d_runs d_jobs set_d_jobs]; [|done]. intros r Hr. rewrite lookup_fmap. by apply fmap_is_Some, Hj.
Qed.

Lemma unhash_keys_succeeds t :
  (∀ id r, t !! id = Some r → m_id r = id ∧ uuid_valid id) → is_Some (unhash_keys t).
Proof.
  intros Ht. unfold unhash_keys, column_unique. rewrite !bool_decide_true; [eauto|..].
  - unfold rows. rewrite map_to_list_fmap, <- !list_fmap_compose. apply NoDup_fmap_2_strong; [|apply NoDup_map_to_list].
    intros [id1 r1] [id2 r2] Hr1%elem_of_map_to_list Hr2%elem_of_map_to_list. cbn. unfold reissued_key.
    destruct (Ht _ _ Hr1) as [Hi1 Hv1], (Ht _ _ Hr2) as [Hi2 Hv2]. rewrite Hi1, Hi2.
    repeat case_bool_decide; intros Heq; try discriminate Heq; [congruence|]. apply (inj Some) in Heq.
    injection Heq as Heq. apply uuid_String_inj in Heq; [congruence|done|done].
  - apply Forall_forall. intros r [id Hr]%elem_of_rows. rewrite lookup_fmap in Hr. apply fmap_Some in Hr as (q&_&->). cbn. eauto.
Qed.

Lemma data_down_succeeds v d :
  runs_refer d → (∀ id r, d_tenants d !! id = Some r → m_id r = id ∧ uuid_valid id) → is_Some (data_down v d).
Proof.
  intros [Hj Hnd] Ht. do 14 (try destruct v as [|v]); cbn [data_down]; unfold_data; eauto.
  - rewrite bool_decide_true by done. rewrite andb_true_r. rewrite (proj2 (forallb_forall _ _)); [cbn; eauto|].
    intros r Hr. apply bool_decide_eq_true, Hj. by apply list_elem_of_In.
  - destruct (unhash_keys_succeeds (d_tenants d) Ht) as [t ->]. cbn. eauto.
Qed.

Lemma downs_succeed v n m :
  reach v m → (n <= v)%nat → runs_refer (snd m) → (∀ id, is_Some (d_tenants (snd m) !! id) → uuid_valid id) →
  is_Some (downs v n m).
Proof.
  revert v m. induction n as [|n IH]; intros [|v] [c d] Hr Hn Hrefer Huuid; cbn [downs]; eauto. cbn [snd] in *.
  pose proof (reach_ok _ _ _ Hr) as (Hv&Hc&Ht).
  destruct (cat_down_catalogs v c) as (c'&Hc'&_); [lia|done|].
  destruct (data_down_succeeds (S v) d Hrefer) as [d' Hd]; [intros id r Hl; destruct (Ht id r Hl); eauto|].
  assert (down (S v) (c, d) = Some (c', d')) as Hdown by (by apply down_Some). rewrite Hdown. cbn [mbind option_bind].
  destruct (decide (v = 0%nat)) as [->|Hne]; [assert (n = 0%nat) as -> by lia; cbn; eauto|].
  apply IH; [by eapply reach_down|lia|by eapply data_down_refer; [|exact Hrefer|exact Hd]; lia|]. cbn [snd].
  destruct (decide (v = 1%nat)) as [->|Hne1]; [injection Hd as <-; intros id; cbn; rewrite lookup_empty; by intros [? ?]|].
  rewrite (data_down_tenants (S v) d d' ltac:(lia) Hd). intros id. rewrite lookup_fmap, fmap_is_Some. apply Huuid.
Qed.

(** C24: A rollback goes through. In any state the calls of the program can bring the job
    tables to, with tenants under proper identifiers, the migrations down succeed one after
    the other, to any version. The third is the one that could fail, as it gives
    [job_runs] its primary and foreign key back: no run is left without its job. *)
Theorem rollback_succeeds s c d n :
  reachable s → d_jobs d = jobs (s_db s) → d_runs d = job_runs (s_db s) →
  reach latest (c, d) → (∀ id, is_Some (d_tenants d !! id) → uuid_valid id) → (n <= latest)%nat →
  is_Some (downs latest n (c, d)).
Proof.
  intros (_&_&[Hids Hjob _ _]&_)%reachable_tables_ok Hj Hruns Hr Hu Hn. apply downs_succeed; try done.
  unfold runs_refer. cbn [snd]. rewrite Hj, Hruns. split; [|done]. intros r (j&Hl&_)%Hjob. eauto.
Qed.

(** Migration 3 has no default partition yet: on a table with a run that started after the
    last month it seeds, it fails. *)
Lemma upgrade_3_late draw c d r :
  (∀ k, midnight k < midnight (k + 1)) → r ∈ d_runs d → midnight (first_seed + 13) <= rr_started_at r →
  up draw 3 (c, d) = None.
Proof.
  intros Hmid Hr Hlate. unfold up. destruct (cat_up 3 _); [|done]. cbn [snd mbind option_bind data_up]. unfold_data.
  enough (forallb (has_partition seeds) (d_runs d) = false) as -> by done. apply not_true_iff_false.
  rewrite forallb_forall. intros Hall. apply list_elem_of_In in Hr. specialize (Hall r Hr).
  unfold has_partition in Hall. apply existsb_exists in Hall as ([name [lo hi]]&Hin&Hw). apply list_elem_of_In, elem_of_map_to_list in Hin.
  apply elem_of_list_to_map_2 in Hin. apply list_elem_of_fmap in Hin as (k&[= -> -> ->]&Hk).
  apply list_elem_of_fmap in Hk as (i&->&Hi%elem_of_seqZ).
  assert (∀ n k, midnight k <= midnight (k + Z.of_nat n)) as Hmono.
  { induction n as [|n IH]; intros k; [rewrite Z.add_0_r; lia|]. specialize (IH (k + 1)). specialize (Hmid k).
    replace (k + Z.of_nat (S n)) with (k + 1 + Z.of_nat n) by lia. lia. }
  specialize (Hmono (Z.to_nat (12 - i)) (first_seed + i + 1)).
  replace (first_seed + i + 1 + Z.of_nat (Z.to_nat (12 - i))) with (first_seed + 13) in Hmono by lia.
  unfold within in Hw. cbn in Hw. apply andb_true_iff in Hw as [_ Hw]. lia.
Qed.
End facts.
