(* ===== verification/Scenario.v ===== *)
(** * A concrete run of the store

    One job through its life on concrete tables: submitted, claimed by a worker
    that dies, reaped, claimed again by a second worker. The states are computed by
    the storage functions themselves; the theorems about every run are applied to
    this one. *)

From S2P Require Import Prelude GoBase Job Db Storage Lifecycle Claims Integrity.

Open Scope Z_scope.

Module Scenario.

(** A server that stores documents as they come and refuses NUL characters. *)
#[export] Instance sample_pg : PgText := {|
  jsonb_in := λ s, Some s;
  text_ok := λ s, negb (has_char "000"%char s);
|}.

Definition job1 : Job :=
  mkJob 1%N 7%N "webhook" "{}" 5 StatePending 1000000 None None None None 0 2 10 (Some "k1") None 1000000 None None.

Definition claim1 : claim := mkClaim 1%N 101%N 201%N.
Definition claim2 : claim := mkClaim 1%N 102%N 202%N.

Definition submitted : sys := with_db sys_init (fst (InsertJob NoFault job1 db_empty)).

(** The claim's reply is lost, but the claim took effect. *)
Definition claimed : sys :=
  mkSys (fst (TryClaim LostReply ∅ 2000000 1%N "w1" 201%N (30 * Second) 101%N (s_db submitted)))
    (note_claim LostReply 1%N 201%N
       (claim_stmt ∅ 2000000 1%N "w1" 201%N (30 * Second) 101%N (s_db submitted)) (s_claims submitted))
    (s_replays submitted).

Definition reaped : sys :=
  with_db claimed (fst (RequeueStaleJob NoFault (31 * Second) (31 * Second) 1%N (s_db claimed))).

Definition reclaimed : sys :=
  mkSys (fst (TryClaim NoFault ∅ (32 * Second) 1%N "w2" 202%N (62 * Second) 102%N (s_db reaped)))
    (note_claim NoFault 1%N 202%N
       (claim_stmt ∅ (32 * Second) 1%N "w2" 202%N (62 * Second) 102%N (s_db reaped)) (s_claims reaped))
    (s_replays reaped).

Lemma submitted_step : step sys_init submitted.
Proof. apply st_insert; [split; [by left|done]|split; apply not_elem_of_nil]. Qed.

Lemma claimed_step : step submitted claimed.
Proof. apply st_claim. split; apply not_elem_of_nil. Qed.

Lemma reaped_step : step claimed reaped.
Proof. apply st_requeue. Qed.

Lemma reaped_claims : s_claims reaped = [claim1].
Proof. vm_compute. reflexivity. Qed.

Lemma reclaimed_step : step reaped reclaimed.
Proof. apply st_claim. unfold fresh_claim. rewrite reaped_claims. cbn. split; set_solver by done. Qed.

Lemma reaped_reachable : reachable reaped.
Proof. eapply rtc_l, rtc_l, rtc_once; [apply submitted_step|apply claimed_step|apply reaped_step]. Qed.

Lemma reclaimed_reachable : reachable reclaimed.
Proof. eapply rtc_r; [apply reaped_reachable|apply reclaimed_step]. Qed.


Lemma claim1_lost : ¬ holds reaped claim1.
Proof.
  intros (j&Hj&Ho). cbn in Hj. assert (jobs (s_db reaped) !! 1%N = Some j) as Hj' by exact Hj.
  clear Hj. vm_compute in Hj'. injection Hj' as <-. vm_compute in Ho. discriminate.
Qed.

Lemma stale_claim_fenced_witness :
  (∀ f now, fst (CompleteJob f now 1%N 101%N 201%N (s_db reclaimed)) = s_db reclaimed)
  ∧ (∀ f now e next, fst (FailJob f now 1%N 101%N 201%N e next (s_db reclaimed)) = s_db reclaimed)
  ∧ (∀ f deadline, fst (ExtendDeadline f 1%N 201%N deadline (s_db reclaimed)) = s_db reclaimed).
Proof.
  apply (stale_claim_fenced reaped reclaimed claim1).
  - exact reaped_reachable.
  - rewrite reaped_claims. left.
  - exact claim1_lost.
  - apply rtc_once. exact reclaimed_step.
Defined.

Lemma exclusive_ownership_witness :
  (∀ c1 c2, c1 ∈ s_claims reclaimed → c2 ∈ s_claims reclaimed → c_job c1 = 1%N → c_job c2 = 1%N →
     holds reclaimed c1 → holds reclaimed c2 → c1 = c2)
  ∧ (∀ j, jobs (s_db reclaimed) !! 1%N = Some j → in_flight j = true →
       ∃ c, c ∈ s_claims reclaimed ∧ c_job c = 1%N ∧ holds reclaimed c).
Proof. apply (exclusive_ownership reclaimed 1%N). exact reclaimed_reachable. Defined.

Definition reclaimed_job : Job :=
  match jobs (s_db reclaimed) !! 1%N with Some j => j | None => job1 end.

Lemma bounded_executions_witness :
  executions reclaimed 1%N = 2
  ∧ executions reclaimed 1%N <= (replays reclaimed 1%N + 1) * (MaxRetries reclaimed_job + 1).
Proof.
  split; [vm_compute; reflexivity|].
  apply (bounded_executions reclaimed 1%N reclaimed_job).
  - exact reclaimed_reachable.
  - vm_compute. reflexivity.
Defined.

End Scenario.
