(* ===== verification/CronFacts.v ===== *)
(** * Cron occurrences fire once

    [fireSchedule] inserts a job keyed on the occurrence and then moves the schedule
    on. Whatever fails in between, the occurrence has exactly one job once any
    scheduler reports that it was fired. *)

From S2P Require Import Prelude GoBase Job Redis Queue Db Storage Tenants Schedules World Scheduler Lifecycle Claims Integrity.

Open Scope Z_scope.
Local Open Scope prog_scope.

Section cron.
Context `{!UuidText} `{!PgText} `{!InputLib} `{!CronLib}.

(** The jobs of the occurrence a schedule is due for. *)
Definition occurrence_job (s : Schedule) (j : Job) : Prop :=
  TenantID j = sc_TenantID s ∧ IdempotencyKey j = Some (occurrence_key s).

(** Only this program moves, but its calls may fail in any way. *)
Definition alone (o : oracle) : Prop := ∀ n w, t_env (o n) w = w.

Lemma on_schedules_db {A} o (f : turn → schedules → schedules * A) n w :
  alone o → w_db (snd (fst (on_schedules f o (n, w)))) = w_db w.
Proof. intros Ha. unfold on_schedules. rewrite on_run. cbn. by rewrite Ha. Qed.

Lemma on_redis_db {A} o (f : turn → redis → redis * A) n w :
  alone o → w_db (snd (fst (on_redis f o (n, w)))) = w_db w.
Proof. intros Ha. unfold on_redis. rewrite on_run. cbn. by rewrite Ha. Qed.

Lemma on_db_alone {A} o (f : turn → db → db * A) n w :
  alone o → on_db f o (n, w) = ((S n, set_db w (fst (f (o n) (w_db w)))), snd (f (o n) (w_db w))).
Proof. intros Ha. unfold on_db. rewrite on_run. cbn zeta. by rewrite Ha. Qed.

Lemma fire_update_db o s now next r n w :
  alone o → w_db (snd (fst (fire_update s now next r o (n, w)))) = w_db w
  ∧ (snd (fire_update s now next r o (n, w)) = r ∨ snd (fire_update s now next r o (n, w)) = FireError).
Proof.
  intros Ha. unfold fire_update, pbind.
  pose proof (on_schedules_db o (λ t, UpdateScheduleAfterRun (t_fault t) (sc_ID s) now next) n w Ha) as Hd.
  destruct (on_schedules _ o (n, w)) as [[n' w'] u]. cbn in Hd. destruct u; cbn; auto.
Qed.

Lemma insert_conflict_key j d d' :
  InsertJob NoFault j d = (d', Err ErrDuplicate) → jobs d !! ID j = None →
  d' = d ∧ ∃ id k, jobs d !! id = Some k ∧ same_key j k = true.
Proof.
  unfold InsertJob, exec, insert_stmt. destruct (new_row j) as [row|] eqn:Hrow; [|done].
  destruct (new_row_Some j row Hrow) as (Hid&Ht&Hk&_).
  destruct (conflicts (jobs d) row) eqn:Hc; [|done]. intros [= <-] Hn. split; [done|].
  unfold conflicts in Hc. rewrite Hid in Hc. rewrite bool_decide_false in Hc by (rewrite Hn; apply is_Some_None).
  apply existsb_exists in Hc as (k&Hin&Hs). apply list_elem_of_In, elem_of_rows in Hin as [id Hin].
  exists id, k. split; [done|]. by rewrite <- (same_key_cols j row k k).
Qed.

(** [InsertJob] keeps keys unique, under any fault. *)
Lemma insert_keys_ok f j d : keys_ok (jobs d) → keys_ok (jobs (fst (InsertJob f j d))).
Proof.
  intros Hk. apply (exec_ind (λ d', keys_ok (jobs d'))); [done|]. intros d' u Hst. unfold insert_stmt in Hst.
  destruct (new_row j) as [row|]; [|done]. destruct (conflicts (jobs d) row) eqn:Hc; [done|].
  injection Hst as <- _. cbn. apply keys_ok_insert; [|done]. unfold conflicts in Hc. by bool_to_prop.
Qed.

Lemma insert_Ok_row j d d' :
  InsertJob NoFault j d = (d', Ok tt) →
  ∃ row, new_row j = Some row ∧ jobs d' = <[ID row := row]> (jobs d).
Proof.
  unfold InsertJob, exec, insert_stmt. destruct (new_row j) as [row|]; [|done].
  destruct (conflicts (jobs d) row); [done|]. intros [= <-]. eauto.
Qed.

Lemma Build_job tmpl id tenantID now j :
  Build tmpl id tenantID now = Ok j → ID j = id ∧ TenantID j = tenantID.
Proof. unfold Build. destruct (validate _); [|done]. by intros [= <-]. Qed.

Lemma occurrence_unique s t id1 id2 j1 j2 :
  keys_ok t → t !! id1 = Some j1 → t !! id2 = Some j2 → occurrence_job s j1 → occurrence_job s j2 → id1 = id2.
Proof.
  intros Hk Ht1 Ht2 [Hten1 Hkey1] [Hten2 Hkey2]. apply (Hk id1 id2 j1 j2); [done..|]. apply same_key_iff.
  split; [congruence|]. eauto.
Qed.

(** The job of the occurrence is in the table. *)
Definition occurrence_recorded (s : Schedule) (t : gmap uuid Job) : Prop :=
  ∃ id j, t !! id = Some j ∧ occurrence_job s j.

(** Inserting the occurrence's job: reported done or duplicate, it is there. *)
Lemma insert_occurrence s f j d :
  jobs d !! ID j = None → TenantID j = sc_TenantID s → IdempotencyKey j = Some (occurrence_key s) →
  snd (InsertJob f j d) = Ok tt ∨ snd (InsertJob f j d) = Err ErrDuplicate →
  occurrence_recorded s (jobs (fst (InsertJob f j d))).
Proof.
  intros Hn Ht Hkey Hres.
  assert (f = NoFault) as ->.
  { unfold InsertJob, exec in Hres. destruct f, (insert_stmt j d) as [[? ?]|]; cbn in Hres; naive_solver. }
  destruct (InsertJob NoFault j d) as [d' r] eqn:Hins. cbn in Hres |- *. destruct Hres as [-> | ->].
  - destruct (insert_Ok_row j d d' Hins) as (row&Hrow&->).
    destruct (new_row_Some j row Hrow) as (_&Hrt&Hrk&_). exists (ID row), row. rewrite lookup_insert_eq.
    split; [done|]. split; congruence.
  - destruct (insert_conflict_key j d d' Hins Hn) as (->&id&k&Hk&Hs). apply same_key_iff in Hs as (Hst&key&Hk1&Hk2).
    exists id, k. split; [done|]. split; congruence.
Qed.

(** C23: A cron occurrence fires exactly once. When a scheduler fires a due
    schedule, whichever of its calls lose their request or their reply, keys stay
    unique; and if it reports the occurrence as fired or as already fired (by another
    scheduler, or by an attempt whose reply was lost), exactly one job of that
    occurrence exists. *)
Theorem fireSchedule_once s o n w :
  alone o → keys_ok (jobs (w_db w)) → jobs (w_db w) !! t_uuid (o n) = None →
  let w' := snd (fst (fireSchedule s o (n, w))) in
  let r := snd (fireSchedule s o (n, w)) in
  keys_ok (jobs (w_db w'))
  ∧ (r = Fired ∨ r = AlreadyFired →
     ∃ id j, jobs (w_db w') !! id = Some j ∧ occurrence_job s j
       ∧ ∀ id' j', jobs (w_db w') !! id' = Some j' → occurrence_job s j' → id' = id).
Proof.
  intros Ha Hk Hfresh w' r.
  enough (keys_ok (jobs (w_db w')) ∧ (r = Fired ∨ r = AlreadyFired → occurrence_recorded s (jobs (w_db w')))) as [Hk' Hrec].
  { split; [done|]. intros (id&j&Hj&Ho)%Hrec. exists id, j. split; [done|]. split; [done|].
    intros id' j' Hj' Ho'. by eapply occurrence_unique. }
  subst w' r.
  set (P := λ x : (nat * world) * fire_result,
    keys_ok (jobs (w_db (snd (fst x))))
    ∧ (snd x = Fired ∨ snd x = AlreadyFired → occurrence_recorded s (jobs (w_db (snd (fst x)))))).
  change (P (fireSchedule s o (n, w))).
  assert (∀ n0 w0, keys_ok (jobs (w_db w0)) → P (pret FireError o (n0, w0))) as Hfail
    by (intros n0 w0 Hk0; split; [exact Hk0|intros [[=]|[=]]]).
  assert (∀ n0 w0 r next, keys_ok (jobs (w_db w0)) → occurrence_recorded s (jobs (w_db w0)) →
    P (fire_update s (t_now (o n)) next r o (n0, w0))) as Hupd.
  { intros n0 w0 r next Hk0 Hr0. destruct (fire_update_db o s (t_now (o n)) next r n0 w0 Ha) as [Hd _].
    unfold P. rewrite Hd. auto. }
  unfold fireSchedule.
  destruct (cron_ok (sc_Cron s) && location_ok (sc_Timezone s)); [|by apply Hfail].
  erewrite pbind_run by reflexivity. erewrite pbind_run by reflexivity.
  destruct (json_Template (sc_JobTemplate s)) as [tmpl|]; [|by apply Hfail].
  destruct (Build tmpl (t_uuid (o n)) (sc_TenantID s) (t_now (o n))) as [j0|e] eqn:Hb;
    [|by apply Hfail].
  destruct (Build_job _ _ _ _ _ Hb) as [Hid Hten]. set (j := set_key (Some (occurrence_key s)) j0).
  erewrite pbind_run by (by apply on_db_alone). cbn beta.
  set (d1 := fst (InsertJob (t_fault (o n)) j (w_db w))). set (w1 := set_db w d1).
  assert (keys_ok (jobs d1)) as Hk1 by (by apply insert_keys_ok).
  pose proof (insert_occurrence s (t_fault (o n)) j (w_db w)) as Hrec. cbn in Hrec. rewrite Hid in Hrec.
  specialize (Hrec Hfresh Hten eq_refl). fold d1 in Hrec.
  destruct (snd (InsertJob (t_fault (o n)) j (w_db w))) as [[]|e] eqn:Hres.
  - pose proof (on_redis_db o (λ t, Enqueue (t_fault t) (t_server t) (TenantID j) (ID j) (Priority j)) (S n) w1 Ha) as Hd.
    unfold pbind at 1. destruct (on_redis _ o (S n, w1)) as [[n2 w2] u]. cbn in Hd.
    apply Hupd; rewrite Hd; auto.
  - destruct e; try (by apply Hfail). apply Hupd; auto.
Qed.
End cron.
