(* ===== verification/ScheduleFacts.v ===== *)
(** * Schedules: creation, edits and the batch of a pass

    A schedule starts at the next occurrence of its cron expression; what happens when
    the expression has none, and when an edit meets the scheduler. *)

From S2P Require Import Prelude GoBase Job Redis Queue Ratelimit Db Storage Tenants Schedules Stats World Webhook Worker Scheduler Api Admin Process CronFacts.

Open Scope Z_scope.
Local Open Scope prog_scope.

(** Rows sit at their identifier. *)
Definition skeyed (t : schedules) : Prop := ∀ id s, t !! id = Some s → sc_ID s = id.

Section due.
Context `{!PgText}.

(** The batch of a pass: enabled rows that are due, and none that is left out comes
    before one that is in. *)
Lemma GetDueSchedules_batch now limit p t l :
  GetDueSchedules NoFault now limit p t = Ok l →
  StronglySorted next_run_before l
  ∧ (∀ s, s ∈ l → sc_Enabled s = true ∧ sc_NextRunAt s <= now ∧ ∃ id, t !! id = Some s).
Proof.
  unfold GetDueSchedules, query. set (all := merge_sort _ _). unfold of_option.
  destruct (LIMIT limit all) as [l'|] eqn:Hl; [|done]. intros [= <-]. apply LIMIT_Some in Hl as [_ ->].
  assert (StronglySorted next_run_before all) as Hs.
  { apply StronglySorted_merge_sort; [intros a b c Hab Hbc; unfold next_run_before in *; lia
      |intros a b; unfold next_run_before; lia]. }
  split.
  - rewrite <- (take_drop (Z.to_nat limit) all) in Hs. by apply StronglySorted_app_1_l in Hs.
  - intros s Hin%elem_of_take_in. unfold all in Hin.
    rewrite merge_sort_Permutation, elem_of_visit, list_elem_of_filter, elem_of_rows in Hin. naive_solver.
Qed.

(** The rows of some identifiers, all of which are there. *)
Lemma rows_of (t : schedules) (P : Schedule → Prop) ids :
  skeyed t → (∀ id, id ∈ ids → ∃ s, t !! id = Some s ∧ P s) → NoDup ids →
  ∃ l, length l = length ids ∧ NoDup l ∧ ∀ s, s ∈ l → P s ∧ s ∈ rows t.
Proof.
  intros Hk Hids Hnd. enough (∃ l, sc_ID <$> l = ids ∧ ∀ s, s ∈ l → P s ∧ s ∈ rows t) as (l&He&Hl).
  { exists l. split; [by rewrite <- He, length_fmap|]. split; [|done]. apply (NoDup_fmap_1 sc_ID). by rewrite He. }
  clear Hnd. induction ids as [|id ids IH]; [exists []; split; [done|by intros s ?%not_elem_of_nil]|].
  destruct (Hids id) as (s&Hs&HP); [by left|]. destruct IH as (l&He&Hl); [intros id' Hid'; apply Hids; by right|].
  exists (s :: l). split; [cbn; f_equal; [by apply Hk|done]|].
  intros s' [->|Hin]%elem_of_cons; [|by apply Hl]. split; [done|]. apply elem_of_rows. eauto.
Qed.

(** As many rows as the batch has places, all due at [z], leave none for a later row. *)
Lemma batch_crowded now p t l z limit ids :
  skeyed t → NoDup ids → limit <= Z.of_nat (length ids) → z <= now →
  (∀ id, id ∈ ids → ∃ s, t !! id = Some s ∧ sc_Enabled s = true ∧ sc_NextRunAt s = z) →
  GetDueSchedules NoFault now limit p t = Ok l → ∀ s, s ∈ l → sc_NextRunAt s <= z.
Proof.
  intros Hk Hnd Hlen Hz Hids. unfold GetDueSchedules, query. set (all := merge_sort _ _). unfold of_option.
  destruct (LIMIT limit all) as [l'|] eqn:Hl; [|done]. intros [= <-]. apply LIMIT_Some in Hl as [Hpos ->].
  intros s Hs. destruct (Z.le_gt_cases (sc_NextRunAt s) z) as [|Hgt]; [done|exfalso].
  assert (StronglySorted next_run_before all) as Hsort.
  { apply StronglySorted_merge_sort; [intros a b c Hab Hbc; unfold next_run_before in *; lia
      |intros a b; unfold next_run_before; lia]. }
  destruct (rows_of t (λ s, sc_Enabled s = true ∧ sc_NextRunAt s = z) ids Hk Hids Hnd) as (rs&Hrl&Hrnd&Hrs).
  apply list_elem_of_lookup in Hs as [i Hi]. apply lookup_take_Some in Hi as [Hi Hlt].
  assert (rs ⊆+ take i all) as Hsub%submseteq_length.
  { apply NoDup_submseteq; [done|]. intros r Hr. destruct (Hrs r Hr) as [[He Hn] Hin].
    assert (r ∈ all) as Hra.
    { unfold all. rewrite merge_sort_Permutation, elem_of_visit, list_elem_of_filter. split; [|done]. split; [done|lia]. }
    rewrite <- (take_drop_middle all i s Hi) in Hra. apply elem_of_app in Hra as [?|[->|Hr2]%elem_of_cons]; [done|lia|].
    rewrite <- (take_drop_middle all i s Hi) in Hsort. apply StronglySorted_app in Hsort as (_&_&Hsort).
    apply StronglySorted_inv in Hsort as [_ Hall]. rewrite Forall_forall in Hall.
    specialize (Hall r Hr2). unfold next_run_before in Hall. lia. }
  rewrite length_take in Hsub. lia.
Qed.
End due.

Section starvation.
Context `{!UuidText} `{!PgText} `{!InputLib} `{!CronLib}.

(** [robfig/cron] returns the zero time for an expression without occurrences, such as
    the thirtieth of February. *)
Definition impossible (cron tz : string) : Prop := ∀ now, cron_Next cron tz now = zero_time.

(** Enabled schedules whose expression has no occurrence, stored at the zero time. *)
Definition stuck_rows (ids : list uuid) (t : schedules) : Prop :=
  ∀ id, id ∈ ids → ∃ s, t !! id = Some s ∧ sc_Enabled s = true ∧ sc_NextRunAt s = pg_ts zero_time
                         ∧ impossible (sc_Cron s) (sc_Timezone s).

(** Moving a schedule on keeps them, if the schedule is none of them or has no
    occurrence. *)
Lemma after_run_keeps ids f id last next t h hid :
  skeyed t → stuck_rows ids t → (id ∈ ids → next = zero_time) → id ≠ hid → t !! hid = Some h →
  let t' := fst (UpdateScheduleAfterRun f id last next t) in
  skeyed t' ∧ stuck_rows ids t' ∧ t' !! hid = Some h.
Proof.
  intros Hk Hst Hn Hne Hh. cbn zeta. unfold UpdateScheduleAfterRun.
  destruct (exec_cases f (after_run_stmt id last next) t) as [->|[u He]]; [done|]. revert He.
  generalize (fst (exec f (after_run_stmt id last next) t)). intros t' He. unfold after_run_stmt in He.
  destruct (t !! id) as [s|] eqn:Hs; [|by injection He as <- _]. injection He as <- _. split; [|split].
  - intros id' s' Hs'. destruct (decide (id' = id)) as [->|]; [rewrite lookup_insert_eq in Hs'; simplify_eq; by apply (Hk id s)|].
    rewrite lookup_insert_ne in Hs' by done. by apply Hk.
  - intros id' Hin. destruct (decide (id' = id)) as [->|]; [|rewrite lookup_insert_ne by done; by apply Hst].
    rewrite lookup_insert_eq. destruct (Hst id Hin) as (s'&Hs'&He&_&Hi). simplify_eq.
    eexists. split; [done|]. cbn. rewrite Hn by done. done.
  - by rewrite lookup_insert_ne.
Qed.

(** What a pass preserves. *)
Definition crowded (ids : list uuid) (hid : uuid) (h : Schedule) (w : world) : Prop :=
  skeyed (w_schedules w) ∧ stuck_rows ids (w_schedules w) ∧ w_schedules w !! hid = Some h.

Lemma fire_update_keeps o ids hid h s now r n w :
  alone o → crowded ids hid h w → (sc_ID s ∈ ids → impossible (sc_Cron s) (sc_Timezone s)) → sc_ID s ≠ hid →
  crowded ids hid h (snd (fst (fire_update s now (cron_Next (sc_Cron s) (sc_Timezone s) now) r o (n, w)))).
Proof.
  intros Ha (Hk&Hst&Hh) Hi Hne. unfold fire_update, pbind, on_schedules. rewrite on_run. cbn zeta. rewrite Ha.
  destruct (after_run_keeps ids (t_fault (o n)) (sc_ID s) now (cron_Next (sc_Cron s) (sc_Timezone s) now)
              (w_schedules w) h hid Hk Hst (λ Hin, Hi Hin now) Hne Hh) as (?&?&?).
  destruct (snd (UpdateScheduleAfterRun _ _ _ _ _)); by split.
Qed.

Lemma fireSchedule_keeps o ids hid h s n w :
  alone o → crowded ids hid h w → (sc_ID s ∈ ids → impossible (sc_Cron s) (sc_Timezone s)) → sc_ID s ≠ hid →
  crowded ids hid h (snd (fst (fireSchedule s o (n, w)))).
Proof.
  intros Ha Hc Hi Hne. unfold fireSchedule. destruct (_ && _); [|done].
  erewrite pbind_run by reflexivity. erewrite pbind_run by reflexivity.
  destruct (json_Template _); [|done]. destruct (Build _ _ _ _) as [j0|]; [|done].
  erewrite pbind_run by (by apply on_db_alone). cbn beta. set (w1 := set_db w _).
  assert (crowded ids hid h w1) as Hc1 by done.
  destruct (snd (InsertJob _ _ _)) as [[]|[]]; try done; [|by apply fire_update_keeps].
  unfold pbind at 1, on_redis. rewrite on_run. cbn zeta. rewrite Ha. by apply fire_update_keeps.
Qed.

Lemma fire_each_keeps o ids hid h l s :
  alone o → crowded ids hid h (snd s) →
  (∀ x, x ∈ l → (sc_ID x ∈ ids → impossible (sc_Cron x) (sc_Timezone x)) ∧ sc_ID x ≠ hid) →
  crowded ids hid h (snd (fst (fire_each l o s))).
Proof.
  intros Ha. revert s. induction l as [|x l IH]; intros [n w] Hc Hl; [done|]. cbn [fire_each]. unfold pbind.
  destruct (Hl x) as [Hi Hne]; [by left|]. pose proof (fireSchedule_keeps o ids hid h x n w Ha Hc Hi Hne) as Hc1.
  destruct (fireSchedule x o (n, w)) as [s1 r]. apply IH; [done|]. intros y Hy. apply Hl. by right.
Qed.

Lemma expandCron_keeps o ids hid h s :
  alone o → NoDup ids → cronBatchSize <= Z.of_nat (length ids) → (∀ n, pg_ts zero_time <= t_server (o n)) →
  pg_ts zero_time < sc_NextRunAt h → crowded ids hid h (snd s) →
  crowded ids hid h (snd (fst (expandCron o s))).
Proof.
  intros Ha Hnd Hlen Hclock Hh Hc. destruct s as [n w]. unfold expandCron, pbind, ask, remote. rewrite Ha.
  destruct (GetDueSchedules _ _ _ _ _) as [l|] eqn:Hl; [|done].
  assert (t_fault (o n) = NoFault) as Hf by (unfold GetDueSchedules, query in Hl; by destruct (t_fault (o n))).
  rewrite Hf in Hl. apply fire_each_keeps; [done|done|]. intros x Hx. destruct Hc as (Hk&Hst&Hrow).
  destruct (GetDueSchedules_batch _ _ _ _ _ Hl) as [_ Hin]. destruct (Hin x Hx) as (_&_&id&Hid).
  pose proof (Hk id x Hid) as Hxid. rewrite Hxid. split.
  - intros Hbad. destruct (Hst id Hbad) as (s'&Hs'&_&_&Hi). cbn in Hid, Hs'. rewrite Hid in Hs'. by simplify_eq.
  - intros ->. cbn in Hid, Hrow. rewrite Hid in Hrow. simplify_eq.
    assert (sc_NextRunAt h <= pg_ts zero_time); [|lia].
    eapply batch_crowded; [exact Hk|exact Hnd|exact Hlen|apply (Hclock n)| |exact Hl|exact Hx].
    intros id Hbad. destruct (Hst id Hbad) as (s'&?&?&?&_). eauto.
Qed.

(** C31: Impossible schedules starve all others. A schedule whose cron expression has no
    occurrence is stored at the zero time (see [impossible_cron_accepted]), and every pass
    of the scheduler finds it due first and leaves it there. With two hundred of them, of
    any tenants, through any number of passes and under any faults, every other schedule
    keeps the row it had, however long it has been due. *)
Theorem impossible_crons_starve o ids hid h k n w :
  alone o → NoDup ids → cronBatchSize <= Z.of_nat (length ids) → (∀ n, pg_ts zero_time <= t_server (o n)) →
  skeyed (w_schedules w) → stuck_rows ids (w_schedules w) →
  w_schedules w !! hid = Some h → pg_ts zero_time < sc_NextRunAt h →
  w_schedules (snd (fst (runCronExpander k o (n, w)))) !! hid = Some h.
Proof.
  intros Ha Hnd Hlen Hclock Hk Hst Hrow Hh.
  enough (∀ s, crowded ids hid h (snd s) → crowded ids hid h (snd (fst (ticks expandCron k o s)))) as Ht.
  { unfold runCronExpander, pbind.
    pose proof (expandCron_keeps o ids hid h (n, w) Ha Hnd Hlen Hclock Hh (conj Hk (conj Hst Hrow))) as Hc.
    destruct (expandCron o (n, w)) as [s1 []]. by apply Ht. }
  clear n w Hk Hst Hrow. induction k as [|k IH]; intros s Hc; [done|]. cbn [ticks]. unfold pbind.
  pose proof (expandCron_keeps o ids hid h s Ha Hnd Hlen Hclock Hh Hc) as Hc1.
  destruct (expandCron o s) as [s1 []]. by apply IH.
Qed.

Context `{!LuaNum}.

(** Such a schedule is accepted, and due at once. *)
Lemma impossible_cron_accepted o now n w tn req tmpl j :
  quiet o now → cs_Name req ≠ EmptyString → cs_Cron req ≠ EmptyString → cs_JobTemplate req ≠ EmptyString →
  json_Template (cs_JobTemplate req) = Some tmpl → Build tmpl (t_uuid (o n)) (tn_ID tn) now = Ok j →
  location_ok (cs_Timezone req) = true → cs_Timezone req ≠ EmptyString → cron_ok (cs_Cron req) = true →
  impossible (cs_Cron req) (cs_Timezone req) →
  text_ok (cs_Name req) && text_ok (cs_Cron req) && text_ok (cs_Timezone req) = true →
  is_Some (jsonb_in (cs_JobTemplate req)) →
  w_schedules w !! t_uuid (o n) = None →
  (∀ s, s ∈ rows (w_schedules w) → sc_TenantID s = tn_ID tn → sc_Name s ≠ cs_Name req) →
  ∃ s w' resp, handleCreateSchedule tn (Some req) o (n, w) = ((S n, w'), resp) ∧ status resp = 201
    ∧ w_schedules w' !! t_uuid (o n) = Some s ∧ sc_Enabled s = true ∧ sc_NextRunAt s = pg_ts zero_time.
Proof.
  intros Hq Hn Hc Hj Htm Hb Hloc Htz Hok Himp Htext [tj Hjs] Hfresh Hname. unfold handleCreateSchedule.
  rewrite !(proj2 (String.eqb_neq _ _)) by done. rewrite !pbind_local, (q_now o now Hq).
  unfold validateTemplate. rewrite Htm, Hb. unfold nextRun. rewrite Hloc, Hok, (Himp now). cbn [negb].
  unfold on_schedules. erewrite pbind_run by (by apply (on_quiet o now)). cbn beta. rewrite (q_fault o now Hq).
  unfold InsertSchedule, exec, insert_schedule_stmt, schedule_row. cbn [sc_Name sc_Cron sc_Timezone sc_JobTemplate sc_ID].
  rewrite Htext, Hjs. cbn [mbind option_bind]. rewrite bool_decide_false by (rewrite Hfresh; by intros []).
  assert (∀ x, sc_TenantID x = tn_ID tn → sc_Name x = cs_Name req → name_taken x (w_schedules w) = false) as Hnt.
  { intros x Hx1 Hx2. apply not_true_iff_false. intros Ht. unfold name_taken in Ht. apply existsb_exists in Ht as (s'&Hin&Hs').
    apply andb_true_iff in Hs' as [Hs1%bool_decide_eq_true_1 Hs2%String.eqb_eq].
    apply (Hname s'); [by apply list_elem_of_In|congruence|congruence]. }
  rewrite Hnt by done. cbn. eexists _, _, _. split; [reflexivity|]. split; [done|]. cbn. by rewrite lookup_insert_eq.
Qed.
End starvation.

Section edits.
Context `{!UuidText} `{!PgText} `{!InputLib} `{!CronLib}.

Lemma fire_update_row s s' now next r o n w n' w' :
  fire_update s now next r o (n, w) = ((n', w'), r) → r ≠ FireError →
  w_schedules (t_env (o n) w) !! sc_ID s = Some s' →
  w_schedules w' !! sc_ID s
  = Some (mkSchedule (sc_ID s') (sc_TenantID s') (sc_Name s') (sc_Cron s') (sc_Timezone s') (sc_JobTemplate s')
            (sc_Enabled s') (Some (pg_ts now)) (pg_ts next)).
Proof.
  unfold fire_update, pbind, on_schedules. rewrite on_run. cbn zeta. intros Hr Hne Hs'.
  unfold UpdateScheduleAfterRun, exec, after_run_stmt in Hr. rewrite Hs' in Hr.
  destruct (t_fault (o n)); cbn in Hr; unfold pret in Hr; simplify_eq.
  cbn. by rewrite lookup_insert_eq.
Qed.

(** Firing a schedule overwrites an edit made meanwhile. If a PATCH changes the cron
    expression between the scheduler's read of the due schedules and its last statement,
    the row ends up with the new expression and the next run of the old one: the next
    occurrence fires at a time the expression does not name, although resuming or editing
    is documented to recompute the next run. *)
Theorem fire_overwrites_edit s s' o n w n' w' :
  fireSchedule s o (n, w) = ((n', w'), Fired) →
  (∀ w2, w_schedules (t_env (o (S (S n))) w2) !! sc_ID s = Some s') →
  ∃ row, w_schedules w' !! sc_ID s = Some row ∧ sc_Cron row = sc_Cron s' ∧ sc_Timezone row = sc_Timezone s'
    ∧ sc_NextRunAt row = pg_ts (cron_Next (sc_Cron s) (sc_Timezone s) (t_now (o n))).
Proof.
  intros Hf Henv. unfold fireSchedule in Hf. destruct (_ && _); [|done].
  rewrite !pbind_local in Hf. destruct (json_Template _); [|done]. destruct (Build _ _ _ _) as [j0|]; [|done].
  unfold pbind at 1, on_db in Hf. rewrite on_run in Hf. cbn zeta in Hf.
  destruct (snd (InsertJob _ _ _)) as [[]|[]]; try done.
  - unfold pbind at 1, on_redis in Hf. rewrite on_run in Hf. cbn zeta in Hf.
    eapply fire_update_row in Hf; [|done|apply Henv]. by eexists.
  - exfalso. unfold fire_update, pbind, on_schedules in Hf. rewrite on_run in Hf. cbn zeta in Hf.
    by destruct (snd (UpdateScheduleAfterRun _ _ _ _ _)).
Qed.
End edits.
