(* ===== verification/WorkerFacts.v ===== *)
(** * The worker's outcomes

    Recording an outcome with retries takes effect at most once, whatever happens to
    the writes; and a pass of [process] over a popped job settles it. *)

From S2P Require Import Prelude GoBase Job Redis Queue Db Storage Tenants Schedules World Webhook.
From S2P Require Import Worker Scheduler StorageFacts SchedulerFacts.

Open Scope Z_scope.

Section recording.
Context `{!PgText}.

(** The statement behind [record]. *)
Definition record_stmt (out : outcome) (now : Z) (jobID runID token : uuid) : stmt db unit :=
  match out with
  | Succeeded => complete_stmt now jobID runID token
  | Failed errMsg nextRunAt => fail_stmt now jobID runID token errMsg nextRunAt
  end.

Lemma record_exec out f now jobID runID token :
  record out f now jobID runID token = exec f (record_stmt out now jobID runID token).
Proof. by destruct out. Qed.

(** The database holds no claim of the job with this token. *)
Definition spent_claim (jobID token : uuid) (d : db) : Prop :=
  ∀ j, jobs d !! jobID = Some j → owns token j = false.

Definition outcome_ok (out : outcome) : Prop :=
  match out with Succeeded => True | Failed errMsg _ => text_ok errMsg = true end.

(** Recording by a claim that is spent changes nothing. *)
Lemma record_stmt_spent out now jobID runID token d :
  outcome_ok out → spent_claim jobID token d → record_stmt out now jobID runID token d = Ok (d, tt).
Proof.
  unfold outcome_ok, spent_claim, record_stmt, complete_stmt, fail_stmt. intros Hok Hs.
  destruct out as [|e next]; [|rewrite Hok; cbn [negb]];
    (destruct (jobs d !! jobID) as [j|]; [by rewrite (Hs j eq_refl)|done]).
Qed.

Lemma token_None_not_owned token j : ClaimToken j = None → owns token j = false.
Proof. unfold owns. by intros ->. Qed.

(** A recorded outcome spends the claim. *)
Lemma record_stmt_spends out now jobID runID token d d' :
  record_stmt out now jobID runID token d = Ok (d', tt) → spent_claim jobID token d' ∧ outcome_ok out.
Proof.
  unfold record_stmt, complete_stmt, fail_stmt, outcome_ok. intros Hst.
  assert (∀ j runs dl, ClaimToken j = None → spent_claim jobID token (mkDb (<[jobID := j]> (jobs d)) runs dl)) as Hnew.
  { intros j runs dl Hj j'. cbn. rewrite lookup_insert_eq. intros [= <-]. by apply token_None_not_owned. }
  assert (∀ j, jobs d !! jobID = Some j → owns token j = false → spent_claim jobID token d) as Hold.
  { intros j Hj Ho j' Hj'. congruence. }
  destruct out as [|e next]; [|destruct (text_ok e); [|done]; cbn [negb] in Hst]; (split; [|done]);
    (destruct (jobs d !! jobID) as [j|] eqn:Hj; [|injection Hst as <-; intros j' Hj'; congruence]);
    (destruct (owns token j) eqn:Ho; [|injection Hst as <-; by eapply Hold]);
    unfold result_bind, of_option in Hst; repeat case_match; simplify_eq; by apply Hnew.
Qed.

(** What other processes did during [m] turns, starting with turn [n]. *)
Fixpoint envs (o : oracle) (n m : nat) (w : world) : world :=
  match m with
  | O => w
  | S m' => envs o (S n) m' (t_env (o n) w)
  end.

Section retries.
Variables (out : outcome) (jobID runID token : uuid) (o : oracle).

Abbreviation write := (on_db (λ t, record out (t_fault t) (t_now t) jobID runID token)).

(** A write that failed is followed by the next one unless the context ended. *)
Lemma retryRecord_Err attempts n w s e :
  write o (n, w) = (s, Err e) →
  retryRecord write attempts o (n, w)
  = match attempts with
    | O => (s, Err e)
    | S a => if t_done (o (fst s)) then (s, Err e) else retryRecord write a o s
    end.
Proof.
  intros Hw. destruct attempts as [|a]; cbn [retryRecord]; rewrite (pbind_run _ _ _ _ _ _ Hw); [done|].
  destruct s as [n' w']. unfold pbind, local. cbn. by destruct (t_done (o n')).
Qed.

Lemma retryRecord_Ok attempts n w s : write o (n, w) = (s, Ok tt) → retryRecord write attempts o (n, w) = (s, Ok tt).
Proof. intros Hw. destruct attempts; cbn [retryRecord]; by rewrite (pbind_run _ _ _ _ _ _ Hw). Qed.

Lemma write_run n w :
  let w1 := t_env (o n) w in
  let r := exec (t_fault (o n)) (record_stmt out (t_now (o n)) jobID runID token) (w_db w1) in
  write o (n, w) = ((S n, set_db w1 (fst r)), snd r).
Proof. cbn zeta. rewrite <- record_exec. apply on_run. Qed.

(** One write: it takes effect, or the world is left to the other processes. *)
Lemma write_cases n w :
  let w1 := t_env (o n) w in
  (∃ e, write o (n, w) = ((S n, w1), Err e))
  ∨ ∃ d' r, t_fault (o n) ≠ LostRequest ∧ record_stmt out (t_now (o n)) jobID runID token (w_db w1) = Ok (d', tt)
      ∧ write o (n, w) = ((S n, set_db w1 d'), r).
Proof.
  cbn zeta. rewrite write_run. cbn zeta. unfold exec.
  destruct (record_stmt _ _ _ _ _ _) as [[d' []]|e] eqn:Hst, (t_fault (o n)) eqn:Hf; cbn [fst snd];
    rewrite ?set_db_same; eauto 10.
Qed.

Hypothesis Hkept : ∀ k w, spent_claim jobID token (w_db w) → spent_claim jobID token (w_db (t_env (o k) w)).

Lemma write_spent n w :
  outcome_ok out → spent_claim jobID token (w_db w) → ∃ r, write o (n, w) = ((S n, t_env (o n) w), r).
Proof.
  intros Hok Hs. destruct (write_cases n w) as [[e Hw]|(d'&r&_&Hst&Hw)]; [eauto|].
  rewrite record_stmt_spent in Hst by (try done; by apply Hkept). injection Hst as <-.
  rewrite set_db_same in Hw. eauto.
Qed.

(** The writes of a spent claim leave the world to the other processes. *)
Lemma retryRecord_spent attempts : ∀ n w,
  outcome_ok out → spent_claim jobID token (w_db w) →
  ∃ m r, retryRecord write attempts o (n, w) = (((n + m)%nat, envs o n m w), r) ∧ (1 <= m <= attempts + 1)%nat.
Proof.
  induction attempts as [|a IH]; intros n w Hok Hs; destruct (write_spent n w Hok Hs) as [r Hw].
  all: destruct r as [[]|e]; [rewrite (retryRecord_Ok _ _ _ _ Hw)|rewrite (retryRecord_Err _ _ _ _ _ Hw); cbn [fst]].
  4: destruct (t_done (o (S n))).
  5: { destruct (IH (S n) (t_env (o n) w) Hok (Hkept n w Hs)) as (m&r&Hrun&Hm).
       exists (S m), r. rewrite <- Nat.add_succ_comm. split; [exact Hrun|lia]. }
  all: exists 1%nat; eexists; rewrite Nat.add_1_r; split; [reflexivity|lia].
Qed.
End retries.

(** C19: An outcome is recorded once. Whatever becomes of the writes of [retryRecord]
    (requests lost on the way, replies lost after the write took effect, in any order),
    whatever other processes do between them short of reviving a spent claim, and
    whenever the context ends: either no write took effect, the caller is told of an
    error, and the retries went on until the context ended; or exactly one write did,
    and every other one left the database as it found it. *)
Theorem retryRecord_once out jobID runID token attempts o n w :
  (∀ k w, spent_claim jobID token (w_db w) → spent_claim jobID token (w_db (t_env (o k) w))) →
  ∃ m w' r,
    retryRecord (on_db (λ t, record out (t_fault t) (t_now t) jobID runID token)) attempts o (n, w)
      = (((n + m)%nat, w'), r)
    ∧ (1 <= m <= attempts + 1)%nat
    ∧ ((w' = envs o n m w ∧ (∃ e, r = Err e) ∧ (t_done (o (n + m)%nat) = true ∨ m = (attempts + 1)%nat))
       ∨ ∃ k d', (k < m)%nat ∧
           let wk := t_env (o (n + k)%nat) (envs o n k w) in
           t_fault (o (n + k)%nat) ≠ LostRequest
           ∧ record_stmt out (t_now (o (n + k)%nat)) jobID runID token (w_db wk) = Ok (d', tt)
           ∧ w' = envs o (n + S k) (m - S k) (set_db wk d')).
Proof.
  intros Hkept. revert n w. induction attempts as [|a IH]; intros n w;
    destruct (write_cases out jobID runID token o n w) as [[e Hw]|(d'&r&Hf&Hst&Hw)].
  - rewrite (retryRecord_Err _ _ _ _ _ _ _ _ _ _ Hw). exists 1%nat, (t_env (o n) w), (Err e).
    rewrite Nat.add_1_r. split; [done|]. split; [lia|]. left. eauto.
  - exists 1%nat, (set_db (t_env (o n) w) d'), r. split.
    { destruct r as [[]|e]; [rewrite (retryRecord_Ok _ _ _ _ _ _ _ _ _ Hw)|rewrite (retryRecord_Err _ _ _ _ _ _ _ _ _ _ Hw)];
        by rewrite Nat.add_1_r. }
    split; [lia|]. right. exists 0%nat, d'. rewrite Nat.add_0_r. auto with lia.
  - rewrite (retryRecord_Err _ _ _ _ _ _ _ _ _ _ Hw). cbn [fst]. destruct (t_done (o (S n))) eqn:Hd.
    + exists 1%nat, (t_env (o n) w), (Err e). rewrite Nat.add_1_r. split; [done|]. split; [lia|]. left. eauto.
    + destruct (IH (S n) (t_env (o n) w)) as (m&w'&r&Hrun&Hm&Hres). exists (S m), w', r.
      rewrite <- Nat.add_succ_comm. split; [exact Hrun|]. split; [lia|]. destruct Hres as [(->&?&[?|?])|(k&d'&?&Hk)].
      * left. auto.
      * left. split; [done|]. split; [done|]. right. lia.
      * right. exists (S k), d'. rewrite <- !Nat.add_succ_comm. cbn [envs Nat.sub]. cbn zeta in Hk.
        rewrite <- (Nat.add_succ_comm (S n) k) in Hk. split; [lia|exact Hk].
  - destruct r as [[]|e]; [rewrite (retryRecord_Ok _ _ _ _ _ _ _ _ _ Hw)|rewrite (retryRecord_Err _ _ _ _ _ _ _ _ _ _ Hw)];
      cbn [fst]; [|destruct (t_done (o (S n)))].
    3: { destruct (record_stmt_spends _ _ _ _ _ _ _ Hst) as [Hs Hok].
         destruct (retryRecord_spent out jobID runID token o Hkept a (S n) (set_db (t_env (o n) w) d') Hok Hs)
           as (m&r&Hrun&Hm).
         exists (S m). do 2 eexists. rewrite <- Nat.add_succ_comm. split; [exact Hrun|]. split; [lia|].
         right. exists 0%nat, d'. rewrite Nat.add_0_r, Nat.add_1_r. cbn [Nat.sub]. rewrite Nat.sub_0_r. auto with lia. }
    all: exists 1%nat; do 2 eexists; rewrite Nat.add_1_r; split; [reflexivity|]; split; [lia|].
    all: right; exists 0%nat, d'; rewrite Nat.add_0_r; auto with lia.
Qed.
End recording.

(** ** A quiet pass of [process] *)
Section settling.
Context `{!UuidText} `{!PgText} `{!InputLib} `{!HttpLib}.

(** The secret [executeWebhook] signs with. *)
Definition secret_for (wk : worker) (ts : tenants) (tenantID : uuid) : result storage_error string :=
  match wk_secrets wk !! tenantID with
  | Some secret => Ok secret
  | None => match GetTenant NoFault tenantID ts with Ok t => Ok (tn_WebhookSecret t) | Err e => Err e end
  end.

Definition uncapped (wk : worker) (item : Item) : Prop :=
  ∀ tenantID limit, uuid_Parse (lane_tenant (it_List item)) = Some tenantID → wk_limits wk !! tenantID = Some limit →
    limit <= 0.

Lemma execute_job_quiet wk order j o now n w :
  quiet o now → ∃ n', execute_job wk order j o (n, w) = ((n', w), execute order now (secret_for wk (w_tenants w) (TenantID j)) j)
    ∧ (n <= n')%nat.
Proof.
  intros Hq. unfold execute_job, execute, executeWebhook, webhook_request.
  destruct (String.eqb (Type_ j) "webhook"); cbn [andb]; [|eexists; split; reflexivity].
  destruct (json_WebhookPayload (Payload j)) as [p|]; [rewrite bool_decide_true by eauto|eexists; split; reflexivity].
  unfold webhookSecret, secret_for. destruct (wk_secrets wk !! TenantID j) as [secret|].
  - exists n. split; [|done]. unfold pbind, pret, local. by rewrite (q_now o now Hq).
  - exists (S n). split; [|lia]. unfold pbind at 1. erewrite pbind_run by (by apply (ask_quiet o now)).
    unfold pret at 1, pbind, local, pret. rewrite (q_fault o now Hq), (q_now o now Hq). done.
Qed.

Lemma claim_quiet wk item token deadline o now n w j :
  quiet o now → uncapped wk item → jobs (w_db w) !! it_JobID item = Some j → State_ j = StatePending →
  text_ok (wk_id wk) = true →
  let jc := claimed_row now (wk_id wk) token deadline j in
  claim wk item token deadline o (n, w)
  = ((S n, set_db w (mkDb (<[it_JobID item := jc]> (jobs (w_db w)))
                       (job_runs (w_db w) ++ [opened_run (t_uuid' (o n)) now jc]) (dead_letter (w_db w)))),
     Ok (Some (jc, t_uuid' (o n)))).
Proof.
  intros Hq Hu Hj Hp Ht. cbn zeta.
  assert (on_db (λ t, TryClaim (t_fault t) (t_locked t) (t_now t) (it_JobID item) (wk_id wk) token deadline (t_uuid' t)) o (n, w)
    = ((S n, set_db w (mkDb (<[it_JobID item := claimed_row now (wk_id wk) token deadline j]> (jobs (w_db w)))
          (job_runs (w_db w) ++ [opened_run (t_uuid' (o n)) now (claimed_row now (wk_id wk) token deadline j)])
          (dead_letter (w_db w)))),
       Ok (Some (claimed_row now (wk_id wk) token deadline j, t_uuid' (o n))))) as Hrun.
  { rewrite (on_db_quiet o now) by done. cbn beta.
    rewrite (q_fault o now Hq), (q_locked o now Hq), (q_now o now Hq).
    unfold TryClaim, exec, claim_stmt. rewrite Ht, Hj. cbn [negb]. by rewrite !bool_decide_true by (try done; set_solver). }
  unfold claim. destruct (uuid_Parse _) as [tid|] eqn:Hparse; [|exact Hrun].
  destruct (Z.ltb_spec 0 (default 0 (wk_limits wk !! tid))) as [Hl|_]; [|exact Hrun].
  destruct (wk_limits wk !! tid) as [limit|] eqn:Hlim; cbn in Hl; [|lia]. specialize (Hu tid limit Hparse Hlim). lia.
Qed.

(** The row and the run after an outcome is recorded by the claim that just opened them. *)
Definition settled_row (now : Z) (out : outcome) (j : Job) : Job :=
  match out with
  | Succeeded => set_token None None (set_completed_at (Some (pg_ts now)) (set_state StateSucceeded j))
  | Failed e next => failed_row (Attempt j + 1) (if ShouldRetry j then StateFailed else StateDead) e next j
  end.

Definition closed_run (runID : uuid) (now : Z) (out : outcome) (j : Job) : run_row :=
  mkRun runID (ID j) (TenantID j) (Attempt j) (pg_ts now) (Some (pg_ts now)) (State_ (settled_row now out j))
    (match out with Succeeded => None | Failed e _ => Some e end) (Some 0).

Lemma update_runs_last p f l r r' :
  (∀ x, x ∈ l → p x = false) → p r = true → f r = Some r' → update_runs p f (l ++ [r]) = Some (l ++ [r']).
Proof.
  intros Hl Hr Hf. apply update_runs_Forall2. apply Forall2_app; [|constructor; [by rewrite Hr|constructor]].
  apply Forall_Forall2_diag, Forall_forall. intros x Hx. by rewrite Hl.
Qed.

Lemma record_just_claimed out now jobID runID token j d :
  jobs d !! jobID = Some j → ID j = jobID → owns token j = true → outcome_ok out → - 2 ^ 31 <= Attempt j + 1 < 2 ^ 31 →
  (∀ r, r ∈ job_runs d → is_run jobID runID r = false) →
  record_stmt out now jobID runID token (mkDb (jobs d) (job_runs d ++ [opened_run runID now j]) (dead_letter d))
  = Ok (mkDb (<[jobID := settled_row now out j]> (jobs d)) (job_runs d ++ [closed_run runID now out j]) (dead_letter d), tt).
Proof.
  intros Hj Hid Ho Hok Ha Hfresh.
  assert (is_run jobID runID (opened_run runID now j) = true) as Hrun
    by (unfold is_run; cbn; by rewrite !bool_decide_true).
  assert (∀ s e, finish_run s (pg_ts now) e (opened_run runID now j)
    = Some (mkRun runID (ID j) (TenantID j) (Attempt j) (pg_ts now) (Some (pg_ts now)) s e (Some 0))) as Hfin.
  { intros s e. unfold finish_run, duration_ms. cbn. by rewrite Z.sub_diag. }
  destruct out as [|e next]; unfold record_stmt, complete_stmt, fail_stmt; cbn [jobs job_runs dead_letter].
  - rewrite Hj, Ho. by erewrite update_runs_last by (done || apply Hfin).
  - rewrite Hok, Hj, Ho, (attempt_state_retry _ _ Ha). cbn [negb of_option result_bind fst snd].
    rewrite (update_runs_last _ _ _ _ _ Hfresh Hrun (Hfin _ _)). unfold closed_run, settled_row. cbn.
    unfold failed_row. by destruct (ShouldRetry j).
Qed.

(** [RemoveFromProcessing] leaves no entry of the job in the worker's list. *)
Lemma RemoveFromProcessing_gone now w jobID r :
  keyspace_ok r → uuid_String jobID ∉ rlist now (fst (RemoveFromProcessing NoFault now w jobID r)) (processing_key w).
Proof.
  intros Hk. unfold RemoveFromProcessing, call, LREM.
  destruct (rget now r (processing_key w)) as [[v exp]|] eqn:Hg.
  - pose proof (rget_lookup _ _ _ _ Hg) as Hl.
    destruct (ks_processing r Hk _ _ (processing_key_prefix w) Hl) as (l&exp'&[= -> ->]).
    cbn -[put_list filter rlist]. rewrite put_list_rlist; [rewrite list_elem_of_filter; tauto|].
    intros t ->. unfold rget in Hg. rewrite Hl in Hg. destruct (live now _) eqn:Hlive; [|done].
    cbn in Hlive. lia.
  - cbn [fst]. unfold rlist. rewrite Hg. apply not_elem_of_nil.
Qed.

Variables (error_text : exec_error → string) (rnd : Z → Z).

Lemma run_claimed_quiet wk order jobID j runID token o now n w d :
  quiet o now → (∀ e, text_ok (error_text e) = true) →
  jobs d !! jobID = Some j → ID j = jobID → owns token j = true → - 2 ^ 31 <= Attempt j + 1 < 2 ^ 31 →
  (∀ r, r ∈ job_runs d → is_run jobID runID r = false) →
  w_db w = mkDb (jobs d) (job_runs d ++ [opened_run runID now j]) (dead_letter d) →
  let out := outcome_of error_text rnd j now (execute order now (secret_for wk (w_tenants w) (TenantID j)) j) in
  ∃ n', run_claimed error_text rnd wk order jobID j runID token o (n, w)
    = ((n', set_db w (mkDb (<[jobID := settled_row now out j]> (jobs d)) (job_runs d ++ [closed_run runID now out j])
                        (dead_letter d))), tt) ∧ (n < n')%nat.
Proof.
  intros Hq Hte Hj Hid Ho Ha Hfresh Hd out.
  destruct (execute_job_quiet wk order j o now n w Hq) as (n1&Hex&Hn).
  unfold run_claimed. rewrite (pbind_run _ _ _ _ _ _ Hex). unfold pbind at 1, local. cbv beta iota.
  rewrite (q_now o now Hq). fold out. exists (S n1). split; [|lia].
  assert (on_db (λ t, record out (t_fault t) (t_now t) jobID runID token) o (n1, w)
    = ((S n1, set_db w (mkDb (<[jobID := settled_row now out j]> (jobs d)) (job_runs d ++ [closed_run runID now out j])
                        (dead_letter d))), Ok tt)) as Hw.
  { rewrite write_run. cbn zeta. rewrite (q_env o now Hq), (q_fault o now Hq), (q_now o now Hq), Hd. unfold exec.
    rewrite record_just_claimed; try done.
    unfold out, outcome_of. by destruct (execute _ _ _ _); cbn. }
  by rewrite (pbind_run _ _ _ _ _ _ (retryRecord_Ok _ _ _ _ _ retry_attempts _ _ _ Hw)).
Qed.

(** What [process] does to a pending job nobody interferes with, exactly. *)
Lemma process_quiet wk order item o now n w j :
  quiet o now → uncapped wk item → text_ok (wk_id wk) = true → (∀ e, text_ok (error_text e) = true) →
  jobs (w_db w) !! it_JobID item = Some j → ID j = it_JobID item → State_ j = StatePending →
  - 2 ^ 31 <= Attempt j + 1 < 2 ^ 31 →
  (∀ r, r ∈ job_runs (w_db w) → is_run (it_JobID item) (t_uuid' (o n)) r = false) →
  let jc := claimed_row now (wk_id wk) (t_uuid (o n)) (now + HeartbeatTTL) j in
  let out := outcome_of error_text rnd jc now (execute order now (secret_for wk (w_tenants w) (TenantID j)) jc) in
  ∃ n', process error_text rnd wk order item o (n, w)
    = ((n', set_redis (set_db w (mkDb (<[it_JobID item := settled_row now out jc]> (jobs (w_db w)))
                                   (job_runs (w_db w) ++ [closed_run (t_uuid' (o n)) now out jc]) (dead_letter (w_db w))))
              (fst (RemoveFromProcessing NoFault now (wk_id wk) (it_JobID item) (w_redis w)))), (wk, true)) ∧ (n < n')%nat.
Proof.
  intros Hq Hu Ht Hte Hj Hid Hp Ha Hfresh jc out.
  set (d1 := mkDb (<[it_JobID item := jc]> (jobs (w_db w))) (job_runs (w_db w)) (dead_letter (w_db w))).
  set (w1 := set_db w (mkDb (jobs d1) (job_runs d1 ++ [opened_run (t_uuid' (o n)) now jc]) (dead_letter d1))).
  destruct (run_claimed_quiet wk order (it_JobID item) jc (t_uuid' (o n)) (t_uuid (o n)) o now (S n) w1 d1)
    as (n'&Hrun&Hn); try done.
  { unfold d1. cbn. by rewrite lookup_insert_eq. }
  { unfold jc, owns, claimed_row. cbn. by rewrite bool_decide_true. }
  change (w_tenants w1) with (w_tenants w) in Hrun. change (TenantID jc) with (TenantID j) in Hrun. fold out in Hrun.
  assert (process_item error_text rnd wk order item o (n, w)
    = ((n', set_db w1 (mkDb (<[it_JobID item := settled_row now out jc]> (jobs d1))
              (job_runs d1 ++ [closed_run (t_uuid' (o n)) now out jc]) (dead_letter d1))), (wk, true))) as Hitem.
  { unfold process_item. unfold pbind at 1, local at 1. cbv beta iota. unfold pbind at 1, local at 1. cbv beta iota.
    rewrite (q_now o now Hq). rewrite (pbind_run _ _ _ _ _ _ (claim_quiet wk item _ _ o now n w j Hq Hu Hj Hp Ht)).
    cbv beta iota. by rewrite (pbind_run _ _ _ _ _ _ Hrun). }
  exists (S n'). split; [|lia]. unfold process. rewrite (pbind_run _ _ _ _ _ _ Hitem).
  erewrite pbind_run by (by apply (on_quiet o now)). cbv beta. rewrite (q_fault o now Hq), (q_server o now Hq).
  unfold d1. cbn [jobs]. by rewrite insert_insert_eq.
Qed.

(** A job that is gone or not pending is passed over. *)
Lemma process_passes wk order item o now n w :
  quiet o now → uncapped wk item → text_ok (wk_id wk) = true →
  (∀ j, jobs (w_db w) !! it_JobID item = Some j → State_ j ≠ StatePending) →
  process error_text rnd wk order item o (n, w)
  = ((S (S n), set_redis w (fst (RemoveFromProcessing NoFault now (wk_id wk) (it_JobID item) (w_redis w)))), (wk, true)).
Proof.
  intros Hq Hu Ht Hnot. unfold process, process_item. unfold pbind at 2, local at 1. cbv beta iota.
  unfold pbind at 2, local at 1. cbv beta iota.
  assert (claim wk item (t_uuid (o n)) (t_now (o n) + HeartbeatTTL) o (n, w) = ((S n, w), Ok None)) as Hclaim.
  { assert (on_db (λ t, TryClaim (t_fault t) (t_locked t) (t_now t) (it_JobID item) (wk_id wk) (t_uuid (o n))
              (t_now (o n) + HeartbeatTTL) (t_uuid' t)) o (n, w) = ((S n, w), Ok None)) as Hrun.
    { rewrite (on_db_quiet o now) by done. cbn beta. rewrite (q_fault o now Hq). unfold TryClaim, exec, claim_stmt.
      rewrite Ht. cbn [negb]. destruct (jobs (w_db w) !! it_JobID item) as [j|] eqn:Hj; [|cbn; by rewrite set_db_same].
      rewrite bool_decide_false by (by apply Hnot). cbn. by rewrite set_db_same. }
    unfold claim. destruct (uuid_Parse _) as [tid|] eqn:Hparse; [|exact Hrun].
    destruct (Z.ltb_spec 0 (default 0 (wk_limits wk !! tid))) as [Hl|_]; [|exact Hrun].
    destruct (wk_limits wk !! tid) as [limit|] eqn:Hlim; cbn in Hl; [|lia]. specialize (Hu tid limit Hparse Hlim). lia. }
  unfold pbind at 1 2. rewrite Hclaim. cbv beta iota. unfold pret at 1.
  erewrite pbind_run by (by apply (on_quiet o now)). cbv beta. by rewrite (q_fault o now Hq), (q_server o now Hq).
Qed.

(** A popped job is settled. When nothing interferes, a pending job of a tenant
    without a concurrency cap that a worker processes ends in exactly the state its
    execution calls for: succeeded, or failed and due at the backoff time, or dead when
    its retries are used up. Its claim is given up, one finished run with that state is
    added to its history, no other job changes, and the worker's processing list no
    longer holds it. *)
Theorem process_settles wk order item o now n w j :
  quiet o now → uncapped wk item → text_ok (wk_id wk) = true → (∀ e, text_ok (error_text e) = true) →
  keyspace_ok (w_redis w) →
  jobs (w_db w) !! it_JobID item = Some j → ID j = it_JobID item → State_ j = StatePending →
  - 2 ^ 31 <= Attempt j + 1 < 2 ^ 31 →
  (∀ r, r ∈ job_runs (w_db w) → is_run (it_JobID item) (t_uuid' (o n)) r = false) →
  let jc := claimed_row now (wk_id wk) (t_uuid (o n)) (now + HeartbeatTTL) j in
  let res := execute order now (secret_for wk (w_tenants w) (TenantID j)) jc in
  ∃ n' w' j' run, process error_text rnd wk order item o (n, w) = ((n', w'), (wk, true))
    ∧ jobs (w_db w') = <[it_JobID item := j']> (jobs (w_db w)) ∧ ClaimToken j' = None
    ∧ match res with
      | Ok _ => State_ j' = StateSucceeded ∧ Attempt j' = Attempt j ∧ CompletedAt j' = Some (pg_ts now)
      | Err e => Attempt j' = Attempt j + 1 ∧ LastError j' = Some (error_text e)
          ∧ (if ShouldRetry j
             then State_ j' = StateFailed ∧ RunAt j' = pg_ts (NextRetryAt rnd (Attempt j) (BackoffSeconds j) now)
             else State_ j' = StateDead)
      end
    ∧ job_runs (w_db w') = job_runs (w_db w) ++ [run] ∧ rr_job_id run = it_JobID item
    ∧ rr_state run = State_ j' ∧ rr_finished_at run = Some (pg_ts now)
    ∧ uuid_String (it_JobID item) ∉ rlist now (w_redis w') (processing_key (wk_id wk)).
Proof.
  intros Hq Hu Ht Hte Hks Hj Hid Hp Ha Hfresh jc res.
  destruct (process_quiet wk order item o now n w j Hq Hu Ht Hte Hj Hid Hp Ha Hfresh) as (n'&->&_).
  fold jc res. set (out := outcome_of error_text rnd jc now res).
  do 2 eexists. exists (settled_row now out jc), (closed_run (t_uuid' (o n)) now out jc). split; [reflexivity|].
  split; [done|]. split; [by unfold out, outcome_of; destruct res|]. split.
  { unfold out, outcome_of. change (ShouldRetry jc) with (ShouldRetry j). destruct res as [[]|e]; [done|].
    split; [done|]. split; [done|]. unfold settled_row, failed_row. change (ShouldRetry jc) with (ShouldRetry j).
    unfold ShouldRetry. cbn. destruct (Z.ltb_spec (MaxRetries j) (Attempt j + 1)), (Z.ltb_spec (Attempt j) (MaxRetries j)); try lia; done. }
  do 4 (split; [done|]). by apply RemoveFromProcessing_gone.
Qed.
End settling.
