(* ===== verification/WorkerDrain.v ===== *)
(** * A worker empties its lanes

    The pull loop from the shuffle of the tenants to the recorded outcome: on a quiet
    stretch every turn of [loop] takes one entry out of the lanes the worker serves, so
    as many turns as there are entries empty them, and every pending job that was queued
    there has been executed and recorded. *)

From S2P Require Import Prelude GoBase Job Redis Queue QueueInv Db Storage Tenants Schedules World Webhook Worker.
From S2P Require Import StorageFacts WorkerFacts.

Open Scope Z_scope.

Section drain.
Context `{!UuidText} `{!PgText} `{!InputLib} `{!HttpLib}.
Variables (error_text : exec_error → string) (rnd : Z → Z) (draws : nat → Z → Z).
Variables (wk : worker) (order : plan (string * string)) (waits : nat).
Variables (o : oracle) (now : Z).

(** The lanes of the worker's tenants, and the entries in them. *)
Definition served : list string := remove_dups (queue_keys (tw_ID <$> wk_tenants wk)).
Definition backlog (r : redis) : nat := sum_list_with (λ k, length (qlist r k)) served.
Definition waiting (r : redis) (id : uuid) : Prop := ∃ k, k ∈ served ∧ uuid_String id ∈ qlist r k.

(** A worker with tenants to serve, none of them throttled or capped. *)
Record ready : Prop := {
  rd_tenants : wk_tenants wk ≠ [];
  rd_weights : weights_ok (wk_tenants wk);
  rd_throttled : wk_throttled wk = ∅;
  rd_limits : wk_limits wk = ∅;
  rd_text : text_ok (wk_id wk) = true;
}.

(** Entries are identifiers of jobs, none of them zero. *)
Definition entries_ok (r : redis) : Prop :=
  ∀ k v, k ∈ served → v ∈ qlist r k → ∃ id, v = uuid_String id ∧ uuid_valid id ∧ id ≠ 0%N.

(** What the execution of [j] makes of it. *)
Definition settled (ts : tenants) (j j' : Job) : Prop :=
  ∃ token, let jc := claimed_row now (wk_id wk) token (now + HeartbeatTTL) j in
    j' = settled_row now (outcome_of error_text rnd jc now (execute order now (secret_for wk ts (TenantID j)) jc)) jc.

(** ** Lanes *)
Lemma elem_of_served k : k ∈ served ↔ k ∈ queue_keys (tw_ID <$> wk_tenants wk).
Proof. apply elem_of_remove_dups. Qed.

Lemma served_lane k : k ∈ served → lane_key k.
Proof. intros Hk%elem_of_served. pose proof (queue_keys_lanes (tw_ID <$> wk_tenants wk)) as Hl. rewrite Forall_forall in Hl. auto. Qed.

Lemma queue_keys_perm ids ids' k : ids ≡ₚ ids' → k ∈ queue_keys ids ↔ k ∈ queue_keys ids'.
Proof.
  intros Hp. unfold queue_keys. rewrite !list_elem_of_In, !in_flat_map. setoid_rewrite <- list_elem_of_In.
  by setoid_rewrite Hp.
Qed.

(** Lanes that only change at [k], which loses one entry. *)
Lemma sum_one_less (f g : string → nat) l k :
  NoDup l → k ∈ l → f k = S (g k) → (∀ k', k' ∈ l → k' ≠ k → f k' = g k') →
  sum_list_with f l = S (sum_list_with g l).
Proof.
  intros Hnd Hin Hk Hrest. induction Hnd as [|x l Hx Hnd IH]; [by apply not_elem_of_nil in Hin|]. cbn.
  apply elem_of_cons in Hin as [->|Hin].
  - rewrite Hk. cbn. do 2 f_equal. clear IH. induction l as [|y l IH]; [done|]. cbn.
    rewrite (Hrest y); [f_equal; apply IH|by right; left|set_solver].
    + set_solver.
    + by apply NoDup_cons in Hnd as [_ ?].
    + intros k' Hk'. apply Hrest. apply elem_of_cons in Hk' as [->|]; [by left|by right; right].
  - rewrite IH; [|done|intros; apply Hrest; [by right|done]].
    rewrite (Hrest x); [lia|by left|]. intros ->. done.
Qed.

Lemma sum_positive (f : string → nat) l n : sum_list_with f l = S n → ∃ k, k ∈ l ∧ (0 < f k)%nat.
Proof.
  induction l as [|x l IH]; cbn; [done|]. intros Hs. destruct (f x) eqn:Hx.
  - destruct IH as (k&Hk&?); [done|]. exists k. split; [by right|done].
  - exists x. split; [by left|lia].
Qed.

Lemma sum_zero (f : string → nat) l k : sum_list_with f l = 0%nat → k ∈ l → f k = 0%nat.
Proof. induction l as [|x l IH]; cbn; intros Hs Hk; [by apply not_elem_of_nil in Hk|]. apply elem_of_cons in Hk as [->|]; [lia|apply IH; [lia|done]]. Qed.

(** ** One pop *)
Lemma remove_frame r id k :
  keyspace_ok r → k ≠ processing_key (wk_id wk) → fst (RemoveFromProcessing NoFault now (wk_id wk) id r) !! k = r !! k.
Proof.
  intros Hok Hk. unfold RemoveFromProcessing, call, LREM. destruct (rget _ _ _) as [[[] ?]|]; cbn; try done. by rewrite put_list_ne.
Qed.

Lemma remove_ok r id : keyspace_ok r → keyspace_ok (fst (RemoveFromProcessing NoFault now (wk_id wk) id r)).
Proof.
  intros Hok. unfold RemoveFromProcessing, call, LREM. destruct (rget _ _ _) as [[[] ?]|]; cbn; try done.
  apply keyspace_ok_put_list; [done|]. intros Hq. exfalso. by eapply processing_not_queue; [apply processing_key_prefix|].
Qed.

(** The entry a pop takes, and the lanes it leaves. *)
Lemma pop_served ids r b :
  keyspace_ok r → entries_ok r → ids ≡ₚ tw_ID <$> wk_tenants wk → backlog r = S b →
  ∃ id k rest r', pop_once NoFault now (wk_id wk) ids r = (r', Ok (Some (mkItem id k)))
    ∧ k ∈ served ∧ uuid_valid id ∧ id ≠ 0%N ∧ qlist r k = rest ++ [uuid_String id] ∧ qlist r' k = rest
    ∧ (∀ k', lane_key k' → k' ≠ k → qlist r' k' = qlist r k') ∧ keyspace_ok r'.
Proof.
  intros Hok Hent Hp Hb.
  pose proof (popScript_spec now (queue_keys ids) (processing_key (wk_id wk)) processingTTL r Hok
                ltac:(auto with sluice) ltac:(auto with sluice) ltac:(done)) as Hs.
  destruct Hs as [[Hall _]|(pre&k&post&rest&v&r'&Hk&Hpre&Hv&Hrun&Hpop)].
  - exfalso. destruct (sum_positive _ _ _ Hb) as (k&Hk&Hpos). rewrite Forall_forall in Hall.
    rewrite Hall in Hpos; [cbn in Hpos; lia|]. rewrite (queue_keys_perm _ _ _ Hp). by apply elem_of_served.
  - assert (k ∈ served) as Hks by (apply elem_of_served; rewrite <- (queue_keys_perm _ _ _ Hp), Hk; set_solver).
    destruct (Hent k v Hks) as (id&->&Hid&Hnz); [rewrite Hv; set_solver|].
    destruct Hpop as [Hl Hm Hd Hf Hok'].
    exists id, k, rest, r'. unfold pop_once, call. rewrite Hrun, uuid_Parse_String by done.
    split; [done|]. do 5 (split; [done|]). split; [|done].
    intros k' [Hq _] Hne. unfold qlist. rewrite Hf; [done|done| |].
    + intros ->. by eapply processing_not_queue; [apply processing_key_prefix|].
    + intros ->. by eapply queue_not_enqueued; [apply has_prefix_app|].
Qed.

(** ** One turn *)

(** What a turn leaves: lanes only lose entries, no row is added, and the runs it adds are
    closed and carry the identifiers of the turns. *)
Record shrunk (r r' : redis) : Prop := {
  sh_lanes k v : lane_key k → v ∈ qlist r' k → v ∈ qlist r k;
  sh_queue : queue_inv now r → queue_inv now r';
}.

Record leaves (w w' : world) : Prop := {
  lv_redis : shrunk (w_redis w) (w_redis w');
  lv_rows id : is_Some (jobs (w_db w') !! id) → is_Some (jobs (w_db w) !! id);
  lv_runs r : r ∈ job_runs (w_db w') → r ∈ job_runs (w_db w) ∨ is_Some (rr_finished_at r) ∧ ∃ m, rr_id r = t_uuid' (o m);
}.

#[local] Instance shrunk_trans : Transitive shrunk.
Proof. intros r r1 r2 [] []. split; auto. Qed.

Lemma leaves_refl w : leaves w w.
Proof. split; [by split|done|by left]. Qed.

Lemma leaves_trans w w1 w2 : leaves w w1 → leaves w1 w2 → leaves w w2.
Proof.
  intros [Hs1 Hd1 Hr1] [Hs2 Hd2 Hr2]. split; [by transitivity (w_redis w1)|auto|].
  intros r [Hr|?]%Hr2; [by apply Hr1|by right].
Qed.

Record inv (ts : tenants) (n : nat) (w : world) : Prop := {
  iv_keyspace : keyspace_ok (w_redis w);
  iv_entries : entries_ok (w_redis w);
  iv_keyed : keyed (jobs (w_db w));
  iv_attempt id j : jobs (w_db w) !! id = Some j → State_ j = StatePending → - 2 ^ 31 <= Attempt j + 1 < 2 ^ 31;
  iv_runs r m : r ∈ job_runs (w_db w) → (n <= m)%nat → rr_id r ≠ t_uuid' (o m);
  iv_tenants : w_tenants w = ts;
}.

(** The turn that takes the entry of [id]: the job is settled if it is pending. *)
Definition turn_of (ts : tenants) (id : uuid) (w w' : world) : Prop :=
  (∀ id', uuid_valid id' → waiting (w_redis w) id' → id' = id ∨ waiting (w_redis w') id')
  ∧ (∀ id', id' ≠ id → jobs (w_db w') !! id' = jobs (w_db w) !! id')
  ∧ match jobs (w_db w) !! id with
    | Some j => if decide (State_ j = StatePending)
                then ∃ j', jobs (w_db w') !! id = Some j' ∧ settled ts j j'
                else jobs (w_db w') !! id = Some j
    | None => jobs (w_db w') !! id = None
    end.

Hypothesis Hready : ready.
Hypothesis Hq : quiet o now.
Hypothesis Hdraws : ∀ i, Intn_ok (draws i).
Hypothesis Htext : ∀ e, text_ok (error_text e) = true.
Hypothesis Hfresh : ∀ n m, (n < m)%nat → t_uuid' (o n) ≠ t_uuid' (o m).

Lemma dequeue_all : dequeueTenants now wk = wk_tenants wk.
Proof.
  unfold dequeueTenants, is_throttled. rewrite (rd_throttled Hready). induction (wk_tenants wk) as [|t l IH]; [done|].
  rewrite filter_cons_True by (by rewrite lookup_empty). by rewrite IH.
Qed.

Lemma never_capped item : uncapped wk item.
Proof. intros tid limit _. by rewrite (rd_limits Hready), lookup_empty. Qed.

Lemma settled_not_pending ts j j' : settled ts j j' → State_ j' ≠ StatePending.
Proof.
  intros [token ->]. unfold settled_row, outcome_of. destruct (execute _ _ _ _); [done|].
  unfold failed_row. cbn. by destruct (ShouldRetry _).
Qed.

(** A pull of a non-empty backlog takes one entry and processes its job. *)
Lemma pull_runs n w b :
  keyspace_ok (w_redis w) → entries_ok (w_redis w) → backlog (w_redis w) = S b →
  ∃ id k r', pull error_text rnd draws wk order waits o (n, w)
      = pbind (process error_text rnd wk order (mkItem id k)) (λ r, pret (Some (fst r))) o (S n, set_redis w r')
    ∧ uuid_valid id ∧ keyspace_ok r' ∧ entries_ok r' ∧ backlog r' = b ∧ shrunk (w_redis w) r'
    ∧ (∀ id', waiting (w_redis w) id' → uuid_String id' = uuid_String id ∨ waiting r' id').
Proof.
  intros Hok Hent Hb. unfold pull. rewrite pbind_local, (q_now o now Hq), dequeue_all.
  destruct (shuffle_loop_perm draws Hdraws (length (wk_tenants wk)) 0 (wk_tenants wk) [] (rd_weights Hready) ltac:(lia))
    as (ids&Hsh&Hp). cbn [app] in Hp.
  destruct (pop_served ids (w_redis w) b Hok Hent Hp Hb) as (id&k&rest&r'&Hpop&Hk&Hid&Hnz&Hl&Hl'&Hrest&Hok').
  exists id, k, r'. split.
  - destruct (wk_tenants wk) as [|t l] eqn:Ht; [by destruct (rd_tenants Hready)|]. unfold weightedShuffle. rewrite Hsh.
    unfold Pop. unfold pbind at 1. rewrite pbind_local, (q_now o now Hq).
    assert (∀ f wts, pop_loop f (wk_id wk) ids wts o (n, w) = ((S n, set_redis w r'), PopItem (mkItem id k))) as Hloop.
    { intros f wts. destruct wts; cbn [pop_loop]; (erewrite pbind_run by (by apply (on_quiet o now))); cbv beta;
        rewrite (q_fault o now Hq), (q_server o now Hq), Hpop; done. }
    rewrite Hloop. cbn [it_JobID]. destruct (N.eqb_spec id 0) as [->|_]; [done|]. done.
  - assert (∀ k' v, lane_key k' → v ∈ qlist r' k' → v ∈ qlist (w_redis w) k') as Hless.
    { intros k' v Hk' Hv. destruct (decide (k' = k)) as [->|]; [rewrite Hl, <- Hl'; set_solver|by rewrite <- Hrest]. }
    split; [done|]. split; [done|]. split; [|split; [|split]].
    + intros k' v Hk' Hv. apply (Hent k' v Hk'), Hless; [by apply served_lane|done].
    + cut (S (backlog r') = S b); [by intros [= ->]|]. rewrite <- Hb. symmetry.
      apply (sum_one_less _ _ served k); [apply NoDup_remove_dups|done| |].
      * rewrite Hl, Hl', length_app. cbn. lia.
      * intros k' Hk' Hne. rewrite Hrest; [done|by apply served_lane|done].
    + split; [done|]. intros Hqi. pose proof (queue_inv_pop NoFault now (wk_id wk) ids (w_redis w) Hqi) as Hqp. by rewrite Hpop in Hqp.
    + intros id' (k'&Hk'&Hin). destruct (decide (k' = k)) as [->|].
      * rewrite Hl in Hin. apply elem_of_app in Hin as [Hin|Hin%list_elem_of_singleton]; [|by left].
        right. exists k. by rewrite Hl'.
      * right. exists k'. rewrite Hrest; [done|by apply served_lane|done].
Qed.

(** Forgetting a job in the processing list leaves the lanes alone. *)
Lemma remove_qlist r id k :
  keyspace_ok r → lane_key k → qlist (fst (RemoveFromProcessing NoFault now (wk_id wk) id r)) k = qlist r k.
Proof.
  intros Hok [Hp _]. unfold qlist. rewrite remove_frame; [done|done|]. intros ->. by eapply processing_not_queue; [apply processing_key_prefix|].
Qed.

Lemma remove_backlog r id : keyspace_ok r → backlog (fst (RemoveFromProcessing NoFault now (wk_id wk) id r)) = backlog r.
Proof.
  intros Hok. unfold backlog.
  assert (∀ l, (∀ k, k ∈ l → k ∈ served) →
    sum_list_with (λ k, length (qlist (fst (RemoveFromProcessing NoFault now (wk_id wk) id r)) k)) l
    = sum_list_with (λ k, length (qlist r k)) l) as Hall by
    (induction l as [|k l IH]; intros Hl; [done|]; cbn [sum_list_with]; rewrite remove_qlist, IH; [done|set_solver|done|apply served_lane; set_solver]).
  by apply Hall.
Qed.

Lemma pull_turn ts n w b :
  inv ts n w → backlog (w_redis w) = S b →
  ∃ n' w' id, pull error_text rnd draws wk order waits o (n, w) = ((n', w'), Some wk)
    ∧ inv ts n' w' ∧ backlog (w_redis w') = b ∧ turn_of ts id w w' ∧ leaves w w'.
Proof.
  intros [Hok Hent Hk Ha Hruns Hts] Hb.
  destruct (pull_runs n w b Hok Hent Hb) as (id&k&r'&->&Hid&Hok'&Hent'&Hb'&Hsh&Hw).
  set (r2 := fst (RemoveFromProcessing NoFault now (wk_id wk) id r')).
  assert (keyspace_ok r2 ∧ entries_ok r2 ∧ backlog r2 = b ∧ shrunk (w_redis w) r2) as (Hok2&Hent2&Hb2&Hsh2).
  { unfold r2. split; [by apply remove_ok|]. split; [|split; [by rewrite remove_backlog|]].
    - intros k' v Hk'. rewrite remove_qlist by (done || by apply served_lane). by apply Hent'.
    - transitivity r'; [done|]. split; [|apply queue_inv_remove]. intros k' v Hk'. by rewrite remove_qlist. }
  assert (∀ id', uuid_valid id' → waiting (w_redis w) id' → id' = id ∨ waiting r2 id') as Hw2.
  { intros id' Hid' [He|(k'&Hk'&Hin)]%Hw; [left; by apply uuid_String_inj|right].
    exists k'. split; [done|]. unfold r2. rewrite remove_qlist; [done|done|by apply served_lane]. }
  set (pending := ∃ j, jobs (w_db w) !! id = Some j ∧ State_ j = StatePending).
  assert (pending ∨ ∀ j, jobs (w_db w) !! id = Some j → State_ j ≠ StatePending) as [(j&Hj&Hp)|Hnot].
  { destruct (jobs (w_db w) !! id) as [j|] eqn:Hj; [|by right].
    destruct (decide (State_ j = StatePending)); [left; exists j; eauto|right; congruence]. }
  - destruct (process_quiet error_text rnd wk order (mkItem id k) o now (S n) (set_redis w r') j Hq (never_capped _)
      (rd_text Hready) Htext Hj (Hk id j Hj) Hp (Ha id j Hj Hp)) as (n'&Hrun&Hn).
    { intros r Hr. apply not_true_iff_false. unfold is_run. intros Hx. bool_to_prop. apply (Hruns r (S n)); [done|lia|done]. }
    rewrite (pbind_run _ _ _ _ _ _ Hrun). do 2 eexists. exists id. split; [reflexivity|].
    cbn [w_redis w_db set_redis set_db it_JobID]. fold r2. rewrite <- Hts in *. set (j' := settled_row _ _ _).
    assert (settled (w_tenants w) j j') as Hset by (by exists (t_uuid (o (S n)))).
    split; [|split; [done|split; [split; [done|split]|]]].
    + split; cbn; try done.
      * intros i q Hi. destruct (decide (i = id)) as [->|]; [|rewrite lookup_insert_ne in Hi by done; by apply Hk].
        rewrite lookup_insert_eq in Hi. injection Hi as <-. unfold j', settled_row, outcome_of.
        pose proof (Hk id j Hj). by destruct (execute _ _ _ _).
      * intros i q Hi. destruct (decide (i = id)) as [->|]; [|rewrite lookup_insert_ne in Hi by done; by apply (Ha i)].
        rewrite lookup_insert_eq in Hi. injection Hi as <-. intros He. by destruct (settled_not_pending _ _ _ Hset).
      * intros r m [Hr|Hr%list_elem_of_singleton]%elem_of_app Hm; [apply (Hruns r m Hr); lia|]. subst r. cbn. apply Hfresh. lia.
    + intros id' Hne. cbn. by rewrite lookup_insert_ne.
    + rewrite Hj, decide_True by done. exists j'. cbn. by rewrite lookup_insert_eq.
    + split; cbn; [done| |].
      * intros i. destruct (decide (i = id)) as [->|]; [by rewrite Hj|by rewrite lookup_insert_ne].
      * intros r [Hr|Hr%list_elem_of_singleton]%elem_of_app; [by left|right]. subst r. cbn. eauto.
  - rewrite (pbind_run _ _ _ _ _ _ (process_passes error_text rnd wk order (mkItem id k) o now (S n) (set_redis w r') Hq
      (never_capped _) (rd_text Hready) Hnot)).
    do 2 eexists. exists id. split; [reflexivity|]. cbn [w_redis w_db set_redis it_JobID]. fold r2.
    split; [|split; [done|split; [split; [done|split; [done|]]|by split; [|done|left]]]].
    + split; cbn; try done. intros r m Hr Hm. apply (Hruns r m Hr). lia.
    + destruct (jobs (w_db w) !! id) as [j|] eqn:Hj; [|done]. rewrite decide_False by (by apply Hnot). done.
Qed.

(** ** As many turns as there are entries *)

(** Jobs that were waiting are settled or still waiting; the others are as they were. *)
Definition progress (ts : tenants) (w w' : world) : Prop :=
  ∀ id, uuid_valid id →
    match jobs (w_db w) !! id with
    | Some j =>
        (jobs (w_db w') !! id = Some j ∧ (waiting (w_redis w) id → State_ j = StatePending → waiting (w_redis w') id))
        ∨ (State_ j = StatePending ∧ ∃ j', jobs (w_db w') !! id = Some j' ∧ settled ts j j')
    | None => jobs (w_db w') !! id = None
    end.

Lemma turn_progress ts w w1 w' id : turn_of ts id w w1 → progress ts w1 w' → progress ts w w'.
Proof.
  intros (Hwait&Hother&Hid) Hp i Hi. specialize (Hp i Hi). destruct (decide (i = id)) as [->|Hne].
  - destruct (jobs (w_db w) !! id) as [j|]; [|by rewrite Hid in Hp]. case_decide as Hpend.
    + destruct Hid as (j'&Hj'&Hs). rewrite Hj' in Hp. right. split; [done|]. exists j'. split; [|done].
      destruct Hp as [[? _]|[Hp _]]; [done|]. by destruct (settled_not_pending _ _ _ Hs).
    + rewrite Hid in Hp. destruct Hp as [[? _]|[? _]]; [left|done]. split; [done|]. by intros _ ?.
  - rewrite (Hother i Hne) in Hp. destruct (jobs (w_db w) !! i) as [j|]; [|done].
    destruct Hp as [[Hj Hw]|Hp]; [left|by right]. split; [done|]. intros Hwi. apply Hw.
    by destruct (Hwait i Hi Hwi) as [->|].
Qed.

Lemma loop_progress ts refresh b : ∀ n w,
  (∀ k, refresh k wk = wk) → inv ts n w → backlog (w_redis w) = b →
  ∃ n' w', loop error_text rnd draws refresh order waits b wk o (n, w) = ((n', w'), Some wk)
    ∧ inv ts n' w' ∧ backlog (w_redis w') = 0%nat ∧ progress ts w w' ∧ leaves w w'.
Proof.
  induction b as [|b IH]; intros n w Href Hi Hb.
  - exists n, w. do 3 (split; [done|]). split; [|apply leaves_refl]. intros id _. destruct (jobs (w_db w) !! id); [left; auto|done].
  - destruct (pull_turn ts n w b Hi Hb) as (n1&w1&id&Hpull&Hi1&Hb1&Ht&Hl).
    destruct (IH n1 w1 Href Hi1 Hb1) as (n'&w'&Hloop&Hi'&Hb'&Hp&Hl').
    exists n', w'. split; [|by eauto 6 using turn_progress, leaves_trans]. cbn [loop]. rewrite pbind_local, (q_done o now Hq), Href.
    by rewrite (pbind_run _ _ _ _ _ _ Hpull).
Qed.

Lemma emptied r k : backlog r = 0%nat → k ∈ served → qlist r k = [].
Proof. intros Hb Hk. by apply length_zero_iff_nil, (sum_zero (λ k, length (qlist r k)) served). Qed.

Lemma progress_settled ts w w' id j :
  progress ts w w' → backlog (w_redis w') = 0%nat → uuid_valid id → jobs (w_db w) !! id = Some j →
  waiting (w_redis w) id → State_ j = StatePending → ∃ j', jobs (w_db w') !! id = Some j' ∧ settled ts j j'.
Proof.
  intros Hp Hb Hid Hj Hw Hpend. specialize (Hp id Hid). rewrite Hj in Hp. destruct Hp as [[_ Hstill]|[_ ?]]; [|done].
  destruct (Hstill Hw Hpend) as (k&Hk&Hin). rewrite (emptied _ k Hb Hk) in Hin. by apply not_elem_of_nil in Hin.
Qed.

End drain.
