(* ===== verification/ApiFacts.v ===== *)
(** * The API's promises

    Submitting with an idempotency key creates one job however often and however
    unluckily it is retried; and a key that Postgres no longer accepts stops working
    within the cache's time to live. *)

From S2P Require Import Prelude GoBase Job Redis Queue QueueInv Ratelimit Db Storage Tenants Schedules World.
From S2P Require Import Scheduler Api Server SchedulerFacts Lifecycle Claims Integrity CronFacts WorkerFacts.

Open Scope Z_scope.

Section submit.
Context `{!UuidText} `{!PgText} `{!InputLib} `{!LuaNum}.
Variable limiter : bool.

(** The bucket of the tenant has a token at [now]. *)
Definition has_token (tn : Tenant) (now : Z) (bs : gmap uuid bucket) : Prop :=
  snd (Allow NoFault (now / Millisecond) (tn_ID tn) (tn_RateLimit tn) bs) = Ok true.

(** The jobs a tenant submitted under a key. *)
Definition keyed_job (tenantID : uuid) (key : string) (j : Job) : Prop :=
  TenantID j = tenantID ∧ IdempotencyKey j = Some key.

Lemma submitted_job_cols req id tenantID trace now j :
  submitted_job req id tenantID trace now = Ok j →
  ID j = id ∧ TenantID j = tenantID ∧ IdempotencyKey j = sub_IdempotencyKey req.
Proof.
  unfold submitted_job. destruct (Build _ _ _ _) as [j0|] eqn:Hb; [|done].
  destruct (Build_job _ _ _ _ _ Hb) as [<- <-]. intros [= <-]. by destruct (sub_RunAt req) as [t|]; [case_match|].
Qed.

Lemma handleSubmitJob_keys_ok tn trace req o :
  (∀ n w, keys_ok (jobs (w_db w)) → keys_ok (jobs (w_db (t_env (o n) w)))) →
  preserves (λ w, keys_ok (jobs (w_db w))) o (handleSubmitJob limiter tn trace req).
Proof.
  intros Henv. unfold handleSubmitJob, store_job.
  repeat first
    [ apply preserves_pret | apply preserves_local
    | apply preserves_pbind; [|intros ?]
    | apply (preserves_ask _ _ Henv)
    | apply (preserves_on _ _ Henv); intros t w Hw; exact Hw
    | apply (preserves_on _ _ Henv); intros t w Hw; by apply insert_keys_ok
    | case_match ].
Qed.

Lemma find_row_keyed tenantID key d id e :
  jobs d !! id = Some e → keyed_job tenantID key e →
  ∃ id' e', jobs d !! id' = Some e' ∧ keyed_job tenantID key e'
    ∧ GetJobByIdempotencyKey NoFault tenantID key d = Ok (scanJob e').
Proof.
  intros He [Ht Hk]. unfold GetJobByIdempotencyKey, query, find_row.
  destruct (filter _ _) as [|e' l] eqn:Hf.
  - exfalso. eapply (filter_nil_not_elem_of _ _ e); [exact Hf| |apply elem_of_rows; eauto].
    cbn. by rewrite !bool_decide_true.
  - assert (e' ∈ filter (λ j, bool_decide (TenantID j = tenantID) && bool_decide (IdempotencyKey j = Some key) = true)
      (rows (jobs d))) as [Hp Hin]%list_elem_of_filter by (rewrite Hf; left).
    apply elem_of_rows in Hin as [id' Hid]. bool_to_prop. exists id', e'. done.
Qed.

Lemma store_job_quiet tenantID key j row o now n w :
  quiet o now → queue_inv now (w_redis w) → uuid_valid (ID j) → jobs (w_db w) !! ID j = None →
  keyed_job tenantID key j → new_row j = Some row →
  ∃ n' w' resp, store_job tenantID (Some key) j o (n, w) = ((n', w'), resp)
    ∧ ((∃ id e, jobs (w_db w) !! id = Some e ∧ keyed_job tenantID key e
          ∧ w' = w ∧ resp = mkResponse 200 (JobReply (scanJob e)))
       ∨ ((∀ id e, jobs (w_db w) !! id = Some e → ¬ keyed_job tenantID key e)
          ∧ w_db w' = mkDb (<[ID j := row]> (jobs (w_db w))) (job_runs (w_db w)) (dead_letter (w_db w))
          ∧ resp = mkResponse 201 (JobReply j)
          ∧ (State_ j = StatePending → queued (w_redis w') (ID j)))).
Proof.
  intros Hq Hi Hv Hn [Ht Hk] Hrow. destruct (new_row_Some j row Hrow) as (Hid&Hrt&Hrk&_).
  unfold store_job. erewrite pbind_run by (by apply (on_quiet o now)). cbv beta. rewrite (q_fault o now Hq).
  unfold InsertJob, exec, insert_stmt. rewrite Hrow. unfold conflicts.
  rewrite Hid, bool_decide_false by (rewrite Hn; apply is_Some_None). cbn [orb].
  destruct (existsb (same_key row) (rows (jobs (w_db w)))) eqn:Hex.
  - apply existsb_exists in Hex as (k&Hin&Hs). apply list_elem_of_In, elem_of_rows in Hin as [id Hin].
    apply same_key_iff in Hs as (Hst&key'&Hk1&Hk2).
    destruct (find_row_keyed tenantID key (w_db w) id k Hin) as (id'&e&He&Hke&Hget); [split; congruence|].
    cbn [fst snd]. erewrite pbind_run by (by apply (ask_quiet o now)). cbv beta. rewrite (q_fault o now Hq), set_db_same.
    rewrite Hget. do 3 eexists. split; [reflexivity|]. left. eauto 10.
  - assert (∀ id e, jobs (w_db w) !! id = Some e → ¬ keyed_job tenantID key e) as Hnone.
    { intros id e He [Het Hek]. apply not_true_iff_false in Hex. apply Hex, existsb_exists. exists e.
      split; [apply list_elem_of_In, elem_of_rows; eauto|]. apply same_key_iff. split; [congruence|]. exists key. split; congruence. }
    cbn [fst snd]. case_bool_decide as Hp.
    + erewrite pbind_run by (by apply (on_quiet o now)). cbv beta. rewrite (q_fault o now Hq), (q_server o now Hq).
      do 3 eexists. split; [reflexivity|]. right. do 3 (split; [done|]). intros _. by apply enqueue_queued.
    + do 3 eexists. split; [reflexivity|]. right. done.
Qed.

(** A request the limiter lets through reaches [store_job]. *)
Lemma handleSubmitJob_admitted tn trace req j o now n w :
  quiet o now → key_ok (sub_IdempotencyKey req) = true →
  submitted_job req (t_uuid (o n)) (tn_ID tn) trace now = Ok j →
  (limiter = true → has_token tn now (w_buckets w)) →
  ∃ n' bs, handleSubmitJob limiter tn trace (Some req) o (n, w)
        = store_job (tn_ID tn) (sub_IdempotencyKey req) j o (n', set_buckets w bs) ∧ (n <= n')%nat.
Proof.
  intros Hq Hkey Hj Hlim. unfold handleSubmitJob. rewrite Hkey. cbn [negb].
  unfold pbind at 1, local at 1. cbv beta iota. unfold pbind at 1, local at 1. cbv beta iota.
  rewrite (q_now o now Hq), Hj. destruct limiter; [|exists n, (w_buckets w); split; [by destruct w|done]].
  specialize (Hlim eq_refl). unfold has_token in Hlim.
  exists (S n). eexists. split; [|lia]. erewrite pbind_run by (by apply (on_quiet o now)). cbv beta.
  rewrite (q_fault o now Hq), (q_server o now Hq), Hlim. reflexivity.
Qed.

(** C6: Submitting is idempotent. A client submits a job under an idempotency key;
    the attempt may fail anywhere, with other processes at work between its calls. When the
    client tries again within its rate and this time nothing fails, there is exactly one job under the
    key, and the client is given it: the job of the earlier attempt, with 200 and no
    table or queue changed, or the new one, with 201, stored and, if it is due, queued. *)
Theorem handleSubmitJob_idempotent tn trace req key o1 n1 w o now n j row :
  keys_ok (jobs (w_db w)) →
  (∀ n w, keys_ok (jobs (w_db w)) → keys_ok (jobs (w_db (t_env (o1 n) w)))) →
  sub_IdempotencyKey req = Some key → key_ok (Some key) = true →
  let w1 := snd (fst (handleSubmitJob limiter tn trace (Some req) o1 (n1, w))) in
  quiet o now → queue_inv now (w_redis w1) → uuid_valid (t_uuid (o n)) → jobs (w_db w1) !! t_uuid (o n) = None →
  submitted_job req (t_uuid (o n)) (tn_ID tn) trace now = Ok j → new_row j = Some row →
  (limiter = true → has_token tn now (w_buckets w1)) →
  ∃ n' w' resp id e, handleSubmitJob limiter tn trace (Some req) o (n, w1) = ((n', w'), resp)
    ∧ jobs (w_db w') !! id = Some e ∧ keyed_job (tn_ID tn) key e
    ∧ (∀ id' e', jobs (w_db w') !! id' = Some e' → keyed_job (tn_ID tn) key e' → id' = id)
    ∧ ((resp = mkResponse 200 (JobReply (scanJob e)) ∧ w_db w' = w_db w1 ∧ w_redis w' = w_redis w1)
       ∨ (resp = mkResponse 201 (JobReply j) ∧ id = ID j ∧ e = row
          ∧ (State_ j = StatePending → queued (w_redis w') (ID j)))).
Proof.
  intros Hk Henv Hkey Hok w1 Hq Hi Hv Hn Hj Hrow Hlim.
  assert (keys_ok (jobs (w_db w1))) as Hk1 by (by apply (handleSubmitJob_keys_ok tn trace (Some req) o1 Henv (n1, w))).
  clearbody w1. destruct (submitted_job_cols _ _ _ _ _ _ Hj) as (Hid&Hten&Hjk).
  destruct (handleSubmitJob_admitted tn trace req j o now n w1 Hq) as (n0&bs&->&_); [by rewrite Hkey|done|done|].
  rewrite <- Hid in Hv, Hn. rewrite Hkey.
  destruct (store_job_quiet (tn_ID tn) key j row o now n0 (set_buckets w1 bs)) as (n'&w'&resp&->&Hcases); [done..|split; congruence|done|].
  destruct Hcases as [(id&e&He&Hke&->&->)|(Hnone&Hdb&->&Hqd)].
  - exists n', (set_buckets w1 bs), (mkResponse 200 (JobReply (scanJob e))), id, e. do 3 (split; [done|]). split; [|by left].
    intros id' e' He' [Ht' Hk']. apply (Hk1 id' id e' e); [done..|]. apply same_key_iff.
    destruct Hke as [Ht Hkk]. split; [congruence|eauto].
  - destruct (new_row_Some j row Hrow) as (_&Hrt&Hrk&_).
    exists n', w', (mkResponse 201 (JobReply j)), (ID j), row. rewrite Hdb. cbn [jobs]. rewrite lookup_insert_eq.
    do 2 (split; [done|]). split; [split; congruence|]. split; [|by right].
    intros id' e' He' Hke. destruct (decide (id' = ID j)) as [->|]; [done|].
    rewrite lookup_insert_ne in He' by done. by apply Hnone in He'.
Qed.
End submit.

(** ** The tenant cache *)
Section cache.

(** The requests of one API process, interleaved: a lookup reads Postgres for some key
    at some time, any lookup that has read stores what it read, and a failed one
    drops an entry. The log keeps what Postgres answered. *)
Record cache_log := mkLog { cl_cache : cache; cl_reads : list (string * Tenant * Z) }.

Inductive cache_step (s : cache_log) : cache_log → Prop :=
| cs_read now apiKey ts t :
    GetTenantByAPIKey NoFault apiKey ts = Ok t →
    cache_step s (mkLog (cl_cache s) ((HashAPIKey apiKey, t, now) :: cl_reads s))
| cs_store hash t now :
    (hash, t, now) ∈ cl_reads s →
    cache_step s (mkLog (cache_store now hash (Ok t) (cl_cache s)) (cl_reads s))
| cs_drop hash now e :
    cache_step s (mkLog (cache_store now hash (Err e) (cl_cache s)) (cl_reads s)).

Lemma cache_inv s :
  rtc cache_step (mkLog ∅ []) s →
  ∀ hash e, cl_cache s !! hash = Some e → (hash, ce_tenant e, ce_expires e - tenantCacheTTL) ∈ cl_reads s.
Proof.
  revert s. apply (rtc_ind_r (λ s, ∀ hash e, cl_cache s !! hash = Some e →
    (hash, ce_tenant e, ce_expires e - tenantCacheTTL) ∈ cl_reads s)).
  { intros hash e. cbn. by rewrite lookup_empty. }
  intros s s' _ Hst IH. destruct Hst as [now apiKey ts t Hr|h t now Hin|h now err]; cbn; intros hash e He.
  - right. by apply IH.
  - destruct (decide (hash = h)) as [->|]; [|rewrite lookup_insert_ne in He by done; by apply IH].
    rewrite lookup_insert_eq in He. injection He as <-. cbn. by rewrite Z.add_simpl_r.
  - destruct (decide (hash = h)) as [->|]; [by rewrite lookup_delete_eq in He|].
    rewrite lookup_delete_ne in He by done. by apply IH.
Qed.

(** C34: Staleness of the tenant cache is bounded. In any interleaving of lookups, a
    request authenticated at some time is either authenticated by Postgres then, or by
    an answer Postgres gave for the same key to a lookup that began less than ten
    seconds before: so a rotated key, or one of a disabled tenant, is refused once ten
    seconds have passed. *)
Theorem tenant_cache_staleness s o n w key tn :
  rtc cache_step (mkLog ∅ []) s →
  snd (snd (lookup_key key (cl_cache s) o (n, w))) = Ok tn →
  GetTenantByAPIKey NoFault key (w_tenants (t_env (o n) w)) = Ok tn
  ∨ ∃ read, (HashAPIKey key, tn, read) ∈ cl_reads s ∧ t_now (o n) < read + tenantCacheTTL.
Proof.
  intros Hr. unfold lookup_key. rewrite pbind_local. unfold cache_hit.
  destruct (cl_cache s !! HashAPIKey key) as [e|] eqn:He; cbn; [|left; by destruct (t_fault (o n))].
  destruct (Z.ltb_spec (t_now (o n)) (ce_expires e)); cbn; [|left; by destruct (t_fault (o n))].
  intros [= <-]. right. exists (ce_expires e - tenantCacheTTL). split; [by apply cache_inv|lia].
Qed.
End cache.
