(* ===== verification/Demo.v ===== *)
(** * The demo (scripts/demo/main.go)

    The jobs the demo submits, the endpoints they call, the requests of its client, and
    the schedule it registers. Draws of [math/rand] are an argument; the API answers as
    its handlers do; the text of a JSON document is a parameter, with what decoding it
    gives back. *)

From stdpp Require Import pretty.
From S2P Require Import Prelude GoBase Job Redis Queue Ratelimit Db Storage Tenants Schedules Stats World Scheduler Api.
From S2P Require Import ApiFacts.
From S2P Require Webhook.

Open Scope Z_scope.
Local Open Scope prog_scope.
Local Open Scope sluice_scope.

(** ** Endpoints: the status of a request, [draw] being [rand.IntN(2)] *)
Definition endpoint (path : string) (draw : Z) : Z :=
  if String.eqb path "/work" then 200
  else if String.eqb path "/flaky" then if draw =? 0 then 502 else 200
  else if String.eqb path "/broken" then 500
  else 404.

(** ** [randomJob]

    The fields of the map; [dj_order] is in the body of the payload. *)
Record demo_job := mkDemoJob {
  dj_priority : Z;
  dj_url : string;
  dj_order : option Z;
  dj_max_retries : option Z;
  dj_run_at : option Z;
}.

Definition priorities : list Z := [1; 5; 5; 5; 10; 10].

(** [IntN k m] is the [k]-th draw, below [m]. The text of [time.RFC3339] has no fraction
    of a second. *)
Definition randomJob (IntN : nat → Z → Z) (now : Z) (hooks : string) : demo_job :=
  let priority := default 0 (priorities !! Z.to_nat (IntN 0%nat 6)) in
  let n := IntN 1%nat 100 in
  if n <? 80 then
    mkDemoJob priority (hooks +:+ "/work?ms=" +:+ pretty (50 + IntN 2%nat 950)) (Some (IntN 3%nat 100000)) None None
  else if n <? 92 then mkDemoJob priority (hooks +:+ "/flaky") None (Some 4) None
  else if n <? 96 then mkDemoJob priority (hooks +:+ "/broken") None (Some 2) None
  else mkDemoJob priority (hooks +:+ "/work?ms=" +:+ pretty 100) None None
         (Some ((now + (30 + IntN 2%nat 90) * Second) / Second * Second)).

(** ** The client *)
Record client := mkClient { cl_api : string; cl_key : string }.

(** [do]: the request it sends. *)
Definition do_request (c : client) (method path body : string) : Webhook.request :=
  Webhook.mkRequest method (cl_api c +:+ path)
    (Webhook.header_set "Content-Type" "application/json"
      (Webhook.header_set "Authorization" ("Bearer " +:+ cl_key c) ∅)) body.

(** [submit]: what it logs of the reply. *)
Inductive submit_log := Submitted | SubmitFailed | SubmitRefused (code : Z).

Definition submit (reply : option Z) : submit_log :=
  match reply with
  | None => SubmitFailed
  | Some code => if code =? 201 then Submitted else SubmitRefused code
  end.

Definition demo_schedule : string := "demo-heartbeat".

Inductive ensured := Registered | Present | DemoFatal.

Section demo.
Context `{!UuidText} `{!PgText} `{!InputLib} `{!CronLib} `{!LuaNum}.

(** The template of the schedule, as the client encodes it. *)
Variable demo_template : string → string.

(** The names in a reply to the list: a JSON object without [schedules] decodes as no
    names, whatever its status. *)
Definition listed_names (r : response) : option (list string) :=
  match body r with
  | SchedulesReply l => Some (sc_Name <$> l)
  | NoBody => None
  | _ => Some []
  end.

Definition ensureSchedule (tn : Tenant) (hooks : string) : prog ensured :=
  do r ← handleListSchedules tn;
  match listed_names r with
  | None => pret DemoFatal
  | Some names =>
      if existsb (String.eqb demo_schedule) names then pret Present
      else
        do r ← handleCreateSchedule tn (Some (mkCreateSchedule demo_schedule "* * * * *" "" (demo_template hooks)));
        pret (if status r =? 201 then Registered else DemoFatal)
  end.
End demo.

(** ** Facts *)

(** [encoding/json]: the payload of a demo job as text, and what the API's decoder makes
    of it; [net/url] on the URLs of the demo. *)
Class DemoJson `{!InputLib} := {
  payload_text : demo_job → string;
  payload_body : demo_job → string;
  payload_nonempty j : payload_text j ≠ EmptyString;
  payload_decodes j : json_WebhookPayload (payload_text j) = Some (mkWebhookPayload (dj_url j) "" [] (payload_body j) 0);
}.

Section accepted.
Context `{!InputLib} `{!DemoJson}.

(** What the API decodes from the body of a submission. *)
Definition demo_submission (j : demo_job) : submitJobRequest :=
  mkSubmit (mkTemplate "webhook" (payload_text j) (Some (dj_priority j)) (dj_max_retries j) (Some 3)) (dj_run_at j) None.

Lemma priorities_valid i p : priorities !! i = Some p → 1 <= p <= 10.
Proof. intros Hp%list_elem_of_lookup_2. unfold priorities in Hp. set_solver by lia. Qed.

(** The API accepts every job of the demo. Whatever is drawn, the submission passes
    every check of [Build], with the priority, retries and backoff of the demo; the job is
    pending, or scheduled for the future when the draw gave it a time. *)
Theorem randomJob_accepted IntN hooks id tenantID trace now host :
  (∀ k m, 0 < m → 0 <= IntN k m < m) →
  (∀ rest, url_Parse (hooks +:+ rest) = Some ("http"%string, host)) → host ≠ EmptyString →
  ∃ j, submitted_job (demo_submission (randomJob IntN now hooks)) id tenantID trace now = Ok j
    ∧ 1 <= Priority j <= 10 ∧ BackoffSeconds j = 3 ∧ MaxRetries j ∈ [2; 3; 4]
    ∧ State_ j = (if dj_run_at (randomJob IntN now hooks) then StateScheduled else StatePending)
    ∧ (State_ j = StateScheduled → now < RunAt j).
Proof.
  intros HI Hurl Hhost. set (r := randomJob IntN now hooks).
  assert (1 <= dj_priority r <= 10 ∧ (∃ rest, dj_url r = hooks +:+ rest)
    ∧ default 3 (dj_max_retries r) ∈ [2; 3; 4] ∧ ∀ t, dj_run_at r = Some t → now < t) as (Hp&[rest Hu]&Hm&Ht).
  { destruct (lookup_lt_is_Some_2 priorities (Z.to_nat (IntN 0%nat 6))) as [p Hp];
      [pose proof (HI 0%nat 6 ltac:(lia)); cbn; lia|]. pose proof (priorities_valid _ _ Hp).
    unfold r, randomJob. rewrite Hp. cbn [default]. pose proof (HI 2%nat 90 ltac:(lia)).
    repeat case_match; cbn; (split; [done|]); (split; [by eexists|]); (split; [set_solver|]); intros t Hx; try done.
    injection Hx as <-. unfold Second. pose proof (Z.mul_succ_div_gt (now + (30 + IntN 2%nat 90) * 1000000000) 1000000000 ltac:(lia)).
    lia. }
  assert (Build (sub_Template (demo_submission r)) id tenantID now
          = Ok (template_job (sub_Template (demo_submission r)) id tenantID now)) as Hb.
  { unfold Build, validate, template_job, demo_submission. cbn -[validateWebhookPayload].
    unfold PriorityHigh, PriorityLow, MaxMaxRetries, MaxBackoffSeconds.
    assert (default DefaultMaxRetries (dj_max_retries r) ∈ [2; 3; 4]) as Hm' by exact Hm.
    rewrite !elem_of_cons in Hm'. zcases; cbn -[validateWebhookPayload]; try lia; try (exfalso; set_solver by lia).
    unfold validateWebhookPayload. rewrite (proj2 (String.eqb_neq _ _) (payload_nonempty r)), payload_decodes.
    unfold url_absolute. cbn [URL]. rewrite Hu, Hurl. rewrite (proj2 (String.eqb_neq _ _) Hhost). done. }
  unfold submitted_job. rewrite Hb. cbn [result_bind].
  change (sub_RunAt (demo_submission r)) with (dj_run_at r). destruct (dj_run_at r) as [t|] eqn:Hrun.
  - rewrite (proj2 (Z.ltb_lt _ _) (Ht t eq_refl)). eexists. split; [done|]. cbn. auto 10.
  - eexists. split; [done|]. cbn. split_and!; [apply Hp|apply Hp|done|exact Hm|done|done].
Qed.
End accepted.

Section schedule.
Context `{!UuidText} `{!PgText} `{!InputLib} `{!CronLib} `{!LuaNum} (demo_template : string → string).

Definition has_schedule (tn : Tenant) (t : schedules) : Prop :=
  ∃ id s, t !! id = Some s ∧ sc_TenantID s = tn_ID tn ∧ sc_Name s = demo_schedule.

Lemma listed_has tn (p : plan Schedule) t :
  existsb (String.eqb demo_schedule) (sc_Name <$> p (filter (λ s, sc_TenantID s = tn_ID tn) (rows t))) = true
  ↔ has_schedule tn t.
Proof.
  rewrite existsb_exists. unfold has_schedule. setoid_rewrite <-list_elem_of_In.
  setoid_rewrite list_elem_of_fmap. setoid_rewrite String.eqb_eq.
  assert (∀ s, s ∈ p (filter (λ s, sc_TenantID s = tn_ID tn) (rows t)) ↔ sc_TenantID s = tn_ID tn ∧ ∃ id, t !! id = Some s) as Hp
    by (intros s; by rewrite (visit_perm p), list_elem_of_filter, elem_of_rows).
  setoid_rewrite Hp. split.
  - intros (?&(s&->&Hs&id&Hid)&Hx). eauto.
  - intros (id&s&Hid&Hs&Hx). exists (sc_Name s). split; [|done]. exists s. eauto.
Qed.

Lemma handleCreateSchedule_has tn req o n w st r :
  cs_Name req = demo_schedule →
  handleCreateSchedule tn (Some req) o (n, w) = (st, r) → status r = 201 → has_schedule tn (w_schedules (snd st)).
Proof.
  intros Hname. unfold handleCreateSchedule. rewrite Hname. cbn [String.eqb demo_schedule].
  repeat (case_match; [by intros [= <- <-]|]). unfold pbind at 1 2, local.
  destruct (validateTemplate _ _ _ _) as [?|e]; [|destruct e; by intros [= <- <-]].
  destruct (nextRun _ _ _) as [next|e]; [|by intros [= <- <-]].
  unfold pbind, on_schedules. rewrite on_run. cbn zeta. cbn [fst snd]. unfold pret, InsertSchedule.
  set (w1 := t_env (o n) w). generalize (w_schedules w1) as t. intros t [= <- <-] Hs.
  revert Hs. unfold exec, insert_schedule_stmt. destruct (schedule_row _) as [row|] eqn:Hrow; [|by destruct (t_fault (o n))].
  destruct (bool_decide _ || _); [by destruct (t_fault (o n))|]. destruct (t_fault (o n)); [|done..]. intros _.
  eexists _, _. split; [apply lookup_insert_eq|]. unfold schedule_row in Hrow. case_match; [|done].
  destruct (jsonb_in _); [|done]. by injection Hrow as <-.
Qed.

(** A run that finds or registers the schedule leaves it in the table, whatever else
    happens during the run. *)
Lemma ensureSchedule_has tn hooks o n w st r :
  ensureSchedule demo_template tn hooks o (n, w) = (st, r) → r ≠ DemoFatal → has_schedule tn (w_schedules (snd st)).
Proof.
  unfold ensureSchedule, handleListSchedules, pbind at 1 2, ask, remote, ListSchedules, query. cbn [fst snd pret].
  set (w1 := t_env (o n) w). destruct (listed_names _) as [names|] eqn:Hl; [|by intros [= <- <-]].
  destruct (existsb _ names) eqn:Hex.
  - intros [= <- <-] _. cbn. destruct (t_fault (o n)); cbn in Hl; injection Hl as <-; try done.
    by apply listed_has in Hex.
  - unfold pbind. destruct (handleCreateSchedule _ _ _ _) as [[n2 w2] resp] eqn:Hc. cbn. intros [= <- <-].
    destruct (status resp =? 201) eqn:Hs; [|congruence]. intros _. eapply handleCreateSchedule_has in Hc; [exact Hc|done|lia].
Qed.

(** Registering the demo's schedule is idempotent. When a run of [ensureSchedule]
    returned, whatever failed or ran beside it, a later run finds the schedule and changes
    nothing. *)
Theorem ensureSchedule_idempotent tn hooks o n w n' w' r o2 now m :
  ensureSchedule demo_template tn hooks o (n, w) = ((n', w'), r) → r ≠ DemoFatal → quiet o2 now →
  ensureSchedule demo_template tn hooks o2 (m, w') = ((S m, w'), Present).
Proof.
  intros Hrun Hr Hq. apply ensureSchedule_has in Hrun; [|done]. cbn in Hrun.
  unfold ensureSchedule, handleListSchedules, pbind at 1 2. rewrite (ask_quiet o2 now) by done.
  unfold ListSchedules, query, pret. rewrite (q_fault o2 now Hq). cbn.
  by rewrite (proj2 (listed_has _ _ _) Hrun).
Qed.
End schedule.

(** ** [main]: the schedule, then a job now and then and a burst at every tick

    The select of the loop is a sequence of the cases it takes. *)
Inductive demo_case := NextBurst | AfterWait.

Inductive demo_end := DemoUsage | DemoNoListen | DemoNoSchedule | DemoSent (logs : list submit_log).

Section main.
Context `{!UuidText} `{!PgText} `{!InputLib} `{!CronLib} `{!LuaNum} `{!DemoJson}.
Variables (limiter : bool) (demo_template : string → string) (IntN : nat → nat → Z → Z) (tn : Tenant) (hooks : string).

(** [c.submit(randomJob(hooks))], the [k]-th of them; the turn says whether the request
    and its reply arrive. *)
Definition send_job (k : nat) : prog submit_log :=
  do now ← local t_now;
  do f ← ask (λ t _, t_fault t);
  match f with
  | LostRequest => pret (submit None)
  | _ =>
      do r ← handleSubmitJob limiter tn "" (Some (demo_submission (randomJob (IntN k) now hooks)));
      pret (submit (match f with LostReply => None | _ => Some (status r) end))
  end.

Fixpoint send_jobs (k count : nat) : prog (list submit_log) :=
  match count with
  | O => pret []
  | S count' => do l ← send_job k; do ls ← send_jobs (S k) count'; pret (l :: ls)
  end.

(** [for range *burst]: none when [burst] is negative. *)
Definition case_jobs (burst : Z) (c : demo_case) : nat :=
  match c with NextBurst => Z.to_nat burst | AfterWait => 1 end.

Fixpoint demo_loop (burst : Z) (cases : list demo_case) (k : nat) : prog (list submit_log) :=
  match cases with
  | [] => pret []
  | c :: cases' =>
      do now_ ← send_jobs k (case_jobs burst c);
      do later ← demo_loop burst cases' (k + case_jobs burst c);
      pret (now_ ++ later)
  end.

(** A nil channel is never ready: without a ticker there is no [NextBurst]. *)
Definition selectable (burstEvery : Z) (c : demo_case) : bool :=
  match c with NextBurst => 0 <? burstEvery | AfterWait => true end.

Definition demo_main (key : string) (listening : bool) (burst burstEvery : Z) (cases : list demo_case) : prog demo_end :=
  if String.eqb key "" then pret DemoUsage
  else if negb listening then pret DemoNoListen
  else do e ← ensureSchedule demo_template tn hooks;
       match e with
       | DemoFatal => pret DemoNoSchedule
       | _ => do logs ← demo_loop burst (filter (λ c, selectable burstEvery c = true) cases) 0; pret (DemoSent logs)
       end.

Lemma send_jobs_length count : ∀ k o s, length (snd (send_jobs k count o s)) = count.
Proof.
  induction count as [|count IH]; intros k o s; [done|]. cbn [send_jobs]. unfold pbind at 1.
  destruct (send_job k o s) as [s1 l]. unfold pbind. specialize (IH (S k) o s1).
  destruct (send_jobs (S k) count o s1) as [s2 ls]. cbn in *. by rewrite IH.
Qed.

(** The demo tries once for every wait and [burst] times for every tick of its ticker,
    whatever the API answers, and never bursts without one. *)
Theorem demo_loop_attempts burst cases : ∀ k o s,
  length (snd (demo_loop burst cases k o s)) = sum_list_with (case_jobs burst) cases.
Proof.
  induction cases as [|c cases IH]; intros k o s; [done|]. cbn [demo_loop sum_list_with]. unfold pbind at 1.
  pose proof (send_jobs_length (case_jobs burst c) k o s) as Hn. destruct (send_jobs k _ o s) as [s1 l]. unfold pbind.
  specialize (IH (k + case_jobs burst c)%nat o s1). destruct (demo_loop burst cases _ o s1) as [s2 ls]. cbn in *.
  by rewrite length_app, Hn, IH.
Qed.
End main.
