(* ===== verification/ServerFacts.v ===== *)
(** * What a request can reach

    The server as a whole: a request without a valid key or token changes nothing and is
    told nothing; a request of one tenant leaves every other tenant's jobs, runs,
    dead letters and schedules alone; and the administrator's handlers do what they
    report. *)

From S2P Require Import Prelude GoBase Encoding Job Redis Queue Ratelimit Db Storage Tenants Schedules Stats World Scheduler.
From S2P Require Import Api Admin Server.

Open Scope Z_scope.

Section server.
Context `{!UuidText} `{!PgText} `{!InputLib} `{!CronLib} `{!LuaNum} `{!Bodies} `{!Chi}.

(** ** Without a key *)

(** Nothing of any tenant is in such a body. *)
Definition says_nothing (r : response) : Prop :=
  match body r with NoBody | ErrorReply _ | ChecksReply _ _ => True | _ => False end.

Definition unknown_key (key : string) (w : world) : Prop :=
  ∀ tn, GetTenantByAPIKey NoFault key (w_tenants w) ≠ Ok tn.

(** The keys a request can be authenticated by. *)
Definition request_keys (rq : request) : list string :=
  [extractBearerToken (rq_authorization rq); rq_query rq "token"].

Definition stranger (rq : request) (J : world → Prop) (w : world) : Prop :=
  Forall (λ key, unknown_key key w) (request_keys rq) ∧ J w.

Section refused.
Variables (o : oracle) (rq : request) (J : world → Prop) (c : cache).
Hypothesis Henv : ∀ n w, stranger rq J w → stranger rq J (t_env (o n) w).
Hypothesis Hcold : Forall (λ key, c !! HashAPIKey key = None) (request_keys rq).

Lemma with_key_refused key next :
  key ∈ request_keys rq → ensures (stranger rq J) o (with_key key c next) (λ r, fst r ⊆ c ∧ says_nothing (snd r)).
Proof.
  intros Hin. unfold with_key. case_match; [by apply ensures_pret|].
  apply (ensures_pbind _ _ _ _ (λ r, fst r ⊆ c ∧ ∃ e, snd r = Err e)).
  - unfold lookup_key. apply (ensures_pbind _ _ _ _ (λ _, True)); [by apply ensures_local|]. intros now _.
    unfold cache_hit. rewrite Forall_forall in Hcold. rewrite (Hcold key Hin). cbn.
    apply (ensures_pbind _ _ _ _ (λ r, ∃ e, r = Err e)).
    + apply (ensures_ask _ _ Henv). intros t w [Hk _]. rewrite Forall_forall in Hk. specialize (Hk key Hin).
      destruct (GetTenantByAPIKey (t_fault t) key (w_tenants w)) as [tn|e] eqn:Hg; [|eauto].
      exfalso. apply (Hk tn). unfold GetTenantByAPIKey, query in *. by destruct (t_fault t).
    + intros r [e ->]. apply ensures_pret. cbn. split; [apply delete_subseteq|eauto].
  - intros [c' r] [Hc [e He]]. cbn in *. rewrite He. by apply ensures_pret.
Qed.

Lemma handleReady_ensures : ensures (stranger rq J) o handleReady says_nothing.
Proof.
  repeat (apply (ensures_pbind _ _ _ _ (λ _, True)); [by apply (ensures_ask _ _ Henv)|intros ? _]).
  by apply ensures_pret.
Qed.
End refused.


(** ** Of another tenant *)
Section foreign.
Variables (tn : Tenant) (o : oracle).
Variables (jid : uuid) (j : Job) (entry : option dl_row) (runs : list run_row) (sid : uuid) (sched : Schedule) (ts : tenants).
Hypothesis Hj : TenantID j ≠ tn_ID tn.
Hypothesis Hs : sc_TenantID sched ≠ tn_ID tn.

(** A job of another tenant with its dead-letter entry and its runs, and a schedule of
    another tenant. *)
Definition job_view (d : db) : Prop :=
  jobs d !! jid = Some j ∧ dead_letter d !! jid = entry ∧ filter (λ r, rr_job_id r = jid) (job_runs d) = runs.

Definition foreign (w : world) : Prop :=
  job_view (w_db w) ∧ w_schedules w !! sid = Some sched ∧ w_tenants w = ts.

Hypothesis Henv : ∀ n w, foreign w → foreign (t_env (o n) w).

Lemma foreign_exec {A} f (st : stmt db A) w :
  (∀ d d' a, st d = Ok (d', a) → job_view d → job_view d') →
  foreign w → foreign (set_db w (fst (exec f st (w_db w)))).
Proof.
  intros Hst (Hv&?&?). split; [|done]. cbn.
  destruct (exec_cases f st (w_db w)) as [->|[a Ha]]; [done|]. by eapply Hst.
Qed.

Lemma foreign_exec_schedules {A} f (st : stmt schedules A) w :
  (∀ t t' a, st t = Ok (t', a) → t !! sid = Some sched → t' !! sid = Some sched) →
  foreign w → foreign (set_schedules w (fst (exec f st (w_schedules w)))).
Proof.
  intros Hst (?&Hv&?). split; [done|]. split; [|done]. cbn.
  destruct (exec_cases f st (w_schedules w)) as [->|[a Ha]]; [done|]. by eapply Hst.
Qed.

Lemma insert_view k d d' a : insert_stmt k d = Ok (d', a) → job_view d → job_view d'.
Proof.
  unfold insert_stmt. destruct (new_row k) as [row|]; [|done]. destruct (conflicts (jobs d) row) eqn:Hc; [done|].
  intros [= <- <-] (Hv&?&?). split; [|done]. cbn. rewrite lookup_insert_ne; [done|]. intros <-.
  unfold conflicts in Hc. apply orb_false_iff in Hc as [Hc _]. apply bool_decide_eq_false in Hc. apply Hc. eauto.
Qed.

Lemma cancel_view now id d d' a : cancel_stmt now id (tn_ID tn) d = Ok (d', a) → job_view d → job_view d'.
Proof.
  unfold cancel_stmt. destruct (jobs d !! id) as [k|] eqn:Hk; [|done]. destruct (bool_decide _ && _) eqn:Hb; [|done].
  intros [= <- <-] (Hv&?&?). bool_to_prop. split; [|done]. cbn. rewrite lookup_insert_ne; [done|]. intros <-. congruence.
Qed.

Lemma replay_view now id d d' a : replay_tx now id (tn_ID tn) d = Ok (d', a) → job_view d → job_view d'.
Proof.
  unfold replay_tx. destruct (jobs d !! id) as [k|] eqn:Hk; [|done]. destruct (bool_decide _ && _) eqn:Hb; [|done].
  intros [= <- <-] (Hv&?&?). bool_to_prop. assert (jid ≠ id) by (intros <-; congruence).
  split; [|split; [|done]]; cbn; [by rewrite lookup_insert_ne|by rewrite lookup_delete_ne].
Qed.

Lemma insert_schedule_view s t t' a :
  insert_schedule_stmt s t = Ok (t', a) → t !! sid = Some sched → t' !! sid = Some sched.
Proof.
  unfold insert_schedule_stmt. destruct (schedule_row s) as [row|]; [|done].
  destruct (_ || _) eqn:Hc; [done|]. intros [= <- <-] Hv. rewrite lookup_insert_ne; [done|]. intros <-.
  apply orb_false_iff in Hc as [Hc _]. apply bool_decide_eq_false in Hc. apply Hc. eauto.
Qed.

Lemma update_schedule_view s t t' a :
  sc_TenantID s = tn_ID tn → update_schedule_stmt s t = Ok (t', a) → t !! sid = Some sched → t' !! sid = Some sched.
Proof.
  intros Hten. unfold update_schedule_stmt. destruct (schedule_row s) as [row|]; [|done].
  destruct (t !! sc_ID s) as [old|] eqn:Hold; [|done]. case_bool_decide as Hb; [|done]. intros [= <- <-] Hv.
  rewrite lookup_insert_ne; [done|]. intros <-. congruence.
Qed.

Lemma delete_schedule_view id t t' a :
  delete_schedule_stmt id (tn_ID tn) t = Ok (t', a) → t !! sid = Some sched → t' !! sid = Some sched.
Proof.
  unfold delete_schedule_stmt. destruct (t !! id) as [s|] eqn:Hd; [|done]. case_bool_decide; [|done].
  intros [= <- <-] Hv. rewrite lookup_delete_ne; [done|]. intros <-. congruence.
Qed.

(** One call at a time. *)
Ltac calls :=
  repeat first
    [ apply preserves_pret | apply preserves_local
    | apply preserves_pbind; [|intros ?]
    | apply (preserves_ask _ _ Henv)
    | apply (preserves_on _ _ Henv); intros t w Hw; exact Hw
    | apply (preserves_on _ _ Henv); intros t w Hw; apply foreign_exec;
        [first [apply insert_view | apply cancel_view | apply replay_view]|exact Hw]
    | apply (preserves_on _ _ Henv); intros t w Hw; apply foreign_exec_schedules;
        [first [apply insert_schedule_view | apply delete_schedule_view]|exact Hw]
    | case_match ].

Lemma edited_tenant req id now s s' : edited req id now (tn_ID tn) s = Ok s' → sc_TenantID s' = sc_TenantID s.
Proof.
  unfold edited. destruct (if String.eqb _ _ then _ else _) as [tmpl|]; [|done]. cbn.
  destruct (if needs_recompute _ _ then _ else _) as [next|]; [|done]. by intros [= <-].
Qed.

Lemma handleUpdateSchedule_foreign id req : preserves foreign o (handleUpdateSchedule tn id req).
Proof.
  unfold handleUpdateSchedule. destruct (uuid_Parse id) as [i|], req as [req|]; try apply preserves_pret.
  apply ensures_preserves. apply (ensures_pbind _ _ _ _ (λ r, ∀ s, r = Ok s → sc_TenantID s = tn_ID tn)).
  - apply (ensures_ask _ _ Henv). intros t w _ s. unfold GetSchedule, query. destruct (t_fault t); [|done..].
    destruct (w_schedules w !! i) as [s'|]; [|done]. case_bool_decide; [|done]. by intros [= <-].
  - intros [s|e] Hten; [|apply ensures_preserves; calls].
    apply ensures_preserves. apply preserves_pbind; [apply preserves_local|]. intros now.
    apply preserves_pbind; [apply preserves_local|]. intros fresh.
    destruct (edited req fresh now (tn_ID tn) s) as [s'|] eqn:He; [|calls].
    apply preserves_pbind; [|intros ?; apply preserves_pret]. apply (preserves_on _ _ Henv). intros t w Hw.
    apply foreign_exec_schedules; [|done]. intros t0 t' a. apply update_schedule_view.
    rewrite (edited_tenant _ _ _ _ _ He). by apply Hten.
Qed.

Lemma serve_v1_foreign limiter rq : preserves foreign o (serve_v1 limiter rq tn).
Proof.
  unfold serve_v1. destruct (chi_route v1_routes _ _) as [e id| |]; [|apply preserves_pret..].
  destruct e; try apply handleUpdateSchedule_foreign;
    unfold handleSubmitJob, store_job, handleListJobs, handleGetJob, handleListJobRuns, handleCancelJob, handleReplayJob,
      replay_job, handleWebhookSecret, handleCreateSchedule, handleListSchedules, handleGetSchedule, handleDeleteSchedule,
      handleStats, snapshot, handleRecentRuns, handleDeadLetter; calls.
Qed.

Lemma ws_stream_foreign ticks : preserves foreign o (ws_stream tn ticks).
Proof.
  induction ticks as [|ticks IH]; cbn [ws_stream]; [apply preserves_pret|].
  apply preserves_pbind; [unfold snapshot; calls|]. intros s. apply preserves_pbind; [apply IH|]. intros ?. apply preserves_pret.
Qed.
End foreign.

(** The keys of the request are keys of tenant [T] only. *)
Definition belongs_to (T : uuid) (rq : request) (ts : tenants) (c : cache) : Prop :=
  Forall (λ key, (∀ tn, GetTenantByAPIKey NoFault key ts = Ok tn → tn_ID tn = T)
                 ∧ (∀ e, c !! HashAPIKey key = Some e → tn_ID (ce_tenant e) = T)) (request_keys rq).

Lemma with_key_foreign T rq c key next o jid j entry runs sid sched ts :
  (∀ n w, foreign jid j entry runs sid sched ts w → foreign jid j entry runs sid sched ts (t_env (o n) w)) →
  belongs_to T rq ts c → key ∈ request_keys rq →
  (∀ tn, tn_ID tn = T → preserves (foreign jid j entry runs sid sched ts) o (next tn)) →
  preserves (foreign jid j entry runs sid sched ts) o (with_key key c next).
Proof.
  intros Henv Hb Hin Hnext. unfold belongs_to in Hb. rewrite Forall_forall in Hb. destruct (Hb key Hin) as [Hdb Hc].
  apply ensures_preserves. unfold with_key. case_match; [by apply ensures_pret|].
  apply (ensures_pbind _ _ _ _ (λ r, ∀ tn, snd r = Ok tn → tn_ID tn = T)).
  - unfold lookup_key. apply (ensures_pbind _ _ _ _ (λ _, True)); [by apply ensures_local|]. intros now _.
    destruct (cache_hit now (HashAPIKey key) c) as [tn|] eqn:Hh.
    + apply ensures_pret. intros tn' [= <-]. unfold cache_hit in Hh.
      destruct (c !! HashAPIKey key) as [e|] eqn:He; [|done]. cbn in Hh. case_match; [|done]. injection Hh as <-. by apply Hc.
    + apply (ensures_pbind _ _ _ _ (λ r, ∀ tn, r = Ok tn → tn_ID tn = T)).
      * apply (ensures_ask _ _ Henv). intros t w (_&_&->) tn Htn. apply Hdb.
        unfold GetTenantByAPIKey, query in *. by destruct (t_fault t).
      * intros r Hr. by apply ensures_pret.
  - intros [c' [tn|e]] Htn; cbn in *; [|by apply ensures_pret]. apply ensures_preserves.
    apply preserves_pbind; [by apply Hnext, Htn|]. intros resp. apply preserves_pret.
Qed.

(** C12: Tenants are isolated from one another. Whatever request a client sends with the
    key of one tenant, to any route, and whatever faults it meets, a job of another
    tenant keeps its row, its dead-letter entry and its runs, a schedule of another tenant
    is unchanged, and so is the tenants table. *)
Theorem serve_tenant_isolation limiter adminTokenHash ticks o rq c T jid j entry runs sid sched ts n w :
  TenantID j ≠ T → sc_TenantID sched ≠ T →
  (∀ m w', foreign jid j entry runs sid sched ts w' → foreign jid j entry runs sid sched ts (t_env (o m) w')) →
  belongs_to T rq ts c → is_Some (adminAuth adminTokenHash (rq_authorization rq)) →
  foreign jid j entry runs sid sched ts w →
  foreign jid j entry runs sid sched ts (snd (fst (serve limiter adminTokenHash ticks rq c o (n, w)))).
Proof.
  intros Hj Hs Henv Hb [refusal Hadm] Hw. revert Hw.
  enough (preserves (foreign jid j entry runs sid sched ts) o (serve limiter adminTokenHash ticks rq c)) as Hp
    by exact (Hp (n, w)).
  unfold serve. case_match; [apply preserves_pret|].
  destruct (chi_route top_routes _ _) as [e ?| |]; [|apply preserves_pret..].
  destruct e; try apply preserves_pret.
  - unfold handleReady. repeat (apply preserves_pbind; [|intros ?]); try apply preserves_pret; by apply preserves_ask.
  - eapply with_key_foreign; [done|done|case_match; [by left|right; by left]|]. intros tn <-.
    apply preserves_pbind; [by apply ws_stream_foreign|]. intros ?. apply preserves_pret.
  - eapply with_key_foreign; [done|done|by left|]. intros tn <-. by apply serve_v1_foreign.
  - unfold serve_admin. rewrite Hadm. apply preserves_pbind; [apply preserves_pret|]. intros ?. apply preserves_pret.
Qed.
End server.

(** ** Administration *)
Section admin.
Context `{!UuidText} `{!PgText}.

Lemma insert_tenant_ok row t t' a :
  tenants_ok t → insert_tenant_stmt row t = Ok (t', a) →
  tenants_ok t' ∧ t' = <[tn_ID (tr_tenant row) := row]> t ∧ t !! tn_ID (tr_tenant row) = None.
Proof.
  intros Hok. unfold insert_tenant_stmt. destruct (_ && _) eqn:Hb; [|done]. intros [= <- <-].
  apply andb_true_iff in Hb as [Hb Hh]. apply andb_true_iff in Hb as [_ Hn]. bool_to_prop.
  assert (t !! tn_ID (tr_tenant row) = None) as Hnone by (by apply eq_None_not_Some).
  split; [|done]. apply tenants_ok_insert; [done|done|]. by eapply hash_taken_false.
Qed.

(** A created tenant can log in. When creating a tenant answers 201, the key in the
    answer authenticates as that tenant and as no other, with the limits that were asked
    for (or the defaults) and the webhook secret in the answer; the keys of the other
    tenants work as before. *)
Theorem handleAdminCreateTenant_login req o n w n' w' t key secret :
  tenants_ok (w_tenants (t_env (o n) w)) →
  handleAdminCreateTenant (Some req) o (n, w) = ((n', w'), mkResponse 201 (NewTenantReply t key secret)) →
  tenants_ok (w_tenants w')
  ∧ (∃ tn, GetTenantByAPIKey NoFault key (w_tenants w') = Ok tn ∧ toAdminTenant tn = t ∧ tn_WebhookSecret tn = secret
       ∧ tn = mkTenant (t_uuid (o n)) (ct_Name req) (default 100 (tl_RateLimit (ct_Limits req)))
                (default 100 (tl_Weight (ct_Limits req))) "active" secret (default 0 (tl_MaxConcurrency (ct_Limits req))))
  ∧ (∀ k tn, GetTenantByAPIKey NoFault k (w_tenants (t_env (o n) w)) = Ok tn → GetTenantByAPIKey NoFault k (w_tenants w') = Ok tn).
Proof.
  intros Hok. unfold handleAdminCreateTenant. destruct (String.eqb _ _); [done|].
  destruct (limits_validate _) as [[]|]; [|done]. unfold pbind, on_tenants. rewrite on_run. cbn zeta.
  set (w0 := t_env (o n) w) in *. unfold InsertTenant. destruct (NewAPIKey (t_random (o n))) as [key'|]; [|done].
  destruct (NewWebhookSecret (t_random' (o n))) as [secret'|]; [|done].
  set (tn := mkTenant _ _ _ _ _ _ _). destruct (exec _ _ _) as [ts [[]|]] eqn:He; [|done]. cbn. intros [= _ <- <- <- <-].
  cbn. apply exec_Ok in He. destruct (insert_tenant_ok _ _ _ _ Hok He) as (Hok'&->&Hnone). cbn in *.
  split; [done|]. split.
  - exists tn. split; [|done]. apply GetTenantByAPIKey_Ok; [done|]. exists (mkTenantRow tn (HashAPIKey key')).
    by rewrite lookup_insert_eq.
  - intros k tn' Hk. apply (GetTenantByAPIKey_Ok _ _ _ Hok) in Hk as (r&Hr&?&?&?). apply GetTenantByAPIKey_Ok; [done|].
    exists r. rewrite lookup_insert_ne; [done|]. intros Heq. rewrite Heq in Hnone. congruence.
Qed.

(** A row of a tenant keeps its place and its digest under an UPDATE. *)
Lemma update_tenant_ok {A} id (upd : tenant_row → option (tenant_row * A)) t t' a :
  (∀ r r' b, upd r = Some (r', b) → tn_ID (tr_tenant r') = tn_ID (tr_tenant r) ∧ tr_api_key_hash r' = tr_api_key_hash r) →
  tenants_ok t → update_tenant_stmt id upd t = Ok (t', a) →
  tenants_ok t' ∧ ∃ r r', t !! id = Some r ∧ upd r = Some (r', a) ∧ t' = <[id := r']> t.
Proof.
  intros Hupd Hok. unfold update_tenant_stmt. destruct (t !! id) as [r|] eqn:Hr; [|done].
  destruct (upd r) as [[r' b]|] eqn:Hu; [|done]. cbn. intros [= <- <-]. destruct (Hupd _ _ _ Hu) as [Hid Hh].
  split; [|eauto 10]. apply tenants_ok_insert; [done|rewrite Hid; by apply (tok_keyed t Hok)|].
  intros id' r0 Hr0 Hne He. apply Hne, (tok_unique t Hok id' id r0 r); [done..|congruence].
Qed.

Definition limited (l : TenantLimits) (r : tenant_row) : tenant_row :=
  mkTenantRow (set_limits l (tr_tenant r)) (tr_api_key_hash r).

Lemma UpdateTenantLimits_ok id l t t' tn :
  tenants_ok t → UpdateTenantLimits NoFault id l t = (t', Ok tn) →
  tenants_ok t' ∧ ∃ r, t !! id = Some r ∧ t' = <[id := limited l r]> t.
Proof.
  unfold UpdateTenantLimits. intros Hok [Hok' (r&r'&Hr&Hu&->)]%exec_Ok%update_tenant_ok; [|intros r r' b; case_match; [by intros [= <- <-]|done]|done].
  split; [done|]. exists r. split; [done|]. case_match; [|done]. by injection Hu as <- <-.
Qed.

Lemma SetTenantStatus_ok id s t t' :
  tenants_ok t → SetTenantStatus NoFault id s t = (t', Ok tt) →
  tenants_ok t' ∧ ∃ r, t !! id = Some r ∧ t' = <[id := set_status s r]> t.
Proof.
  intros Hok. unfold SetTenantStatus. case_match; [|done].
  intros [Hok' (r&r'&Hr&[= <-]&->)]%exec_Ok%update_tenant_ok; [|by intros r r' b [= <- <-]|done]. eauto.
Qed.

Lemma disabled_out r id t :
  tenants_ok t → t !! id = Some (set_status "disabled" r) →
  (∀ key tn, GetTenantByAPIKey NoFault key t = Ok tn → tn_ID tn ≠ id)
  ∧ (∀ p l tn, GetTenants NoFault p t = Ok l → tn ∈ l → tn_ID tn ≠ id).
Proof.
  intros Hok Hr. split.
  - intros key tn (q&Hq&_&Ha&_)%GetTenantByAPIKey_Ok He; [|done]. rewrite He in Hq.
    assert (q = set_status "disabled" r) as -> by congruence. done.
  - intros p l tn [= <-] (q&->&Hq)%list_elem_of_fmap He. rewrite elem_of_visit, list_elem_of_filter in Hq.
    destruct Hq as [Ha [i Hi]%elem_of_rows]. rewrite (tok_keyed t Hok i q Hi) in He. subst i.
    assert (q = set_status "disabled" r) as -> by congruence. done.
Qed.

Lemma apply_limits_quiet id l o now n w :
  quiet o now → tenants_ok (w_tenants w) →
  ∃ m ts res, apply_limits id l o (n, w) = ((m, set_tenants w ts), res)
    ∧ (∀ resp, res = Some resp → status resp ≠ 200)
    ∧ (res = None → tenants_ok ts ∧ ∀ r', ts !! id = Some r' → ∃ r, w_tenants w !! id = Some r
         ∧ r' = limited l r ∧ ∀ q, <[id := q]> ts = <[id := q]> (w_tenants w)).
Proof.
  intros Hq Hok. unfold apply_limits. destruct (has_limits l) eqn:Hl.
  - unfold pbind, on_tenants. rewrite (on_quiet o now) by done. rewrite (q_fault o now Hq).
    destruct (UpdateTenantLimits NoFault id l (w_tenants w)) as [ts [tn|e]] eqn:Hu;
      do 3 eexists; (split; [reflexivity|]); [|split; [intros resp; destruct e; by intros [= <-]|by destruct e]].
    split; [done|]. intros _. destruct (UpdateTenantLimits_ok _ _ _ _ _ Hok Hu) as (Hok'&r&Hr&->). split; [done|].
    cbn. intros r'. rewrite lookup_insert_eq. intros [= <-]. exists r. split; [done|]. split; [done|]. intros q. apply insert_insert_eq.
  - exists n, (w_tenants w), None. split; [by destruct w|]. split; [done|]. intros _. split; [done|]. intros r' Hr'. exists r'.
    split; [done|]. split; [|done]. unfold has_limits in Hl. destruct l as [[] [] []]; try done. by destruct r' as [[]].
Qed.

(** Disabling a tenant takes effect. When an update that sets the status to disabled
    answers 200, no key authenticates as the tenant in Postgres any more, the workers' list
    of tenants to dequeue for does not have it, the requested limits are stored, and
    nothing but its row has changed. *)
Theorem handleAdminUpdateTenant_disables param id req o now n w n' w' b :
  quiet o now → tenants_ok (w_tenants w) → uuid_Parse param = Some id → ut_Status req = Some "disabled"%string →
  handleAdminUpdateTenant param (Some req) o (n, w) = ((n', w'), mkResponse 200 b) →
  (∀ key tn, GetTenantByAPIKey NoFault key (w_tenants w') = Ok tn → tn_ID tn ≠ id)
  ∧ (∀ p l tn, GetTenants NoFault p (w_tenants w') = Ok l → tn ∈ l → tn_ID tn ≠ id)
  ∧ ∃ r, w_tenants w !! id = Some r
      ∧ w' = set_tenants w (<[id := set_status "disabled" (limited (ut_Limits req) r)]> (w_tenants w)).
Proof.
  intros Hq Hok Hid Hstat. unfold handleAdminUpdateTenant, with_tenant_id. rewrite Hid, Hstat.
  destruct (limits_validate (ut_Limits req)) as [[]|]; [|done].
  replace (negb (String.eqb "disabled" "active") && negb (String.eqb "disabled" "disabled")) with false by reflexivity.
  destruct (apply_limits_quiet id (ut_Limits req) o now n w Hq Hok) as (m&ts&res&Hrun&Hbad&Hgood).
  rewrite (pbind_run _ _ _ _ _ _ Hrun). destruct res as [resp|]; [intros [= _ _ ->]; by destruct (Hbad _ eq_refl)|].
  destruct (Hgood eq_refl) as [Hts Hrow].
  intros Heq. unfold apply_status, pbind at 1 2, on_tenants in Heq. rewrite (on_quiet o now) in Heq by done.
  rewrite (q_fault o now Hq) in Heq. cbn [w_tenants set_tenants] in Heq.
  destruct (SetTenantStatus NoFault id "disabled" ts) as [ts' [[]|e]] eqn:Hs; [|by destruct e].
  destruct (SetTenantStatus_ok _ _ _ _ Hts Hs) as (Hok'&r'&Hr'&->). destruct (Hrow r' Hr') as (r&Hr&->&Hins).
  cbv beta iota delta [update_failure pret fst snd] in Heq. unfold writeAdminTenant, pbind in Heq.
  rewrite (ask_quiet o now) in Heq by done. injection Heq as _ <- _. cbn [w_tenants set_tenants].
  destruct (disabled_out (limited (ut_Limits req) r) id _ Hok') as [H1 H2]; [by rewrite lookup_insert_eq|].
  split; [done|]. split; [done|]. exists r. split; [done|]. by rewrite Hins.
Qed.
End admin.
