(* ===== verification/Dashboard.v ===== *)
(** * The web dashboard (web/lib, web/app)

    The parts of the dashboard with behaviour of their own: the session of a browser tab
    ([auth.tsx], [AuthGate] and [SignIn]), the calls of the API ([api.ts], [apiFetch] and
    its wrappers), the live statistics over a WebSocket that is opened again when it
    closes ([ws.ts], [useLiveStats]), the history of the queue page and the attempts of the
    retries page. A call goes to the [serve] of [Server]; rendering is left out. *)

From stdpp Require Import pretty.
From S2P Require Import Prelude GoBase Encoding Job Redis Queue Ratelimit Db Partitions Storage Tenants Schedules Stats World.
From S2P Require Import Scheduler Api Admin Server.

Open Scope Z_scope.
Local Open Scope prog_scope.

(** ** The session (auth.tsx) *)

(** A browser tab: [sessionStorage], which may be blocked ([None]) and holds at most the
    key under [sluice.apiKey]; and the state of [AuthGate]. *)
Record tab := mkTab {
  tab_storage : option (option string);
  tab_token : option string;
  tab_ready : bool;
}.

Definition setToken (k : option string) (t : tab) : tab := mkTab (tab_storage t) k (tab_ready t).

Definition getToken (t : tab) : option string :=
  match tab_storage t with Some k => k | None => None end.

(** A string in a condition: [null] and the empty string are false. *)
Definition truthy (k : option string) : bool :=
  match k with Some s => negb (String.eqb s "") | None => false end.

Definition storeToken (k : option string) (t : tab) : tab :=
  match tab_storage t with
  | Some _ => mkTab (Some (if truthy k then k else None)) (tab_token t) (tab_ready t)
  | None => t
  end.

(** The effect of [AuthGate] when it is mounted, its listener, and [signOut]. *)
Definition mount (t : tab) : tab := mkTab (tab_storage t) (getToken t) true.
Definition onUnauthorized (t : tab) : tab := setToken None (storeToken None t).
Definition signOut (t : tab) : tab := setToken None (storeToken None t).
Definition onSignedIn (k : string) (t : tab) : tab := setToken (Some k) (storeToken (Some k) t).

Inductive gate_view := Blank | SignInForm | Children (token : string).

Definition AuthGate (t : tab) : gate_view :=
  if tab_ready t then
    match tab_token t with
    | Some k => if truthy (Some k) then Children k else SignInForm
    | None => SignInForm
    end
  else Blank.

(** [String.prototype.trim], on UTF-8: what Go trims without U+0085, with U+FEFF. *)
Definition js_space_runes : list (list N) :=
  ([239; 187; 191]%N :: filter (λ r, r ≠ [194; 133]%N) space_runes).

Definition js_trim (s : string) : string :=
  let n := String.length s in
  let left := trim_runes js_space_runes n (text_bytes s) in
  text_of_bytes (reverse (trim_runes (reverse <$> js_space_runes) n (reverse left))).

(** [res.ok] *)
Definition ok (status : Z) : bool := (200 <=? status) && (status <=? 299).

(** ** Calls of the API (api.ts) *)

(** What [apiFetch] throws: the error of [fetch], or one that names the status. *)
Inductive fetch_error := NetworkError | HttpError (status : Z).

Section calls.
Context `{!UuidText} `{!PgText} `{!InputLib} `{!CronLib} `{!LuaNum} `{!Bodies} `{!Chi}.
Variables (limiter : bool) (adminTokenHash : option bytes) (API_BASE : string).

(** [fetch]: the request reaches the API or not, and so does its reply the browser. *)
Definition fetch (method path auth : string) (query : string → string) (c : cache) : prog (cache * option response) :=
  do f ← ask (λ t _, t_fault t);
  match f with
  | LostRequest => pret (c, None)
  | _ =>
      do res ← serve limiter adminTokenHash O (mkRequest method path auth query "" "") c;
      pret (fst res, match f with LostReply => None | _ => Some (snd res) end)
  end.

Definition apiFetch (method path : string) (query : string → string) (t : tab) (c : cache)
    : prog (tab * cache * result fetch_error reply) :=
  do got ← fetch method path ("Bearer " +:+ default "" (getToken t)) query c;
  match got with
  | (c', None) => pret (t, c', Err NetworkError)
  | (c', Some res) =>
      let t' := if status res =? 401 then onUnauthorized t else t in
      pret (t', c', if ok (status res) then Ok (body res) else Err (HttpError (status res)))
  end.

Definition no_query : string → string := λ _, EmptyString.
Definition with_param (name value : string) (q : string → string) : string → string :=
  λ n, if String.eqb n name then value else q n.

Definition fetchStats := apiFetch "GET" "/v1/stats" no_query.
Definition fetchRuns (limit : Z) := apiFetch "GET" "/v1/stats/runs" (with_param "limit" (pretty limit) no_query).
Definition fetchDeadLetter (limit : Z) :=
  apiFetch "GET" "/v1/stats/dead-letter" (with_param "limit" (pretty limit) no_query).
Definition fetchRetriedJobs (state : string) (limit : Z) :=
  apiFetch "GET" "/v1/jobs"
    (with_param "retried" "true" (with_param "limit" (pretty limit)
      (if String.eqb state "" then no_query else with_param "state" state no_query))).
Definition fetchJobRuns (jobId : string) := apiFetch "GET" ("/v1/jobs/" +:+ jobId +:+ "/runs") no_query.
Definition replayJob (jobId : string) := apiFetch "POST" ("/v1/jobs/" +:+ jobId +:+ "/replay") no_query.

(** [submit] of [SignIn]: the tab and the error under the form, before and after. *)
Definition signin_submit (key : string) (error : option string) (t : tab) (c : cache) : prog (tab * cache * option string) :=
  let candidate := js_trim key in
  if String.eqb candidate "" then pret (t, c, error)
  else
    do got ← fetch "GET" "/v1/stats" ("Bearer " +:+ candidate) no_query c;
    match got with
    | (c', None) => pret (t, c', Some ("Couldn't reach the Sluice API at " +:+ API_BASE +:+ ".")%string)
    | (c', Some res) =>
        if status res =? 401 then pret (t, c', Some "That API key was not accepted."%string)
        else if negb (ok (status res)) then pret (t, c', Some ("The API returned " +:+ pretty (status res) +:+ ". Try again.")%string)
        else pret (onSignedIn candidate t, c', None)
    end.
End calls.

(** ** Live statistics (ws.ts) *)
Module Live.

(** [readyState] of a socket whose [close] event has not been dispatched. *)
Inductive socket_state := CONNECTING | OPEN | CLOSING.
#[export] Instance socket_state_eq_dec : EqDecision socket_state.
Proof. solve_decision. Defined.

(** What [useLiveStats] and the browser hold for it: the variables of the effect, the
    timers that are set and the sockets that are not closed. Sockets and timers are
    numbered in the order of their creation. *)
Record hook (D : Type) := mkHook {
  data : option D;
  connected : bool;
  stopped : bool;
  retry : option nat;
  ws_current : option nat;
  timers : gset nat;
  sockets : gmap nat socket_state;
  created : nat;
  armed : nat;
}.
Arguments mkHook {D}.
Arguments data {D}.
Arguments connected {D}.
Arguments stopped {D}.
Arguments retry {D}.
Arguments ws_current {D}.
Arguments timers {D}.
Arguments sockets {D}.
Arguments created {D}.
Arguments armed {D}.

Section live.
Context {D : Type}.
Implicit Types h : hook D.

Definition set_sockets (ss : gmap nat socket_state) h : hook D :=
  mkHook (data h) (connected h) (stopped h) (retry h) (ws_current h) (timers h) ss (created h) (armed h).

(** [sock.close()] *)
Definition ws_close (s : nat) h : hook D :=
  match sockets h !! s with Some _ => set_sockets (<[s := CLOSING]> (sockets h)) h | None => h end.

Definition ws_connect h : hook D :=
  mkHook (data h) (connected h) (stopped h) (retry h) (Some (created h)) (timers h)
    (<[created h := CONNECTING]> (sockets h)) (S (created h)) (armed h).

Definition onopen h : hook D :=
  mkHook (data h) true (stopped h) (retry h) (ws_current h) (timers h) (sockets h) (created h) (armed h).

(** [retry = setTimeout(connect, 3000)] *)
Definition onclose h : hook D :=
  let h1 := mkHook (data h) false (stopped h) (retry h) (ws_current h) (timers h) (sockets h) (created h) (armed h) in
  if stopped h then h1
  else mkHook (data h1) (connected h1) (stopped h1) (Some (armed h1)) (ws_current h1) ({[armed h1]} ∪ timers h1)
         (sockets h1) (created h1) (S (armed h1)).

(** [JSON.parse] may throw, which is caught. *)
Definition onmessage (parsed : option D) h : hook D :=
  match parsed with
  | Some d => mkHook (Some d) (connected h) (stopped h) (retry h) (ws_current h) (timers h) (sockets h) (created h) (armed h)
  | None => h
  end.

(** The function the effect returns. *)
Definition live_cleanup h : hook D :=
  let h1 := mkHook (data h) (connected h) true (retry h) (ws_current h)
              (match retry h with Some t => timers h ∖ {[t]} | None => timers h end) (sockets h) (created h) (armed h) in
  match ws_current h1 with Some s => ws_close s h1 | None => h1 end.

(** The effect runs when the page is mounted. *)
Definition mounted : hook D := ws_connect (mkHook None false false None None ∅ ∅ O O).

(** What the browser may do next. An error precedes the closing of a socket; a timer runs
    [connect]; a socket that is being closed delivers nothing. *)
Inductive live_step : hook D → hook D → Prop :=
| ls_open h s : sockets h !! s = Some CONNECTING → live_step h (onopen (set_sockets (<[s := OPEN]> (sockets h)) h))
| ls_message h s parsed : sockets h !! s = Some OPEN → live_step h (onmessage parsed h)
| ls_error h s st : sockets h !! s = Some st → live_step h (ws_close s h)
| ls_close h s st : sockets h !! s = Some st → live_step h (onclose (set_sockets (delete s (sockets h)) h))
| ls_timer h t : t ∈ timers h →
    live_step h (ws_connect (mkHook (data h) (connected h) (stopped h) (retry h) (ws_current h) (timers h ∖ {[t]})
                            (sockets h) (created h) (armed h)))
| ls_unmount h : stopped h = false → live_step h (live_cleanup h).
End live.
End Live.

(** ** The pages (app/page.tsx, app/retries/page.tsx) *)
Module Pages.

(** The queue page: totals by priority of each new message, the last sixty of them. *)
Record QueueDepth := mkQueueDepth { qd_priority : string; qd_depth : Z }.
Record StatsResponse := mkStats { queues : list QueueDepth; timestamp : string }.
Record Snapshot := mkSnapshot { high : Z; normal : Z; low : Z }.

(** The server labels depths high, normal and low ([priorityLabel]). *)
Definition add_depth (s : Snapshot) (q : QueueDepth) : Snapshot :=
  if String.eqb (qd_priority q) "high" then mkSnapshot (high s + qd_depth q) (normal s) (low s)
  else if String.eqb (qd_priority q) "normal" then mkSnapshot (high s) (normal s + qd_depth q) (low s)
  else if String.eqb (qd_priority q) "low" then mkSnapshot (high s) (normal s) (low s + qd_depth q)
  else s.

Definition totals (d : StatsResponse) : Snapshot := fold_left add_depth (queues d) (mkSnapshot 0 0 0).

(** [h.slice(-59)] *)
Definition slice_last {A} (n : nat) (l : list A) : list A := drop (length l - n) l.

Record page := mkPage { history : list Snapshot; lastTs : string }.

(** A render with the message [d]. *)
Definition render (d : StatsResponse) (p : page) : page :=
  if String.eqb (timestamp d) (lastTs p) then p
  else mkPage (slice_last 59 (history p) ++ [totals d]) (timestamp d).

(** The change shown beside a total: against the tenth snapshot from the end. *)
Definition delta (key : Snapshot → Z) (p : page) : option Z :=
  match last (history p) with
  | Some current =>
      if (10 <=? length (history p))%nat then
        prev ← history p !! (length (history p) - 10)%nat; Some (key current - key prev)
      else None
  | None => None
  end.

(** The retries page. *)
Definition attemptsUsed (j : Job) : Z :=
  Attempt j + (if bool_decide (State_ j ∈ [StateSucceeded; StateClaimed; StateRunning]) then 1 else 0).

(** [relative]: [diff] is the rounded number of seconds from now to the date. *)
Definition relative (diff : Z) : string :=
  let a := Z.abs diff in
  let text := if a <? 60 then pretty a +:+ "s" else if a <? 3600 then pretty (a / 60) +:+ "m"
              else if a <? 86400 then pretty (a / 3600) +:+ "h" else pretty (a / 86400) +:+ "d" in
  if 0 <=? diff then ("in " +:+ text)%string else (text +:+ " ago")%string.

Definition toggle (id : string) (expanded : gset string) : gset string :=
  if bool_decide (id ∈ expanded) then expanded ∖ {[id]} else {[id]} ∪ expanded.

(** [handleReplay]: the row whose replay failed, if it did. The button of a row is there
    when the job is dead. *)
Definition replayable (j : Job) : bool := bool_decide (State_ j = StateDead).
Definition replay_err {A} (jobId : string) (r : result fetch_error A) : option string :=
  match r with Ok _ => None | Err _ => Some jobId end.
End Pages.
