(* ===== verification/DashboardFacts.v ===== *)
(** * What the dashboard does with keys, sockets and numbers

    The session of [Dashboard] against the API it talks to; the live connection over every
    order of browser events; the numbers the pages show against the rows they are of. *)

From S2P Require Import Prelude GoBase Encoding Job Redis Queue Ratelimit Db Partitions Storage Tenants Schedules Stats World.
From S2P Require Import Scheduler Api Admin Server Lifecycle Claims Dashboard.

Open Scope Z_scope.
Local Open Scope prog_scope.

(** ** One connection at a time *)
Section live.
Context {D : Type}.
Import Live.
Implicit Types h : hook D.

(** While the page is mounted there is one socket or one timer; afterwards there is no
    timer, and a socket only until it has closed. *)
Record live_ok h : Prop := {
  lk_mounted : stopped h = false →
    (∃ s st, sockets h = {[s := st]} ∧ timers h = ∅ ∧ ws_current h = Some s)
    ∨ (∃ t, sockets h = ∅ ∧ timers h = {[t]} ∧ retry h = Some t);
  lk_stopped : stopped h = true → timers h = ∅ ∧ (sockets h = ∅ ∨ ∃ s, sockets h = {[s := CLOSING]});
  lk_connected : connected h = true → ∃ s st, sockets h = {[s := st]} ∧ st ≠ CONNECTING;
}.

Lemma live_ok_mounted : live_ok (mounted : hook D).
Proof. split; [|done|done]. intros _. left. exists O, CONNECTING. cbn. by rewrite insert_empty. Qed.

Lemma single_socket h s st : live_ok h → sockets h !! s = Some st →
  sockets h = {[s := st]} ∧ timers h = ∅ ∧ (stopped h = false → ws_current h = Some s) ∧ (stopped h = true → st = CLOSING).
Proof.
  intros Hk Hs. destruct (stopped h) eqn:Hst.
  - destruct (lk_stopped h Hk Hst) as [Ht [He|[s' He]]]; rewrite He in Hs; [by rewrite lookup_empty in Hs|].
    apply lookup_singleton_Some in Hs as [-> <-]. done.
  - destruct (lk_mounted h Hk Hst) as [(s'&st'&He&Ht&Hc)|(t&He&_&_)]; rewrite He in Hs; [|by rewrite lookup_empty in Hs].
    apply lookup_singleton_Some in Hs as [-> <-]. done.
Qed.

Lemma live_ok_step h h' : live_ok h → live_step h h' → live_ok h'.
Proof.
  intros Hk Hst. pose proof (lk_connected h Hk) as Hc.
  inversion Hst as [? s Hs|? s parsed Hs|? s st Hs|? s st Hs|? t Ht|? Hm]; subst.
  - destruct (single_socket h s _ Hk Hs) as (He&Ht&Hcur&Hno). split; cbn; rewrite He, insert_singleton_eq.
    + intros Hf. left. eauto 6.
    + intros Hf. by specialize (Hno Hf).
    + intros _. by exists s, OPEN.
  - destruct parsed; [|done]. split; apply Hk.
  - destruct (single_socket h s _ Hk Hs) as (He&Ht&Hcur&Hno). unfold ws_close. rewrite Hs.
    split; cbn; rewrite He, insert_singleton_eq; [intros Hf; left; eauto 6|eauto|intros _; by exists s, CLOSING].
  - destruct (single_socket h s _ Hk Hs) as (He&Ht&Hcur&Hno). unfold onclose. cbn. rewrite He, delete_singleton_eq.
    destruct (stopped h) eqn:Hf; split; cbn; try done; rewrite ?Hf; try done.
    + eauto.
    + intros _. right. exists (armed h). rewrite Ht. split; [done|]. split; [set_solver|done].
  - destruct (stopped h) eqn:Hf; [destruct (lk_stopped h Hk Hf) as [Hno _]; set_solver|].
    destruct (lk_mounted h Hk Hf) as [(s&st&He&Hno&_)|(t'&He&Ht'&_)]; [set_solver|].
    assert (t = t') as -> by set_solver. split; cbn.
    + intros _. left. exists (created h), CONNECTING. rewrite He, insert_empty. split; [done|]. split; [set_solver|done].
    + congruence.
    + intros Hcn. destruct (Hc Hcn) as (s&st&He'&_). rewrite He in He'. symmetry in He'. by apply map_non_empty_singleton in He'.
  - unfold live_cleanup. destruct (lk_mounted h Hk Hm) as [(s&st&He&Ht&Hcur)|(t&He&Ht&Hr)].
    + cbn. rewrite Hcur. unfold ws_close. cbn. rewrite He, lookup_singleton_eq. split; cbn; [done| |].
      * intros _. split; [destruct (retry h); rewrite Ht; set_solver|]. right. exists s. by rewrite insert_singleton_eq.
      * intros _. exists s, CLOSING. by rewrite insert_singleton_eq.
    + cbn. rewrite Hr. destruct (ws_current h) as [s|]; [unfold ws_close; cbn; rewrite He, lookup_empty|];
        (split; cbn; [done|intros _; split; [set_solver|by left]|]);
        intros Hcn; destruct (Hc Hcn) as (s'&st&He'&_); rewrite He in He'; symmetry in He'; by apply map_non_empty_singleton in He'.
Qed.

Lemma live_ok_reachable h : rtc live_step mounted h → live_ok h.
Proof.
  intros Hr. pose proof live_ok_mounted as Hk. revert Hk. induction Hr as [|x y z Hxy _ IH]; [done|].
  intros Hk. by eapply IH, live_ok_step.
Qed.

Lemma stopped_step h h' : live_ok h → stopped h = true → live_step h h' →
  stopped h' = true ∧ created h' = created h ∧ data h' = data h.
Proof.
  intros Hk Hs Hst. inversion Hst as [? s Ho|? s parsed Ho|? s st Ho|? s st Ho|? t Ht|? Hm]; subst.
  - destruct (single_socket h s _ Hk Ho) as (_&_&_&Hc). by specialize (Hc Hs).
  - destruct (single_socket h s _ Hk Ho) as (_&_&_&Hc). by specialize (Hc Hs).
  - unfold ws_close. by rewrite Ho.
  - unfold onclose. cbn. by rewrite Hs.
  - destruct (lk_stopped h Hk Hs) as [He _]. set_solver.
  - congruence.
Qed.

(** C15: The live connection neither multiplies nor leaks. Over any sequence of browser
    events, while the page is mounted there is exactly one thing that keeps its
    statistics coming, a socket or the timer that opens the next one, and the page says
    it is live only if there is a socket that has opened. Once the page is gone no timer
    is left, the last socket is being closed, and from then on nothing the browser does
    opens another connection or changes the statistics. *)
Theorem live_single_connection h :
  rtc live_step mounted h →
  (stopped h = false → (size (sockets h) + size (timers h))%nat = 1%nat)
  ∧ (connected h = true → ∃ s st, sockets h = {[s := st]} ∧ st ≠ CONNECTING)
  ∧ (stopped h = true → timers h = ∅ ∧ (∀ s st, sockets h !! s = Some st → st = CLOSING)
     ∧ ∀ h', rtc live_step h h' → stopped h' = true ∧ created h' = created h ∧ data h' = data h).
Proof.
  intros Hk%live_ok_reachable. split; [|split; [apply Hk|]].
  - intros Hm. destruct (lk_mounted h Hk Hm) as [(s&st&->&->&_)|(t&->&->&_)].
    + by rewrite map_size_singleton, size_empty.
    + by rewrite map_size_empty, size_singleton.
  - intros Hs. split; [by apply lk_stopped|]. split; [intros s st Ho; by eapply single_socket|].
    intros h' Hr. revert Hk Hs. induction Hr as [|x y z Hxy _ IH]; [done|]. intros Hk Hs.
    destruct (stopped_step x y Hk Hs Hxy) as (Hs'&Hc'&Hd'). destruct IH as (?&->&->); [by eapply live_ok_step|done|done].
Qed.
End live.

(** ** The key of a session *)
Section session.
Context `{!UuidText} `{!PgText} `{!InputLib} `{!CronLib} `{!LuaNum} `{!Bodies} `{!Chi}.
Variables (limiter : bool) (adminTokenHash : option bytes) (API_BASE : string).

Abbreviation api_call := (apiFetch limiter adminTokenHash).

(** What a reply makes of the session. *)
Lemma apiFetch_session method path query t c o n w :
  let '(_, (t', _, res)) := api_call method path query t c o (n, w) in
  (res = Err (HttpError 401) ∧ t' = onUnauthorized t) ∨ (res ≠ Err (HttpError 401) ∧ t' = t).
Proof.
  unfold apiFetch, pbind. destruct (fetch _ _ _ _ _ _ _ _ _) as [s [c' [res|]]]; cbn; [|by right].
  destruct (Z.eqb_spec (status res) 401) as [->|Hne]; [by left|]. right. split; [|done].
  destruct (ok (status res)); congruence.
Qed.

Lemma signed_out_view t : AuthGate (onUnauthorized t) = (if tab_ready t then SignInForm else Blank).
Proof. unfold AuthGate, onUnauthorized, setToken, storeToken. cbn. by destruct (tab_storage t); cbn; destruct (tab_ready t). Qed.

(** A request under [/v1] that brings no key is refused at the door. *)
Lemma serve_no_key method path query id c o n w :
  String.eqb method "OPTIONS" = false → chi_route top_routes method path = Found MountV1 id →
  serve limiter adminTokenHash O (mkRequest method path "Bearer " query "" "") c o (n, w)
  = ((n, w), (c, writeError 401 "missing api key")).
Proof. intros Hm Hr. unfold serve. cbn [rq_method rq_path]. by rewrite Hm, Hr. Qed.

(** Texts of printable ASCII, such as API keys. *)
Definition plain (s : string) : bool := forallb (λ b, (33 <=? b) && (b <=? 126))%N (text_bytes s).

Lemma strip_none set l :
  forallb (λ p, match p with x :: _ => negb ((33 <=? x) && (x <=? 126)) | [] => false end)%N set = true →
  forallb (λ b, (33 <=? b) && (b <=? 126))%N l = true → head (omap (λ p, strip_prefix p l) set) = None.
Proof.
  intros Hset Hl. induction set as [|p set IH]; [done|]. cbn in Hset. apply andb_true_iff in Hset as [Hp Hset].
  cbn. replace (strip_prefix p l) with (@None (list N)); [by apply IH|].
  destruct p as [|x p]; [done|]. destruct l as [|y l]; [done|]. cbn in Hl. apply andb_true_iff in Hl as [Hy _].
  cbn. destruct (N.eqb_spec x y) as [->|]; [|done]. by rewrite Hy in Hp.
Qed.

Lemma trim_plain set n l :
  forallb (λ p, match p with x :: _ => negb ((33 <=? x) && (x <=? 126)) | [] => false end)%N set = true →
  forallb (λ b, (33 <=? b) && (b <=? 126))%N l = true → trim_runes set n l = l.
Proof. intros Hset Hl. destruct n; cbn [trim_runes]; [done|]. by rewrite strip_none. Qed.

Lemma text_bytes_back s : text_of_bytes (text_bytes s) = s.
Proof. induction s as [|c s IH]; [done|]. cbn. rewrite ascii_N_embedding. by f_equal. Qed.

Lemma plain_reverse s : plain s = true → forallb (λ b, (33 <=? b) && (b <=? 126))%N (reverse (text_bytes s)) = true.
Proof.
  unfold plain. rewrite !forallb_forall. intros Hall b Hb. apply Hall. apply list_elem_of_In. apply list_elem_of_In in Hb.
  by rewrite elem_of_reverse in Hb.
Qed.

Lemma TrimSpace_plain s : plain s = true → TrimSpace s = s.
Proof.
  intros Hp. unfold TrimSpace. rewrite (trim_plain space_runes) by done.
  rewrite (trim_plain (reverse <$> space_runes)) by (done || by apply plain_reverse). rewrite reverse_involutive. apply text_bytes_back.
Qed.

Lemma js_trim_plain s : plain s = true → js_trim s = s.
Proof.
  intros Hp. unfold js_trim. rewrite (trim_plain js_space_runes) by done.
  rewrite (trim_plain (reverse <$> js_space_runes)) by (done || by apply plain_reverse). rewrite reverse_involutive. apply text_bytes_back.
Qed.

(** The key a page sends is the key the API reads. *)
Lemma bearer_roundtrip key : plain key = true → extractBearerToken ("Bearer " +:+ key) = key.
Proof. intros Hp. unfold extractBearerToken. cbn. by apply TrimSpace_plain. Qed.

Lemma fetch_reached method path auth query c o n w res s' :
  t_fault (o n) = NoFault →
  serve limiter adminTokenHash O (mkRequest method path auth query "" "") c o (S n, t_env (o n) w) = (s', res) →
  fetch limiter adminTokenHash method path auth query c o (n, w) = (s', (fst res, Some (snd res))).
Proof. intros Hf Hs. unfold fetch, pbind at 1, ask, remote. rewrite Hf. by rewrite (pbind_run _ _ _ _ _ _ Hs). Qed.

Lemma apiFetch_refused method path query t c c' msg o n w s' :
  fetch limiter adminTokenHash method path ("Bearer " +:+ default "" (getToken t)) query c o (n, w)
    = (s', (c', Some (writeError 401 msg))) →
  api_call method path query t c o (n, w) = (s', (onUnauthorized t, c', Err (HttpError 401))).
Proof. intros Hs. unfold apiFetch. by rewrite (pbind_run _ _ _ _ _ _ Hs). Qed.

(** C40: A tab that cannot store the key cannot use it. When sessionStorage is blocked, a
    viewer whose key was accepted is shown the pages, but every call the pages make to the
    API carries an empty key: it is answered 401 whatever the key was, and the viewer is
    back at the sign-in form. *)
Theorem blocked_storage_locks_out method path query id key t c o n w :
  tab_storage t = None → tab_ready t = true → key ≠ ""%string → t_fault (o n) = NoFault →
  String.eqb method "OPTIONS" = false → chi_route top_routes method path = Found MountV1 id →
  let t1 := onSignedIn key t in
  AuthGate t1 = Children key
  ∧ ∃ t2, api_call method path query t1 c o (n, w) = ((S n, t_env (o n) w), (t2, c, Err (HttpError 401)))
      ∧ AuthGate t2 = SignInForm.
Proof.
  intros Hst Hrd Hk Hf Hm Hr t1.
  assert (t1 = mkTab None (Some key) true) as Ht1 by (destruct t; cbn in *; subst; done).
  assert (truthy (Some key) = true) as Htr by (cbn; by destruct (String.eqb_spec key "")).
  split. { rewrite Ht1. unfold AuthGate. cbn [tab_ready tab_token]. by rewrite Htr. }
  exists (onUnauthorized t1). split; [|rewrite signed_out_view; by rewrite Ht1].
  apply (apiFetch_refused _ _ _ _ _ _ "missing api key"). rewrite Ht1. cbn [getToken tab_storage default].
  exact (fetch_reached _ _ _ _ _ _ _ _ _ _ Hf (serve_no_key method path query id c o (S n) _ Hm Hr)).
Qed.

(** A lookup that fails, for whatever reason, is answered 401. *)
Lemma serve_lookup_fails method path query id key c o n w :
  String.eqb method "OPTIONS" = false → chi_route top_routes method path = Found MountV1 id →
  plain key = true → key ≠ ""%string → t_fault (o n) ≠ NoFault → c !! HashAPIKey key = None →
  ∃ c', serve limiter adminTokenHash O (mkRequest method path ("Bearer " +:+ key) query "" "") c o (n, w)
        = ((S n, t_env (o n) w), (c', writeError 401 "invalid api key")).
Proof.
  intros Hm Hr Hp Hk Hf Hc. unfold serve. cbn [rq_method rq_path]. rewrite Hm, Hr.
  unfold authMiddleware, with_key. cbn [rq_authorization]. rewrite bearer_roundtrip by done.
  destruct (String.eqb_spec key ""); [done|]. unfold lookup_key, pbind at 1 2, local, cache_hit. rewrite Hc. cbn [mbind option_bind].
  unfold pbind, ask, remote. unfold GetTenantByAPIKey, Db.query. eexists. destruct (t_fault (o n)); [done|reflexivity..].
Qed.

(** C30: A database outage signs viewers out. When the API cannot look a key up, because
    Postgres does not answer, it says 401 as it does of a wrong key; so a viewer whose
    stored key is that of an active tenant is sent back to the sign-in form by the first
    call of a page, and the key is deleted from the tab: reloading the page when the
    database is back does not bring the session back. *)
Theorem outage_signs_out method path query id key tn t c o n w :
  tab_storage t = Some (Some key) → tab_ready t = true → plain key = true → key ≠ ""%string →
  GetTenantByAPIKey NoFault key (w_tenants w) = Ok tn → c !! HashAPIKey key = None →
  String.eqb method "OPTIONS" = false → chi_route top_routes method path = Found MountV1 id →
  t_fault (o n) = NoFault → t_fault (o (S n)) ≠ NoFault →
  ∃ s' t2 c', api_call method path query t c o (n, w) = (s', (t2, c', Err (HttpError 401)))
    ∧ AuthGate t2 = SignInForm ∧ getToken t2 = None ∧ AuthGate (mount t2) = SignInForm.
Proof.
  intros Hst Hrd Hp Hk _ Hc Hm Hr Hf Hf'.
  destruct (serve_lookup_fails method path query id key c o (S n) (t_env (o n) w) Hm Hr Hp Hk Hf' Hc) as [c' Hs].
  eexists _, (onUnauthorized t), c'. split.
  - apply (apiFetch_refused _ _ _ _ _ _ "invalid api key"). unfold getToken. rewrite Hst. cbn [default].
    exact (fetch_reached _ _ _ _ _ _ _ _ _ _ Hf Hs).
  - rewrite signed_out_view, Hrd. split; [done|]. unfold getToken, mount, onUnauthorized, setToken, storeToken. by rewrite Hst.
Qed.
End session.

(** ** The numbers of the pages *)
Section pages.
Import Pages.

(** An attempt that an operator cut short: [force-fail] counts none. *)
Definition cut_short (j : Job) : Z := if bool_decide (State_ j = StateDead) && (Attempt j <=? MaxRetries j) then 1 else 0.

Lemma attemptsUsed_spent j : attemptsUsed j = spent j - cut_short j.
Proof.
  unfold attemptsUsed, spent, uncounted, cut_short.
  destruct (State_ j); repeat case_bool_decide; try set_solver; cbn [andb]; lia.
Qed.


(** Messages of one kind, one after the other. *)
Lemma slice_last_length {A} n (l : list A) : length (slice_last n l) = Nat.min n (length l).
Proof. unfold slice_last. rewrite length_drop. lia. Qed.

Lemma add_depth_sum q s :
  qd_priority q ∈ ["high"; "normal"; "low"]%string →
  high (add_depth s q) + normal (add_depth s q) + low (add_depth s q) = high s + normal s + low s + qd_depth q.
Proof. rewrite !elem_of_cons, elem_of_nil. unfold add_depth. intros [->|[->|[->|[]]]]; cbn; lia. Qed.

(** The chart keeps at most the last sixty messages, the newest last, and its totals add up
    to the depths of that message. *)
Theorem history_window ds :
  let p := fold_left (λ p d, render d p) ds (mkPage [] "") in
  (length (history p) <= 60)%nat
  ∧ ∀ d, last ds = Some d → Forall (λ q, qd_priority q ∈ ["high"; "normal"; "low"]%string) (queues d) →
      timestamp d ≠ lastTs (fold_left (λ p d, render d p) (take (length ds - 1) ds) (mkPage [] "")) →
      ∃ s, last (history p) = Some s ∧ high s + normal s + low s = foldr Z.add 0 (qd_depth <$> queues d).
Proof.
  set (run := fold_left _). split.
  - assert (∀ p, (length (history p) <= 60)%nat → (length (history (run ds p)) <= 60)%nat) as Hall; [|by apply Hall; cbn; lia].
    unfold run. induction ds as [|d ds IH]; intros p Hp; [done|]. cbn. apply IH. unfold render.
    destruct (String.eqb _ _); [done|]. cbn [history]. rewrite length_app, slice_last_length. cbn [length]. lia.
  - intros d [ds' ->]%last_Some Hq Hne. rewrite length_app, Nat.add_sub, take_app_length in Hne.
    exists (totals d). unfold run in *. rewrite fold_left_app. cbn. unfold render at 1.
    destruct (String.eqb_spec (timestamp d) (lastTs (fold_left (λ p d, render d p) ds' (mkPage [] "")))); [done|]. cbn. split; [apply last_snoc|].
    unfold totals. assert (∀ s, let s' := fold_left add_depth (queues d) s in
      high s' + normal s' + low s' = high s + normal s + low s + foldr Z.add 0 (qd_depth <$> queues d)) as Hsum; [|by rewrite Hsum].
    induction Hq as [|q qs Hq _ IH]; intros s; [cbn; lia|]. csimpl. rewrite IH, add_depth_sum by done. lia.
Qed.
End pages.
