(* ===== verification/EndToEnd.v ===== *)
(** * From submission to outcome

    The components put together: a job submitted over the API is stored, queued, popped
    by a worker, executed and recorded. *)

From S2P Require Import Prelude GoBase Job Redis Queue QueueInv Ratelimit Db Storage Tenants Schedules World Webhook Worker.
From S2P Require Import Scheduler Api Lifecycle CronFacts WorkerFacts WorkerDrain ApiFacts.

Open Scope Z_scope.

Section end_to_end.
Context `{!UuidText} `{!PgText} `{!InputLib} `{!HttpLib} `{!LuaNum}.
Variables (error_text : exec_error → string) (rnd : Z → Z) (draws : nat → Z → Z) (limiter : bool).
Variables (wk : worker) (order : plan (string * string)) (waits : nat).
Variables (o : oracle) (now : Z).

(** Storing and queueing a job that is new. *)
Lemma store_job_new tenantID j row n w :
  quiet o now → keyspace_ok (w_redis w) → IdempotencyKey j = None → State_ j = StatePending → new_row j = Some row →
  jobs (w_db w) !! ID j = None → rexists now (w_redis w) (marker_key (ID j)) = false →
  let lane := queue_key (bucketForPriority (Priority j)) (TenantID j) in
  ∃ r', store_job tenantID None j o (n, w)
      = ((S (S n), set_redis (set_db w (mkDb (<[ID j := row]> (jobs (w_db w))) (job_runs (w_db w)) (dead_letter (w_db w)))) r'),
         mkResponse 201 (JobReply j))
    ∧ enqueued now lane (marker_key (ID j)) (uuid_String (ID j)) EnqueuedTTL (w_redis w) r'.
Proof.
  intros Hq Hok Hkey Hp Hrow Hn Hm lane. destruct (new_row_Some j row Hrow) as (Hid&_&Hrk&_).
  pose proof (enqueue_to_spec now lane (ID j) (w_redis w) Hok ltac:(unfold lane; auto with sluice)) as He.
  rewrite Hm in He. destruct He as (r'&He&Henq). exists r'. split; [|done].
  unfold store_job. erewrite pbind_run by (by apply (on_quiet o now)). cbv beta. rewrite (q_fault o now Hq).
  unfold InsertJob, exec, insert_stmt. rewrite Hrow. unfold conflicts. rewrite Hid, Hn.
  rewrite bool_decide_false by apply is_Some_None. cbn [orb].
  replace (existsb (same_key row) (rows (jobs (w_db w)))) with false.
  2: { symmetry. apply not_true_iff_false. intros (k&_&Hs)%existsb_exists. unfold same_key in Hs. rewrite Hrk, Hkey in Hs.
       by rewrite andb_false_r in Hs. }
  cbn [fst snd]. rewrite bool_decide_true by done.
  erewrite pbind_run by (by apply (on_quiet o now)). cbv beta. rewrite (q_fault o now Hq), (q_server o now Hq).
  unfold Enqueue. fold lane. change (w_redis (set_db w _)) with (w_redis w). by rewrite He.
Qed.

(** The worker's invariant survives it, and the job waits in a served lane. *)
Lemma inv_submitted ts n n' w d' r' j row lane bs :
  inv wk o ts n w → (n <= n')%nat → uuid_valid (ID j) → ID j ≠ 0%N → new_row j = Some row → Attempt j = 0 →
  lane ∈ served wk → enqueued now lane (marker_key (ID j)) (uuid_String (ID j)) EnqueuedTTL (w_redis w) r' →
  d' = mkDb (<[ID j := row]> (jobs (w_db w))) (job_runs (w_db w)) (dead_letter (w_db w)) →
  inv wk o ts n' (set_redis (set_db (set_buckets w bs) d') r') ∧ waiting wk r' (ID j).
Proof.
  intros [Hok Hent Hk Ha Hruns Hts] Hn Hv Hnz Hrow Hatt Hl [Hlist _ Hframe Hok'] ->.
  destruct (new_row_Some j row Hrow) as (Hid&_&_&_&Hra&_).
  split; [|exists lane; split; [done|rewrite Hlist; by left]]. split; cbn; try done.
  - intros k v Hks Hv'. destruct (decide (k = lane)) as [->|Hne].
    + rewrite Hlist in Hv'. apply elem_of_cons in Hv' as [->|Hv']; [by exists (ID j)|by apply (Hent lane)].
    + apply (Hent k v Hks). destruct (served_lane wk k Hks) as [Hq Hwake]. unfold qlist in *.
      rewrite Hframe in Hv'; [done|done| |done]. intros ->. by eapply queue_not_enqueued; [apply marker_key_enqueued|].
  - intros i q. destruct (decide (i = ID j)) as [->|]; [rewrite lookup_insert_eq; by intros [= <-]|].
    rewrite lookup_insert_ne by done. apply Hk.
  - intros i q. destruct (decide (i = ID j)) as [->|]; [rewrite lookup_insert_eq; intros [= <-] _; rewrite Hra, Hatt; lia|].
    rewrite lookup_insert_ne by done. apply Ha.
  - intros r m Hr Hm. apply (Hruns r m Hr). lia.
Qed.

End end_to_end.
