(* ===== verification/Recovery.v ===== *)
(** * Recovery: one round of the leader makes up for any crash

    A crash of the API, of a scheduler or of a worker leaves jobs that Redis has
    forgotten, jobs whose promotion was committed and never queued, and claims nobody
    renews. Here the passes of [Scheduler] are put together: whatever was lost, after
    the leader's recovery loops have ticked once each, in any order, every job that is
    owed an execution is in a lane of its tenant or out of attempts; and the loop of a
    worker then executes it. *)

From S2P Require Import Prelude GoBase Job Redis Queue QueueInv Db Partitions Storage StorageFacts Tenants Schedules World Webhook Worker.
From S2P Require Import Scheduler Process SchedulerFacts WorkerFacts WorkerDrain.

Open Scope Z_scope.
Local Open Scope prog_scope.

(** ** Entries sit in the lanes of their tenants

    [owner] says whose job an identifier is. *)
Section placement.
Context `{!UuidText} `{!PgText} `{!InputLib}.
Variable owner : uuid → option uuid.

Record placed (w : world) : Prop := {
  pl_rows id j : jobs (w_db w) !! id = Some j → ID j = id ∧ uuid_valid id ∧ id ≠ 0%N ∧ owner id = Some (TenantID j);
  pl_keyspace : keyspace_ok (w_redis w);
  pl_entries k v : lane_key k → v ∈ qlist (w_redis w) k →
    ∃ id, v = uuid_String id ∧ uuid_valid id ∧ id ≠ 0%N ∧ ∀ t, owner id = Some t → k ∈ queue_keys [t];
}.

(** What is known of a job on its way to [Enqueue]. *)
Definition routed (tenantID id : uuid) : Prop := owner id = Some tenantID ∧ uuid_valid id ∧ id ≠ 0%N.

Lemma queue_key_of b t : b ∈ priorityBuckets → queue_key b t ∈ queue_keys [t].
Proof.
  intros Hb. unfold queue_keys. rewrite list_elem_of_In, in_flat_map. exists b.
  rewrite <- !list_elem_of_In. split; [done|by left].
Qed.

Lemma placed_redis w r :
  placed w → keyspace_ok r →
  (∀ k v, lane_key k → v ∈ qlist r k → v ∈ qlist (w_redis w) k
     ∨ ∃ id, v = uuid_String id ∧ uuid_valid id ∧ id ≠ 0%N ∧ ∀ t, owner id = Some t → k ∈ queue_keys [t]) →
  placed (set_redis w r).
Proof.
  intros [Hr _ He] Hok Hin. split; [done|done|]. intros k v Hk Hv. by destruct (Hin k v Hk Hv); [apply He|].
Qed.

Lemma placed_enqueue f now tenantID id p w :
  placed w → routed tenantID id → placed (set_redis w (fst (Enqueue f now tenantID id p (w_redis w)))).
Proof.
  intros Hp (Ho&Hv&Hnz). unfold Enqueue. set (lane := queue_key (bucketForPriority p) tenantID).
  assert (lane_key lane) as Hlane by (unfold lane; auto with sluice).
  destruct (enqueue_to_cases f now lane id (w_redis w) (pl_keyspace w Hp) Hlane) as [->|[_ [Hl _ Hf Hok]]].
  { apply placed_redis; [done|apply Hp|by left]. }
  apply placed_redis; [done|done|]. intros k v Hk. destruct (decide (k = lane)) as [->|Hne].
  - rewrite Hl. intros [->|]%elem_of_cons; [right|by left]. exists id. do 3 (split; [done|]).
    intros t. rewrite Ho. intros [= <-]. apply queue_key_of. auto with sluice.
  - unfold qlist. rewrite Hf; [by left|done| |apply Hk].
    intros ->. by apply (queue_not_enqueued (marker_key id)); [apply marker_key_enqueued|apply Hk].
Qed.

Lemma placed_pipeline now entries : ∀ w,
  placed w → Forall (λ e, routed (e_TenantID e) (e_JobID e)) entries →
  placed (set_redis w (fst (pipeline_enqueue now entries (w_redis w)))).
Proof.
  induction entries as [|e es IH]; intros w Hp Hr; cbn [pipeline_enqueue]; [by destruct w|].
  apply Forall_cons in Hr as [He Hr].
  pose proof (placed_enqueue NoFault now (e_TenantID e) (e_JobID e) (e_Priority e) w Hp He) as Hp1.
  destruct (Enqueue NoFault now _ _ _ (w_redis w)) as [r1 res]. cbn in Hp1.
  specialize (IH (set_redis w r1) Hp1 Hr). cbn in IH.
  by destruct (pipeline_enqueue now es r1).
Qed.

Lemma placed_enqueue_many cut now entries w :
  placed w → Forall (λ e, routed (e_TenantID e) (e_JobID e)) entries →
  placed (set_redis w (fst (EnqueueMany cut now entries (w_redis w)))).
Proof.
  intros Hp Hr. destruct entries as [|e es]; [by destruct w|]. unfold EnqueueMany. destruct cut as [n|].
  - apply placed_pipeline; [done|]. by apply Forall_take.
  - pose proof (placed_pipeline now (e :: es) w Hp Hr). by destruct (pipeline_enqueue now (e :: es) (w_redis w)).
Qed.

(** Deleting keys of other families than the lanes. *)
Lemma placed_frame w r :
  placed w → keyspace_ok r → (∀ k, lane_key k → r !! k = w_redis w !! k) → placed (set_redis w r).
Proof. intros Hp Hok Hf. apply placed_redis; [done|done|]. intros k v Hk. unfold qlist. rewrite Hf by done. by left. Qed.

Definition processing_scan (reply : option (list scanned_key)) : Prop :=
  ∀ ks, reply = Some ks → Forall (λ s, has_prefix processingPrefix (sk_key s)) ks.

Lemma take_dead_frame now keys : ∀ r out,
  Forall (λ s, has_prefix processingPrefix (sk_key s)) keys → keyspace_ok r →
  let r' := fst (fst (take_dead_lists now keys r out)) in
  keyspace_ok r' ∧ ∀ k, lane_key k → r' !! k = r !! k.
Proof.
  induction keys as [|s ks IH]; intros r out Hp Hok; cbn; [done|]. apply Forall_cons in Hp as [Hs Hp].
  assert (keyspace_ok (delete (sk_key s) r)) as Hok' by auto with sluice.
  assert (∀ k, lane_key k → delete (sk_key s) r !! k = r !! k) as Hd.
  { intros k [Hk _]. apply lookup_delete_ne. intros <-. by apply (processing_not_queue (sk_key s)). }
  destruct (sk_exists_fails s), (worker_alive now r (sk_key s)), (sk_take s); cbn; try done; try (by apply IH).
  destruct (IH (delete (sk_key s) r) (out ++ omap uuid_Parse (rlist now r (sk_key s))) Hp Hok') as [Hk1 Hk2].
  split; [done|]. intros k Hk. by rewrite Hk2, Hd.
Qed.

Lemma dead_worker_frame now scans : ∀ r out,
  Forall processing_scan scans → keyspace_ok r →
  let r' := fst (fst (dead_worker_scan now scans r out)) in
  keyspace_ok r' ∧ ∀ k, lane_key k → r' !! k = r !! k.
Proof.
  induction scans as [|[ks|] scans IH]; intros r out Hp Hok; cbn; try done.
  apply Forall_cons in Hp as [Hs Hp].
  destruct (take_dead_frame now ks r out (Hs ks eq_refl) Hok) as [Hk1 Hk2].
  destruct (take_dead_lists now ks r out) as [[r1 out1] []]; cbn in *; [|done].
  destruct (IH r1 out1 Hp Hk1) as [Hk3 Hk4]. split; [done|]. intros k Hk. by rewrite Hk4, Hk2.
Qed.

(** Updates of rows that keep identifier and tenant. *)
Lemma placed_rows w d :
  placed w →
  (∀ id j, jobs d !! id = Some j → ∃ j0, jobs (w_db w) !! id = Some j0 ∧ ID j = ID j0 ∧ TenantID j = TenantID j0) →
  placed (set_db w d).
Proof.
  intros [Hr Hk He] Hd. split; [|done|done]. intros id j Hj. destruct (Hd id j Hj) as (j0&Hj0&->&->). by apply Hr.
Qed.

Lemma placed_row w j : placed w → j ∈ rows (jobs (w_db w)) → routed (TenantID j) (ID j).
Proof. intros Hp [id Hj]%elem_of_rows. destruct (pl_rows w Hp id j Hj) as (->&?&?&?). done. Qed.

Lemma placed_promote w f s upd now limit locked p p' :
  (∀ j, ID (upd j) = ID j ∧ TenantID (upd j) = TenantID j) → placed w →
  let res := exec f (promote s upd now limit locked p p') (w_db w) in
  placed (set_db w (fst res)) ∧ ∀ l, snd res = Ok l → Forall (λ r, routed (rel_TenantID r) (rel_ID r)) l.
Proof.
  intros Hupd Hp. unfold exec. destruct (promote s upd now limit locked p p' (w_db w)) as [[d' l]|e] eqn:He;
    [|destruct f; (split; [by destruct w|done])].
  destruct (promote_spec _ _ _ _ _ _ _ _ _ _ He) as (chosen&rest&->&Hin&_&_&_&_&[Hrows _]&_).
  assert (placed (set_db w d')) as Hd.
  { apply placed_rows; [done|]. intros id j. rewrite Hrows. destruct (jobs (w_db w) !! id) as [j0|]; [|by case_bool_decide].
    case_bool_decide; cbn; intros [= <-]; exists j0; [|done]. by destruct (Hupd j0). }
  destruct f; cbn; (split; [by destruct w || done|]); try done.
  intros l [= <-]. apply Forall_fmap, Forall_forall. intros j Hj. apply (placed_row w); [done|].
  assert (due s now locked (w_db w) j) as Hdue by (apply Hin, elem_of_app; by left). apply Hdue.
Qed.

Lemma placed_requeue w f now snow id : placed w → placed (set_db w (fst (RequeueStaleJob f now snow id (w_db w)))).
Proof.
  intros Hp. unfold RequeueStaleJob. destruct (exec_cases f (requeue_tx now snow id) (w_db w)) as [->|[a Ha]]; [by destruct w|].
  apply placed_rows; [done|]. revert Ha. generalize (fst (exec f (requeue_tx now snow id) (w_db w))). intros d.
  unfold requeue_tx. destruct (close_open_runs _ _ _ _ _) as [runs|]; [|done]. cbn.
  destruct (jobs (w_db w) !! id) as [j|] eqn:Hj; [|intros [= <- <-]; cbn; eauto].
  destruct (stale snow j); [|intros [= <- <-]; cbn; eauto].
  destruct (attempt_state _ _) as [[a' s']|]; [|done]. cbn. intros [= <- <-] i k. cbn.
  destruct (decide (i = id)) as [->|]; [rewrite lookup_insert_eq|rewrite lookup_insert_ne by done; eauto].
  intros [= <-]. by exists j.
Qed.
End placement.

(** The passes keep entries in place, under any fault and in any company that does. *)
Section passes_placed.
Context `{!UuidText} `{!PgText} `{!InputLib}.
Variables (owner : uuid → option uuid) (o : oracle).
Hypothesis Henv : ∀ n w, placed owner w → placed owner (t_env (o n) w).
Hypothesis Hscans : ∀ n, Forall processing_scan (t_scans (o n)).

Abbreviation keeps := (λ c, ensures (placed owner) o c (λ _, True)).

Lemma keeps_enqueue tenantID id p :
  routed owner tenantID id → keeps (on_redis (λ t, Enqueue (t_fault t) (t_server t) tenantID id p)).
Proof. intros Hr. apply ensures_on; [done|]. intros t w Hw. split; [|done]. by apply placed_enqueue. Qed.

Lemma keeps_release call n s (upd : Z → Job → Job) :
  (∀ t j, ID (upd t j) = ID j ∧ TenantID (upd t j) = TenantID j) →
  (∀ f now limit locked p p' d, call f now limit locked p p' d = exec f (promote s (upd now) now limit locked p p') d) →
  keeps (release call n).
Proof.
  intros Hupd Hcall. induction n as [|n IH]; cbn [release]; [by apply ensures_pret|].
  apply (ensures_pbind _ _ _ _ (λ res, ∀ l, res = Ok l → Forall (λ r, routed owner (rel_TenantID r) (rel_ID r)) l)).
  { apply ensures_on; [done|]. intros t w Hw. rewrite Hcall. by apply placed_promote; [apply Hupd|]. }
  intros [l|e] Hl; [|by apply ensures_pret].
  apply (ensures_pbind _ _ _ _ (λ _, True)); [|intros [u|e] _; [destruct (_ <? _)|]; try by apply ensures_pret].
  - apply ensures_on; [done|]. intros t w Hw. split; [|done]. apply placed_enqueue_many; [done|].
    apply Forall_fmap. apply (Hl l eq_refl).
  - apply IH.
Qed.

Lemma keeps_reap l : Forall (λ j, routed owner (TenantID j) (ID j)) l → keeps (reap l).
Proof.
  induction l as [|j l IH]; intros Hl; cbn [reap]; [by apply ensures_pret|]. apply Forall_cons in Hl as [Hj Hl].
  apply (ensures_pbind _ _ _ _ (λ _, True)).
  { apply ensures_on; [done|]. intros t w Hw. split; [|done]. by apply placed_requeue. }
  intros [[]|e] _; try (by apply IH). apply (ensures_pbind _ _ _ _ (λ _, True)); [by apply keeps_enqueue|].
  intros _ _. by apply IH.
Qed.

Lemma keeps_reapStaleClaims : keeps reapStaleClaims.
Proof.
  apply (ensures_pbind _ _ _ _ (λ res, ∀ l, res = Ok l → Forall (λ j, routed owner (TenantID j) (ID j)) l)).
  - apply ensures_ask; [done|]. intros t w Hw l. unfold GetStaleClaims, query. destruct (t_fault t); try done.
    intros [= <-]. apply Forall_fmap, Forall_forall. intros j Hj. apply (placed_row owner w j Hw).
    by apply elem_of_visit, list_elem_of_filter in Hj as [_ ?].
  - intros [l|e] Hl; [apply keeps_reap; by apply Hl|by apply ensures_pret].
Qed.

Lemma keeps_enqueue_each l : Forall (λ j, routed owner (TenantID j) (ID j)) l → keeps (enqueue_each l).
Proof.
  induction l as [|j l IH]; intros Hl; cbn [enqueue_each]; [by apply ensures_pret|]. apply Forall_cons in Hl as [Hj Hl].
  apply (ensures_pbind _ _ _ _ (λ _, True)); [by apply keeps_enqueue|]. intros _ _. by apply IH.
Qed.

Lemma keeps_reconcile fuel : ∀ cursor checked, keeps (reconcile_loop fuel cursor checked).
Proof.
  induction fuel as [|fuel IH]; intros cursor checked; cbn [reconcile_loop]; [by apply ensures_pret|].
  apply (ensures_pbind _ _ _ _ (λ _, True)); [by apply ensures_local|]. intros ended _.
  destruct (_ && _); [|by apply ensures_pret].
  apply (ensures_pbind _ _ _ _ (λ res, ∀ l, snd res = Ok l → Forall (λ j, routed owner (TenantID j) (ID j)) l)).
  - apply ensures_ask; [done|]. intros t w Hw l. unfold GetPendingJobs, query. destruct (t_fault t); try done.
    cbn. intros [= <-]. apply Forall_fmap, Forall_forall. intros j Hj. apply (placed_row owner w j Hw).
    apply elem_of_take_in in Hj. rewrite merge_sort_Permutation, elem_of_visit, list_elem_of_filter in Hj. by destruct Hj.
  - intros [next [l|e]] Hl; [|by apply ensures_pret].
    apply (ensures_pbind _ _ _ _ (λ _, True)); [apply keeps_enqueue_each; by apply Hl|]. intros _ _.
    destruct (_ <? _); [by apply ensures_pret|apply IH].
Qed.

Lemma keeps_recover_each l : keeps (recover_each l).
Proof.
  induction l as [|id l IH]; cbn [recover_each]; [by apply ensures_pret|].
  apply (ensures_pbind _ _ _ _ (λ res, ∀ j, res = Ok j → routed owner (TenantID j) (ID j))).
  - apply ensures_ask; [done|]. intros t w Hw j. unfold GetJob, query. destruct (t_fault t); try done.
    destruct (jobs (w_db w) !! id) as [j0|] eqn:Hj; [|done]. intros [= <-].
    apply (placed_row owner w j0 Hw). apply elem_of_rows. eauto.
  - intros [j|e] Hj; [|done]. case_bool_decide; [|done].
    apply (ensures_pbind _ _ _ _ (λ _, True)); [apply keeps_enqueue; by apply Hj|done].
Qed.

Lemma keeps_recover : keeps recoverDeadWorkerJobs.
Proof.
  unfold recoverDeadWorkerJobs. apply (ensures_pbind _ _ _ _ (λ _, True)); [|intros; apply keeps_recover_each].
  intros [n w] Hw. split; [|done]. unfold on_redis. rewrite on_run. cbn.
  destruct (dead_worker_frame (t_server (o n)) (t_scans (o n)) (w_redis (t_env (o n) w)) [] (Hscans n)) as [Hk1 Hk2].
  { apply (pl_keyspace owner), Henv, Hw. }
  unfold DeadWorkerJobs. destruct (dead_worker_scan _ _ _ _) as [[r' ids] ok]. cbn in *.
  by apply placed_frame; [apply Henv|..].
Qed.
End passes_placed.

(** ** What a pass may do to a world *)
Section moves.
Context `{!UuidText} `{!PgText} `{!InputLib}.
Variable now : Z.

(** A store as the program keeps it: the attempts of an unfinished job are within its
    retries, and no open run of a job in flight is older than a 32-bit count of
    milliseconds. *)
Record good (w : world) : Prop := {
  gd_queue : queue_inv now (w_redis w);
  gd_stored : rows_stored (w_db w);
  gd_valid : ids_valid (w_db w);
  gd_attempts id j : jobs (w_db w) !! id = Some j → IsTerminal j = false →
    0 <= Attempt j <= MaxRetries j ∧ MaxRetries j < 2 ^ 31 - 1 ∧ 1 <= BackoffSeconds j;
  gd_runs r j : r ∈ job_runs (w_db w) → rr_finished_at r = None → jobs (w_db w) !! rr_job_id r = Some j →
    in_flight j = true → is_Some (duration_ms (pg_ts now) (rr_started_at r));
}.

(** The job waits in a lane, or is out of attempts. *)
Definition fresh (w : world) (id : uuid) : Prop :=
  ∃ j, jobs (w_db w) !! id = Some j ∧ (State_ j = StateDead ∨ State_ j = StatePending ∧ queued (w_redis w) id).

(** Back to pending, with the lost attempt counted if there was one; or dead, when the
    attempt lost was the last. *)
Record row_move (j j' : Job) : Prop := {
  rm_ID : ID j' = ID j;
  rm_TenantID : TenantID j' = TenantID j;
  rm_Priority : Priority j' = Priority j;
  rm_CreatedAt : CreatedAt j' = CreatedAt j;
  rm_MaxRetries : MaxRetries j' = MaxRetries j;
  rm_BackoffSeconds : BackoffSeconds j' = BackoffSeconds j;
  rm_unfinished : IsTerminal j = false;
  rm_state :
    (State_ j' = StatePending ∧ (Attempt j' = Attempt j ∨ stale now j = true ∧ ShouldRetry j = true ∧ Attempt j' = Attempt j + 1))
    ∨ (State_ j' = StateDead ∧ stale now j = true ∧ ShouldRetry j = false ∧ Attempt j' = Attempt j + 1);
}.

(** A run after a pass: as it was, or closed. *)
Definition run_kept (r r' : run_row) : Prop := rr_id r' = rr_id r ∧ rr_job_id r' = rr_job_id r ∧ (r' = r ∨ is_Some (rr_finished_at r')).

Record moves (w w' : world) : Prop := {
  mv_rows id : jobs (w_db w') !! id = jobs (w_db w) !! id
    ∨ fresh w' id ∧ ∃ j j', jobs (w_db w) !! id = Some j ∧ jobs (w_db w') !! id = Some j' ∧ row_move j j';
  mv_queued id : uuid_valid id → queued (w_redis w) id → queued (w_redis w') id;
  mv_inv : queue_inv now (w_redis w');
  mv_runs : Forall2 run_kept (job_runs (w_db w)) (job_runs (w_db w'));
  mv_tenants : w_tenants w' = w_tenants w;
}.

Lemma runs_kept_refl l : Forall2 run_kept l l.
Proof. apply Forall_Forall2_diag, Forall_forall. intros r _. split; [done|]. split; [done|by left]. Qed.

Lemma moves_refl w : good w → moves w w.
Proof. intros Hg. split; [by left|done|apply Hg|apply runs_kept_refl|done]. Qed.

(** Rows that a pass has not moved yet are as they were. *)
Lemma moves_good w w' : moves w w' → good w → good w'.
Proof.
  intros [Hr _ Hi Hruns _] [_ [Hk Hs] Hv Ha Hf].
  assert (∀ id j', jobs (w_db w') !! id = Some j' →
    ∃ j, jobs (w_db w) !! id = Some j ∧ (j' = j ∨ row_move j j')) as Hback.
  { intros id j' Hj'. destruct (Hr id) as [He|(_&j&j''&Hj&He&Hm)]; [exists j'; split; [congruence|by left]|].
    exists j. split; [done|right]. congruence. }
  split; [done| | | |].
  - split; intros id j' Hj'; destruct (Hback id j' Hj') as (j&Hj&[->|[]]); try (by eapply Hk || by eapply Hs).
    + rewrite rm_ID0. by eapply Hk.
    + rewrite rm_Priority0, rm_CreatedAt0. by eapply Hs.
  - intros id j' Hj'. destruct (Hback id j' Hj') as (j&Hj&[->|[]]); [|rewrite rm_ID0]; by eapply Hv.
  - intros id j' Hj' Ht'. destruct (Hback id j' Hj') as (j&Hj&[->|[]]); [by eapply Ha|].
    destruct (Ha id j Hj rm_unfinished0) as (?&?&?). rewrite rm_MaxRetries0, rm_BackoffSeconds0. unfold ShouldRetry in *.
    destruct rm_state0 as [[_ [->|(_&?&->)]]|(Hd&_)]; [done|bool_to_prop; lia|].
    by unfold IsTerminal in Ht'; rewrite Hd in Ht'.
  - intros r' j' [i Hi']%list_elem_of_lookup Hopen Hj' Hfl.
    destruct (Forall2_lookup_r _ _ _ _ _ Hruns Hi') as (r&Hi0&_&_&[->|[t Ht]]); [|congruence].
    destruct (Hback _ j' Hj') as (j&Hj&[->|[]]); [by eapply Hf; [eapply list_elem_of_lookup_2|..]|].
    unfold in_flight in Hfl. by destruct rm_state0 as [[Hp _]|[Hd _]]; [rewrite Hp in Hfl|rewrite Hd in Hfl].
Qed.

Lemma fresh_moves w w' id : moves w w' → ids_valid (w_db w) → keyed (jobs (w_db w)) → fresh w id → fresh w' id.
Proof.
  intros Hm Hv Hk (j&Hj&Hs). destruct (mv_rows _ _ Hm id) as [He|[? _]]; [|done]. exists j. split; [congruence|].
  destruct Hs as [?|[? Hq]]; [by left|right]. split; [done|]. apply (mv_queued _ _ Hm); [|done].
  rewrite <- (Hk id j Hj). by eapply Hv.
Qed.

Lemma row_move_trans j j1 j2 : row_move j j1 → row_move j1 j2 → row_move j j2.
Proof.
  intros [] []. split; try congruence.
  destruct rm_state0 as [[Hp Ha]|(Hd&_)]; [|by unfold IsTerminal in rm_unfinished1; rewrite Hd in rm_unfinished1].
  left. assert (stale now j1 = false) as Hs by (unfold stale, in_flight; by rewrite Hp).
  rewrite Hs in rm_state1. destruct rm_state1 as [[? [He|[? _]]]|(_&?&_)]; [|done..]. rewrite He. done.
Qed.

#[local] Instance run_kept_trans : Transitive run_kept.
Proof. intros r r1 r2 (Hi1&Hj1&D1) (Hi2&Hj2&D2). split; [congruence|]. split; [congruence|]. destruct D2 as [->|]; [done|by right]. Qed.

Lemma moves_trans w w1 w2 : good w → moves w w1 → moves w1 w2 → moves w w2.
Proof.
  intros Hg M1 M2. pose proof (moves_good _ _ M1 Hg) as Hg1. split.
  - intros id. destruct (mv_rows _ _ M1 id) as [He1|(Hf1&j&j1&Hj&Hj1&Hm1)].
    + rewrite <- He1. apply (mv_rows _ _ M2).
    + right. assert (fresh w2 id) as Hf2 by (by eapply fresh_moves; [|apply Hg1..|]).
      split; [done|]. destruct (mv_rows _ _ M2 id) as [He2|(_&j1'&j2&Hj1'&Hj2&Hm2)].
      * exists j, j1. split; [done|]. split; [congruence|done].
      * exists j, j2. split; [done|]. split; [done|]. apply (row_move_trans _ j1); [done|congruence].
  - intros id Hv Hq. apply (mv_queued _ _ M2); [done|]. by apply (mv_queued _ _ M1).
  - apply M2.
  - transitivity (job_runs (w_db w1)); [apply M1|apply M2].
  - rewrite (mv_tenants _ _ M2). apply M1.
Qed.

(** Unfinished jobs do not become more. *)
Definition unfinished (d : db) : list Job := filter (λ j, IsTerminal j = false) (rows (jobs d)).

Lemma unfinished_elem d id : keyed (jobs d) → id ∈ (ID <$> unfinished d) ↔ ∃ j, jobs d !! id = Some j ∧ IsTerminal j = false.
Proof.
  intros Hk. rewrite list_elem_of_fmap. unfold unfinished. setoid_rewrite list_elem_of_filter. setoid_rewrite elem_of_rows. split.
  - intros (j&->&Ht&[i Hi]). exists j. by rewrite (Hk i j Hi).
  - intros (j&Hj&Ht). exists j. rewrite (Hk id j Hj). eauto.
Qed.

Lemma moves_unfinished w w' : good w → moves w w' → (length (unfinished (w_db w')) <= length (unfinished (w_db w)))%nat.
Proof.
  intros Hg Hm. pose proof (moves_good _ _ Hm Hg) as Hg'.
  destruct (gd_stored _ Hg) as [Hk _], (gd_stored _ Hg') as [Hk' _].
  rewrite <- (length_fmap ID (unfinished (w_db w'))), <- (length_fmap ID (unfinished (w_db w))).
  apply submseteq_length, NoDup_submseteq; [apply NoDup_fmap_filter; by apply rows_NoDup_ids|].
  intros id. rewrite !unfinished_elem by done. intros (j'&Hj'&Ht').
  destruct (mv_rows _ _ Hm id) as [He|(_&j&j2&Hj&_&Hmv)]; [exists j'; split; [congruence|done]|].
  exists j. split; [done|apply Hmv].
Qed.
End moves.

(** ** The ticks of the recovery loops on a quiet stretch *)
Section ticks.
Context `{!UuidText} `{!PgText} `{!InputLib}.
Variables (o : oracle) (now : Z).
Hypothesis Hq : quiet o now.
Hypothesis Hscans : ∀ n, Forall processing_scan (t_scans (o n)).

(** A tick ends, moves only what it may move, and leaves every job it is there for
    waiting in a lane or out of attempts. *)
Definition tick_ok (P : prog unit) (target : Job → Prop) : Prop := ∀ n w,
  good now w → (length (unfinished (w_db w)) <= 5000)%nat →
  ∃ n' w', P o (n, w) = ((n', w'), tt) ∧ moves now w w'
    ∧ ∀ id j, jobs (w_db w) !! id = Some j → target j → fresh w' id.

Lemma tick_seq P P' (T T' : Job → Prop) :
  tick_ok P T → tick_ok P' T' → tick_ok (do _ ← P; P') (λ j, T j ∨ T' j).
Proof.
  intros HP HP' n w Hg Hc. destruct (HP n w Hg Hc) as (n1&w1&Hrun&Hm&Ht).
  pose proof (moves_good _ _ _ Hm Hg) as Hg1. pose proof (moves_unfinished _ _ _ Hg Hm).
  destruct (HP' n1 w1 Hg1 ltac:(lia)) as (n2&w2&Hrun'&Hm'&Ht').
  exists n2, w2. split; [by rewrite (pbind_run _ _ _ _ _ _ Hrun)|].
  split; [by eapply moves_trans|]. intros id j Hj Htj.
  assert (fresh w1 id ∨ jobs (w_db w1) !! id = Some j ∧ T' j) as [Hf|[Hj1 Htj']].
  { destruct Htj as [?|?]; [left; by eapply Ht|]. destruct (mv_rows _ _ _ Hm id) as [He|[? _]]; [right|by left]. by rewrite He. }
  - by eapply fresh_moves; [|apply Hg1..|].
  - by eapply Ht'.
Qed.

Lemma tick_weaken P (T T' : Job → Prop) : tick_ok P T → (∀ j, T' j → T j) → tick_ok P T'.
Proof.
  intros HP HT n w Hg Hc. destruct (HP n w Hg Hc) as (n'&w'&?&?&Ht). exists n', w'. eauto.
Qed.

(** Jobs of a gained list are queued, and so is what was. *)
Lemma gained_keeps r r' l id : gained r r' l → uuid_valid id → queued r id → queued r' id.
Proof. intros Hg Hv Hid. apply Hg; auto. Qed.

Lemma tick_release call s upd :
  (∀ limit p p' d, call NoFault now limit ∅ p p' d = exec NoFault (promote s upd now limit ∅ p p') d) →
  s = StateScheduled ∨ s = StateFailed →
  (∀ j, State_ (upd j) = StatePending ∧ ID (upd j) = ID j ∧ TenantID (upd j) = TenantID j ∧ Priority (upd j) = Priority j
        ∧ CreatedAt (upd j) = CreatedAt j ∧ MaxRetries (upd j) = MaxRetries j ∧ BackoffSeconds (upd j) = BackoffSeconds j ∧ Attempt (upd j) = Attempt j) →
  tick_ok (release call releaseMaxBatches) (λ j, State_ j = s ∧ RunAt j <= now).
Proof.
  intros Hcall Hs Hupd n w Hg Hc. destruct (gd_stored _ _ Hg) as [Hk _].
  destruct (release_quiet o now s upd Hq) with (call := call) (batches := releaseMaxBatches) (n := n) (w := w)
    as (n'&d'&r'&done_&Hrun&[Hrows Hdues Hi Hgain]&Hall);
    [intros j Hj; destruct (Hupd j) as [He _]; rewrite He in Hj; by destruct Hs as [->| ->]|apply Hupd|apply Hcall|done|apply Hg|apply Hg|done|].
  assert (∀ j, j ∈ dues s now (w_db w) ↔ (State_ j = s ∧ RunAt j <= now) ∧ jobs (w_db w) !! ID j = Some j) as Hin.
  { intros j. unfold dues. rewrite list_elem_of_filter, elem_of_rows. split; intros [? Hj]; (split; [done|]); [|eauto].
    destruct Hj as [id Hj]. by rewrite (Hk id j Hj). }
  assert (∀ id j, jobs (w_db w) !! id = Some j → id ∈ (ID <$> done_) →
    jobs d' !! id = Some (upd j) ∧ State_ j = s ∧ queued r' id) as Hmoved.
  { intros id j Hj Hid. rewrite (proj1 Hrows), bool_decide_true, Hj by done. split; [done|]. split.
    - apply list_elem_of_fmap in Hid as (k&->&Hkd). assert (k ∈ dues s now (w_db w)) as Hkk by (rewrite Hdues; apply elem_of_app; by left).
      apply Hin in Hkk as [[? _] Hk']. congruence.
    - apply Hgain; [|by right]. rewrite <- (Hk id j Hj). by eapply (gd_valid _ _ Hg). }
  exists n', (set_redis (set_db w d') r'). split; [exact Hrun|]. split; [split; cbn; try done|].
  - intros id. destruct (decide (id ∈ (ID <$> done_))) as [Hid|Hid];
      [|left; by rewrite (proj1 Hrows), bool_decide_false].
    destruct (jobs (w_db w) !! id) as [j|] eqn:Hj; [|left; by rewrite (proj1 Hrows), bool_decide_true, Hj].
    destruct (Hmoved id j Hj Hid) as (Hj'&Hst&Hqd). destruct (Hupd j) as (Hp&?&?&?&?&?&?&Ha).
    right. split; [exists (upd j); cbn; auto|]. exists j, (upd j). split; [done|]. split; [done|]. split; try done.
    + unfold IsTerminal. rewrite Hst. by destruct Hs as [->| ->].
    + left. auto.
  - intros id. by apply (gained_keeps _ _ (ID <$> done_)).
  - rewrite (proj1 (proj2 Hrows)). apply runs_kept_refl.
  - intros id j Hj Hdue. assert (j ∈ dues s now (w_db w)) as Hjd by (apply Hin; by rewrite (Hk id j Hj)).
    assert (dues s now d' = []) as Hnil.
    { apply Hall. unfold releaseBatchSize, releaseMaxBatches.
      assert (length (dues s now (w_db w)) <= length (unfinished (w_db w)))%nat; [|lia].
      apply submseteq_length, NoDup_submseteq; [apply NoDup_filter; eapply NoDup_fmap_1; by apply rows_NoDup_ids|].
      intros k [[Hst _] Hkr]%list_elem_of_filter. apply list_elem_of_filter. split; [|done].
      unfold IsTerminal. rewrite Hst. by destruct Hs as [->| ->]. }
    rewrite Hdues, Hnil, app_nil_r in Hjd.
    destruct (Hmoved id j Hj) as (Hj'&_&Hqd); [rewrite <- (Hk id j Hj); by apply list_elem_of_fmap_2|].
    exists (upd j). split; [done|]. right. split; [apply Hupd|done].
Qed.

(** *** The reaper *)
Lemma requeue_run w id j :
  good now w → jobs (w_db w) !! id = Some j → stale now j = true →
  ∃ runs, let s := if ShouldRetry j then StatePending else StateDead in
    RequeueStaleJob NoFault now now id (w_db w)
    = (mkDb (<[id := requeued_row (Attempt j + 1) s j]> (jobs (w_db w))) runs (dead_letter (w_db w)), Ok (negb (ShouldRetry j)))
    ∧ Forall2 run_kept (job_runs (w_db w)) runs.
Proof.
  intros Hg Hj Hs.
  assert (IsTerminal j = false) as Hu by (unfold stale, in_flight in Hs; unfold IsTerminal; by destruct (State_ j)).
  destruct (gd_attempts _ _ Hg id j Hj Hu) as (Ha&Hm&_).
  unfold RequeueStaleJob, exec, requeue_tx, close_open_runs.
  destruct (update_runs_total
    (λ r, bool_decide (rr_job_id r = id) && bool_decide (rr_finished_at r = None))
    (finish_run StateFailed (pg_ts now) (Some heartbeat_expired)) (job_runs (w_db w))) as [runs Hruns].
  { intros r Hr Hp. apply finish_run_total. bool_to_prop. apply (gd_runs _ _ Hg r j); [done|done|congruence|]. by unfold stale in Hs; bool_to_prop. }
  exists runs. rewrite Hruns, Hj, Hs. cbn. rewrite attempt_state_retry by lia. cbn. split; [by destruct (ShouldRetry j)|].
  apply update_runs_Forall2 in Hruns. eapply Forall2_impl; [exact Hruns|]. intros r r'. cbn.
  destruct (_ && _); [|intros [= <-]; split; [done|]; split; [done|by left]]. unfold finish_run. destruct (duration_ms _ _); [|done].
  intros [= <-]. split; [done|]. split; [done|]. right. by eexists.
Qed.

Lemma requeued_move j :
  stale now j = true → row_move now j (requeued_row (Attempt j + 1) (if ShouldRetry j then StatePending else StateDead) j).
Proof.
  intros Hs. split; try done.
  - unfold stale, in_flight in Hs; unfold IsTerminal; by destruct (State_ j).
  - rewrite Hs. cbn. destruct (ShouldRetry j); [left|right]; auto 6.
Qed.

(** One stale claim: requeued and queued again, or dead. *)
Lemma reap_one j rest n w :
  good now w → jobs (w_db w) !! ID j = Some j → stale now j = true →
  ∃ n' w', reap (scanJob j :: rest) o (n, w) = reap rest o (n', w') ∧ moves now w w' ∧ fresh w' (ID j)
    ∧ ∀ id, id ≠ ID j → jobs (w_db w') !! id = jobs (w_db w) !! id.
Proof.
  intros Hg Hj Hs. destruct (requeue_run w (ID j) j Hg Hj Hs) as (runs&Hrun&Hruns). cbn zeta in Hrun.
  set (j' := requeued_row _ _ j) in *. set (d' := mkDb _ runs _) in *.
  pose proof (requeued_move j Hs) as Hmv. fold j' in Hmv.
  set (r' := if ShouldRetry j then fst (Enqueue NoFault now (TenantID j) (ID j) (Priority j) (w_redis w)) else w_redis w).
  assert (uuid_valid (ID j)) as Hv by (by eapply (gd_valid _ _ Hg)).
  assert (fresh (set_redis (set_db w d') r') (ID j)) as Hf.
  { exists j'. cbn. rewrite lookup_insert_eq. split; [done|]. unfold j', r'. cbn. destruct (ShouldRetry j); [right|by left].
    split; [done|]. by apply enqueue_queued, Hg. }
  exists (if ShouldRetry j then S (S n) else S n), (set_redis (set_db w d') r'). split; [|split; [|split; [done|]]].
  - cbn [reap]. erewrite pbind_run by (by apply (on_quiet o now)). cbn beta.
    rewrite (q_fault o now Hq), (q_now o now Hq), (q_server o now Hq). change (ID (scanJob j)) with (ID j). rewrite Hrun.
    unfold r'. destruct (ShouldRetry j); cbn [negb snd fst]; [|by destruct w].
    erewrite pbind_run by (by apply (on_quiet o now)). cbn beta. by rewrite (q_fault o now Hq), (q_server o now Hq).
  - split; cbn; try done.
    + intros id. destruct (decide (id = ID j)) as [->|]; [right|left; by rewrite lookup_insert_ne].
      split; [done|]. exists j, j'. by rewrite lookup_insert_eq.
    + intros id _. unfold r'. destruct (ShouldRetry j); [|done]. apply enqueue_keeps, Hg.
    + unfold r'. destruct (ShouldRetry j); [|apply Hg]. apply queue_inv_enqueue; [auto with sluice|apply Hg].
  - intros id Hne. cbn. by rewrite lookup_insert_ne.
Qed.

Lemma reap_quiet l : ∀ n w,
  good now w → NoDup (ID <$> l) → Forall (λ j, jobs (w_db w) !! ID j = Some j ∧ stale now j = true) l →
  ∃ n' w', reap (scanJob <$> l) o (n, w) = ((n', w'), tt) ∧ moves now w w' ∧ Forall (λ j, fresh w' (ID j)) l.
Proof.
  induction l as [|j l IH]; intros n w Hg Hnd Hl.
  { exists n, w. split; [done|]. split; [by apply moves_refl|constructor]. }
  rewrite fmap_cons, NoDup_cons in Hnd. destruct Hnd as [Hj Hnd]. apply Forall_cons in Hl as [[Hrow Hs] Hl].
  destruct (reap_one j (scanJob <$> l) n w Hg Hrow Hs) as (n1&w1&Hrun&Hm&Hf&Hother).
  pose proof (moves_good _ _ _ Hm Hg) as Hg1.
  destruct (IH n1 w1 Hg1 Hnd) as (n'&w'&Hrun'&Hm'&Hf').
  { rewrite Forall_forall in Hl |- *. intros k Hk. rewrite Hother; [by apply Hl|]. intros He. apply Hj. rewrite <- He.
    by apply list_elem_of_fmap_2. }
  exists n', w'. split; [rewrite fmap_cons, Hrun; exact Hrun'|]. split; [by eapply moves_trans|].
  constructor; [|done]. by eapply fresh_moves; [|apply Hg1..|].
Qed.

Lemma tick_reap : tick_ok reapStaleClaims (λ j, stale now j = true).
Proof.
  intros n w Hg _. destruct (gd_stored _ _ Hg) as [Hk _]. unfold reapStaleClaims.
  erewrite pbind_run by (by apply (ask_quiet o now)). cbn beta. rewrite (q_fault o now Hq), (q_server o now Hq).
  unfold GetStaleClaims, query. set (l := t_plan (o n) _).
  assert (∀ j, j ∈ l ↔ stale now j = true ∧ jobs (w_db w) !! ID j = Some j) as Hin.
  { intros j. unfold l. rewrite elem_of_visit, list_elem_of_filter, elem_of_rows.
    split; intros [? Hj]; (split; [done|]); [|eauto]. destruct Hj as [id Hj]. by rewrite (Hk id j Hj). }
  destruct (reap_quiet l (S n) w Hg) as (n'&w'&Hrun&Hm&Hf).
  { unfold l. rewrite (visit_perm (t_plan (o n)) _). apply NoDup_fmap_filter. by apply rows_NoDup_ids. }
  { apply Forall_forall. intros j [? ?]%Hin. done. }
  exists n', w'. split; [exact Hrun|]. split; [done|]. intros id j Hj Hs. rewrite Forall_forall in Hf.
  pose proof (Hk id j Hj) as <-. apply Hf, Hin. done.
Qed.

(** *** The reconciler and the dead workers' lists: Redis only *)
Lemma moves_redis w r' :
  queue_inv now r' → (∀ id, uuid_valid id → queued (w_redis w) id → queued r' id) → moves now w (set_redis w r').
Proof. intros Hi Hm. split; cbn; [by left|done|done|apply runs_kept_refl|done]. Qed.

Lemma overdue_unfinished w : (length (overdue_jobs now (w_db w)) <= length (unfinished (w_db w)))%nat.
Proof.
  unfold overdue_jobs. rewrite (Permutation_length (merge_sort_Permutation _ _)).
  apply submseteq_length, sublist_submseteq. unfold unfinished. induction (rows (jobs (w_db w))) as [|j l IH]; [done|].
  rewrite !filter_cons. case_decide as Ho; case_decide as Hu; [by apply sublist_skip| |by apply sublist_cons|done].
  exfalso. apply Hu. destruct Ho as [Hp _]. unfold IsTerminal. by rewrite Hp.
Qed.

Lemma tick_reconcile : tick_ok (do _ ← reconcilePending; pret tt) (overdue now).
Proof.
  intros n w Hg Hc. destruct (gd_stored _ _ Hg) as [Hk _]. pose proof (overdue_unfinished w).
  destruct (reconcile_loop_quiet o now 11 n w [] (overdue_jobs now (w_db w))) as (n'&r'&Hrun&Hi&Hgain);
    [done|apply Hg|apply Hg|apply Hg|done|by exists O|cbn; lia|cbn; lia|].
  change (5000 - length [])%nat with 5000%nat in Hgain. rewrite take_ge in Hgain by lia.
  exists n', (set_redis w r'). split; [by rewrite (pbind_run _ _ _ _ _ _ Hrun)|]. split.
  - apply moves_redis; [done|]. intros id. by apply (gained_keeps _ _ (ID <$> overdue_jobs now (w_db w))).
  - intros id j Hj Ho. exists j. split; [done|]. right. split; [apply Ho|]. pose proof (Hk id j Hj) as <-.
    apply Hgain; [by eapply (gd_valid _ _ Hg)|]. right. apply list_elem_of_fmap_2, overdue_jobs_in.
    split; [done|]. apply elem_of_rows. eauto.
Qed.

Lemma recover_each_quiet ids : ∀ n w,
  good now w →
  ∃ n' r', recover_each ids o (n, w) = ((n', set_redis w r'), tt)
    ∧ gained (w_redis w) r' (filter (λ id, State_ <$> jobs (w_db w) !! id = Some StatePending) ids)
    ∧ queue_inv now r'.
Proof.
  induction ids as [|id ids IH]; intros n w Hg; cbn [recover_each].
  { exists n, (w_redis w). split; [by destruct w|]. split; [apply gained_nil|apply Hg]. }
  erewrite pbind_run by (by apply (ask_quiet o now)). cbn beta. rewrite (q_fault o now Hq). unfold GetJob, query.
  rewrite filter_cons. destruct (jobs (w_db w) !! id) as [j|] eqn:Hj; cbn [scanJob].
  - change (State_ (scanJob j)) with (State_ j). case_bool_decide as Hp.
    + rewrite decide_True by (cbn; congruence). pose proof (proj1 (gd_stored _ _ Hg) id j Hj) as Hid.
      assert (uuid_valid (ID j)) as Hv by (by eapply (gd_valid _ _ Hg)).
      erewrite pbind_run by (by apply (on_quiet o now)). cbn beta. rewrite (q_fault o now Hq), (q_server o now Hq).
      change (ID (scanJob j)) with (ID j). rewrite Hid in *. set (r1 := fst _).
      assert (gained (w_redis w) r1 [id]) as Hg1 by (by apply enqueue_gained; [apply Hg|]).
      assert (moves now w (set_redis w r1)) as Hm.
      { apply moves_redis; [apply queue_inv_enqueue; [auto with sluice|apply Hg]|]. intros i. by apply (gained_keeps _ _ [id]). }
      destruct (IH (S (S n)) (set_redis w r1)) as (n'&r'&->&Hg'&Hi'); [by eapply moves_good|].
      exists n', r'. split; [done|]. split; [|done]. by apply (gained_app _ r1 _ [id]).
    + rewrite decide_False; [apply (IH (S n) w Hg)|]. cbn. congruence.
  - rewrite decide_False by done. apply (IH (S n) w Hg).
Qed.

(** What the scan does to the lanes: nothing. *)
Lemma scan_moves n w : good now w → moves now w (set_redis w (fst (fst (DeadWorkerJobs now (t_scans (o n)) (w_redis w))))).
Proof.
  intros Hg. apply moves_redis; [apply queue_inv_dead_workers; [apply Hscans|apply Hg]|].
  intros id _ (k&Hk&Hin). exists k. split; [done|].
  destruct (dead_worker_frame now (t_scans (o n)) (w_redis w) [] (Hscans n) (qi_keyspace _ _ (gd_queue _ _ Hg))) as [_ Hf].
  unfold qlist, DeadWorkerJobs. by rewrite Hf.
Qed.

Lemma recover_quiet n w :
  good now w →
  ∃ n' w', recoverDeadWorkerJobs o (n, w) = ((n', w'), tt) ∧ moves now w w' ∧ w_db w' = w_db w
    ∧ ∀ id j, id ∈ snd (fst (DeadWorkerJobs now (t_scans (o n)) (w_redis w))) →
        jobs (w_db w) !! id = Some j → State_ j = StatePending → queued (w_redis w') id.
Proof.
  intros Hg. pose proof (scan_moves n w Hg) as Hm. unfold recoverDeadWorkerJobs.
  erewrite pbind_run by (by apply (on_quiet o now)). cbn beta. rewrite (q_server o now Hq).
  destruct (DeadWorkerJobs now (t_scans (o n)) (w_redis w)) as [[r1 ids] ok]. cbn [fst snd] in *.
  pose proof (moves_good _ _ _ Hm Hg) as Hg1.
  destruct (recover_each_quiet ids (S n) (set_redis w r1) Hg1) as (n'&r'&->&Hgain&Hi).
  exists n', (set_redis w r'). split; [done|]. split; [|split; [done|]].
  - eapply moves_trans; [done|exact Hm|]. apply (moves_redis (set_redis w r1)); [done|].
    intros id. by eapply gained_keeps.
  - intros id j Hid Hj Hp. cbn. apply Hgain.
    + rewrite <- (proj1 (gd_stored _ _ Hg) id j Hj). by eapply (gd_valid _ _ Hg).
    + right. apply list_elem_of_filter. split; [|done]. cbn. rewrite Hj. cbn. congruence.
Qed.

Lemma tick_recover : tick_ok recoverDeadWorkerJobs (λ _, False).
Proof. intros n w Hg _. destruct (recover_quiet n w Hg) as (n'&w'&?&?&_&_). by exists n', w'. Qed.

Lemma tick_nothing : tick_ok (pret tt) (λ _, False).
Proof. intros n w Hg _. exists n, w. split; [done|]. split; [by apply moves_refl|done]. Qed.

Lemma tick_once P T : tick_ok P T → tick_ok (ticks P 1) T.
Proof.
  intros HP. apply (tick_weaken _ (λ j, T j ∨ False)); [|auto]. apply (tick_seq P (pret tt) T (λ _, False)); [done|].
  apply tick_nothing.
Qed.
End ticks.

(** ** A round of the leader *)
Section round.
Context `{!UuidText} `{!PgText} `{!InputLib} `{!CronLib} `{!SessionZone}.
Variables (retention : Z) (fuel : nat).

(** The loops that bring jobs back. *)
Definition recovery_loops : list loop_fn := [DuePoll; StaleReaper; PendingReconciler; DeadWorkerRecovery].

(** One tick of each loop of [ls], in that order. *)
Fixpoint leader_round (ls : list loop_fn) : prog unit :=
  match ls with
  | [] => pret tt
  | l :: ls' => do _ ← run_loop retention fuel l 1; leader_round ls'
  end.

(** The jobs a loop is there for. *)
Definition target_of (now : Z) (l : loop_fn) (j : Job) : Prop :=
  match l with
  | DuePoll => (State_ j = StateScheduled ∨ State_ j = StateFailed) ∧ RunAt j <= now
  | StaleReaper => stale now j = true
  | PendingReconciler => overdue now j
  | _ => False
  end.

(** A job the system owes an execution: its time has come, its claim has lapsed, or it
    has been pending for longer than the reconciler waits. *)
Definition owed (now : Z) (j : Job) : Prop := ∃ l, l ∈ recovery_loops ∧ target_of now l j.

Variables (o : oracle) (now : Z).
Hypothesis Hq : quiet o now.
Hypothesis Hscans : ∀ n, Forall processing_scan (t_scans (o n)).

Lemma tick_due : tick_ok o now (do _ ← pollScheduledJobs; pollFailedJobs) (target_of now DuePoll).
Proof.
  pose proof (tick_release o now Hq PromoteDueScheduled StateScheduled (set_state StatePending)
    ltac:(done) (or_introl eq_refl) ltac:(done)) as Hsch.
  pose proof (tick_release o now Hq PromoteReadyFailed StateFailed (λ j, set_run_at now (set_state StatePending j))
    ltac:(done) (or_intror eq_refl) ltac:(done)) as Hfl.
  eapply tick_weaken; [exact (tick_seq _ _ _ _ _ _ Hsch Hfl)|]. cbn. tauto.
Qed.

Lemma tick_loop l : l ∈ recovery_loops → tick_ok o now (run_loop retention fuel l 1) (target_of now l).
Proof.
  unfold recovery_loops. rewrite !elem_of_cons, elem_of_nil.
  intros [->|[->|[->|[->|[]]]]]; cbn [run_loop]; apply tick_once;
    [apply tick_due|by apply tick_reap|by apply tick_reconcile|by apply tick_recover].
Qed.

Lemma round_ok ls :
  Forall (λ l, l ∈ recovery_loops) ls → tick_ok o now (leader_round ls) (λ j, ∃ l, l ∈ ls ∧ target_of now l j).
Proof.
  induction 1 as [|l ls Hl _ IH]; cbn [leader_round].
  - eapply tick_weaken; [apply tick_nothing|]. by intros j (l&?%not_elem_of_nil&_).
  - eapply tick_weaken; [by apply tick_seq; [apply tick_loop|apply IH]|].
    intros j (k&[->|Hk]%elem_of_cons&Ht); [by left|right; eauto].
Qed.
End round.

(** ** A round and a worker *)
Section recovery.
Context `{!UuidText} `{!PgText} `{!InputLib} `{!CronLib} `{!SessionZone} `{!HttpLib}.
Variables (retention : Z) (fuel : nat).
Variables (error_text : exec_error → string) (rnd : Z → Z) (draws : nat → Z → Z).
Variables (wk : worker) (order : plan (string * string)) (waits : nat).
Variables (o : oracle) (now : Z).
Hypothesis Hq : quiet o now.
Hypothesis Hscans : ∀ n, Forall processing_scan (t_scans (o n)).

Definition owner_in (d : db) (id : uuid) : option uuid := TenantID <$> jobs d !! id.

Lemma round_placed owner ls n w :
  Forall (λ l, l ∈ recovery_loops) ls → placed owner w → placed owner (snd (fst (leader_round retention fuel ls o (n, w)))).
Proof.
  intros Hls Hp. revert n w Hp. cut (ensures (placed owner) o (leader_round retention fuel ls) (λ _, True)).
  { intros He n w Hp. by apply (He (n, w)). }
  assert (∀ n w, placed owner w → placed owner (t_env (o n) w)) as Henv by (intros m v; by rewrite (q_env o now Hq)).
  induction Hls as [|l ls Hl _ IH]; cbn [leader_round]; [by apply ensures_pret|].
  apply (ensures_pbind _ _ _ _ (λ _, True)); [|done]. unfold recovery_loops in Hl.
  rewrite !elem_of_cons, elem_of_nil in Hl.
  destruct Hl as [->|[->|[->|[->|[]]]]]; cbn [run_loop];
    unfold runDuePoll, runStaleReaper, runPendingReconciler, runDeadWorkerRecovery; cbn [ticks];
    (apply (ensures_pbind _ _ _ _ (λ _, True)); [|by intros; apply ensures_pret]).
  - apply (ensures_pbind _ _ _ _ (λ _, True)); [|intros _ _].
    + by apply (keeps_release owner o Henv _ _ StateScheduled (λ _, set_state StatePending)).
    + by apply (keeps_release owner o Henv _ _ StateFailed (λ t j, set_run_at t (set_state StatePending j))).
  - by apply keeps_reapStaleClaims.
  - apply (ensures_pbind _ _ _ _ (λ _, True)); [by apply keeps_reconcile|by intros; apply ensures_pret].
  - by apply keeps_recover.
Qed.

Hypothesis Hready : ready wk.
Hypothesis Hdraws : ∀ i, Intn_ok (draws i).
Hypothesis Htext : ∀ e, text_ok (error_text e) = true.
Hypothesis Hfresh : ∀ n m, (n < m)%nat → t_uuid' (o n) ≠ t_uuid' (o m).

(** Identifiers of runs to come are not in use. *)
Definition unused_runs (d : db) : Prop := ∀ r m, r ∈ job_runs d → rr_id r ≠ t_uuid' (o m).

Lemma inv_good owner n w : good now w → placed owner w → unused_runs (w_db w) → inv wk o (w_tenants w) n w.
Proof.
  intros Hg Hp Hr. split; [apply Hp| |apply (gd_stored _ _ Hg)| |intros; by apply Hr|done].
  - intros k v Hk Hv. destruct (pl_entries _ _ Hp k v (served_lane wk k Hk) Hv) as (id&?&?&?&_). eauto.
  - intros id j Hj Hs. destruct (gd_attempts _ _ Hg id j Hj) as (?&?&_); [unfold IsTerminal; by rewrite Hs|]. lia.
Qed.

Lemma unused_moves w w' : moves now w w' → unused_runs (w_db w) → unused_runs (w_db w').
Proof.
  intros Hm Hu r' m [i Hi]%list_elem_of_lookup. destruct (Forall2_lookup_r _ _ _ _ _ (mv_runs _ _ _ Hm) Hi) as (r&Hi0&->&_).
  apply Hu. by eapply list_elem_of_lookup_2.
Qed.

(** A queued job of a tenant the worker serves waits in one of its lanes. *)
Lemma queued_waiting owner w id t :
  placed owner w → uuid_valid id → owner id = Some t → t ∈ tw_ID <$> wk_tenants wk → queued (w_redis w) id → waiting wk (w_redis w) id.
Proof.
  intros Hp Hv Ho Ht (k&Hk&Hin). exists k. split; [|done]. destruct (pl_entries _ _ Hp k _ Hk Hin) as (id'&He&Hv'&_&Hl).
  apply uuid_String_inj in He as <-; [|done..]. specialize (Hl t Ho). apply elem_of_served. revert Hl.
  unfold queue_keys. rewrite !list_elem_of_In, !in_flat_map. setoid_rewrite <- list_elem_of_In.
  intros (b&Hb&Hkb). exists b. split; [done|]. apply list_elem_of_fmap in Hkb as (t'&->&->%list_elem_of_singleton).
  by apply list_elem_of_fmap_2.
Qed.

Lemma round_recovers ls refresh n w :
  Forall (λ l, l ∈ recovery_loops) ls → (∀ l, l ∈ recovery_loops → l ∈ ls) → (∀ k, refresh k wk = wk) →
  good now w → placed (owner_in (w_db w)) w → (length (unfinished (w_db w)) <= 5000)%nat → unused_runs (w_db w) →
  ∃ n1 w1 n' w', leader_round retention fuel ls o (n, w) = ((n1, w1), tt)
    ∧ loop error_text rnd draws refresh order waits (backlog wk (w_redis w1)) wk o (n1, w1) = ((n', w'), Some wk)
    ∧ moves now w w1 ∧ placed (owner_in (w_db w)) w1 ∧ inv wk o (w_tenants w) n' w'
    ∧ progress error_text rnd wk order now (w_tenants w) w1 w' ∧ backlog wk (w_redis w') = 0%nat
    ∧ leaves o now w1 w'
    ∧ ∀ id j, jobs (w_db w) !! id = Some j → owed now j → fresh w1 id.
Proof.
  intros Hls Hall Href Hg Hp Hc Hu.
  destruct (round_ok retention fuel o now Hq Hscans ls Hls n w Hg Hc) as (n1&w1&Hrun&Hm&Ht).
  pose proof (round_placed (owner_in (w_db w)) ls n w Hls Hp) as Hp1. rewrite Hrun in Hp1. cbn in Hp1.
  pose proof (inv_good _ n1 w1 (moves_good _ _ _ Hm Hg) Hp1 (unused_moves _ _ Hm Hu)) as Hinv.
  rewrite (mv_tenants _ _ _ Hm) in Hinv.
  destruct (loop_progress error_text rnd draws wk order waits o now Hready Hq Hdraws Htext Hfresh (w_tenants w) refresh
              (backlog wk (w_redis w1)) n1 w1 Href Hinv eq_refl) as (n'&w'&Hloop&Hinv'&Hb&Hprog&Hlv).
  exists n1, w1, n', w'. do 8 (split; [done|]). intros id j Hj (l&Hl&Htl). eapply Ht; eauto.
Qed.

End recovery.
