(* ===== verification/Completion.v ===== *)
(** * Every job comes to an end

    Rounds of the leader and drains of a worker, one after the other, each on a quiet
    stretch of its own and further apart than the longest backoff: whatever its attempts
    do, every job that is owed an execution is succeeded, dead or cancelled after as many
    cycles as it has attempts left. *)

From S2P Require Import Prelude GoBase Job Redis Queue QueueInv Db Partitions Storage StorageFacts Tenants Schedules World Webhook Worker.
From S2P Require Import Scheduler Process SchedulerFacts WorkerFacts WorkerDrain Recovery.

Open Scope Z_scope.
Local Open Scope prog_scope.

Section completion.
Context `{!UuidText} `{!PgText} `{!InputLib} `{!CronLib} `{!SessionZone} `{!HttpLib}.
Variables (retention : Z) (fuel : nat) (ls : list loop_fn).
Variables (error_text : exec_error → string) (rnd : Z → Z) (draws : nat → Z → Z) (refresh : nat → worker → worker).
Variables (wk : worker) (order : plan (string * string)) (waits : nat).

(** A round of the leader, then as many turns of the worker's loop as there are entries
    in its lanes. *)
Definition cycle : prog (option worker) :=
  do _ ← leader_round retention fuel ls;
  λ o s, loop error_text rnd draws refresh order waits (backlog wk (w_redis (snd s))) wk o s.

(** The stretches: the oracle of each cycle and the time at which it runs. *)
Variables (os : nat → oracle) (at_ : nat → Z).

(** The world after [m] cycles from cycle [k] on. *)
Fixpoint cycles (k m : nat) (w : world) : world :=
  match m with
  | O => w
  | S m' => cycles (S k) m' (snd (fst (cycle (os k) (O, w))))
  end.

(** The longest backoff is 72 minutes. *)
Record stretches : Prop := {
  st_quiet k : quiet (os k) (at_ k);
  st_scans k n : Forall processing_scan (t_scans (os k n));
  st_apart k : at_ k + 4320 * Second <= at_ (S k);
  st_runs k n m : (n < m)%nat → t_uuid' (os k n) ≠ t_uuid' (os k m);
  st_fresh k k' n m : (k < k')%nat → t_uuid' (os k n) ≠ t_uuid' (os k' m);
}.

Hypothesis Hst : stretches.
Hypothesis Hls : Forall (λ l, l ∈ recovery_loops) ls.
Hypothesis Hall : ∀ l, l ∈ recovery_loops → l ∈ ls.
Hypothesis Href : ∀ k, refresh k wk = wk.
Hypothesis Hready : ready wk.
Hypothesis Hdraws : ∀ i, Intn_ok (draws i).
Hypothesis Hrnd : Intn_ok rnd.
Hypothesis Htext : ∀ e, text_ok (error_text e) = true.

(** Before cycle [k]: a well-formed store in which nobody holds a claim any more. *)
Record idle (k : nat) (w : world) : Prop := {
  cm_good : good (at_ k) w;
  cm_placed : placed (owner_in (w_db w)) w;
  cm_cap : (length (unfinished (w_db w)) <= 5000)%nat;
  cm_claims id j : jobs (w_db w) !! id = Some j → in_flight j = true → stale (at_ k) j = true;
  cm_runs k' : (k <= k')%nat → unused_runs (os k') (w_db w);
}.

(** What an execution leaves of a job: it has ended, or it waits for its next attempt. *)
Record ended (now : Z) (j j' : Job) : Prop := {
  en_ID : ID j' = ID j;
  en_TenantID : TenantID j' = TenantID j;
  en_Priority : Priority j' = Priority j;
  en_CreatedAt : CreatedAt j' = CreatedAt j;
  en_MaxRetries : MaxRetries j' = MaxRetries j;
  en_BackoffSeconds : BackoffSeconds j' = BackoffSeconds j;
  en_claim : in_flight j' = false;
  en_state : IsTerminal j' = true
    ∨ State_ j' = StateFailed ∧ ShouldRetry j = true ∧ Attempt j' = Attempt j + 1 ∧ RunAt j' <= now + 4320 * Second;
}.

Lemma settled_ended now ts j j' :
  0 <= Attempt j → 1 <= BackoffSeconds j → settled error_text rnd wk order now ts j j' → ended now j j'.
Proof.
  intros Ha Hb [token ->]. set (jc := claimed_row _ _ _ _ j). unfold outcome_of.
  destruct (execute _ _ _ _) as [u|e]; [by split; [..|left]|].
  change (ShouldRetry jc) with (ShouldRetry j). unfold settled_row, failed_row.
  change (ShouldRetry jc) with (ShouldRetry j).
  destruct (ShouldRetry j) eqn:Hs; [|by split; [..|left]]. split; try done. right. cbn.
  do 3 (split; [done|]). unfold ShouldRetry in Hs. bool_to_prop.
  rewrite (proj2 (Z.ltb_ge _ _)) by lia. cbn.
  destruct (NextRetryAt_delay rnd (Attempt j) (BackoffSeconds j) now Hrnd Ha Hb) as (d&->&_&?).
  pose proof (pg_ts_le (now + d * Second)). unfold Second in *. lia.
Qed.

(** ** One cycle *)

(** What a cycle makes of a row: nothing, or an execution's outcome, after the round may
    have moved the row. *)
Definition cycled (now : Z) (j j' : Job) : Prop :=
  ∃ j1, (j1 = j ∨ row_move now j j1) ∧ (j' = j1 ∨ State_ j1 = StatePending ∧ ended now j1 j').

Record after_cycle (k : nat) (w w' : world) : Prop := {
  ac_idle : idle (S k) w';
  ac_rows id j : jobs (w_db w) !! id = Some j → ∃ j', jobs (w_db w') !! id = Some j' ∧ cycled (at_ k) j j';
  ac_owed id j : jobs (w_db w) !! id = Some j → owed (at_ k) j → TenantID j ∈ tw_ID <$> wk_tenants wk →
    ∃ j' j1, jobs (w_db w') !! id = Some j' ∧ (j1 = j ∨ row_move (at_ k) j j1)
      ∧ (j' = j1 ∧ State_ j1 = StateDead ∨ ended (at_ k) j1 j');
}.

Section one.
Variables (k : nat) (w w1 w' : world) (n' : nat).
Let now := at_ k.
Hypothesis Hidle : idle k w.
Hypothesis Hm : moves now w w1.
Hypothesis Hp1 : placed (owner_in (w_db w)) w1.
Hypothesis Hprog : progress error_text rnd wk order now (w_tenants w) w1 w'.
Hypothesis Hinv : inv wk (os k) (w_tenants w) n' w'.
Hypothesis Hlv : leaves (os k) now w1 w'.
Hypothesis Hf : ∀ id j, jobs (w_db w) !! id = Some j → owed now j → fresh w1 id.

Lemma good_after : good now w1.
Proof. eapply moves_good; [exact Hm|apply Hidle]. Qed.

(** Nobody holds a claim after the round. *)
Lemma unclaimed id j1 : jobs (w_db w1) !! id = Some j1 → in_flight j1 = false.
Proof.
  intros Hj1. apply not_true_iff_false. intros Hfl.
  assert (State_ j1 ≠ StateDead ∧ State_ j1 ≠ StatePending) as [Hnd Hnp]
    by (unfold in_flight in Hfl; by destruct (State_ j1)).
  destruct (mv_rows _ _ _ Hm id) as [He|(_&j&j2&_&Hj2&Hmv)].
  - rewrite He in Hj1. destruct (Hf id j1 Hj1) as (j&Hj&Hs).
    { exists StaleReaper. split; [set_solver|]. by eapply (cm_claims _ _ Hidle). }
    rewrite He in Hj. simplify_eq. destruct Hs as [?|[? _]]; done.
  - simplify_eq. destruct (rm_state _ _ _ Hmv) as [[? _]|[? _]]; done.
Qed.

Lemma forth id j1 :
  jobs (w_db w1) !! id = Some j1 →
  ∃ j', jobs (w_db w') !! id = Some j' ∧ (j' = j1 ∨ State_ j1 = StatePending ∧ ended now j1 j').
Proof.
  intros Hj1. destruct (pl_rows _ _ Hp1 id j1 Hj1) as (_&Hv&_). pose proof (Hprog id Hv) as Hpr. rewrite Hj1 in Hpr.
  destruct Hpr as [[Hj' _]|[Hpend (j'&Hj'&Hs)]]; [by eauto|]. exists j'. split; [done|]. right. split; [done|].
  destruct (gd_attempts _ _ good_after id j1 Hj1) as (?&?&?); [unfold IsTerminal; by rewrite Hpend|].
  eapply settled_ended; [..|exact Hs]; lia.
Qed.

Lemma back id j' :
  jobs (w_db w') !! id = Some j' → ∃ j1, jobs (w_db w1) !! id = Some j1 ∧ (j' = j1 ∨ State_ j1 = StatePending ∧ ended now j1 j').
Proof.
  intros Hj'. destruct (lv_rows _ _ _ _ Hlv id) as [j1 Hj1]; [by eexists|]. exists j1. split; [done|].
  destruct (forth id j1 Hj1) as (j2&Hj2&?). by simplify_eq.
Qed.

Lemma idle_good : good (at_ (S k)) w'.
Proof.
  pose proof good_after as [Hq1 [Hk1 Hs1] Hv1 Ha1 _]. split.
  - apply (queue_inv_tick now); [pose proof (st_apart Hst k); unfold now, Second in *; lia|]. by apply (sh_queue _ _ _ (lv_redis _ _ _ _ Hlv)).
  - split; intros id j' Hj'; destruct (back id j' Hj') as (j1&Hj1&[->|[_ []]]); try (by eapply Hk1 || by eapply Hs1).
    + rewrite en_ID0. by eapply Hk1.
    + rewrite en_Priority0, en_CreatedAt0. by eapply Hs1.
  - intros id j' Hj'. destruct (back id j' Hj') as (j1&Hj1&[->|[_ []]]); [|rewrite en_ID0]; by eapply Hv1.
  - intros id j' Hj' Ht. destruct (back id j' Hj') as (j1&Hj1&[->|[Hpend []]]); [by eapply Ha1|].
    destruct (Ha1 id j1 Hj1) as (?&?&?); [unfold IsTerminal; by rewrite Hpend|].
    rewrite en_MaxRetries0, en_BackoffSeconds0. unfold ShouldRetry in *.
    destruct en_state0 as [?|(_&?&->&_)]; [congruence|bool_to_prop; lia].
  - intros r j' _ _ Hj' Hfl. exfalso. destruct (back _ j' Hj') as (j1&Hj1&[->|[_ []]]); [|congruence].
    by rewrite (unclaimed _ _ Hj1) in Hfl.
Qed.

Lemma idle_placed : placed (owner_in (w_db w')) w'.
Proof.
  assert (∀ id t, owner_in (w_db w') id = Some t → owner_in (w_db w) id = Some t) as Hown.
  { unfold owner_in. intros id t. destruct (jobs (w_db w') !! id) as [j'|] eqn:Hj'; [|done]. cbn. intros [= <-].
    destruct (back id j' Hj') as (j1&Hj1&He). destruct (pl_rows _ _ Hp1 id j1 Hj1) as (_&_&_&Ho). unfold owner_in in Ho. rewrite Ho.
    f_equal. destruct He as [->|[_ []]]; congruence. }
  split.
  - intros id j' Hj'. destruct (back id j' Hj') as (j1&Hj1&He). destruct (pl_rows _ _ Hp1 id j1 Hj1) as (<-&?&?&_).
    split; [destruct He as [->|[_ []]]; congruence|]. do 2 (split; [done|]). unfold owner_in. by rewrite Hj'.
  - apply Hinv.
  - intros q v Hq Hv. apply (sh_lanes _ _ _ (lv_redis _ _ _ _ Hlv)) in Hv; [|done].
    destruct (pl_entries _ _ Hp1 q v Hq Hv) as (id&?&?&?&Hl). exists id. eauto 6.
Qed.

Lemma idle_cap : (length (unfinished (w_db w')) <= 5000)%nat.
Proof.
  pose proof (moves_unfinished now w w1 (cm_good _ _ Hidle) Hm). pose proof (cm_cap _ _ Hidle).
  enough (length (unfinished (w_db w')) <= length (unfinished (w_db w1)))%nat by lia.
  pose proof (proj1 (gd_stored _ _ good_after)) as Hk1. pose proof (proj1 (gd_stored _ _ idle_good)) as Hk'.
  rewrite <- (length_fmap ID (unfinished (w_db w'))), <- (length_fmap ID (unfinished (w_db w1))).
  apply submseteq_length, NoDup_submseteq; [apply NoDup_fmap_filter; by apply rows_NoDup_ids|].
  intros id. rewrite !unfinished_elem by done. intros (j'&Hj'&Ht). destruct (back id j' Hj') as (j1&Hj1&[->|[Hpend _]]); [eauto|].
  exists j1. split; [done|]. unfold IsTerminal. by rewrite Hpend.
Qed.

Lemma idle_after : idle (S k) w'.
Proof.
  split; [apply idle_good|apply idle_placed|apply idle_cap| |].
  - intros id j' Hj' Hfl. exfalso. destruct (back id j' Hj') as (j1&Hj1&[->|[_ []]]); [|congruence].
    by rewrite (unclaimed _ _ Hj1) in Hfl.
  - intros k' Hk' r m Hr. destruct (lv_runs _ _ _ _ Hlv r Hr) as [Hr1|(_&m'&->)].
    + eapply (unused_moves (os k') now w w1); [exact Hm|apply (cm_runs _ _ Hidle); lia|done].
    + apply (st_fresh Hst). lia.
Qed.
End one.

Lemma cycle_ok k w : idle k w → after_cycle k w (snd (fst (cycle (os k) (O, w)))).
Proof.
  intros Hc. pose proof (cm_runs _ _ Hc k ltac:(lia)) as Hu.
  destruct (round_recovers retention fuel error_text rnd draws wk order waits (os k) (at_ k) (st_quiet Hst k) (st_scans Hst k)
    Hready Hdraws Htext (st_runs Hst k) ls refresh O w Hls Hall Href (cm_good _ _ Hc) (cm_placed _ _ Hc) (cm_cap _ _ Hc) Hu)
    as (n1&w1&n'&w'&Hrun&Hloop&Hm&Hp1&Hinv&Hprog&Hb&Hlv&Hf).
  assert (cycle (os k) (O, w) = ((n', w'), Some wk)) as -> by (unfold cycle; by rewrite (pbind_run _ _ _ _ _ _ Hrun)).
  cbn [fst snd]. split.
  - by eapply (idle_after k w w1 w' n').
  - intros id j Hj. destruct (mv_rows _ _ _ Hm id) as [He|(_&j0&j1&Hj0&Hj1&Hmv)].
    + destruct (forth k w w1 w' Hc Hm Hp1 Hprog id j) as (j'&Hj'&?); [congruence|]. exists j'. split; [done|]. exists j. auto.
    + destruct (forth k w w1 w' Hc Hm Hp1 Hprog id j1 Hj1) as (j'&Hj'&?). exists j'. split; [done|]. exists j1. simplify_eq. auto.
  - intros id j Hj Ho Hten. destruct (Hf id j Hj Ho) as (j1&Hj1&Hs).
    destruct (forth k w w1 w' Hc Hm Hp1 Hprog id j1 Hj1) as (j'&Hj'&Hcase). exists j', j1. split; [done|].
    split. { destruct (mv_rows _ _ _ Hm id) as [He|(_&j0&j2&Hj0&Hj2&Hmv)]; [left|right]; congruence. }
    destruct Hcase as [->|[_ ?]]; [|by right]. destruct Hs as [?|[Hpend Hqd]]; [by left|exfalso].
    destruct (pl_rows _ _ (cm_placed _ _ Hc) id j Hj) as (_&Hv&_&Hown).
    destruct (progress_settled error_text rnd wk order (at_ k) (w_tenants w) w1 w' id j1 Hprog Hb Hv Hj1) as (j2&Hj2&Hset); [|done|].
    + by apply (queued_waiting wk (owner_in (w_db w)) w1 id (TenantID j)).
    + simplify_eq. by destruct (settled_not_pending _ _ _ _ _ _ _ _ Hset).
Qed.

(** ** Many cycles *)
Lemma terminal_stays k m : ∀ w id j,
  idle k w → jobs (w_db w) !! id = Some j → IsTerminal j = true → jobs (w_db (cycles k m w)) !! id = Some j.
Proof.
  revert k. induction m as [|m IH]; intros k w id j Hc Hj Ht; cbn [cycles]; [done|].
  pose proof (cycle_ok k w Hc) as [Hc' Hrows _]. destruct (Hrows id j Hj) as (j'&Hj'&j1&Hj1&He).
  apply (IH (S k) _ id j Hc'); [|done].
  destruct Hj1 as [->|[]]; [|congruence]. destruct He as [->|[Hpend _]]; [done|].
  unfold IsTerminal in Ht. by rewrite Hpend in Ht.
Qed.

Lemma finishes m : ∀ k w id j,
  idle k w → jobs (w_db w) !! id = Some j → owed (at_ k) j → TenantID j ∈ tw_ID <$> wk_tenants wk →
  MaxRetries j - Attempt j < Z.of_nat m →
  ∃ j', jobs (w_db (cycles k m w)) !! id = Some j' ∧ IsTerminal j' = true.
Proof.
  induction m as [|m IH]; intros k w id j Hc Hj Ho Hten Hleft; cbn [cycles].
  { destruct (gd_attempts _ _ (cm_good _ _ Hc) id j Hj) as (?&_&_); [|lia].
    destruct Ho as (l&_&Hl). unfold target_of, overdue, stale, in_flight in Hl. unfold IsTerminal. by destruct l, (State_ j); naive_solver. }
  pose proof (cycle_ok k w Hc) as [Hc' _ Howed]. destruct (Howed id j Hj Ho Hten) as (j'&j1&Hj'&Hj1&He).
  assert (TenantID j1 = TenantID j ∧ MaxRetries j1 = MaxRetries j ∧ Attempt j <= Attempt j1) as (Ht1&Hm1&Ha1).
  { destruct Hj1 as [->|Hmv]; [done|]. split; [apply Hmv|]. split; [apply Hmv|]. destruct (rm_state _ _ _ Hmv) as [[_ [?|(_&_&?)]]|(_&_&_&?)]; lia. }
  destruct He as [[-> Hd]|[]].
  { exists j1. split; [|unfold IsTerminal; by rewrite Hd]. apply terminal_stays; [done|done|]. unfold IsTerminal. by rewrite Hd. }
  destruct en_state0 as [Ht|(Hfl&_&Ha'&Hrun)]; [exists j'; split; [by apply terminal_stays|done]|].
  apply (IH (S k) _ id j' Hc' Hj'); [|congruence|lia].
  exists DuePoll. split; [set_solver|]. split; [by right|]. pose proof (st_apart Hst k). lia.
Qed.

End completion.
