(* ===== verification/Programs.v ===== *)
(** * The programs run the transition system

    The theorems over [reachable] states are about storage calls in any order. This file
    connects them with the processes: every call the API server, a worker, a scheduler
    and the command line tool make is a step of [Lifecycle], so whatever these programs
    do, interleaved with any other clients and under any faults, the tables stay
    reachable. What is asked of the rest of the world is that its moves are steps as
    well, and that [uuid.New] returns identifiers nothing has used. *)

From S2P Require Import Prelude GoBase Encoding Job Redis Queue Ratelimit Db Partitions Storage Tenants Schedules Stats World Webhook Worker Scheduler Api Admin Server Cli Process Lifecycle Claims CronFacts ApiFacts.

Open Scope Z_scope.

(** An identifier in no table and no ledger. *)
Record unused (s : sys) (u : uuid) : Prop := {
  un_job : jobs (s_db s) !! u = None;
  un_claimed : u ∉ (c_job <$> s_claims s);
  un_replayed : u ∉ s_replays s;
  un_token : u ∉ (c_token <$> s_claims s);
  un_run : u ∉ (c_run <$> s_claims s);
}.

(** The identifiers of a process are all different. *)
Record fresh_oracle (o : oracle) : Prop := {
  fo_inj m n : t_uuid (o m) = t_uuid (o n) → m = n;
  fo_inj' m n : t_uuid' (o m) = t_uuid' (o n) → m = n;
  fo_apart m n : t_uuid (o m) ≠ t_uuid' (o n);
}.

(** ** What the processes do

    A request to the API server, a loop of a scheduler in every term the campaigns give it
    (a number of ticks each), a worker's
    pull loop for a number of turns and its other goroutines, a heartbeat for a claim, a
    command. *)
Section activities.
Context `{!UuidText} `{!PgText} `{!InputLib} `{!CronLib} `{!SessionZone} `{!HttpLib} `{!LuaNum} `{!Bodies} `{!Chi}.

Inductive activity :=
| Serve (limiter : bool) (adminTokenHash : option bytes) (ticks : nat) (rq : request) (c : cache)
| Lead (retention : Z) (fuel : nat) (l : loop_fn) (ticks : nat) (campaigns : list bool)
| Work (error_text : exec_error → string) (rnd : Z → Z) (draws : nat → Z → Z) (refresh : nat → worker → worker)
    (order : plan (string * string)) (waits turns : nat) (wk : worker)
| Alive (wk : worker) (n : nat)
| Tenants (wk : worker) (n : nat)
| Beat (c : claim)
| Command (c : command).

Definition run_activity (a : activity) : prog unit :=
  match a with
  | Serve limiter h ticks rq c => pbind (serve limiter h ticks rq c) (λ _, pret tt)
  | Lead retention fuel l n campaigns => pbind (Run (run_loop retention fuel l n) campaigns) (λ _, pret tt)
  | Work error_text rnd draws refresh order waits turns wk =>
      pbind (loop error_text rnd draws refresh order waits turns wk) (λ _, pret tt)
  | Alive wk n => run_alive wk n
  | Tenants wk n => pbind (run_tenants n wk) (λ _, pret tt)
  | Beat c => heartbeat_tick (c_job c) (c_token c)
  | Command c => pbind (run_command c) (λ _, pret tt)
  end.

Fixpoint run_all (l : list activity) : prog unit :=
  match l with
  | [] => pret tt
  | a :: l' => pbind (run_activity a) (λ _, run_all l')
  end.
End activities.

Section programs.
Context `{!UuidText} `{!PgText} `{!InputLib} `{!CronLib} `{!SessionZone} `{!HttpLib} `{!LuaNum} `{!Bodies} `{!Chi}.
Variables (o : oracle) (s0 : sys).
Hypothesis Hfresh : fresh_oracle o.
Hypothesis Hinit : reachable s0.

(** What the other processes do between two calls: steps, which do not use the
    identifiers of this one. *)
Definition rely : Prop := ∀ n s w,
  rtc step s0 s → s_db s = w_db w →
  ∃ s', rtc step s s' ∧ s_db s' = w_db (t_env (o n) w)
    ∧ ∀ m, (unused s (t_uuid (o m)) → unused s' (t_uuid (o m)))
         ∧ (unused s (t_uuid' (o m)) → unused s' (t_uuid' (o m))).

Hypothesis Henv : rely.

(** The tables are reached; the claims [C] were made; the identifiers from [k] on are
    not used. *)
Definition tracked (k : nat) (C : list claim) (w : world) : Prop :=
  ∃ s, rtc step s0 s ∧ s_db s = w_db w ∧ C ⊆ s_claims s
    ∧ ∀ m, (k <= m)%nat → unused s (t_uuid (o m)) ∧ unused s (t_uuid' (o m)).

Lemma tracked_weaken k k' C C' w : (k <= k')%nat → C' ⊆ C → tracked k C w → tracked k' C' w.
Proof.
  intros Hk HC (s&Hs&Hd&HCs&Hu). exists s. split; [done|]. split; [done|]. split; [by etrans|].
  intros m Hm. apply Hu. lia.
Qed.

Lemma tracked_same k C w w' : w_db w' = w_db w → tracked k C w → tracked k C w'.
Proof. intros He (s&?). exists s. by rewrite He. Qed.

Lemma claims_grow s s' : rtc step s s' → s_claims s ⊆ s_claims s'.
Proof.
  induction 1 as [|s1 s2 s3 Hst _ IH]; [done|]. etrans; [|exact IH].
  destruct Hst; cbn; try done; unfold note_claim; repeat case_match; try done; intros c Hc; by right.
Qed.

Lemma tracked_env k C n w : tracked k C w → tracked k C (t_env (o n) w).
Proof.
  intros (s&Hs&Hd&HC&Hu). destruct (Henv n s w Hs Hd) as (s'&Hs'&Hd'&Hu'). exists s'.
  split; [by etrans|]. split; [done|]. split; [etrans; [done|by apply claims_grow]|].
  intros m Hm. destruct (Hu m Hm). split; by apply Hu'.
Qed.

Lemma tracked_keyed k C w : tracked k C w → keyed (jobs (w_db w)).
Proof.
  intros (s&Hs&<-&_). eapply (reachable_inv (λ s, table_ok (jobs (s_db s)))) with (s := s);
    [split; [intros ??|]; by rewrite ?lookup_empty| |by unfold reachable; etrans].
  intros s1 s2 Hok Hst. by eapply step_table_ok.
Qed.

(** ** The effect of each kind of call *)

(** A plain call uses no identifier. *)
Lemma unused_plain s d u : rows_step KPlain (jobs (s_db s)) (jobs d) → unused s u → unused (with_db s d) u.
Proof.
  intros Hr [Hj ????]. split; try done. cbn. destruct (Hr u) as [->|Hst]; [done|]. rewrite Hj in Hst.
  by inversion Hst.
Qed.

Lemma tracked_plain {A} C0 k C w f (st : stmt db A) :
  (∀ s, C0 ⊆ s_claims s → step s (with_db s (fst (exec f st (s_db s))))) →
  (∀ d' a, keyed (jobs (w_db w)) → st (w_db w) = Ok (d', a) → rows_step KPlain (jobs (w_db w)) (jobs d')) →
  C0 ⊆ C → tracked k C w → tracked k C (set_db w (fst (exec f st (w_db w)))).
Proof.
  intros Hst Hr HC0 Ht. pose proof (tracked_keyed _ _ _ Ht) as Hk. destruct Ht as (s&Hs&Hd&HC&Hu).
  exists (with_db s (fst (exec f st (w_db w)))). rewrite <- Hd in *.
  split; [eapply rtc_r; [done|apply Hst; by etrans]|]. split; [done|]. split; [done|].
  assert (rows_step KPlain (jobs (s_db s)) (jobs (fst (exec f st (s_db s))))) as Hrows
    by (apply (exec_ind (λ d', rows_step KPlain _ (jobs d'))); [apply rows_step_refl|eauto]).
  intros m Hm. split; apply unused_plain, Hu; done.
Qed.

Lemma tracked_replay k C w f now id tenantID :
  tracked k C w → tracked k C (set_db w (fst (exec f (replay_tx now id tenantID) (w_db w)))).
Proof.
  intros (s&Hs&Hd&HC&Hu). rewrite <- Hd.
  eexists. split; [eapply rtc_r; [done|apply (st_replay s f now id tenantID)]|]. split; [done|]. split; [done|].
  assert (∀ u, unused s u → unused (mkSys (fst (exec f (replay_tx now id tenantID) (s_db s))) (s_claims s)
    (note_replay f id (replay_tx now id tenantID (s_db s)) (s_replays s))) u) as Hus.
  { intros u Hun. pose proof Hun as [Hj ????]. unfold exec, note_replay.
    destruct (replay_tx now id tenantID (s_db s)) as [r|e] eqn:Hr; [|destruct f; split; done].
    destruct (replay_tx_inv _ _ _ _ _ Hr) as (j&Hid&_&_&->). assert (u ≠ id) by congruence.
    destruct f; (split; cbn; [try rewrite lookup_insert_ne by done; done|done| |done|done]);
      [|done|]; by apply not_elem_of_cons. }
  intros m Hm. split; apply Hus, Hu; done.
Qed.

Lemma tracked_insert k C w f j :
  submittable j → ID j = t_uuid (o k) →
  tracked k C w → tracked (S k) C (set_db w (fst (InsertJob f j (w_db w)))).
Proof.
  intros Hsub Hid (s&Hs&Hd&HC&Hu). rewrite <- Hd.
  destruct (Hu k (le_n k)) as [[_ ?? _ _] _].
  exists (with_db s (fst (InsertJob f j (s_db s)))).
  split; [eapply rtc_r; [done|apply st_insert; [done|by rewrite Hid]]|]. split; [done|]. split; [done|].
  assert (∀ u, u ≠ ID j → unused s u → unused (with_db s (fst (InsertJob f j (s_db s)))) u) as Hus.
  { intros u Hne [Hj ????]. split; try done. cbn.
    apply (exec_ind (λ d', jobs d' !! u = None)); [done|]. intros d' a Ha.
    destruct (insert_stmt_inv _ _ _ _ Hsub Ha) as (row&Hrow&_&_&_&->). cbn.
    destruct (new_row_Some _ _ Hrow) as [Hi _]. rewrite lookup_insert_ne; [done|congruence]. }
  intros m Hm. destruct (Hu m) as [Hu1 Hu2]; [lia|]. split; (apply Hus; [|done]); rewrite Hid.
  - intros He%(fo_inj o Hfresh). lia.
  - intros He. by apply (fo_apart o Hfresh k m).
Qed.

(** A claim uses the token and the run identifier of its turn, and is remembered. *)
Lemma tracked_claim k C w f (st : stmt db (option (Job * uuid))) locked now jobID wid deadline :
  let token := t_uuid (o k) in
  let runID := t_uuid' (o k) in
  (∀ s, fresh_claim s runID token →
     step s (mkSys (fst (exec f st (s_db s))) (note_claim f jobID token (st (s_db s)) (s_claims s)) (s_replays s))) →
  (∀ r, st (w_db w) = Ok r → claim_stmt locked now jobID wid token deadline runID (w_db w) = Ok r) →
  tracked k C w →
  tracked (S k) (match snd (exec f st (w_db w)) with
                 | Ok (Some (_, run)) => mkClaim jobID run token :: C
                 | _ => C
                 end) (set_db w (fst (exec f st (w_db w)))).
Proof.
  intros token runID Hst Hcl (s&Hs&Hd&HC&Hu). rewrite <- Hd in *.
  destruct (Hu k (le_n k)) as [[_ _ _ Ht _] [_ _ _ _ Hr]].
  set (cs := note_claim f jobID token (st (s_db s)) (s_claims s)).
  exists (mkSys (fst (exec f st (s_db s))) cs (s_replays s)).
  split; [eapply rtc_r; [done|by apply Hst]|]. split; [done|]. unfold cs, note_claim, exec.
  assert (∀ C' : list claim, C' ⊆ C → C' ⊆ s_claims s) as HC' by (intros C' ?; by etrans).
  destruct (st (s_db s)) as [[d' res]|e]; cycle 1.
  { destruct f; (split; [done|]); intros m Hm; cbn; destruct (Hu m ltac:(lia)) as [[] []]; done. }
  destruct (claim_stmt_inv _ _ _ _ _ _ _ _ _ _ (Hcl _ eq_refl)) as [[-> ->]|(j&Hj&_&->&->)].
  { destruct f; (split; [done|]); intros m Hm; cbn; destruct (Hu m ltac:(lia)) as [[] []]; done. }
  assert (∀ u, u ≠ token → u ≠ runID → unused s u →
    unused (mkSys (mkDb (<[jobID := claimed_row now wid token deadline j]> (jobs (s_db s)))
      (job_runs (s_db s) ++ [opened_run runID now (claimed_row now wid token deadline j)]) (dead_letter (s_db s)))
      (mkClaim jobID runID token :: s_claims s) (s_replays s)) u) as Hus.
  { intros u ?? [Hju ????]. assert (u ≠ jobID) by congruence.
    split; cbn; [by rewrite lookup_insert_ne|by apply not_elem_of_cons|done|by apply not_elem_of_cons|by apply not_elem_of_cons]. }
  assert (∀ m, (S k <= m)%nat →
    (t_uuid (o m) ≠ token ∧ t_uuid (o m) ≠ runID) ∧ (t_uuid' (o m) ≠ token ∧ t_uuid' (o m) ≠ runID)) as Hne.
  { intros m Hm. unfold token, runID. repeat split.
    - intros He%(fo_inj o Hfresh). lia.
    - apply (fo_apart o Hfresh).
    - intros He. by apply (fo_apart o Hfresh k m).
    - intros He%(fo_inj' o Hfresh). lia. }
  assert (C ⊆ mkClaim jobID runID token :: s_claims s) as Hsub by (intros c Hc; right; by apply HC).
  assert (mkSys (s_db s) (s_claims s) (s_replays s) = s) as Hs_eta by (by destruct s).
  destruct f; cbn [fst snd]; rewrite ?Hs_eta;
    (split; [|intros m Hm; destruct (Hu m ltac:(lia)), (Hne m Hm) as [[] []]; by auto]); [|done|done].
  intros c [->|Hc]%elem_of_cons; [by left|right; by apply HC].
Qed.

(** ** Programs that keep track

    [good C0 c]: from tables that are reached, with the claims [C0] made, [c] goes to
    tables that are reached, and forgets no claim. *)
Definition good {A} (C0 : list claim) (c : prog A) : Prop := ∀ C n w,
  C0 ⊆ C → tracked n C w → tracked (fst (fst (c o (n, w)))) C (snd (fst (c o (n, w)))).

Section rules.
Variable C0 : list claim.

Lemma good_pret {A} (a : A) : good C0 (pret a).
Proof. by intros C n w. Qed.

Lemma good_local {A} (f : turn → A) : good C0 (local f).
Proof. by intros C n w. Qed.

Lemma good_pbind {A B} (c : prog A) (k : A → prog B) : good C0 c → (∀ a, good C0 (k a)) → good C0 (pbind c k).
Proof.
  intros Hc Hk C n w HC Hw. unfold pbind. specialize (Hc C n w HC Hw). destruct (c o (n, w)) as [[n' w'] a]. by apply Hk.
Qed.

Lemma good_ask {A} (f : turn → world → A) : good C0 (ask f).
Proof. intros C n w _ Hw. eapply tracked_weaken; [| |by apply tracked_env]; [cbn; lia|done]. Qed.

Lemma good_on {S A} get set (f : turn → S → S * A) :
  (∀ t k C w, C0 ⊆ C → tracked k C w → tracked k C (set w (fst (f t (get w))))) → good C0 (on get set f).
Proof.
  intros Hf C n w HC Hw. rewrite on_run. cbn. eapply tracked_weaken; [| |apply Hf, tracked_env, Hw]; [lia|done..].
Qed.

Lemma good_elsewhere {S A} get set (f : turn → S → S * A) :
  (∀ w s, w_db (set w s) = w_db w) → good C0 (on get set f).
Proof. intros Hset. apply good_on. intros t k C w _. apply tracked_same, Hset. Qed.

Lemma good_redis {A} (f : turn → redis → redis * A) : good C0 (on_redis f).
Proof. by apply good_elsewhere. Qed.
Lemma good_tenants {A} (f : turn → tenants → tenants * A) : good C0 (on_tenants f).
Proof. by apply good_elsewhere. Qed.
Lemma good_schedules {A} (f : turn → schedules → schedules * A) : good C0 (on_schedules f).
Proof. by apply good_elsewhere. Qed.
Lemma good_buckets {A} (f : turn → gmap uuid bucket → gmap uuid bucket * A) : good C0 (on_buckets f).
Proof. by apply good_elsewhere. Qed.

(** A call that only changes rows. *)
Lemma good_plain {A} (f : turn → fault) (st : turn → stmt db A) :
  (∀ t s, C0 ⊆ s_claims s → step s (with_db s (fst (exec (f t) (st t) (s_db s))))) →
  (∀ t d d' a, keyed (jobs d) → st t d = Ok (d', a) → rows_step KPlain (jobs d) (jobs d')) →
  good C0 (on_db (λ t, exec (f t) (st t))).
Proof. intros Hst Hr. apply good_on. intros t k C w HC. apply (tracked_plain C0); eauto. Qed.
End rules.

#[local] Hint Resolve good_pret good_local good_ask good_redis good_tenants good_schedules good_buckets : sluice.

(** Walks through a program: its binds, branches and calls. *)
Ltac good_walk :=
  repeat first
    [ solve [auto with sluice]
    | match goal with
      | |- good _ (pbind _ _) => apply good_pbind; [|intros ?]
      | |- good _ (match ?x with _ => _ end) => destruct x
      | |- good _ (let _ := _ in _) => cbv zeta
      end ].

(** ** The scheduler *)
Lemma good_release C0 (promote : promote_call) n :
  good C0 (on_db (λ t, promote (t_fault t) (t_server t) releaseBatchSize (t_locked t) (t_plan t) (t_plan' t))) →
  good C0 (release promote n).
Proof. intros Hp. induction n as [|n IH]; cbn [release]; good_walk. Qed.

Lemma good_poll C0 : good C0 pollScheduledJobs ∧ good C0 pollFailedJobs.
Proof.
  split; apply good_release, (good_plain C0 t_fault (λ t, promote _ _ (t_server t) _ (t_locked t) (t_plan t) (t_plan' t)));
    intros t ?; [intros; apply st_promote_scheduled|intros d' a Hk|intros; apply st_promote_failed|intros d' a Hk];
    apply promote_rows; try done; intros; [by apply rs_release|by apply rs_retry].
Qed.

Lemma good_reap C0 l : good C0 (reap l).
Proof.
  induction l as [|j l IH]; cbn [reap]; good_walk.
  apply (good_plain C0 t_fault (λ t, requeue_tx _ _ (ID j))); [intros; apply st_requeue|]. intros. by eapply requeue_rows.
Qed.

Lemma good_promoteDead C0 fuel : good C0 (promoteDeadJobs fuel).
Proof.
  induction fuel as [|fuel IH]; cbn [promoteDeadJobs]; good_walk.
  apply (good_plain C0 t_fault (λ t, move_stmt _ _ (t_plan t))); [intros; apply st_move|].
  intros t d d' a _ Ha. rewrite (move_rows _ _ _ _ _ _ Ha). apply rows_step_refl.
Qed.

Lemma good_prune_loop C0 prune fuel : good C0 (on_db prune) → good C0 (prune_loop prune fuel).
Proof. intros Hp. induction fuel as [|fuel IH]; cbn [prune_loop]; good_walk. Qed.

Lemma filter_true (l : list run_row) : filter (λ _, true = true) l = l.
Proof. induction l as [|r l IH]; [done|]. rewrite filter_cons_True by done. by rewrite IH. Qed.

Lemma good_runs C0 {A} (f : turn → fault) (st : turn → stmt (partitions * list run_row) A) :
  (∀ t s s' a, st t s = Ok (s', a) → ∃ keep, snd s' = filter (λ r : run_row, keep r = true) (snd s)) →
  good C0 (on_runs (λ t, exec (f t) (st t))).
Proof.
  intros Hst. apply good_on. intros t k C w HC Hw. destruct (exec_cases (f t) (st t) (w_runs w)) as [->|[a Ha]].
  - by rewrite set_runs_same.
  - set (s' := fst _) in *. destruct (Hst t _ _ _ Ha) as [keep Hkeep].
    apply (tracked_same _ _ (set_db w (fst (exec NoFault (drop_runs keep) (w_db w))))).
    + cbn. by rewrite Hkeep.
    + apply (tracked_plain C0); [intros; apply st_drop_runs| |done|done].
      intros d' u _ [= <- _]. apply rows_step_refl.
Qed.

Lemma good_drop_each C0 l : ∀ acc, good C0 (drop_each l acc).
Proof.
  induction l as [|name l IH]; intros acc; cbn [drop_each]; good_walk.
  apply (good_runs C0 t_fault (λ _, drop_stmt name)). intros _ [ps runs] s' a. unfold drop_stmt.
  destruct (ps !! name) as [b|]; intros [= <- _].
  - exists (λ r, negb (within b r)). cbn. apply list_filter_iff. intros r. by destruct (within b r).
  - exists (λ _, true). cbn. by rewrite filter_true.
Qed.

Lemma good_retention C0 retention fuel : good C0 (enforceRetention retention fuel).
Proof.
  unfold enforceRetention, DropJobRunsPartitionsBefore. good_walk; [..|apply good_drop_each]; apply good_prune_loop.
  - apply (good_plain C0 t_fault (λ t, prune_finished_stmt _ _ (t_plan t))); [intros; apply st_prune_finished|].
    intros. by eapply prune_finished_rows.
  - apply (good_plain C0 t_fault (λ t, prune_dead_stmt _ _ (t_plan_ids t))); [intros; apply st_prune_dead|].
    intros. by eapply prune_dead_rows.
Qed.

Lemma good_partitions C0 : good C0 ensurePartitions.
Proof.
  unfold ensurePartitions. good_walk. generalize (date_of a). intros d.
  induction (seqZ 1 (Z.of_nat partitionLookaheadMonths)) as [|i l IH]; cbn [ensure_each]; good_walk.
  apply (good_runs C0 t_fault (λ _, create_stmt _)). intros _ [ps runs] s' u. unfold create_stmt. cbv zeta.
  repeat case_match; intros [= <- _]; exists (λ _, true); cbn; by rewrite filter_true.
Qed.

(** ** Inserting a job *)
Lemma Build_submittable tmpl id tenantID now j : Build tmpl id tenantID now = Ok j → submittable j.
Proof.
  unfold Build. destruct (validate _) as [[]|] eqn:Hv; [|done]. intros [= <-].
  apply validate_Ok in Hv as (_&Hm&_). split; [by left|by split].
Qed.

Lemma submitted_submittable req id tenantID trace now j :
  submitted_job req id tenantID trace now = Ok j → submittable j.
Proof.
  unfold submitted_job. destruct (Build _ _ _ _) as [j0|] eqn:Hb; [|done].
  destruct (Build_submittable _ _ _ _ _ Hb) as (Hs&Ha&Hm). intros [= <-].
  destruct (sub_RunAt req) as [at_|]; [case_match|]; (split; [|by split]); [by right|done..].
Qed.

(** The identifier was drawn at the turn [m], the call is made at the turn [n]. *)
Lemma insert_tracked {B} j (k : result storage_error unit → prog B) C m n w :
  submittable j → ID j = t_uuid (o m) → (m <= n)%nat → (∀ r, good C (k r)) → tracked m C w →
  let s := pbind (on_db (λ t, InsertJob (t_fault t) j)) k o (n, w) in
  tracked (fst (fst s)) C (snd (fst s)).
Proof.
  intros Hsub Hid Hm Hk Hw. cbv zeta. unfold pbind. unfold on_db. rewrite on_run. cbv zeta. apply Hk; [done|].
  eapply tracked_weaken; [| |by apply tracked_insert, tracked_env]; [lia|done].
Qed.

Lemma good_submit limiter tn trace req : good [] (handleSubmitJob limiter tn trace req).
Proof.
  intros C n w _ Hw. unfold handleSubmitJob. destruct req as [req|]; [|done].
  destruct (negb (key_ok _)); [done|]. rewrite !pbind_local.
  destruct (submitted_job _ _ _ _ _) as [j|e] eqn:Hj; [|done].
  pose proof (submitted_submittable _ _ _ _ _ _ Hj) as Hsub. destruct (submitted_job_cols _ _ _ _ _ _ Hj) as [Hid _].
  assert (∀ n' w', (n <= n')%nat → tracked n C w' →
    let s := store_job (tn_ID tn) (sub_IdempotencyKey req) j o (n', w') in
    tracked (fst (fst s)) C (snd (fst s))) as Hstore.
  { intros n' w' Hn Hw'. apply (insert_tracked j _ C n); [done..| |done]. intros r. good_walk. }
  destruct limiter.
  - unfold pbind, on_buckets. rewrite on_run. cbv zeta.
    assert (∀ bs, tracked n C (set_buckets (t_env (o n) w) bs)) as Hw1
      by (intros bs; by apply (tracked_same _ _ (t_env (o n) w)), tracked_env).
    destruct (snd _) as [[]|]; [apply Hstore; [lia|done]| |apply Hstore; [lia|done]].
    cbn. eapply tracked_weaken; [| |apply Hw1]; [lia|done].
  - by apply Hstore.
Qed.

Lemma good_fire_update C0 s now next r : good C0 (fire_update s now next r).
Proof. unfold fire_update. good_walk. Qed.
#[local] Hint Resolve good_fire_update : sluice.

Lemma good_fireSchedule s : good [] (fireSchedule s).
Proof.
  intros C n w _ Hw. unfold fireSchedule. destruct (cron_ok _ && _); [|done]. rewrite !pbind_local. cbv zeta.
  destruct (json_Template _) as [tmpl|]; [|done].
  destruct (Build tmpl _ _ _) as [j0|] eqn:Hb; [|done].
  destruct (Build_job _ _ _ _ _ Hb) as [Hid _].
  apply (insert_tracked _ _ C n n); [by apply (Build_submittable _ _ _ _ _ Hb)|done|done| |done].
  intros r. good_walk.
Qed.

Lemma good_enqueue_each C0 l : good C0 (enqueue_each l).
Proof. induction l as [|j l IH]; cbn [enqueue_each]; good_walk. Qed.
#[local] Hint Resolve good_enqueue_each : sluice.

Lemma good_reconcile C0 fuel : ∀ cursor checked, good C0 (reconcile_loop fuel cursor checked).
Proof. induction fuel as [|fuel IH]; intros cursor checked; cbn [reconcile_loop]; good_walk. Qed.

Lemma good_recover C0 l : good C0 (recover_each l).
Proof. induction l as [|id l IH]; cbn [recover_each]; good_walk. Qed.

Lemma good_expandCron : good [] expandCron.
Proof.
  unfold expandCron. good_walk. induction a as [|s l IH]; cbn [fire_each]; good_walk. apply good_fireSchedule.
Qed.

(** Every loop of a leader. *)
Lemma good_ticks C0 body n : good C0 body → good C0 (ticks body n).
Proof. intros Hb. induction n as [|n IH]; cbn [ticks]; good_walk. Qed.

Lemma good_run_loop retention fuel l n : good [] (run_loop retention fuel l n).
Proof.
  pose proof (good_poll []) as [? ?]. pose proof (good_retention [] retention fuel). pose proof (good_partitions []).
  pose proof good_expandCron. pose proof (good_promoteDead [] fuel). pose proof (good_reconcile [] 11 zero_cursor 0).
  pose proof (good_reap []). pose proof (good_recover []).
  destruct l; cbn [run_loop];
    unfold runDuePoll, runStaleReaper, runDeadLetterPromoter, runQueueDepthExporter, runPendingReconciler,
      runDeadWorkerRecovery, runRetention, runPartitionMaintainer, runCronExpander, reapStaleClaims, reconcilePending,
      recoverDeadWorkerJobs, exportQueueDepths;
    good_walk; apply good_ticks; good_walk.
Qed.

Lemma good_Run C0 lead campaigns : good C0 lead → good C0 (Run lead campaigns).
Proof. intros Hl. induction campaigns as [|[] l IH]; cbn [Run]; good_walk. Qed.

(** ** The worker *)
Lemma good_write C0 f now id run tok out :
  mkClaim id run tok ∈ C0 → good C0 (on_db (λ t, record out (f t) (now t) id run tok)).
Proof.
  intros Hc. unfold record. destruct out.
  - apply (good_plain C0 f (λ t, complete_stmt (now t) id run tok)).
    + intros t s HC. apply (st_complete s (f t) (now t) (mkClaim id run tok)). by apply HC.
    + intros. by eapply complete_rows.
  - apply (good_plain C0 f (λ t, fail_stmt (now t) id run tok errMsg nextRunAt)).
    + intros t s HC. apply (st_fail s (f t) (now t) (mkClaim id run tok)). by apply HC.
    + intros. by eapply fail_rows.
Qed.

Lemma good_retry C0 write n : good C0 write → good C0 (retryRecord write n).
Proof. intros Hw. induction n as [|n IH]; cbn [retryRecord]; good_walk. Qed.

Lemma good_beat C0 id run tok : mkClaim id run tok ∈ C0 → good C0 (heartbeat_tick id tok).
Proof.
  intros Hc. unfold heartbeat_tick. good_walk.
  apply (good_plain C0 t_fault (λ t, extend_stmt id tok (t_now t + HeartbeatTTL))).
  - intros t s HC. apply (st_extend s (t_fault t) (mkClaim id run tok)). by apply HC.
  - intros. by eapply extend_rows.
Qed.

(** A claim draws its token and its run identifier at one turn. *)
Lemma claim_tracked {B} wk item deadline (k : result storage_error (option (Job * uuid)) → prog B) C n w :
  let token := t_uuid (o n) in
  (∀ j run, good [mkClaim (it_JobID item) run token] (k (Ok (Some (j, run))))) →
  good [] (k (Ok None)) → (∀ e, good [] (k (Err e))) → tracked n C w →
  let s := pbind (Worker.claim wk item token deadline) k o (n, w) in
  tracked (fst (fst s)) C (snd (fst s)).
Proof.
  intros token Hsome Hnone Herr Hw. cbv zeta.
  assert (∀ f st locked now, tracked n C (t_env (o n) w) →
    (∀ s, fresh_claim s (t_uuid' (o n)) token →
       step s (mkSys (fst (exec f st (s_db s))) (note_claim f (it_JobID item) token (st (s_db s)) (s_claims s)) (s_replays s))) →
    (∀ d r, st d = Ok r → claim_stmt locked now (it_JobID item) (wk_id wk) token deadline (t_uuid' (o n)) d = Ok r) →
    let c := exec f st (w_db (t_env (o n) w)) in
    let s := k (snd c) o (S n, set_db (t_env (o n) w) (fst c)) in
    tracked (fst (fst s)) C (snd (fst s))) as Hrun.
  { intros f st locked now Hw1 Hst Hcl. pose proof (tracked_claim n C _ f st locked now _ _ _ Hst (Hcl _) Hw1) as Ht.
    revert Ht. cbv zeta. generalize (set_db (t_env (o n) w) (fst (exec f st (w_db (t_env (o n) w))))). intros w2.
    assert ([] ⊆ C) as Hnil by apply list_subseteq_nil.
    destruct (snd _) as [[[j run]|]|e]; intros Ht; [|by apply Hnone|by apply Herr].
    assert (∀ p, tracked (fst p) (mkClaim (it_JobID item) run token :: C) (snd p) → tracked (fst p) C (snd p)) as Hdrop.
    { intros p. apply tracked_weaken; [done|]. intros c ?. by right. }
    apply Hdrop, Hsome; [|done]. intros c ->%list_elem_of_singleton. by left. }
  pose proof (tracked_env _ _ n _ Hw) as Hw1. unfold Worker.claim, on_db.
  destruct (uuid_Parse _) as [tid|]; [case_match|]; unfold pbind; rewrite on_run; cbv zeta.
  - apply (Hrun _ (claim_limited_tx _ _ _ tid _ _ _ _ _) (t_locked (o n)) (t_now (o n))); [done|intros s Hs; by apply st_claim_limited|].
    intros d r Hr. by apply claim_limited_inv in Hr as [? _].
  - apply (Hrun _ (claim_stmt _ _ _ _ _ _ _) (t_locked (o n)) (t_now (o n))); [done|intros s Hs; by apply st_claim|done].
  - apply (Hrun _ (claim_stmt _ _ _ _ _ _ _) (t_locked (o n)) (t_now (o n))); [done|intros s Hs; by apply st_claim|done].
Qed.

Lemma good_process error_text rnd wk order item : good [] (process error_text rnd wk order item).
Proof.
  unfold process. good_walk. intros C n w _ Hw. unfold process_item. rewrite !pbind_local.
  apply claim_tracked; [| | |done].
  - intros j run. unfold run_claimed, execute_job, webhookSecret. good_walk.
    apply good_retry, good_write. by left.
  - good_walk.
  - intros e. good_walk.
Qed.

Lemma good_loop error_text rnd draws refresh order waits turns : ∀ wk,
  good [] (loop error_text rnd draws refresh order waits turns wk).
Proof.
  assert (∀ deadline id l waits, good [] (pop_loop deadline id l waits)) as Hpop
    by (intros deadline id l; induction waits0 as [|k IH]; cbn [pop_loop]; good_walk).
  induction turns as [|turns IH]; intros wk; cbn [loop]; unfold pull, Pop; good_walk; apply good_process.
Qed.

(** ** The command line tool *)
Lemma good_replay C0 id tenantID : good C0 (replay_job id tenantID).
Proof. unfold replay_job. good_walk. apply good_on. intros t k C w _. apply tracked_replay. Qed.
#[local] Hint Resolve good_replay : sluice.

Lemma good_succeeded {A} (c : prog (option A)) : good [] c → good [] (succeeded c).
Proof. intros Hc. unfold succeeded. good_walk. Qed.

Lemma good_drain_keys C0 keys : ∀ a b, good C0 (drain_keys keys a b).
Proof. induction keys as [|k l IH]; intros a b; cbn [drain_keys]; unfold drain_key; good_walk. Qed.

Lemma good_drain pages markers : good [] (cmdDrain pages markers).
Proof.
  assert (good [] (clear_markers markers)) by (induction markers as [|[[]|] l IH]; cbn [clear_markers]; unfold fatalf; good_walk).
  assert (∀ a b, good [] (drain_pages pages a b))
    by (induction pages as [|[] l IH]; intros a b; cbn [drain_pages]; unfold fatalf; good_walk; auto using good_drain_keys).
  unfold cmdDrain, fatalf. good_walk.
Qed.

Lemma good_dump pages : good [] (cmdDumpScheduler pages).
Proof.
  assert (∀ l, good [] (key_depths l)) by (induction l as [|k l IH]; cbn [key_depths]; good_walk).
  assert (good [] (scan_depths pages)) by (induction pages as [|[] l IH]; cbn [scan_depths]; good_walk).
  unfold cmdDumpScheduler, fatalf. good_walk.
Qed.

Lemma good_command c : good [] (run_command c).
Proof.
  destruct c; cbn [run_command]; apply good_succeeded; auto using good_drain, good_dump;
    unfold cmdReplay, cmdForceFailArgs, cmdListDead, cmdQueueDepth, cmdCreateTenant, cmdRotateKey, cmdRotateWebhookSecret,
      with_tenant, cmdEnableDevTenant, cmdSetTenantLimits, fatalf; good_walk.
  apply (good_plain [] t_fault (λ t, force_fail_tx (t_server t) _)); [intros; apply st_force_fail|].
  intros. by eapply force_rows.
Qed.

(** ** The API *)
Lemma good_cancel tn param : good [] (handleCancelJob tn param).
Proof.
  unfold handleCancelJob. good_walk. apply (good_plain [] t_fault (λ t, cancel_stmt (t_server t) _ _)); [intros; apply st_cancel|].
  intros. by eapply cancel_rows.
Qed.

Lemma good_snapshot C0 tn : good C0 (snapshot tn).
Proof. unfold snapshot. good_walk. Qed.

Lemma good_v1 limiter rq tn : good [] (serve_v1 limiter rq tn).
Proof.
  pose proof (good_snapshot [] tn). unfold serve_v1. good_walk; auto using good_submit, good_cancel;
    unfold handleListJobs, handleGetJob, handleListJobRuns, handleReplayJob, handleWebhookSecret, handleCreateSchedule,
      handleListSchedules, handleGetSchedule, handleDeleteSchedule, handleUpdateSchedule, handleStats, handleRecentRuns,
      handleDeadLetter; good_walk.
Qed.

Lemma good_admin h rq : good [] (serve_admin h rq).
Proof.
  unfold serve_admin. good_walk;
    unfold handleAdminCreateTenant, handleAdminListTenants, handleAdminGetTenant, handleAdminUpdateTenant,
      handleAdminRotateKey, handleAdminRotateWebhookSecret, with_tenant_id, writeAdminTenant, apply_limits, apply_status;
    good_walk.
Qed.

Lemma good_with_key key c next : (∀ tn, good [] (next tn)) → good [] (with_key key c next).
Proof. intros Hn. unfold with_key, lookup_key. good_walk. Qed.

Lemma good_serve limiter h ticks rq c : good [] (serve limiter h ticks rq c).
Proof.
  assert (∀ tn, good [] (ws_stream tn ticks))
    by (intros tn; induction ticks as [|k IH]; cbn [ws_stream]; good_walk; apply good_snapshot).
  unfold serve, handleReady, handleWebSocket, authMiddleware.
  good_walk; try (apply good_with_key; intros tn); good_walk; auto using good_v1, good_admin.
Qed.

(** ** All of it *)
Lemma good_alive C0 wk n : good C0 (run_alive wk n).
Proof. unfold run_alive. good_walk; apply good_ticks; good_walk. Qed.

Lemma good_run_tenants C0 n wk : good C0 (run_tenants n wk).
Proof.
  assert (∀ wk, good C0 (loadTenants wk)) by (intros wk'; unfold loadTenants; good_walk).
  assert (∀ wk, good C0 (refresh_tenants n wk))
    by (induction n as [|k IH]; intros wk'; cbn [refresh_tenants]; good_walk).
  unfold run_tenants. good_walk.
Qed.

Lemma good_activity C0 a : (∀ c, a = Beat c → c ∈ C0) → good C0 (run_activity a).
Proof.
  intros Hc.
  assert (∀ {A} (c : prog A), good [] c → good C0 c) as Hany
    by (intros A c Hg C n w _; apply Hg, list_subseteq_nil).
  destruct a as [| | | | |[id run tok]|]; cbn [run_activity]; good_walk.
  - apply Hany, good_serve.
  - apply Hany, good_Run, good_run_loop.
  - apply Hany, good_loop.
  - apply good_alive.
  - apply good_run_tenants.
  - by apply (good_beat C0 id run tok), Hc.
  - apply Hany, good_command.
Qed.

Lemma good_run_all C0 l : (∀ c, Beat c ∈ l → c ∈ C0) → good C0 (run_all l).
Proof.
  induction l as [|a l IH]; intros Hc; cbn [run_all]; good_walk.
  - apply good_activity. intros c ->. apply Hc. by left.
  - apply IH. intros c Hin. apply Hc. by right.
Qed.
End programs.

Section refinement.
Context `{!UuidText} `{!PgText} `{!InputLib} `{!CronLib} `{!SessionZone} `{!HttpLib} `{!LuaNum} `{!Bodies} `{!Chi}.

End refinement.
