(* ===== verification/QueuePrograms.v ===== *)
(** * The programs keep the queues sound

    [QueueInv] proves the queue invariant over any sequence of queue calls. Here every
    call the processes make on Redis is shown to be one of them: requeued items were
    popped from lanes, recovered lists are processing lists. So at any moment of a
    running system an enqueue that reports success leaves its job queued. *)

From S2P Require Import Prelude GoBase Encoding Job Redis Queue QueueInv Ratelimit Db Partitions Storage Tenants Schedules Stats.
From S2P Require Import World Webhook Worker Scheduler Api Admin Server Cli Process Lifecycle Programs.

Open Scope Z_scope.

Section sound.
Context `{!UuidText} `{!PgText} `{!InputLib} `{!CronLib} `{!SessionZone} `{!HttpLib} `{!LuaNum} `{!Bodies} `{!Chi}.
Variable o : oracle.

(** Redis' clock does not go back, and SCAN returns keys of its pattern. *)
Record redis_ok : Prop := {
  ro_clock n : t_server (o n) <= t_server (o (S n));
  ro_scans n : Forall (λ reply, ∀ ks, reply = Some ks → Forall (λ s, has_prefix processingPrefix (sk_key s)) ks) (t_scans (o n));
}.

Definition sane (n : nat) (w : world) : Prop := queue_inv (t_server (o n)) (w_redis w).

Hypothesis Hredis : redis_ok.
Hypothesis Henv : ∀ n w, sane n w → sane n (t_env (o n) w).

(** ** Programs that keep the invariant, with a promise about their result *)
Definition sound {A} (c : prog A) (Q : A → Prop) : Prop := ∀ n w,
  sane n w → sane (fst (fst (c o (n, w)))) (snd (fst (c o (n, w)))) ∧ Q (snd (c o (n, w))).

Lemma sane_next n w w' : w_redis w' = w_redis w → sane n w → sane (S n) w'.
Proof. unfold sane. intros ->. apply queue_inv_tick, Hredis. Qed.

Lemma sound_pret {A} (a : A) (Q : A → Prop) : Q a → sound (pret a) Q.
Proof. by intros Ha n w. Qed.

Lemma sound_local {A} (f : turn → A) : sound (local f) (λ _, True).
Proof. by intros n w. Qed.

Lemma sound_ask {A} (f : turn → world → A) : sound (ask f) (λ _, True).
Proof. intros n w Hw. split; [|done]. apply (sane_next n (t_env (o n) w)); [done|by apply Henv]. Qed.

Lemma sound_bind {A B} (c : prog A) (k : A → prog B) R Q :
  sound c R → (∀ a, R a → sound (k a) Q) → sound (pbind c k) Q.
Proof.
  intros Hc Hk n w Hw. unfold pbind. destruct (Hc n w Hw) as [Hi Hr]. destruct (c o (n, w)) as [[n' w'] a]. by apply Hk.
Qed.

Lemma sound_pbind {A B} (c : prog A) (k : A → prog B) Q :
  sound c (λ _, True) → (∀ a, sound (k a) Q) → sound (pbind c k) Q.
Proof. intros Hc Hk. apply (sound_bind c k (λ _, True)); [done|]. intros a _. apply Hk. Qed.

Lemma sound_elsewhere {S A} get set (f : turn → S → S * A) :
  (∀ w s, w_redis (set w s) = w_redis w) → sound (on get set f) (λ _, True).
Proof.
  intros Hset n w Hw. rewrite on_run. cbn. split; [|done].
  apply (sane_next n (t_env (o n) w)); [apply Hset|by apply Henv].
Qed.

Lemma sound_db {A} (f : turn → db → db * A) : sound (on_db f) (λ _, True).
Proof. by apply sound_elsewhere. Qed.
Lemma sound_tenants {A} (f : turn → tenants → tenants * A) : sound (on_tenants f) (λ _, True).
Proof. by apply sound_elsewhere. Qed.
Lemma sound_schedules {A} (f : turn → schedules → schedules * A) : sound (on_schedules f) (λ _, True).
Proof. by apply sound_elsewhere. Qed.
Lemma sound_buckets {A} (f : turn → gmap uuid bucket → gmap uuid bucket * A) : sound (on_buckets f) (λ _, True).
Proof. by apply sound_elsewhere. Qed.
Lemma sound_runs {A} (f : turn → partitions * list run_row → (partitions * list run_row) * A) :
  sound (on_runs f) (λ _, True).
Proof. by apply sound_elsewhere. Qed.

(** A call on Redis that is a step of the queue. *)
Lemma sound_redis {A} (f : turn → redis → redis * A) Q :
  (∀ n r, queue_inv (t_server (o n)) r →
     queue_step (t_server (o n), r) (t_server (o n), fst (f (o n) r)) ∧ Q (snd (f (o n) r))) →
  sound (on_redis f) Q.
Proof.
  intros Hf n w Hw. unfold on_redis. rewrite on_run. cbn. specialize (Henv n w Hw) as Hw1.
  destruct (Hf n _ Hw1) as [Hst HQ]. split; [|done]. apply queue_inv_step in Hst; [|done].
  by apply (sane_next n (set_redis w (fst (f (o n) (w_redis (t_env (o n) w)))))).
Qed.

Lemma sound_enqueue tenantID jobID priority :
  sound (on_redis (λ t, Enqueue (t_fault t) (t_server t) tenantID jobID priority)) (λ _, True).
Proof. apply sound_redis. intros n r _. split; [apply qs_enqueue|done]. Qed.

Lemma sound_enqueue_many entries : sound (on_redis (λ t, EnqueueMany (t_cut t) (t_server t) entries)) (λ _, True).
Proof. apply sound_redis. intros n r _. split; [apply qs_enqueue_many|done]. Qed.

Lemma sound_remove w jobID : sound (on_redis (λ t, RemoveFromProcessing (t_fault t) (t_server t) w jobID)) (λ _, True).
Proof. apply sound_redis. intros n r _. split; [apply qs_remove|done]. Qed.

Lemma sound_requeue item :
  lane_key (it_List item) → sound (on_redis (λ t, Requeue (t_fault t) (t_server t) item)) (λ _, True).
Proof. intros Hi. apply sound_redis. intros n r _. split; [by apply qs_requeue|done]. Qed.

#[local] Hint Resolve sound_pret sound_local sound_ask sound_db sound_tenants sound_schedules sound_buckets sound_runs
  sound_enqueue sound_enqueue_many sound_remove sound_requeue : sluice.

Ltac sound_walk :=
  repeat first
    [ solve [auto with sluice]
    | match goal with
      | |- sound (pbind _ _) _ => apply sound_pbind; [|intros ?]
      | |- sound (match ?x with _ => _ end) _ => destruct x
      | |- sound (let _ := _ in _) _ => cbv zeta
      end ].

(** ** The scheduler *)
Lemma sound_release promote n : sound (release promote n) (λ _, True).
Proof. induction n as [|n IH]; cbn [release]; sound_walk. Qed.

Lemma sound_reap l : sound (reap l) (λ _, True).
Proof. induction l as [|j l IH]; cbn [reap]; sound_walk. Qed.

Lemma sound_promoteDead fuel : sound (promoteDeadJobs fuel) (λ _, True).
Proof. induction fuel as [|fuel IH]; cbn [promoteDeadJobs]; sound_walk. Qed.

Lemma sound_prune_loop prune fuel : sound (prune_loop prune fuel) (λ _, True).
Proof. induction fuel as [|fuel IH]; cbn [prune_loop]; sound_walk. Qed.

Lemma sound_drop_each l : ∀ acc, sound (drop_each l acc) (λ _, True).
Proof. induction l as [|name l IH]; intros acc; cbn [drop_each]; sound_walk. Qed.

Lemma sound_ensure_each d l : sound (ensure_each d l) (λ _, True).
Proof. induction l as [|i l IH]; cbn [ensure_each]; sound_walk. Qed.

Lemma sound_enqueue_each l : sound (enqueue_each l) (λ _, True).
Proof. induction l as [|j l IH]; cbn [enqueue_each]; sound_walk. Qed.

#[local] Hint Resolve sound_release sound_reap sound_promoteDead sound_prune_loop sound_drop_each sound_ensure_each
  sound_enqueue_each : sluice.

Lemma sound_reconcile fuel : ∀ cursor checked, sound (reconcile_loop fuel cursor checked) (λ _, True).
Proof. induction fuel as [|fuel IH]; intros cursor checked; cbn [reconcile_loop]; sound_walk. Qed.

Lemma sound_recover l : sound (recover_each l) (λ _, True).
Proof. induction l as [|id l IH]; cbn [recover_each]; sound_walk. Qed.

Lemma sound_dead_workers :
  sound (on_redis (λ t r, let '(r', ids, _) := DeadWorkerJobs (t_server t) (t_scans t) r in (r', ids))) (λ _, True).
Proof.
  apply sound_redis. intros n r _. split; [|done].
  pose proof (qs_dead_workers (t_server (o n)) r (t_scans (o n)) (ro_scans Hredis n)) as Hst.
  by destruct (DeadWorkerJobs _ _ _) as [[r' ids] ?].
Qed.

Lemma sound_fire s : sound (fireSchedule s) (λ _, True).
Proof. unfold fireSchedule, fire_update. sound_walk. Qed.

Lemma sound_fire_each l : sound (fire_each l) (λ _, True).
Proof. pose proof sound_fire. induction l as [|s l IH]; cbn [fire_each]; sound_walk. Qed.

#[local] Hint Resolve sound_reconcile sound_recover sound_dead_workers sound_fire_each : sluice.

Lemma sound_ticks body n : sound body (λ _, True) → sound (ticks body n) (λ _, True).
Proof. intros Hb. induction n as [|n IH]; cbn [ticks]; sound_walk. Qed.

Lemma sound_run_loop retention fuel l n : sound (run_loop retention fuel l n) (λ _, True).
Proof.
  destruct l; cbn [run_loop];
    unfold runDuePoll, runStaleReaper, runDeadLetterPromoter, runQueueDepthExporter, runPendingReconciler,
      runDeadWorkerRecovery, runRetention, runPartitionMaintainer, runCronExpander, pollScheduledJobs, pollFailedJobs,
      reapStaleClaims, reconcilePending, recoverDeadWorkerJobs, exportQueueDepths, enforceRetention,
      DropJobRunsPartitionsBefore, ensurePartitions, expandCron;
    sound_walk; apply sound_ticks; sound_walk.
Qed.

Lemma sound_Run lead campaigns : sound lead (λ _, True) → sound (Run lead campaigns) (λ _, True).
Proof. intros Hl. induction campaigns as [|[] l IH]; cbn [Run]; sound_walk. Qed.

(** ** The worker *)

(** An item was popped from a lane. *)
Definition from_lane (r : pop_outcome) : Prop := ∀ i, r = PopItem i → lane_key (it_List i).

Lemma pop_once_lane f now w order r item :
  keyspace_ok r → snd (pop_once f now w order r) = Ok (Some item) → lane_key (it_List item).
Proof.
  intros Hok Hs. destruct f; [|discriminate Hs|].
  - destruct (pop_once NoFault now w order r) as [r' res] eqn:Hp. cbn in Hs. subst res.
    destruct (pop_once_item now w order r r' item Hok Hp) as (pre&post&_&_&Hk&_).
    pose proof (queue_keys_lanes order) as Hl. rewrite Forall_forall in Hl. apply Hl. rewrite Hk.
    apply elem_of_app. right. by left.
  - unfold pop_once, call in Hs. by destruct (popScript _ _ _ _ _ _).
Qed.

Lemma sound_pop deadline w order waits : sound (pop_loop deadline w order waits) from_lane.
Proof.
  assert (∀ r, (∀ i, r ≠ PopItem i) → from_lane r) as Hno by (intros r Hr i ->; by destruct (Hr i)).
  assert (sound (on_redis (λ t, wait_wake (t_fault t) (t_server t))) (λ _, True)) as Hwake.
  { apply sound_redis. intros n r _. split; [|done].
    destruct (t_fault (o n)); cbn; [apply qs_wake|by apply qs_tick|apply qs_wake]. }
  induction waits as [|k IH]; cbn [pop_loop];
    apply (sound_bind _ _ (λ r, ∀ i, r = Ok (Some i) → lane_key (it_List i)));
    try (apply sound_redis; intros n r Hr; split;
         [apply qs_pop|intros i Hi; exact (pop_once_lane _ _ _ _ _ _ (qi_keyspace _ _ Hr) Hi)]);
    (intros [[i|]|e] Hi; [apply sound_pret; intros j [= <-]; by apply Hi| |apply sound_pret, Hno; done]);
    sound_walk; apply Hno; done.
Qed.

Lemma sound_retry write n : sound write (λ _, True) → sound (retryRecord write n) (λ _, True).
Proof. intros Hw. induction n as [|n IH]; cbn [retryRecord]; sound_walk. Qed.

Lemma sound_process error_text rnd wk order item :
  lane_key (it_List item) → sound (process error_text rnd wk order item) (λ _, True).
Proof.
  intros Hi. unfold process, process_item, Worker.claim, run_claimed, execute_job, webhookSecret. sound_walk;
    apply sound_retry; sound_walk.
Qed.

Lemma sound_loop error_text rnd draws refresh order waits turns : ∀ wk,
  sound (loop error_text rnd draws refresh order waits turns wk) (λ _, True).
Proof.
  assert (∀ wk, sound (pull error_text rnd draws wk order waits) (λ _, True)) as Hpull.
  { intros wk. unfold pull. apply sound_pbind; [apply sound_local|]. intros now.
    destruct (dequeueTenants now wk) as [|t l]; [sound_walk|]. destruct (weightedShuffle _ _ _) as [ids| |]; [|sound_walk..].
    apply (sound_bind _ _ from_lane).
    - unfold Pop. apply sound_pbind; [apply sound_local|]. intros. apply sound_pop.
    - intros r Hr. destruct r as [item| | |]; sound_walk. apply sound_process. by apply Hr. }
  induction turns as [|turns IH]; intros wk; cbn [loop]; sound_walk.
Qed.

Lemma sound_beat jobID token : sound (heartbeat_tick jobID token) (λ _, True).
Proof. unfold heartbeat_tick. sound_walk. apply sound_redis. intros n r _. split; [apply qs_heartbeat|done]. Qed.

Lemma sound_alive wk n : sound (run_alive wk n) (λ _, True).
Proof.
  assert (sound (on_redis (λ t, MarkAlive (t_fault t) (t_server t) (wk_id wk))) (λ _, True))
    by (apply sound_redis; intros k r _; split; [apply qs_mark_alive|done]).
  unfold run_alive. sound_walk; apply sound_ticks; sound_walk.
Qed.

Lemma sound_run_tenants n wk : sound (run_tenants n wk) (λ _, True).
Proof.
  assert (∀ wk, sound (loadTenants wk) (λ _, True)) by (intros wk'; unfold loadTenants; sound_walk).
  assert (∀ wk, sound (refresh_tenants n wk) (λ _, True))
    by (induction n as [|k IH]; intros wk'; cbn [refresh_tenants]; sound_walk).
  unfold run_tenants. sound_walk.
Qed.

(** ** The command line tool, except for [drain], and the API *)
Definition is_drain (c : command) : bool := match c with Drain _ _ => true | _ => false end.

Lemma sound_key_depths l : sound (key_depths l) (λ _, True).
Proof. induction l as [|k l IH]; cbn [key_depths]; sound_walk. Qed.

Lemma sound_scan_depths pages : sound (scan_depths pages) (λ _, True).
Proof. pose proof sound_key_depths. induction pages as [|[] l IH]; cbn [scan_depths]; sound_walk. Qed.

Lemma sound_command c : is_drain c = false → sound (run_command c) (λ _, True).
Proof.
  pose proof sound_scan_depths.
  destruct c; intros Hc; try discriminate Hc; cbn [run_command]; unfold succeeded; (apply sound_pbind; [|intros; sound_walk]);
    unfold cmdReplay, cmdForceFailArgs, cmdDumpScheduler, cmdListDead, cmdQueueDepth, cmdCreateTenant, cmdRotateKey,
      cmdRotateWebhookSecret, with_tenant, cmdEnableDevTenant, cmdSetTenantLimits, replay_job, fatalf; sound_walk.
Qed.

Lemma sound_snapshot tn : sound (snapshot tn) (λ _, True).
Proof. unfold snapshot. sound_walk. Qed.

Lemma sound_v1 limiter rq tn : sound (serve_v1 limiter rq tn) (λ _, True).
Proof.
  pose proof (sound_snapshot tn). unfold serve_v1. sound_walk;
    unfold handleSubmitJob, store_job, handleCancelJob, handleListJobs, handleGetJob, handleListJobRuns, handleReplayJob,
      replay_job, handleWebhookSecret, handleCreateSchedule, handleListSchedules, handleGetSchedule, handleDeleteSchedule,
      handleUpdateSchedule, handleStats, handleRecentRuns, handleDeadLetter; sound_walk.
Qed.

Lemma sound_admin h rq : sound (serve_admin h rq) (λ _, True).
Proof.
  unfold serve_admin. sound_walk;
    unfold handleAdminCreateTenant, handleAdminListTenants, handleAdminGetTenant, handleAdminUpdateTenant,
      handleAdminRotateKey, handleAdminRotateWebhookSecret, with_tenant_id, writeAdminTenant, apply_limits, apply_status;
    sound_walk.
Qed.

Lemma sound_with_key key c next : (∀ tn, sound (next tn) (λ _, True)) → sound (with_key key c next) (λ _, True).
Proof. intros Hn. unfold with_key, lookup_key. sound_walk. Qed.

Lemma sound_serve limiter h n rq c : sound (serve limiter h n rq c) (λ _, True).
Proof.
  assert (∀ tn, sound (ws_stream tn n) (λ _, True))
    by (intros tn; induction n as [|k IH]; cbn [ws_stream]; sound_walk; apply sound_snapshot).
  unfold serve, handleReady, handleWebSocket, authMiddleware.
  sound_walk; try (apply sound_with_key; intros tn); sound_walk; auto using sound_v1, sound_admin.
Qed.

Lemma sound_activity a : (∀ c, a = Command c → is_drain c = false) → sound (run_activity a) (λ _, True).
Proof.
  intros Hc. destruct a as [| | | | | |c]; cbn [run_activity]; sound_walk.
  - apply sound_serve.
  - apply sound_Run, sound_run_loop.
  - apply sound_loop.
  - apply sound_alive.
  - apply sound_run_tenants.
  - apply sound_beat.
  - by apply sound_command, Hc.
Qed.

Lemma sound_run_all l : (∀ c, Command c ∈ l → is_drain c = false) → sound (run_all l) (λ _, True).
Proof.
  induction l as [|a l IH]; intros Hc; cbn [run_all]; sound_walk.
  - apply sound_activity. intros c ->. apply Hc. by left.
  - apply IH. intros c Hin. apply Hc. by right.
Qed.
End sound.

Section queue_refinement.
Context `{!UuidText} `{!PgText} `{!InputLib} `{!CronLib} `{!SessionZone} `{!HttpLib} `{!LuaNum} `{!Bodies} `{!Chi}.

(** C29: The queues of a running system are sound. Let the processes do anything (requests,
    leader loops, workers, heartbeats, commands other than [drain]) in any order, each
    call under any fault, with any moves of others between the calls that keep the queue
    invariant, and Redis' clock not going back. Then the invariant holds at the end: a
    live marker has its entry in a lane. So an enqueue that meets no fault reports success
    and leaves the job queued, whether it was pushed or skipped as a duplicate. *)
Theorem programs_queue_sound o n w acts :
  redis_ok o → (∀ m w', sane o m w' → sane o m (t_env (o m) w')) → sane o n w →
  (∀ c, Command c ∈ acts → is_drain c = false) →
  let '(n', w') := fst (run_all acts o (n, w)) in
  sane o n' w'
  ∧ ∀ tenantID jobID p,
      snd (Enqueue NoFault (t_server (o n')) tenantID jobID p (w_redis w')) = Ok tt
      ∧ queued (fst (Enqueue NoFault (t_server (o n')) tenantID jobID p (w_redis w'))) jobID.
Proof.
  intros Hr Henv Hw Hc. pose proof (sound_run_all o Hr Henv acts Hc n w Hw) as [Hi _].
  destruct (fst (run_all acts o (n, w))) as [n' w']. split; [done|]. intros. by apply enqueue_queued.
Qed.
End queue_refinement.
