(* ===== verification/Samples.v ===== *)
(** * Concrete runs

    A small installation on which the theorems of the components are applied: a
    database with a job in each state, a tenant, a schedule, the queues after a few calls,
    and an environment in which nothing fails. Every hypothesis is discharged by
    evaluating the definitions. *)

From S2P Require Import Prelude GoBase Encoding Job Redis Queue QueueInv Ratelimit Db Partitions Storage Tenants Schedules.
From S2P Require Import World Webhook Worker Scheduler Api StorageFacts SchedulerFacts Lifecycle Claims Integrity Scenario.
From S2P Require Import ClaimLimit RetentionFacts CronFacts WorkerFacts ApiFacts.

Open Scope Z_scope.

Module Samples.
#[local] Existing Instance HexUuid.hex_uuid_text.
Import SampleInput Scenario.

#[local] Instance sample_cron : CronLib := {|
  cron_ok := λ _, true; cron_error := λ _, EmptyString; location_ok := λ _, true; cron_Next := λ _ _ now, now + Minute;
|}.
#[local] Instance sample_http : HttpLib := {|
  new_request_ok := λ _ _, true; http_do := λ _, Some 200;
|}.
#[local] Instance sample_lua : LuaNum := {| fl := λ x, x; tostr := λ x, x |}.
#[local] Instance utc_session : SessionZone := {| midnight := month_start |}.

(** ** Checks over a whole table *)
Lemma check_map {V} (p : uuid → V → bool) (m : gmap uuid V) :
  forallb (λ kv, p (fst kv) (snd kv)) (map_to_list m) = true → ∀ k v, m !! k = Some v → p k v = true.
Proof.
  rewrite forallb_forall. intros Hall k v Hkv. apply elem_of_map_to_list, list_elem_of_In in Hkv.
  by apply Hall in Hkv.
Qed.

Lemma check_none {A} (p : A → bool) l : forallb (λ x, negb (p x)) l = true → ∀ x, x ∈ l → p x = false.
Proof. rewrite forallb_forall. intros Hall x Hx. apply list_elem_of_In, Hall in Hx. by apply negb_true_iff. Qed.

Lemma check_runs p at_ d :
  forallb (λ r, negb (p r) || bool_decide (is_Some (duration_ms at_ (rr_started_at r)))) (job_runs d) = true →
  runs_fit p at_ d.
Proof.
  rewrite forallb_forall. intros Hall r Hr Hp. apply list_elem_of_In, Hall in Hr. rewrite Hp in Hr.
  by apply bool_decide_eq_true in Hr.
Qed.

Lemma pair_snd {A B} (p : A * B) b : snd p = b → p = (fst p, b).
Proof. destruct p. by intros <-. Qed.

(** ** The installation *)
Definition now0 : Z := 100 * Hour.

Definition sample_job (id : uuid) (s : State) (attempt : Z) (token deadline done : option Z) : Job :=
  mkJob id 7%N "webhook" "{}" 5 s (98 * Hour) None None (Z.to_N <$> token) deadline attempt 2 10 None None (97 * Hour) done None.

Definition stock : db := mkDb
  (list_to_map [(1%N, sample_job 1%N StatePending 0 None None None);
                (2%N, sample_job 2%N StateScheduled 0 None None None);
                (3%N, sample_job 3%N StateFailed 1 None None None);
                (4%N, sample_job 4%N StateDead 3 None None None);
                (5%N, sample_job 5%N StateSucceeded 0 None None (Some Hour));
                (6%N, sample_job 6%N StateRunning 0 (Some 66) (Some (99 * Hour)) None);
                (8%N, sample_job 8%N StateRunning 2 (Some 88) (Some (101 * Hour)) None)])
  [mkRun 15%N 5%N 7%N 0 Hour (Some Hour) StateSucceeded None (Some 0);
   mkRun 16%N 6%N 7%N 0 (98 * Hour) None StateRunning None None;
   mkRun 18%N 8%N 7%N 2 (99 * Hour) None StateRunning None None] ∅.

Definition row (id : uuid) : Job :=
  match jobs stock !! id with Some j => j | None => sample_job 0%N StatePending 0 None None None end.

(** A turn in which nobody else moves. *)
Definition alone (f : fault) (now : Z) (fresh fresh' : uuid) : turn :=
  mkTurn (λ w, w) f None now now false ∅ plan_id plan_id plan_id plan_id plan_id plan_id plan_id [] fresh fresh'
    None None.

Definition calm (now : Z) : oracle := λ n, alone NoFault now (1000 + N.of_nat n)%N (2000 + N.of_nat n)%N.

Lemma calm_quiet now : quiet (calm now) now.
Proof. by split. Qed.

Definition tenant7 : tenant_row := mkTenantRow (mkTenant 7%N "acme" 0 100 "active" "whsec_AQID" 0) (HashAPIKey "sk_old").
Definition tenants7 : tenants := {[7%N := tenant7]}.

Definition world0 : world := mkWorld stock tenants7 ∅ SampleQueue.two_jobs ∅ ∅.

Lemma stock_keyed : keyed (jobs stock).
Proof.
  intros id j Hj. apply N.eqb_eq. apply (check_map (λ k j, (ID j =? k)%N) (jobs stock)); [vm_compute; reflexivity|done].
Qed.

Lemma stock_ids : ids_valid stock.
Proof.
  intros id j Hj. apply N.ltb_lt.
  apply (check_map (λ _ j, (ID j <? 2 ^ 128)%N) (jobs stock) eq_refl id j Hj).
Qed.

Lemma stock_stored : rows_stored stock.
Proof.
  split; [exact stock_keyed|]. intros id j Hj.
  assert ((1 <=? Priority j) && (pg_ts (CreatedAt j) =? CreatedAt j) = true) as Hb
    by (apply (check_map (λ _ j, (1 <=? Priority j) && (pg_ts (CreatedAt j) =? CreatedAt j)) (jobs stock) eq_refl id j Hj)).
  apply andb_true_iff in Hb as [Hp Hc]. split; [by apply Z.leb_le|by apply Z.eqb_eq].
Qed.

Lemma queues_ok : queue_inv now0 SampleQueue.two_jobs.
Proof.
  apply (queue_inv_reachable (now0, SampleQueue.two_jobs)).
  eapply rtc_r; [exact SampleQueue.two_jobs_reachable|]. apply qs_tick. vm_compute. discriminate.
Qed.

(** ** Storage *)
Lemma FailJob_outcome_witness :
  ∃ d' j', FailJob NoFault now0 8%N 18%N 88%N "boom" (Some (now0 + Minute)) stock = (d', Ok tt)
    ∧ jobs d' !! 8%N = Some j' ∧ State_ j' = StateDead ∧ Attempt j' = 3.
Proof.
  destruct (FailJob_outcome now0 8%N 18%N 88%N "boom" (Some (now0 + Minute)) stock (row 8%N))
    as (d'&j'&Hrun&Hj&Hs&_&Ha&_).
  - vm_compute. reflexivity.
  - vm_compute. reflexivity.
  - vm_compute. reflexivity.
  - vm_compute. split; [discriminate|reflexivity].
  - apply check_runs. vm_compute. reflexivity.
  - exists d', j'. split; [exact Hrun|]. split; [exact Hj|]. split; [exact Hs|exact Ha].
Defined.

Lemma RequeueStaleJob_outcome_witness :
  ∃ d' j', RequeueStaleJob NoFault now0 now0 6%N stock = (d', Ok false)
    ∧ jobs d' !! 6%N = Some j' ∧ State_ j' = StatePending ∧ Attempt j' = 1.
Proof.
  destruct (RequeueStaleJob_outcome now0 now0 6%N stock (row 6%N)) as (d'&j'&Hrun&Hj&Hs&Ha&_).
  - vm_compute. reflexivity.
  - vm_compute. reflexivity.
  - vm_compute. split; [discriminate|reflexivity].
  - apply check_runs. vm_compute. reflexivity.
  - exists d', j'. split; [exact Hrun|]. split; [exact Hj|]. split; [exact Hs|exact Ha].
Defined.

Definition run18 : run_row := mkRun 18%N 8%N 7%N 2 (99 * Hour) None StateRunning None None.

Lemma run18_in : run18 ∈ job_runs stock.
Proof. apply list_elem_of_In. right. right. left. reflexivity. Qed.

(** Job 8 is healthy: its deadline is an hour away. *)
Lemma RequeueStaleJob_closes_live_run_witness :
  ∃ d' r', RequeueStaleJob NoFault now0 now0 8%N stock = (d', Ok false)
    ∧ jobs d' = jobs stock ∧ r' ∈ job_runs d' ∧ rr_id r' = 18%N ∧ rr_state r' = StateFailed
    ∧ rr_finished_at r' = Some (pg_ts now0) ∧ rr_error r' = Some heartbeat_expired.
Proof.
  apply (RequeueStaleJob_closes_live_run now0 now0 8%N stock (row 8%N) run18).
  - vm_compute. reflexivity.
  - vm_compute. reflexivity.
  - exact run18_in.
  - reflexivity.
  - reflexivity.
  - apply check_runs. vm_compute. reflexivity.
Defined.

(** Twenty-five days later. *)
Lemma long_open_run_stuck_witness :
  RequeueStaleJob NoFault (800 * Hour) (800 * Hour) 8%N stock = (stock, Err ErrPostgres)
  ∧ (∀ j, jobs stock !! 8%N = Some j → in_flight j = true →
       cmdForceFail NoFault (800 * Hour) 8%N stock = (stock, Err ErrPostgres)).
Proof.
  apply (long_open_run_stuck NoFault (800 * Hour) (800 * Hour) 8%N stock run18).
  - exact run18_in.
  - reflexivity.
  - reflexivity.
  - vm_compute. discriminate.
  - vm_compute. discriminate.
Defined.

(** One call releases job 2, the only scheduled one. *)
Definition promoted : db := fst (PromoteDueScheduled NoFault now0 1000 ∅ plan_id plan_id stock).

Lemma promoted_call :
  PromoteDueScheduled NoFault now0 1000 ∅ plan_id plan_id stock = (promoted, Ok [released (row 2%N)]).
Proof. apply pair_snd. vm_compute. reflexivity. Qed.

Lemma promotion_exact_witness :
  ∃ chosen rest, [released (row 2%N)] = released <$> chosen
    ∧ (∀ j, j ∈ chosen ++ rest ↔ due StateScheduled now0 ∅ stock j)
    ∧ StronglySorted due_before chosen
    ∧ (∀ a b, a ∈ chosen → b ∈ rest → due_before a b)
    ∧ Z.of_nat (length chosen) <= 1000 ∧ (Z.of_nat (length chosen) < 1000 → rest = [])
    ∧ promotes_rows (set_state StatePending) chosen stock promoted.
Proof.
  apply (promotion_exact now0 1000 ∅ plan_id plan_id stock promoted [released (row 2%N)]).
  exact promoted_call.
Defined.

Lemma promotion_split_brain_witness :
  rel_ID <$> [released (row 2%N)] = [2%N]
  ∧ ∀ d2 l2, PromoteDueScheduled NoFault now0 1000 ∅ plan_id plan_id promoted = (d2, Ok l2) → [2%N] ## (rel_ID <$> l2).
Proof.
  split; [vm_compute; reflexivity|].
  apply (promotion_split_brain PromoteDueScheduled now0 1000 ∅ plan_id plan_id now0 1000 ∅ plan_id plan_id
           stock promoted [released (row 2%N)]).
  - left. reflexivity.
  - exact stock_keyed.
  - exact promoted_call.
Defined.

Lemma tenant_isolation_witness :
  GetJobForTenant NoFault 4%N 9%N stock = Err ErrNotFound
  ∧ CancelJob NoFault now0 4%N 9%N stock = (stock, Err ErrNotFound)
  ∧ ReplayJob NoFault NoFault now0 4%N 9%N (λ d, d) stock = (stock, Err ErrNotFound)
  ∧ (∀ lf p l, lf_TenantID lf = Some 9%N → ListJobs NoFault lf p stock = Ok l → Forall (λ k, TenantID k = 9%N) l)
  ∧ (∀ key k, GetJobByIdempotencyKey NoFault 9%N key stock = Ok k → TenantID k = 9%N).
Proof.
  apply (tenant_isolation now0 4%N 9%N NoFault (λ d, d) stock (row 4%N)).
  - vm_compute. reflexivity.
  - vm_compute. discriminate.
Defined.

Definition pruned : db := fst (PruneFinishedJobs NoFault (50 * Hour) 1000 plan_id stock).

Lemma PruneFinishedJobs_exact_witness :
  jobs pruned !! 5%N = None ∧ (∀ id j, jobs pruned !! id = Some j → ¬ finished_before (50 * Hour) j).
Proof.
  destruct (PruneFinishedJobs_exact (50 * Hour) 1000 plan_id stock pruned 1) as (_&_&_&_&Hall).
  - exact stock_keyed.
  - apply pair_snd. vm_compute. reflexivity.
  - split; [vm_compute; reflexivity|]. apply Hall. reflexivity.
Defined.

Definition replayed : db := fst (exec NoFault (replay_tx now0 4%N 7%N) stock).

Lemma MoveToDeadLetter_overtakes_replay_witness :
  let d2 := mkDb (jobs replayed) (job_runs replayed) (fst (insert_dead_letters now0 [row 4%N] (dead_letter replayed))) in
  State_ <$> jobs d2 !! 4%N = Some StatePending
  ∧ is_Some (dead_letter d2 !! 4%N)
  ∧ (∀ limit' p' l' d3 k, dead_letter d3 = dead_letter d2 → ID k = 4%N →
       unmoved_dead limit' p' d3 = Some l' → k ∉ l').
Proof.
  apply (MoveToDeadLetter_overtakes_replay now0 now0 500 plan_id stock replayed [row 4%N] (row 4%N)).
  - exact stock_keyed.
  - vm_compute. reflexivity.
  - left.
  - apply pair_snd. vm_compute. reflexivity.
Defined.

(** ** Scheduler passes *)
Lemma reconcilePending_exact_witness :
  ∃ n' r', reconcilePending (calm now0) (0%nat, world0) = ((n', set_redis world0 r'), PassDone) ∧ queued r' 1%N.
Proof.
  destruct (reconcilePending_exact (calm now0) now0 0%nat world0) as (n'&r'&Hrun&_&Hall).
  - exact (calm_quiet now0).
  - exact queues_ok.
  - exact stock_stored.
  - exact stock_ids.
  - exists n', r'. split; [exact Hrun|]. apply (Hall ltac:(vm_compute; lia) 1%N (row 1%N)); [vm_compute; reflexivity|].
    split; vm_compute; [reflexivity|discriminate].
Defined.

Lemma pollScheduledJobs_drains_witness :
  ∃ n' d' r', pollScheduledJobs (calm now0) (0%nat, world0) = ((n', set_redis (set_db world0 d') r'), tt)
    ∧ dues StateScheduled now0 d' = [].
Proof.
  destruct (pollScheduledJobs_drains (calm now0) now0 0%nat world0) as (n'&d'&r'&done&Hrun&_&_&_&Hall).
  - exact (calm_quiet now0).
  - exact stock_keyed.
  - exact stock_ids.
  - exact queues_ok.
  - exists n', d', r'. split; [exact Hrun|]. apply Hall. vm_compute. discriminate.
Defined.

Lemma pollFailedJobs_drains_witness :
  ∃ n' d' r', pollFailedJobs (calm now0) (0%nat, world0) = ((n', set_redis (set_db world0 d') r'), tt)
    ∧ dues StateFailed now0 d' = [].
Proof.
  destruct (pollFailedJobs_drains (calm now0) now0 0%nat world0) as (n'&d'&r'&done&Hrun&_&_&_&Hall).
  - exact (calm_quiet now0).
  - exact stock_keyed.
  - exact stock_ids.
  - exact queues_ok.
  - exists n', d', r'. split; [exact Hrun|]. apply Hall. vm_compute. discriminate.
Defined.

Lemma promoteDeadJobs_drains_witness :
  ∃ n' d', promoteDeadJobs 1 (calm now0) (0%nat, world0) = ((n', set_db world0 d'), PassDone)
    ∧ is_Some (dead_letter d' !! 4%N).
Proof.
  destruct (promoteDeadJobs_drains (calm now0) now0 1%nat 0%nat world0) as (n'&d'&Hrun&Hj&_&_&Hall).
  - exact (calm_quiet now0).
  - exact stock_keyed.
  - vm_compute. lia.
  - exists n', d'. split; [exact Hrun|]. apply (Hall 4%N (row 4%N)); [rewrite Hj; vm_compute; reflexivity|].
    vm_compute. reflexivity.
Defined.

(** ** Tenants and webhooks *)
Definition random32 : list Z := repeat 200 32.
Definition new_key : string := "sk_" +:+ base64_raw_url random32.
Definition rotated : tenants := fst (RotateAPIKey NoFault (Some random32) 7%N tenants7).

Lemma tenants7_ok : tenants_ok tenants7.
Proof.
  unfold tenants7. split.
  - intros id r Hr. apply lookup_singleton_Some in Hr as [<- <-]. reflexivity.
  - intros id1 id2 r1 r2 H1 H2 _. apply lookup_singleton_Some in H1 as [<- _], H2 as [<- _]. reflexivity.
Qed.

Lemma rotated_call : RotateAPIKey NoFault (Some random32) 7%N tenants7 = (rotated, Ok new_key).
Proof. unfold rotated. apply (pair_snd (RotateAPIKey NoFault (Some random32) 7%N tenants7)). vm_compute. reflexivity. Qed.

Lemma RotateAPIKey_effect_witness :
  GetTenantByAPIKey NoFault new_key rotated = Ok (tr_tenant tenant7)
  ∧ (∀ tn, GetTenantByAPIKey NoFault "sk_old" rotated = Ok tn → tn_ID tn ≠ 7%N).
Proof.
  destruct (RotateAPIKey_effect (Some random32) 7%N tenants7 rotated new_key tenant7) as (_&Hnew&Hold&_).
  - exact tenants7_ok.
  - vm_compute. reflexivity.
  - exact rotated_call.
  - split; [apply Hnew; reflexivity|]. intros tn Htn. apply (Hold "sk_old"%string tn); [vm_compute; discriminate|exact Htn].
Defined.

Lemma webhook_signed_witness :
  ∃ req, webhook_request plan_id now0 (Ok "whsec_AQID"%string) (row 1%N) = Ok req
    ∧ rq_URL req = URL payload ∧ rq_Body req = Body payload
    ∧ rq_Header req !! "Webhook-Id"%string = Some (uuid_String 1%N)
    ∧ rq_Header req !! "Webhook-Timestamp"%string = Some (unix_text now0)
    ∧ rq_Header req !! "Webhook-Signature"%string
      = Some ("v1," +:+ base64_std
                (hmac_sha256 [1; 2; 3] (signed_content (uuid_String 1%N) (unix_text now0) (Body payload)))).
Proof.
  apply (webhook_signed plan_id now0 [1; 2; 3] "whsec_AQID"%string (row 1%N) payload).
  - repeat (apply Forall_cons_2; [vm_compute; split; [discriminate|reflexivity]|]). apply Forall_nil_2.
  - vm_compute. reflexivity.
  - vm_compute. reflexivity.
  - reflexivity.
Defined.

(** ** Cron *)
Definition schedule1 : Schedule := mkSchedule 31%N 7%N "tick" "* * * * *" "UTC" "tmpl" true None (99 * Hour).

Definition lossy : oracle := λ n,
  alone (match n with 1%nat => LostReply | _ => NoFault end) now0 (1000 + N.of_nat n)%N (2000 + N.of_nat n)%N.

Lemma stock_no_keys : keys_ok (jobs stock).
Proof.
  intros id1 id2 j1 j2 Hj1 _ Hs.
  assert (match IdempotencyKey j1 with None => true | Some _ => false end = true) as Hn
    by apply (check_map (λ _ j, match IdempotencyKey j with None => true | Some _ => false end) (jobs stock) eq_refl id1 j1 Hj1).
  unfold same_key in Hs. destruct (IdempotencyKey j1); [discriminate Hn|]. rewrite andb_false_r in Hs. discriminate Hs.
Qed.

Lemma fireSchedule_once_witness :
  snd (fireSchedule schedule1 lossy (0%nat, world0)) = Fired
  ∧ ∃ id j, jobs (w_db (snd (fst (fireSchedule schedule1 lossy (0%nat, world0))))) !! id = Some j
      ∧ occurrence_job schedule1 j.
Proof.
  assert (snd (fireSchedule schedule1 lossy (0%nat, world0)) = Fired) as Hf by (vm_compute; reflexivity).
  split; [exact Hf|].
  destruct (fireSchedule_once schedule1 lossy 0%nat world0) as [_ Hone].
  - intros n w. reflexivity.
  - exact stock_no_keys.
  - vm_compute. reflexivity.
  - destruct (Hone (or_introl Hf)) as (id&j&Hj&Ho&_). exists id, j. split; [exact Hj|exact Ho].
Defined.

(** ** The worker *)

(** The first write takes effect but its reply is lost; the second finds it done. *)
Definition first_reply_lost : oracle := λ n,
  alone (match n with O => LostReply | _ => NoFault end) now0 1000%N 2000%N.

Lemma retryRecord_once_witness :
  ∃ m w' r,
    retryRecord (on_db (λ t, record Succeeded (t_fault t) (t_now t) 8%N 18%N 88%N)) retry_attempts first_reply_lost (0%nat, world0)
      = (((0 + m)%nat, w'), r)
    ∧ (1 <= m <= retry_attempts + 1)%nat.
Proof.
  destruct (retryRecord_once Succeeded 8%N 18%N 88%N retry_attempts first_reply_lost 0%nat world0) as (m&w'&r&Hrun&Hm&_).
  - intros k w Hs. exact Hs.
  - exists m, w', r. split; [exact Hrun|exact Hm].
Defined.

Definition worker1 : worker := mkWorker "w2" [mkTenantWeight 7%N 100] {[7%N := "whsec_AQID"%string]} ∅ ∅.

Lemma process_settles_witness :
  ∃ n' w' j',
    process (λ _, "error"%string) (λ _, 0) worker1 plan_id (mkItem 1%N (queue_key "queue:5" 7%N)) (calm now0) (0%nat, world0)
      = ((n', w'), (worker1, true))
    ∧ jobs (w_db w') !! 1%N = Some j' ∧ State_ j' = StateSucceeded.
Proof.
  destruct (process_settles (λ _, "error"%string) (λ _, 0) worker1 plan_id (mkItem 1%N (queue_key "queue:5" 7%N))
              (calm now0) now0 0%nat world0 (row 1%N)) as (n'&w'&j'&run&Hrun&Hj&_&Hres&_).
  - exact (calm_quiet now0).
  - intros t limit _ Hl. discriminate Hl.
  - vm_compute. reflexivity.
  - intros e. reflexivity.
  - apply (qi_keyspace now0). exact queues_ok.
  - vm_compute. reflexivity.
  - vm_compute. reflexivity.
  - vm_compute. reflexivity.
  - vm_compute. split; [discriminate|reflexivity].
  - apply check_none. vm_compute. reflexivity.
  - exists n', w', j'. split; [exact Hrun|]. split; [rewrite Hj; apply lookup_insert_eq|].
    vm_compute in Hres. apply Hres.
Defined.

(** ** The API *)
Definition submission : submitJobRequest := mkSubmit template None (Some "order-1"%string).
Definition new_job : Job :=
  match submitted_job submission 1001%N 7%N "" now0 with Ok j => j | Err _ => row 1%N end.
Definition new_job_row : Job := match new_row new_job with Some j => j | None => row 1%N end.

(** A tenant of five submissions a second. *)
Definition client : Tenant := mkTenant 7%N "acme" 5 100 "active" "whsec_AQID" 0.

Definition insert_reply_lost : oracle := λ n,
  alone (match n with 1%nat => LostReply | _ => NoFault end) now0 1000%N 2000%N.

(** The first attempt stores the job but never learns that it did. *)
Definition half_done : world :=
  snd (fst (handleSubmitJob true client "" (Some submission) insert_reply_lost (0%nat, world0))).

Definition second_try : oracle := λ n,
  alone NoFault now0 1001%N 2000%N.

Lemma half_done_redis : w_redis half_done = SampleQueue.two_jobs.
Proof. reflexivity. Qed.

Lemma handleSubmitJob_idempotent_witness :
  jobs (w_db half_done) !! 1000%N ≠ None
  ∧ ∃ n' w' resp e, handleSubmitJob true client "" (Some submission) second_try (0%nat, half_done)
        = ((n', w'), resp)
      ∧ ∀ id' e', jobs (w_db w') !! id' = Some e' → keyed_job 7%N "order-1" e' → id' = e.
Proof.
  split; [vm_compute; discriminate|].
  destruct (handleSubmitJob_idempotent true client "" submission "order-1" insert_reply_lost 0%nat world0
              second_try now0 0%nat new_job new_job_row) as (n'&w'&resp&id&e&Hrun&_&_&Huniq&_).
  - exact stock_no_keys.
  - intros n w Hk. exact Hk.
  - reflexivity.
  - reflexivity.
  - split; intros; reflexivity.
  - fold half_done. rewrite half_done_redis. exact queues_ok.
  - vm_compute. reflexivity.
  - vm_compute. reflexivity.
  - vm_compute. reflexivity.
  - vm_compute. reflexivity.
  - intros _. vm_compute. reflexivity.
  - exists n', w', resp, id. split; [exact Hrun|exact Huniq].
Defined.

Definition asked : cache_log := mkLog ∅ [(HashAPIKey "sk_old", tr_tenant tenant7, now0)].
Definition cached : cache_log :=
  mkLog (cache_store now0 (HashAPIKey "sk_old") (Ok (tr_tenant tenant7)) (cl_cache asked)) (cl_reads asked).

Lemma cached_reachable : rtc cache_step (mkLog ∅ []) cached.
Proof.
  apply (rtc_l _ _ asked); [|apply rtc_once].
  - apply (cs_read (mkLog ∅ []) now0 "sk_old" tenants7). vm_compute. reflexivity.
  - apply (cs_store asked). left.
Qed.

(** Five seconds after the tenant is gone, the cache still answers. *)
Lemma tenant_cache_staleness_witness :
  GetTenantByAPIKey NoFault "sk_old" ∅ = Ok (tr_tenant tenant7)
  ∨ ∃ read, (HashAPIKey "sk_old", tr_tenant tenant7, read) ∈ cl_reads cached
      ∧ now0 + 5 * Second < read + tenantCacheTTL.
Proof.
  apply (tenant_cache_staleness cached (calm (now0 + 5 * Second)) 0%nat (set_tenants world0 ∅) "sk_old" (tr_tenant tenant7)).
  - exact cached_reachable.
  - vm_compute. reflexivity.
Defined.
End Samples.
