(* ===== verification/Runs.v ===== *)
(** * More concrete runs

    The installation of [Samples], with the API server, the command line tool, claims
    under a cap, a worker's pull loop, retention and the refinement of the programs. *)

From Stdlib Require Import QArith Qabs Lqa.
From S2P Require Import Prelude GoBase Encoding Job Redis Queue QueueInv Ratelimit Db Partitions Storage Tenants Schedules Stats.
From S2P Require Import World Webhook Worker Scheduler Api Admin Server Cli Process StorageFacts SchedulerFacts CliFacts.
From S2P Require Import RetentionFacts Lifecycle Claims ClaimLimit Integrity Scenario CronFacts WorkerFacts WorkerDrain.
From S2P Require Import ApiFacts ServerFacts EndToEnd Programs QueuePrograms Samples.

Open Scope Z_scope.

Module Runs.
#[local] Existing Instances HexUuid.hex_uuid_text Samples.sample_cron Samples.sample_http Samples.sample_lua Samples.utc_session.
Import SampleInput Scenario Samples.

#[local] Instance sample_bodies : Bodies := {|
  decode_submit _ := None; decode_create_schedule _ := None; decode_update_schedule _ := None;
  decode_create_tenant _ := None; decode_update_tenant _ := None;
|}.

(** A router: the patterns are matched in order, under any mount point. *)
Definition between (pre suf path : string) : option string :=
  let n := String.length path in
  let a := String.length pre in
  let b := String.length suf in
  if (String.prefix pre path && (a + b <=? n)%nat && String.eqb (String.substring (n - b) b path) suf)%bool
  then Some (String.substring a (n - a - b) path) else None.

Definition matches (pattern path : string) : option string :=
  match String.index 0 "{id}" pattern, String.index 0 "*" pattern with
  | Some i, _ => between (String.substring 0 i pattern) (String.substring (i + 4) (String.length pattern) pattern) path
  | None, Some i => between (String.substring 0 i pattern) EmptyString path
  | None, None => if String.eqb pattern path then Some EmptyString else None
  end.

Fixpoint route {E} (table : list (string * string * E)) (method path : string) : routed E :=
  match table with
  | [] => NoRoute
  | (m, p, e) :: rest =>
      match matches p path, matches ("/v1" +:+ p) path with
      | None, None => route rest method path
      | Some id, _ | None, Some id =>
          if String.eqb m "*" || String.eqb m method then Found e id else route rest method path
      end
  end.

#[local] Instance sample_chi : Chi := {| chi_route := @route |}.

#[local] Instance sample_accuracy : LuaAccuracy.
Proof.
  assert (∀ x b (e : positive), (1 <= b → Qabs (x - x) <= b * (1 # e))%Q) as He.
  { intros x b e Hb. unfold Qminus. rewrite (Qplus_opp_r x). change (Qabs 0) with 0%Q.
    apply Qmult_le_0_compat; [lra|]. unfold Qle. cbn. lia. }
  split; cbn; intros; try done; by apply He.
Qed.

(** ** Rate limit *)
Lemma take_rate_bound_witness :
  snd (take_all 2 [0; 1; 2; 600] None) = 3
  ∧ (inject_Z (snd (take_all 2 [0; 1; 2; 600]%Z None))
     <= inject_Z 2 + inject_Z ((600 - 0) * 2) * (1 # 1000) + inject_Z (4 * 2) * (1 # 1000000000000))%Q.
Proof.
  split; [vm_compute; reflexivity|]. apply (take_rate_bound 2 None 0 [1; 2; 600]).
  - lia.
  - intros b Hb. discriminate Hb.
  - repeat (apply SSorted_cons || apply SSorted_nil || apply Forall_cons_2 || apply Forall_nil_2 || lia).
Defined.

(** ** Claims under a cap: two of tenant 7's jobs are running, the cap is three *)
Definition claim_tx : tx := mkTx 1%N 7%N 3 "w1" 501%N (101 * Hour) 601%N Begun.
Definition l0 : lsys := mkL stock ∅.
Definition l1 : lsys := mkL stock (<[0%nat := claim_tx]> ∅).
Definition l2 : lsys := move l1 0 Locked claim_tx.
Definition l3 : lsys := move l2 0 Counted (set_phase Locked claim_tx).
Definition l4 : lsys := move l3 0 (Claimed now0) (set_phase Counted claim_tx).
Definition claimed_tx : tx := set_phase (Claimed now0) claim_tx.
Definition claimed_db : db :=
  match tx_claim claimed_tx ∅ now0 stock with Ok (d, _) => d | Err _ => stock end.

Lemma nobody_took s : (∀ k x now, l_txs s !! k = Some x → tx_phase x ≠ Claimed now) → ∀ id, ¬ row_taken s id.
Proof. intros Hs id (k&x&now&Hk&Hp&_). by apply (Hs k x now). Qed.

Lemma l4_reachable : rtc (lstep 7%N 3) l0 l4.
Proof.
  apply (rtc_l _ _ l1); [apply ls_begin; [reflexivity|reflexivity|intros _; vm_compute; discriminate]|].
  apply (rtc_l _ _ l2).
  { apply ls_lock; [reflexivity|reflexivity|]. intros k' x' Hk. cbn in Hk.
    apply lookup_insert_Some in Hk as [[_ <-]|[_ Hk]]; [intros Hh; discriminate Hh|].
    rewrite lookup_empty in Hk. discriminate Hk. }
  apply (rtc_l _ _ l3); [apply ls_count; [reflexivity|reflexivity|vm_compute; reflexivity]|].
  apply rtc_once. apply (ls_claim _ _ l3 0 (set_phase Counted claim_tx) ∅ now0 claimed_db
    (claimed_row now0 "w1" 501%N (101 * Hour) (row 1%N)) 601%N);
    [reflexivity|reflexivity| |vm_compute; reflexivity|vm_compute; reflexivity].
  intros id Ht. exfalso. revert Ht. apply nobody_took. intros k x t Hk. cbn in Hk. rewrite !insert_insert_eq in Hk.
  apply lookup_insert_Some in Hk as [[_ <-]|[_ Hk]]; [discriminate|]. rewrite lookup_empty in Hk. discriminate Hk.
Qed.

Lemma concurrency_cap_witness : count_in_flight 7%N stock <= 3 ∧ count_in_flight 7%N (l_db l4) <= 3.
Proof.
  split; [vm_compute; discriminate|]. apply (concurrency_cap 7%N 3 stock l4).
  - vm_compute. discriminate.
  - exact l4_reachable.
Defined.

Lemma TryClaimLimited_atomic_witness :
  ∃ d' j, claim_limited_tx ∅ now0 1%N 7%N 3 "w1" 501%N (101 * Hour) 601%N stock = Ok (d', Some (j, 601%N))
    ∧ lstep 7%N 3 l4 (mkL d' (delete 0%nat (l_txs l4))).
Proof.
  destruct (TryClaimLimited_atomic 7%N 3 stock l4 0%nat claimed_tx now0) as (d'&j&Hc&Hst&_).
  - vm_compute. discriminate.
  - exact l4_reachable.
  - reflexivity.
  - reflexivity.
  - reflexivity.
  - exists d', j. split; [exact Hc|exact Hst].
Defined.


(** The 31st of January 1970. *)
Lemma ensurePartitions_skips_short_month_witness :
  w_parts (snd (fst (ensurePartitions (calm (30 * 24 * Hour)) (0%nat, world0)))) !! partition_name (1970 * 12 + 1) = None.
Proof.
  apply (ensurePartitions_skips_short_month (calm (30 * 24 * Hour)) 0%nat world0).
  - vm_compute. discriminate.
  - vm_compute. reflexivity.
  - vm_compute. reflexivity.
  - intros m w'. reflexivity.
Defined.

(** ** The API server *)
Definition request_of (method path header : string) : request :=
  mkRequest method path header (λ _, EmptyString) EmptyString EmptyString.

Definition stranger_request : request := request_of "POST" "/v1/jobs" "Bearer sk_unknown".

Lemma refused_key key e : GetTenantByAPIKey NoFault key tenants7 = Err e → unknown_key key world0.
Proof. intros He tn. change (w_tenants world0) with tenants7. rewrite He. discriminate. Qed.


(** Tenant 7 asks for the cancellation of tenant 9's job. *)
Definition job9 : Job :=
  mkJob 9%N 9%N "webhook" "{}" 5 StatePending (98 * Hour) None None None None 0 2 10 None None (97 * Hour) None None.
Definition schedule9 : Schedule := mkSchedule 32%N 9%N "tick" "* * * * *" "UTC" "tmpl" true None (99 * Hour).
Definition world9 : world :=
  mkWorld (mkDb (<[9%N := job9]> (jobs stock)) (job_runs stock) ∅) tenants7 {[32%N := schedule9]} SampleQueue.two_jobs ∅ ∅.
Definition cancel_request : request :=
  request_of "POST" ("/v1/jobs/" +:+ uuid_String 9%N +:+ "/cancel") "Bearer sk_old".

Lemma cancel_request_routed :
  chi_route v1_routes (rq_method cancel_request) (rq_path cancel_request) = Found PostCancel (uuid_String 9%N).
Proof. vm_compute. reflexivity. Qed.

Lemma serve_tenant_isolation_witness :
  foreign 9%N job9 None [] 32%N schedule9 tenants7
    (snd (fst (serve true None 0 cancel_request ∅ (calm now0) (0%nat, world9)))).
Proof.
  apply (serve_tenant_isolation true None 0 (calm now0) cancel_request ∅ 7%N 9%N job9 None [] 32%N schedule9 tenants7 0%nat world9).
  - discriminate.
  - discriminate.
  - intros m w' Hw. exact Hw.
  - repeat apply Forall_cons_2; [| |apply Forall_nil_2]; (split; [|intros e He; rewrite lookup_empty in He; discriminate He]).
    + assert (GetTenantByAPIKey NoFault (extractBearerToken (rq_authorization cancel_request)) tenants7
              = Ok (tr_tenant tenant7)) as He by (vm_compute; reflexivity).
      intros tn Htn. rewrite He in Htn. injection Htn as <-. reflexivity.
    + assert (GetTenantByAPIKey NoFault (rq_query cancel_request "token") tenants7 = Err ErrNotFound) as He
        by (vm_compute; reflexivity).
      intros tn Htn. rewrite He in Htn. discriminate Htn.
  - eexists. reflexivity.
  - split; [|split; vm_compute; reflexivity]. split; [vm_compute; reflexivity|]. split; vm_compute; reflexivity.
Defined.

(** ** The admin API, with a source of randomness *)
Definition lucky : oracle := λ n,
  mkTurn (λ w, w) NoFault None now0 now0 false ∅ plan_id plan_id plan_id plan_id plan_id plan_id plan_id [] 50%N 51%N
    (Some random32) (Some random32).

Definition create_request : createTenantRequest := mkCreateTenant "globex" (mkTenantLimits (Some 20) None None).
Definition created : (nat * world) * response := handleAdminCreateTenant (Some create_request) lucky (0%nat, world0).

Lemma pair3 {A B C} (p : (A * B) * C) c : snd p = c → p = ((fst (fst p), snd (fst p)), c).
Proof. destruct p as [[]]. by intros <-. Qed.

Lemma created_reply :
  snd created = mkResponse 201 (NewTenantReply (mkAdminTenant 50%N "globex" "active" 20 100 0) new_key
                                  ("whsec_" +:+ base64_std random32)).
Proof. unfold created. vm_compute. reflexivity. Qed.

Lemma handleAdminCreateTenant_login_witness :
  ∃ tn, GetTenantByAPIKey NoFault new_key (w_tenants (snd (fst created))) = Ok tn ∧ tn_RateLimit tn = 20.
Proof.
  destruct (handleAdminCreateTenant_login create_request lucky 0%nat world0 (fst (fst created)) (snd (fst created))
              (mkAdminTenant 50%N "globex" "active" 20 100 0) new_key ("whsec_" +:+ base64_std random32))
    as (_&(tn&Hlogin&_&_&Htn)&_).
  - exact tenants7_ok.
  - apply (pair3 created). exact created_reply.
  - exists tn. split; [exact Hlogin|]. rewrite Htn. reflexivity.
Defined.

Definition disable_request : updateTenantRequest := mkUpdateTenant (mkTenantLimits None None None) (Some "disabled"%string).
Definition disabled : (nat * world) * response :=
  handleAdminUpdateTenant (uuid_String 7%N) (Some disable_request) (calm now0) (0%nat, world0).

Lemma disabled_reply :
  snd disabled = mkResponse 200 (TenantReply (mkAdminTenant 7%N "acme" "disabled" 0 100 0)).
Proof. unfold disabled. vm_compute. reflexivity. Qed.

Lemma handleAdminUpdateTenant_disables_witness :
  status (snd disabled) = 200
  ∧ ∀ key tn, GetTenantByAPIKey NoFault key (w_tenants (snd (fst disabled))) = Ok tn → tn_ID tn ≠ 7%N.
Proof.
  split; [rewrite disabled_reply; reflexivity|].
  apply (handleAdminUpdateTenant_disables (uuid_String 7%N) 7%N disable_request (calm now0) now0 0%nat world0
           (fst (fst disabled)) (snd (fst disabled)) (TenantReply (mkAdminTenant 7%N "acme" "disabled" 0 100 0))).
  - exact (calm_quiet now0).
  - exact tenants7_ok.
  - vm_compute. reflexivity.
  - reflexivity.
  - apply (pair3 disabled). exact disabled_reply.
Defined.

(** ** Draining *)
Definition scan (p : string) (r : redis) : list (list string) :=
  [filter (λ k, String.prefix p k = true) (fst <$> map_to_list r)].

Lemma scan_complete p r : scanned p r (scan p r).
Proof.
  split; intros k; unfold scan; cbn [concat]; rewrite app_nil_r, list_elem_of_filter.
  - intros [e He] Hp. split; [done|]. apply list_elem_of_fmap. exists (k, e). split; [done|]. by apply elem_of_map_to_list.
  - by intros [Hp _].
Qed.

Definition drain0 : prog (option (Z * Z)) :=
  cmdDrain (Some <$> scan "queue:" SampleQueue.two_jobs) (Some <$> scan enqueuedPrefix SampleQueue.two_jobs).

(** Two jobs and two wake tokens, in three lists. *)
Lemma cmdDrain_exact_witness :
  ∃ n' r', drain0 (calm now0) (0%nat, world0) = ((n', set_redis world0 r'), Some (4, 3))
    ∧ queues_cleared SampleQueue.two_jobs r'.
Proof.
  destruct (cmdDrain_exact (calm now0) now0 0%nat world0 (scan "queue:" SampleQueue.two_jobs)
              (scan enqueuedPrefix SampleQueue.two_jobs)) as (n'&r'&Hrun&Hc).
  - exact (calm_quiet now0).
  - exact SampleQueue.two_jobs_ok.
  - apply scan_complete.
  - apply scan_complete.
  - assert (measure lane_len (w_redis world0) + Z.of_nat (length (qlist (w_redis world0) wakeKey)) = 4) as H4
      by (vm_compute; reflexivity).
    assert (measure queue_busy (w_redis world0) = 3) as H3 by (vm_compute; reflexivity).
    rewrite H4, H3 in Hrun. exists n', r'. split; [exact Hrun|exact Hc].
Defined.

Lemma overdue0 : ID <$> take 5000 (overdue_jobs now0 stock) = [1%N].
Proof. vm_compute. reflexivity. Qed.

(** Job 1 is pending and comes back; job 2, which is not, does not. *)
Lemma drain_then_reconcile_witness :
  ∃ n' r' s, pbind drain0 (λ s, pbind reconcilePending (λ _, pret s)) (calm now0) (0%nat, world0)
               = ((n', set_redis world0 r'), Some s)
    ∧ queued r' 1%N ∧ ¬ queued r' 2%N.
Proof.
  destruct (drain_then_reconcile (calm now0) now0 0%nat world0 (scan "queue:" SampleQueue.two_jobs)
              (scan enqueuedPrefix SampleQueue.two_jobs)) as (n'&r'&s&Hrun&Hq).
  - exact (calm_quiet now0).
  - exact SampleQueue.two_jobs_ok.
  - exact stock_stored.
  - exact stock_ids.
  - apply scan_complete.
  - apply scan_complete.
  - change (w_db world0) with stock in Hq. rewrite overdue0 in Hq. exists n', r', s. split; [exact Hrun|].
    split; [apply Hq; [vm_compute; reflexivity|left]|]. intros H2. apply Hq in H2; [|vm_compute; reflexivity].
    apply list_elem_of_singleton in H2. discriminate H2.
Defined.

(** ** The pull loop *)
Definition draw0 : nat → Z → Z := λ _ _, 0.

Lemma draw0_ok i : Intn_ok (draw0 i).
Proof. intros n Hn. unfold draw0. lia. Qed.

Lemma worker1_ready : ready worker1.
Proof. split; [discriminate| |reflexivity|reflexivity|reflexivity]. split; [by repeat constructor|reflexivity]. Qed.

Definition entry_ok (v : string) : bool :=
  match uuid_Parse v with Some id => String.eqb (uuid_String id) v && (0 <? id)%N && (id <? 2 ^ 128)%N | None => false end.

Lemma entries_check wk r : forallb (λ k, forallb entry_ok (qlist r k)) (served wk) = true → entries_ok wk r.
Proof.
  rewrite forallb_forall. intros Hall k v Hk Hv. apply list_elem_of_In, Hall in Hk. rewrite forallb_forall in Hk.
  apply list_elem_of_In, Hk in Hv. unfold entry_ok in Hv. destruct (uuid_Parse v) as [id|]; [|discriminate Hv].
  apply andb_true_iff in Hv as [[He H0]%andb_true_iff Hm]. exists id.
  split; [symmetry; by apply String.eqb_eq|]. split; [by apply N.ltb_lt|]. apply N.ltb_lt in H0. intros ->. by apply N.lt_irrefl in H0.
Qed.

Lemma calm_runs now n m : (n < m)%nat → t_uuid' (calm now n) ≠ t_uuid' (calm now m).
Proof. cbn. lia. Qed.

Lemma world0_inv : inv worker1 (calm now0) tenants7 0%nat world0.
Proof.
  split.
  - exact SampleQueue.two_jobs_ok.
  - apply entries_check. vm_compute. reflexivity.
  - exact stock_keyed.
  - intros id j Hj _.
    assert ((0 <=? Attempt j) && (Attempt j <? 5) = true) as Ha
      by apply (check_map (λ _ j, (0 <=? Attempt j) && (Attempt j <? 5)) (jobs stock) eq_refl id j Hj).
    apply andb_true_iff in Ha as [?%Z.leb_le ?%Z.ltb_lt]. lia.
  - intros r m Hr _.
    assert (negb (rr_id r <? 100)%N = false) as Hlt
      by (apply (check_none (λ r, negb (rr_id r <? 100)%N) (job_runs stock) eq_refl r Hr)).
    apply negb_false_iff, N.ltb_lt in Hlt. cbn. lia.
  - reflexivity.
Qed.


Definition submission_now : submitJobRequest := mkSubmit template None None.
Definition job_now : Job :=
  match submitted_job submission_now 1000%N 7%N "" now0 with Ok j => j | Err _ => row 1%N end.
Definition job_now_row : Job := match new_row job_now with Some j => j | None => row 1%N end.


(** ** The programs, from the tables of [Scenario] on: a heartbeat of the second worker,
    a reaper's pass, a request, a worker's turn and a command, every third call losing its
    reply *)
Definition rough : oracle := λ n,
  alone (if Nat.eqb (n mod 3) 2 then LostReply else NoFault) now0 (1000 + 2 * N.of_nat n)%N (1001 + 2 * N.of_nat n)%N.

Lemma rough_fresh : fresh_oracle rough.
Proof. split; intros m n; cbn; lia. Qed.

Definition world1 : world := mkWorld (s_db reclaimed) tenants7 ∅ SampleQueue.two_jobs ∅ ∅.

Definition busy_day : list activity :=
  [Beat claim2; Lead (50 * Hour) 5 StaleReaper 1 [true; false]; Serve true None 0 cancel_request ∅;
   Work (λ _, "error"%string) (λ _, 0) draw0 (λ _ wk, wk) plan_id 3 2 worker1; Command (ForceFail [uuid_String 1%N])].

Lemma reclaimed_unused u : (1000 <= u)%N → unused reclaimed u.
Proof.
  intros Hu. split.
  - destruct (jobs (s_db reclaimed) !! u) as [j|] eqn:Hj; [|reflexivity].
    assert ((u <? 1000)%N = true) as Hlt by (apply (check_map (λ k _, (k <? 1000)%N) (jobs (s_db reclaimed))) with (v := j); [vm_compute; reflexivity|exact Hj]).
    apply N.ltb_lt in Hlt. lia.
  - change (c_job <$> s_claims reclaimed) with [1%N; 1%N]. rewrite !elem_of_cons. intros [?|[?|[]%elem_of_nil]]; lia.
  - apply not_elem_of_nil.
  - change (c_token <$> s_claims reclaimed) with [202%N; 201%N]. rewrite !elem_of_cons. intros [?|[?|[]%elem_of_nil]]; lia.
  - change (c_run <$> s_claims reclaimed) with [102%N; 101%N]. rewrite !elem_of_cons. intros [?|[?|[]%elem_of_nil]]; lia.
Qed.


Lemma rough_redis : redis_ok rough.
Proof. split; intros n; [change (now0 <= now0); lia|apply Forall_nil_2]. Qed.

Lemma no_drains acts :
  forallb (λ a, match a with Command c => negb (is_drain c) | _ => true end) acts = true →
  ∀ c, Command c ∈ acts → is_drain c = false.
Proof.
  rewrite forallb_forall. intros Hall c Hc. apply list_elem_of_In, Hall in Hc. by apply negb_true_iff.
Qed.

Lemma programs_queue_sound_witness :
  let '(n', w') := fst (run_all busy_day rough (0%nat, world1)) in
  sane rough n' w'
  ∧ ∀ tenantID jobID p,
      snd (Enqueue NoFault (t_server (rough n')) tenantID jobID p (w_redis w')) = Ok tt
      ∧ queued (fst (Enqueue NoFault (t_server (rough n')) tenantID jobID p (w_redis w'))) jobID.
Proof.
  apply (programs_queue_sound rough 0%nat world1 busy_day).
  - exact rough_redis.
  - intros n w Hw. exact Hw.
  - exact queues_ok.
  - apply no_drains. reflexivity.
Defined.
End Runs.
