(* ===== verification/Lives.v ===== *)
(** * Concrete lives

    The theorems about processes, traces, heartbeats, schedules and migrations, applied to
    concrete instances: a worker that is shut down while a job runs, a traced job that is
    claimed twice, a claim kept by its heartbeats and one lost to a stalled Redis, two
    hundred schedules on the thirtieth of February, a database migrated up and down. *)

From S2P Require Import Prelude GoBase Encoding Job Redis Queue QueueInv Ratelimit Db Partitions Storage Tenants Schedules Stats.
From S2P Require Import World Webhook Telemetry Worker Scheduler Api Process WorkerLife StorageFacts Lifecycle Claims Heartbeat.
From S2P Require Import TelemetryFacts Integrity Scenario CronFacts ScheduleFacts Samples Migrations MigrationFacts.

Open Scope Z_scope.

Module Lives.
#[local] Existing Instances HexUuid.hex_uuid_text Samples.utc_session.
Import SampleInput Scenario Samples.

(** ** A worker with two loops *)
Fixpoint acts (delta : Z) (l : life) (es : list action) : option life :=
  match es with [] => Some l | a :: es' => l' ← act delta a l; acts delta l' es' end.

Lemma acts_steps delta es : ∀ l l', acts delta l es = Some l' → rtc (life_step delta) l l'.
Proof.
  induction es as [|a es IH]; intros l l' He; cbn in He; [injection He as <-; apply rtc_refl|].
  apply bind_Some in He as (l1&Ha&He). eapply rtc_l; [by exists a|by apply IH].
Qed.

Definition two_loops : Options := mkOptions 2 false.
Definition item9 : Item := mkItem 9%N "queue:5:7".

(** The first loop executes a job when [Shutdown] is called and ends polling. *)
Definition to_drain : list action :=
  [ABegin; ALoaded; AMarked; ALoop 0 EvCheck; ALoop 0 (EvPopped item9); ALoop 0 EvClaimed; AShutdown (30 * Second); AWatch].

Definition draining : life := default (New two_loops 0) (acts 0 (New two_loops 0) to_drain).

Lemma draining_lives : lives 0 two_loops draining.
Proof. exists 0. apply (acts_steps 0 to_drain). vm_compute; reflexivity. Qed.



(** ** A traced job *)
Definition nibble (c : ascii) : option Z :=
  let n := Z.of_N (N_of_ascii c) in
  if (48 <=? n) && (n <? 58) then Some (n - 48) else if (97 <=? n) && (n <? 103) then Some (n - 87) else None.

Fixpoint unhex (l : list ascii) : option bytes :=
  match l with
  | a :: b :: l' => x ← nibble a; y ← nibble b; r ← unhex l'; Some (16 * x + y :: r)
  | _ => Some []
  end.

(** The format of the W3C: version, trace, span, flags. *)
#[local] Instance w3c : TraceContext := {|
  traceparent_text sc := "00-" +:+ hex_encode (sc_TraceID sc) +:+ "-" +:+ hex_encode (sc_SpanID sc) +:+ "-01";
  traceparent_parse s :=
    let l := String.list_ascii_of_string s in
    t ← unhex (take 32 (drop 3 l)); p ← unhex (take 16 (drop 36 l)); Some (mkSpan t p true);
|}.

Lemma nibble_digit d : 0 <= d < 16 → nibble (hex_digit d) = Some d.
Proof.
  intros Hd. assert (forallb (λ d, bool_decide (nibble (hex_digit d) = Some d)) (seqZ 0 16) = true) as Hall by (vm_compute; reflexivity).
  rewrite forallb_forall in Hall. specialize (Hall d). rewrite bool_decide_eq_true in Hall.
  apply Hall, list_elem_of_In, elem_of_seqZ. lia.
Qed.

Definition hex_chars (b : bytes) : list ascii := b ≫= λ x, [hex_digit (x / 16); hex_digit (x mod 16)].

Lemma unhex_hex b : Forall (λ x, 0 <= x < 256) b → unhex (hex_chars b) = Some b.
Proof.
  induction 1 as [|x b Hx Hb IH]; [done|]. unfold hex_chars in *. cbn [mbind list_bind app unhex].
  rewrite !nibble_digit by (try apply Z.mod_pos_bound; lia || (split; [apply Z.div_pos|apply Z.div_lt_upper_bound]; lia)).
  cbn [mbind option_bind]. rewrite IH. cbn. f_equal. f_equal. pose proof (Z.div_mod x 16). lia.
Qed.

Lemma length_hex_chars b : length (hex_chars b) = (2 * length b)%nat.
Proof. unfold hex_chars. induction b as [|x b IH]; [done|]. cbn in *. rewrite IH. lia. Qed.

Lemma chars_app s1 s2 : String.list_ascii_of_string (s1 +:+ s2) = String.list_ascii_of_string s1 ++ String.list_ascii_of_string s2.
Proof. induction s1 as [|c s1 IH]; [done|]. exact (f_equal (cons c) IH). Qed.

#[local] Instance w3c_laws : TraceContextLaws.
Proof.
  split; [|done]. intros [t p r] (Ht&Hp&Hb) _. cbn [sc_TraceID sc_SpanID] in *. apply Forall_app in Hb as [Hbt Hbp].
  cbn [traceparent_parse traceparent_text w3c sc_TraceID sc_SpanID].
  rewrite !chars_app. unfold hex_encode. rewrite !String.list_ascii_of_string_of_list_ascii. fold (hex_chars t) (hex_chars p).
  assert (length (hex_chars t) = 32%nat) as Hlt by (rewrite length_hex_chars; lia).
  assert (length (hex_chars p) = 16%nat) as Hlp by (rewrite length_hex_chars; lia).
  change (drop 3 (String.list_ascii_of_string "00-" ++ ?x)) with x.
  rewrite take_app_length' by done. rewrite (unhex_hex t Hbt). cbn [mbind option_bind].
  change (drop 36 (String.list_ascii_of_string "00-" ++ ?x)) with (drop 33 x).
  rewrite drop_app_ge by lia. rewrite Hlt. change (33 - 32)%nat with 1%nat. change (drop 1 (String.list_ascii_of_string "-" ++ ?x)) with x.
  rewrite take_app_length' by done. by rewrite (unhex_hex p Hbp).
Qed.

Definition otel_on : otel := fst (Init true true "sluice-worker" "collector:4318" otel_default).
Definition request_span : SpanContext := mkSpan (replicate 16 171) (replicate 8 205) false.
Definition request_ctx : context := WithValue [] SpanKey (CtxSpan request_span).

Definition traced_job : Job := set_trace (submit_trace otel_on request_ctx) job1.
Definition traced : sys := with_db sys_init (fst (InsertJob NoFault traced_job db_empty)).
Definition traced_claimed : sys :=
  mkSys (fst (TryClaim LostReply ∅ 2000000 1%N "w1" 201%N (30 * Second) 101%N (s_db traced)))
    (note_claim LostReply 1%N 201%N (claim_stmt ∅ 2000000 1%N "w1" 201%N (30 * Second) 101%N (s_db traced)) (s_claims traced))
    (s_replays traced).
Definition traced_reaped : sys :=
  with_db traced_claimed (fst (RequeueStaleJob NoFault (31 * Second) (31 * Second) 1%N (s_db traced_claimed))).
Definition second_claim : result storage_error (db * option (Job * uuid)) :=
  claim_stmt ∅ (32 * Second) 1%N "w2" 202%N (62 * Second) 102%N (s_db traced_reaped).

Lemma traced_steps : rtc (step_with 1%N) traced traced_reaped.
Proof.
  apply (rtc_l _ _ traced_claimed); [|apply rtc_once].
  - split; [apply st_claim; split; apply not_elem_of_nil|vm_compute; eauto].
  - split; [apply st_requeue|vm_compute; eauto].
Qed.

Lemma trace_continues_witness :
  match second_claim with
  | Ok (_, Some (jc, _)) =>
      sc_TraceID (SpanFromContext (execution_context otel_on (replicate 16 1) (replicate 8 2) [] jc)) = replicate 16 171
  | _ => False
  end.
Proof.
  destruct second_claim as [[d' [[jc run]|]]|e] eqn:Hc; [|exfalso; revert Hc; vm_compute; discriminate..].
  apply (trace_continues otel_on otel_on request_ctx [] (replicate 16 1) (replicate 8 2) sys_init traced_reaped traced_job
           (s_db traced) ∅ (32 * Second) "w2" 202%N (62 * Second) 102%N d' jc run).
  - split; [reflexivity|]. eexists. reflexivity.
  - split; [reflexivity|]. eexists. reflexivity.
  - split; [reflexivity|]. split; [reflexivity|]. repeat constructor; vm_compute; discriminate || reflexivity.
  - reflexivity.
  - apply rtc_refl.
  - split; [left; reflexivity|]. split; [reflexivity|]. vm_compute. split; discriminate.
  - split; apply not_elem_of_nil.
  - reflexivity.
  - vm_compute. reflexivity.
  - exact traced_steps.
  - exact Hc.
Defined.

(** ** Heartbeats *)
Definition held_job : Job := sample_job 6%N StateRunning 0 (Some 66) (Some (pg_ts (now0 + HeartbeatTTL))) None.
Definition held : db := mkDb {[6%N := held_job]} [mkRun 16%N 6%N 7%N 0 now0 None StateRunning None None] ∅.

(** Two beats, the second lost, with a reap before each and one at the end. *)
Definition beat1 : beat := mkBeat (100 * Millisecond) (100 * Millisecond) (100 * Millisecond) true.
Definition beat2 : beat := mkBeat (100 * Millisecond) (100 * Millisecond) (100 * Millisecond) false.
Definition tick1 : Z := now0 + heartbeatInterval.
Definition stopped : Z := start_after now0 tick1 [beat1; beat2].
Definition reap_at (t : Z) : row_event := Reap NoFault t t.

Definition beats_and_reaps : list row_event :=
  [reap_at tick1; Extend (tick1 + 100 * Millisecond); reap_at (tick1 + heartbeatInterval); reap_at (stopped + 3 * Second)].

Lemma healthy_claim_kept_witness :
  ∃ j', jobs (run_events 6%N 66%N beats_and_reaps held) !! 6%N = Some j' ∧ owns 66%N j' = true.
Proof.
  apply (healthy_claim_kept 6%N 66%N 0 Second now0 now0 [beat1; beat2] beats_and_reaps stopped held held_job).
  - lia.
  - vm_compute. discriminate.
  - vm_compute. discriminate.
  - lia.
  - repeat constructor; vm_compute; discriminate.
  - reflexivity.
  - reflexivity.
  - reflexivity.
  - reflexivity.
  - vm_compute. discriminate.
  - apply tl_reap; [vm_compute; discriminate|].
    apply (tl_beat _ _ _ beat1 [beat2] [reap_at (tick1 + heartbeatInterval); reap_at (stopped + 3 * Second)]).
    apply tl_reap; [vm_compute; discriminate|]. apply (tl_beat _ _ _ beat2 [] [reap_at (stopped + 3 * Second)]).
    apply tl_reap_last; [vm_compute; discriminate|constructor].
Defined.

Lemma redis_stall_loses_claim_witness :
  ∃ server_now j', jobs (run_events 6%N 66%N [Reap NoFault now0 server_now; Extend (tick1 + 11 * Second)] held) !! 6%N = Some j'
    ∧ owns 66%N j' = false ∧ Attempt j' = 1 ∧ State_ j' = StatePending.
Proof.
  destruct (redis_stall_loses_claim 6%N 66%N now0 now0 (11 * Second) (now0 + Hour) held held_job now0)
    as (sn&j'&_&Hj&Ho&Ha&Hs).
  - lia.
  - vm_compute. reflexivity.
  - reflexivity.
  - reflexivity.
  - reflexivity.
  - vm_compute. split; discriminate.
  - apply check_runs. vm_compute. reflexivity.
  - exists sn, j'. split; [exact Hj|]. split; [exact Ho|]. split; [exact Ha|exact Hs].
Defined.

(** ** The thirtieth of February *)
Definition feb30 : string := "0 0 30 2 *".

#[local] Instance feb_cron : CronLib := {|
  cron_ok := λ _, true; cron_error := λ _, EmptyString; location_ok := λ _, true;
  cron_Next := λ c _ now, if String.eqb c feb30 then zero_time else now + Minute;
|}.

Definition bad_ids : list uuid := (λ i, N.of_nat i + 100)%N <$> seq 0 200.
Definition bad_schedule (id : uuid) : Schedule :=
  mkSchedule id 8%N (uuid_String id) feb30 "UTC" "{}" true None (pg_ts zero_time).
Definition due_schedule : Schedule := mkSchedule 7%N 7%N "nightly" "0 0 * * *" "UTC" "{}" true None (99 * Hour).
Definition crowd : schedules := <[7%N := due_schedule]> (list_to_map ((λ id, (id, bad_schedule id)) <$> bad_ids)).
Definition crowd_world : world := mkWorld stock tenants7 crowd SampleQueue.two_jobs ∅ ∅.

Lemma impossible_crons_starve_witness :
  sc_NextRunAt due_schedule <= now0
  ∧ w_schedules (snd (fst (runCronExpander 3 (calm now0) (0%nat, crowd_world)))) !! 7%N = Some due_schedule.
Proof.
  split; [vm_compute; discriminate|].
  apply (impossible_crons_starve (calm now0) bad_ids 7%N due_schedule 3 0 crowd_world).
  - intros n w. reflexivity.
  - apply NoDup_fmap_2_strong; [intros x y _ _ Hxy; lia|apply NoDup_seq].
  - vm_compute. discriminate.
  - intros n. vm_compute. discriminate.
  - intros id s Hs. apply N.eqb_eq. apply (check_map (λ k s, (sc_ID s =? k)%N) crowd); [vm_compute; reflexivity|exact Hs].
  - intros id Hin.
    assert (forallb (λ id, match crowd !! id with
                           | Some s => sc_Enabled s && (sc_NextRunAt s =? pg_ts zero_time) && String.eqb (sc_Cron s) feb30
                           | None => false end) bad_ids = true) as Hall by (vm_compute; reflexivity).
    rewrite forallb_forall in Hall. specialize (Hall id (proj1 (list_elem_of_In _ _) Hin)).
    change (w_schedules crowd_world) with crowd. destruct (crowd !! id) as [s|]; [|discriminate Hall].
    apply andb_true_iff in Hall as [[He Hn]%andb_true_iff Hc]. exists s. split; [reflexivity|]. split; [exact He|].
    split; [by apply Z.eqb_eq|]. intros now. cbn. by rewrite Hc.
  - reflexivity.
  - vm_compute. reflexivity.
Defined.

(** ** Migrations *)
Definition draw0 (id : uuid) : bytes := replicate 32 7.

(** Tenant 7 in the columns of version 6, and in those of the last version. *)
Definition row_v6 : trow := mkTrow 7%N "acme" 50 "active" (Some "sk_old") (Some 100) None None None.
Definition row_v13 : trow := mkTrow 7%N "acme" 50 "active" None (Some 100) (Some "digest") (Some "whsec_AQID") (Some 0).

Definition at_v6 : data := mkData ∅ ∅ ∅ [] None {[7%N := row_v6]}.
Definition at_v13 : data :=
  mkData (jobs (s_db reclaimed)) ∅ ∅ (job_runs (s_db reclaimed)) (Some (seeds, true)) {[7%N := row_v13]}.

Lemma one_row_typed c r : m_id r = 7%N → table_flags c = Some (row_flags r) → rows_typed c {[7%N := r]}.
Proof. intros Hid Hf id q [<- <-]%lookup_singleton_Some. done. Qed.

Lemma reach_v6 : reach 6 (catalog_at 6, at_v6).
Proof.
  assert (is_Some (data_ups draw0 0 6 data_empty)) as [d Hd] by (eexists; reflexivity).
  apply (reach_use 6 (catalog_at 6) d).
  - change 6%nat with (0 + 6)%nat. apply (reach_ups draw0 0 6 (catalog_empty, data_empty)); [apply reach_empty|unfold latest; lia|].
    apply ups_split; [vm_compute; reflexivity|exact Hd].
  - apply one_row_typed; [reflexivity|]. apply (table_flags_at 6); [unfold latest; lia|left].
Qed.

Lemma reach_v13 : reach latest (catalog_at latest, at_v13).
Proof.
  apply (reach_use latest (catalog_at latest) (fresh_data draw0)).
  - apply (reach_ups draw0 0 latest (catalog_empty, data_empty)); [apply reach_empty|unfold latest; lia|apply fresh_ups].
  - apply one_row_typed; [reflexivity|]. apply (table_flags_at latest); [lia|left].
Qed.

Lemma reach_typed_witness :
  forallb (typed (catalog_at latest)) statements = true ∧ forallb (typed (catalog_at 6)) statements = false
  ∧ is_Some (code_tenants at_v13 !! 7%N).
Proof.
  destruct (reach_typed latest (catalog_at latest) at_v13 reach_v13) as (_&Hst&Hrow).
  destruct (reach_typed 6 (catalog_at 6) at_v6 reach_v6) as (_&Hst6&_). split; [by apply Hst|]. split.
  - destruct (forallb (typed (catalog_at 6)) statements); [|reflexivity]. discriminate (proj1 Hst6 eq_refl).
  - apply Hrow; [reflexivity|]. exists row_v13. reflexivity.
Defined.


Lemma tenant_7_valid : ∀ id, is_Some (d_tenants at_v13 !! id) → uuid_valid id.
Proof. intros id. change (d_tenants at_v13) with ({[7%N := row_v13]} : gmap uuid trow). intros [r [<- _]%lookup_singleton_Some]. reflexivity. Qed.

Lemma at_v13_refer : runs_refer at_v13.
Proof.
  split.
  - intros r Hr. assert (forallb (λ r, bool_decide (is_Some (d_jobs at_v13 !! rr_job_id r))) (d_runs at_v13) = true) as Hall
      by (vm_compute; reflexivity).
    rewrite forallb_forall in Hall. apply list_elem_of_In, Hall in Hr. by apply bool_decide_eq_true in Hr.
  - apply (bool_decide_unpack _). vm_compute. exact I.
Qed.

Lemma rollback_guessable_witness :
  ∃ m6 m' tn, downs latest 7 (catalog_at latest, at_v13) = Some m6 ∧ ups draw0 6 7 m6 = Some m'
    ∧ GetTenantByAPIKey NoFault "reissue-00000000-0000-0000-0000-000000000007" (code_tenants (snd m')) = Ok tn
    ∧ tn_ID tn = 7%N.
Proof.
  destruct (downs_succeed latest 7 (catalog_at latest, at_v13) reach_v13) as [[c6 d6] Hd].
  - unfold latest. lia.
  - exact at_v13_refer.
  - exact tenant_7_valid.
  - destruct (ups_succeed draw0 (c6, d6)) as [[c' d'] Hu].
    + apply (reach_downs latest 7 _ _ reach_v13); [unfold latest; lia|exact Hd].
    + cbn [snd]. rewrite (downs_tenants 13 7 _ _ _ _ ltac:(lia) Hd). unfold at_v13. cbn [d_tenants].
      rewrite map_fmap_singleton. eexists. apply hash_keys_singleton. apply downgraded_row. discriminate.
    + destruct (rollback_guessable draw0 _ _ _ _ _ _ 7%N row_v13 reach_v13 Hd Hu) as (tn&Hg&Hid).
      * reflexivity.
      * discriminate.
      * reflexivity.
      * exists (c6, d6), (c', d'), tn. split; [exact Hd|]. split; [exact Hu|]. split; [exact Hg|exact Hid].
Defined.

Lemma rollback_succeeds_witness : is_Some (downs latest 13 (catalog_at latest, at_v13)).
Proof.
  apply (rollback_succeeds reclaimed (catalog_at latest) at_v13 13).
  - exact reclaimed_reachable.
  - reflexivity.
  - reflexivity.
  - exact reach_v13.
  - exact tenant_7_valid.
  - unfold latest. lia.
Defined.
End Lives.
