(* ===== verification/Crashes.v ===== *)
(** * The aftermath of crashes

    The theorems of [Recovery] and [Completion] applied to a store as crashes leave it:
    a job popped by a worker that died before it claimed it, one whose promotion never
    reached Redis, one in the middle of an attempt, one in the middle of its last attempt,
    and two whose time has come. *)

From S2P Require Import Prelude GoBase Encoding Job Redis Queue QueueInv Db Partitions Storage Tenants Schedules World Webhook Worker.
From S2P Require Import Scheduler Process StorageFacts SchedulerFacts Scenario WorkerFacts WorkerDrain Recovery Completion Samples Runs.

Open Scope Z_scope.

Module Crashes.
#[local] Existing Instances HexUuid.hex_uuid_text Samples.utc_session Samples.sample_http Samples.sample_cron.
Import SampleInput Scenario Samples Runs.

Definition wreck : db := mkDb
  (list_to_map [(1%N, sample_job 1%N StatePending 0 None None None);
                (2%N, sample_job 2%N StateScheduled 0 None None None);
                (3%N, sample_job 3%N StateFailed 1 None None None);
                (4%N, sample_job 4%N StatePending 1 None None None);
                (5%N, sample_job 5%N StateSucceeded 0 None None (Some Hour));
                (6%N, sample_job 6%N StateRunning 0 (Some 66) (Some (99 * Hour)) None);
                (8%N, sample_job 8%N StateRunning 2 (Some 88) (Some (99 * Hour)) None);
                (9%N, sample_job 9%N StatePending 0 None None None)])
  [mkRun 15%N 5%N 7%N 0 Hour (Some Hour) StateSucceeded None (Some 0);
   mkRun 16%N 6%N 7%N 0 (98 * Hour) None StateRunning None None;
   mkRun 18%N 8%N 7%N 2 (98 * Hour) None StateRunning None None] ∅.

(** Job 1 is in the processing list of a dead worker, job 9 in a lane, job 4 nowhere. *)
Definition remains : redis :=
  fst (Enqueue NoFault 0 7%N 9%N 5 (fst (pop_once NoFault 0 "w9" [7%N] (fst (Enqueue NoFault 0 7%N 1%N 5 ∅))))).

Definition wreckage : world := mkWorld wreck tenants7 ∅ remains ∅ ∅.

Lemma remains_queue now : 0 <= now → queue_inv now remains.
Proof.
  intros Hn. apply (queue_inv_tick 0); [done|]. apply (queue_inv_reachable (0, remains)).
  eapply rtc_l; [apply (qs_enqueue 0 ∅ NoFault 7%N 1%N 5)|].
  eapply rtc_l; [apply (qs_pop 0 _ NoFault "w9" [7%N])|]. apply rtc_once. apply (qs_enqueue 0 _ NoFault 7%N 9%N 5).
Qed.

(** A check of every row of [wreck]. *)
Definition row_ok (k : uuid) (j : Job) : bool :=
  (ID j =? k)%N && (k <? 2 ^ 128)%N && negb (k =? 0)%N && (TenantID j =? 7)%N
  && (1 <=? Priority j) && (pg_ts (CreatedAt j) =? CreatedAt j)
  && (IsTerminal j || (0 <=? Attempt j) && (Attempt j <=? MaxRetries j) && (MaxRetries j <? 100) && (1 <=? BackoffSeconds j))
  && (negb (in_flight j) || stale now0 j).

Lemma wreck_row k j : jobs wreck !! k = Some j →
  ID j = k ∧ uuid_valid k ∧ k ≠ 0%N ∧ TenantID j = 7%N ∧ 1 <= Priority j ∧ pg_ts (CreatedAt j) = CreatedAt j
  ∧ (IsTerminal j = false → 0 <= Attempt j <= MaxRetries j ∧ MaxRetries j < 2 ^ 31 - 1 ∧ 1 <= BackoffSeconds j)
  ∧ (in_flight j = true → stale now0 j = true).
Proof.
  intros Hj. assert (row_ok k j = true) as Hr by (apply (check_map row_ok (jobs wreck)); [vm_compute; reflexivity|done]).
  unfold row_ok in Hr. rewrite !andb_true_iff, !orb_true_iff, !negb_true_iff, !andb_true_iff in Hr.
  rewrite !N.eqb_eq, N.eqb_neq, N.ltb_lt, !Z.leb_le, Z.eqb_eq, Z.ltb_lt in Hr.
  destruct Hr as [[[[[[[? ?] ?] ?] ?] ?] Ha] Hs]. do 6 (split; [done|]). split.
  - intros Ht. destruct Ha as [?|?]; [congruence|lia].
  - intros Hf. destruct Hs; [congruence|done].
Qed.

Lemma wreckage_good : good now0 wreckage.
Proof.
  split.
  - apply remains_queue. vm_compute. discriminate.
  - split; intros id j Hj; apply wreck_row in Hj; tauto.
  - intros id j Hj. apply wreck_row in Hj as (->&?&_). done.
  - intros id j Hj. apply wreck_row in Hj. by apply Hj.
  - intros r j Hr _ _ _. cbn in Hr.
    assert (∀ r, r ∈ job_runs wreck → bool_decide (is_Some (duration_ms (pg_ts now0) (rr_started_at r))) = true) as Hall.
    { intros r' Hr'. apply list_elem_of_In in Hr'. revert r' Hr'. apply forallb_forall. vm_compute. reflexivity. }
    exact (bool_decide_eq_true_1 _ (Hall r Hr)).
Qed.

(** A check of every key of [remains]: the entries of lanes belong to tenant 7. *)
Definition key_ok (k : string) (e : rentry) : bool :=
  negb (String.prefix "queue:" k) || String.eqb k wakeKey
  || bool_decide (k ∈ queue_keys [7%N]) && match r_val e with RList l => forallb entry_ok l | _ => true end.

Lemma keys_check (r : redis) k v :
  forallb (λ kv, key_ok (fst kv) (snd kv)) (map_to_list r) = true → lane_key k → v ∈ qlist r k →
  k ∈ queue_keys [7%N] ∧ ∃ id, v = uuid_String id ∧ uuid_valid id ∧ id ≠ 0%N.
Proof.
  rewrite forallb_forall. intros Hall [Hp Hw] Hv. unfold qlist in Hv. destruct (r !! k) as [e|] eqn:He; [|by apply not_elem_of_nil in Hv].
  apply elem_of_map_to_list, list_elem_of_In, Hall in He. unfold key_ok in He. cbn [fst snd] in He.
  unfold has_prefix in Hp. rewrite Hp in He. cbn in He.
  destruct (String.eqb_spec k wakeKey); [done|]. cbn in He. apply andb_true_iff in He as [Hk He]. apply bool_decide_eq_true in Hk.
  split; [done|]. destruct e as [[s|l|h] exp]; cbn in He, Hv; try (by apply not_elem_of_nil in Hv).
  rewrite forallb_forall in He. apply list_elem_of_In, He in Hv. unfold entry_ok in Hv.
  destruct (uuid_Parse v) as [id|]; [|done]. rewrite !andb_true_iff, String.eqb_eq, !N.ltb_lt in Hv. destruct Hv as [[? ?] ?].
  exists id. split; [done|]. split; [done|]. lia.
Qed.

Lemma remains_checked : forallb (λ kv, key_ok (fst kv) (snd kv)) (map_to_list remains) = true.
Proof. vm_compute. reflexivity. Qed.

Lemma wreckage_placed : placed (owner_in wreck) wreckage.
Proof.
  split.
  - intros id j Hj. pose proof (wreck_row id j Hj) as (?&?&?&_). do 3 (split; [done|]).
    unfold owner_in. change (jobs wreck !! id = Some j) in Hj. by rewrite Hj.
  - apply (remains_queue now0). vm_compute. discriminate.
  - intros k v Hk Hv. destruct (keys_check remains k v remains_checked Hk Hv) as [Hk7 (id&?&?&?)]. exists id. do 3 (split; [done|]).
    intros t Ho. unfold owner_in in Ho. destruct (jobs wreck !! id) as [j|] eqn:Hj; [|done].
    apply wreck_row in Hj as (_&_&_&Ht&_). cbn in Ho. congruence.
Qed.

Lemma wreckage_cap : (length (unfinished wreck) <= 5000)%nat.
Proof. assert (length (unfinished wreck) = 7%nat) as -> by (vm_compute; reflexivity). lia. Qed.

(** The four loops, the reconciler first and the due poll twice. *)
Definition ticked : list loop_fn := [PendingReconciler; DuePoll; DeadWorkerRecovery; StaleReaper; DuePoll].

Lemma ticked_only : Forall (λ l, l ∈ recovery_loops) ticked.
Proof. repeat constructor; set_solver. Qed.

Lemma ticked_all l : l ∈ recovery_loops → l ∈ ticked.
Proof. unfold recovery_loops, ticked. set_solver. Qed.

(** The stretches of the cycles: two hours apart, each with identifiers of its own. *)
Definition stretch (k n : nat) : turn :=
  alone NoFault (now0 + Z.of_nat k * (2 * Hour)) (1000 + N.of_nat n)%N (2000 + 2 ^ N.of_nat k * (2 * N.of_nat n + 1))%N.

Lemma stretch_quiet k : quiet (stretch k) (now0 + Z.of_nat k * (2 * Hour)).
Proof. by split. Qed.

Lemma stretch_scans k n : Forall processing_scan (t_scans (stretch k n)).
Proof. constructor. Qed.

(** A power of two times an odd number is one in one way only. *)
Lemma stretch_ids k k' n m : (k < k')%nat → t_uuid' (stretch k n) ≠ t_uuid' (stretch k' m).
Proof.
  intros Hk. cbn. intros He. assert (2 ^ N.of_nat k * (2 * N.of_nat n + 1) = 2 ^ N.of_nat k' * (2 * N.of_nat m + 1))%N as Hp by lia.
  replace (N.of_nat k') with (N.of_nat k + (N.of_nat (k' - k - 1) + 1))%N in Hp by lia.
  rewrite !N.pow_add_r in Hp. rewrite <- !N.mul_assoc in Hp. apply N.mul_cancel_l in Hp; [|apply N.pow_nonzero; lia].
  change (2 ^ 1)%N with 2%N in Hp. lia.
Qed.

Lemma stretch_runs k n m : (n < m)%nat → t_uuid' (stretch k n) ≠ t_uuid' (stretch k m).
Proof. cbn. intros Hn He. assert (2 ^ N.of_nat k ≠ 0)%N by (apply N.pow_nonzero; lia). nia. Qed.

Lemma wreck_runs k : unused_runs (stretch k) wreck.
Proof.
  intros r m Hr. assert (rr_id r < 100)%N; [|cbn; lia].
  assert (∀ r, r ∈ job_runs wreck → (rr_id r <? 100)%N = true) as Hall.
  { intros r' Hr'. apply list_elem_of_In in Hr'. revert r' Hr'. apply forallb_forall. vm_compute. reflexivity. }
  by apply N.ltb_lt, Hall.
Qed.

(** The jobs of [wreck] that are owed an execution: all but job 5, which is done. *)
Lemma wreck_owed : owed now0 (sample_job 6%N StateRunning 0 (Some 66) (Some (99 * Hour)) None).
Proof. exists StaleReaper. split; [set_solver|vm_compute; reflexivity]. Qed.


End Crashes.
