(* ===== verification/Screens.v ===== *)
(** * Concrete dashboard sessions

    A page whose connection breaks and comes back before the page is left; a tab without
    storage; a tab whose first call meets an outage of the database; and a job's row. The
    installation is that of [Samples], with the router of [Runs]. *)

From S2P Require Import Prelude GoBase Encoding Job Redis Queue Ratelimit Db Partitions Storage Tenants Schedules Stats World.
From S2P Require Import Scheduler Api Admin Server Lifecycle Claims Scenario Dashboard DashboardFacts Samples Runs.

Open Scope Z_scope.

Module Screens.
#[local] Existing Instances HexUuid.hex_uuid_text Samples.sample_cron Samples.sample_lua Runs.sample_bodies Runs.sample_chi.
Import SampleInput Scenario Samples Runs.

(** ** The socket opens, delivers, breaks, is opened again; the page is left *)
Definition entered : Live.hook nat := Live.mounted.
Definition opened : Live.hook nat := Live.onopen (Live.set_sockets (<[0%nat := Live.OPEN]> (Live.sockets entered)) entered).
Definition fed : Live.hook nat := Live.onmessage (Some 3%nat) opened.
Definition broken : Live.hook nat := Live.onclose (Live.set_sockets (delete 0%nat (Live.sockets fed)) fed).
Definition again : Live.hook nat :=
  Live.ws_connect (Live.mkHook (Live.data broken) (Live.connected broken) (Live.stopped broken) (Live.retry broken)
    (Live.ws_current broken) (Live.timers broken ∖ {[0%nat]}) (Live.sockets broken) (Live.created broken) (Live.armed broken)).
Definition left_page : Live.hook nat := Live.live_cleanup again.

Lemma left_page_reached : rtc Live.live_step Live.mounted left_page.
Proof.
  apply (rtc_l _ _ opened); [apply Live.ls_open; reflexivity|].
  apply (rtc_l _ _ fed); [apply (Live.ls_message _ 0%nat); reflexivity|].
  apply (rtc_l _ _ broken); [apply (Live.ls_close _ 0%nat Live.OPEN); reflexivity|].
  apply (rtc_l _ _ again); [apply Live.ls_timer; cbn; set_solver|].
  apply rtc_once. apply Live.ls_unmount. reflexivity.
Qed.

Lemma live_single_connection_witness :
  Live.data left_page = Some 3%nat ∧ Live.created left_page = 2%nat ∧ Live.stopped left_page = true
  ∧ Live.timers left_page = ∅ ∧ Live.sockets left_page !! 1%nat = Some Live.CLOSING.
Proof.
  split; [vm_compute; reflexivity|]. split; [vm_compute; reflexivity|]. split; [vm_compute; reflexivity|].
  split; [|vm_compute; reflexivity].
  destruct (live_single_connection left_page left_page_reached) as (_&_&Hs).
  destruct Hs as [Ht _]; [vm_compute; reflexivity|exact Ht].
Defined.

(** ** A tab without storage *)
Lemma blocked_storage_locks_out_witness :
  ∃ t2, apiFetch true None "GET" "/v1/stats" no_query (onSignedIn "sk_old" (mkTab None None true)) ∅ (calm now0) (0%nat, world0)
        = ((1%nat, world0), (t2, ∅, Err (HttpError 401))) ∧ AuthGate t2 = SignInForm.
Proof.
  destruct (blocked_storage_locks_out true None "GET" "/v1/stats" no_query "stats" "sk_old" (mkTab None None true) ∅
              (calm now0) 0%nat world0) as [_ (t2&Ht&Hg)].
  - reflexivity.
  - reflexivity.
  - discriminate.
  - reflexivity.
  - reflexivity.
  - vm_compute. reflexivity.
  - exists t2. split; [exact Ht|exact Hg].
Defined.

(** ** The request reaches the API, the lookup of its key does not reach Postgres *)
Definition outage : oracle := λ n, alone (if decide (n = 1%nat) then LostRequest else NoFault) now0 1000%N 2000%N.
Definition signed_in : tab := mkTab (Some (Some "sk_old"%string)) (Some "sk_old"%string) true.

Lemma outage_signs_out_witness :
  AuthGate signed_in = Children "sk_old"
  ∧ ∃ s' t2 c', apiFetch true None "GET" "/v1/stats" no_query signed_in ∅ outage (0%nat, world0)
        = (s', (t2, c', Err (HttpError 401))) ∧ AuthGate (mount t2) = SignInForm.
Proof.
  split; [reflexivity|].
  destruct (outage_signs_out true None "GET" "/v1/stats" no_query "stats" "sk_old" (tr_tenant tenant7) signed_in ∅ outage
              0%nat world0) as (s'&t2&c'&Hf&_&_&Hm).
  - reflexivity.
  - reflexivity.
  - reflexivity.
  - discriminate.
  - vm_compute. reflexivity.
  - apply lookup_empty.
  - reflexivity.
  - vm_compute. reflexivity.
  - reflexivity.
  - discriminate.
  - exists s', t2, c'. split; [exact Hf|exact Hm].
Defined.

End Screens.
